(* ===== verification/_CoqProject ===== *)
-Q . S2P
Prelude.v
GoLib.v
Strconv.v
Json.v
JsonAccept.v
Reflect.v
SshWire.v
SshSession.v
ShellProxy.v
FileSys.v
GoPath.v
FsLogic.v
Pod.v
Bus.v
Metrics.v
FirewallStatus.v
SshKeys.v
SshServer.v
Sshd.v
HostKey.v
AbsPath.v
FsExec.v
Properties.v
PropertiesSync.v
Boot.v
Containers.v
Crun.v
ExecSession.v
Messages.v
CrunConfig.v
Provision.v
ExecPump.v
ExecDaemon.v
GuestPlane.v
Vsock.v
Mounts.v
Words.v
Procps.v
ProcFormat.v
NetIP.v
Nft.v
Firewall.v
Base64.v
WireGuard.v
CubeFS.v
SlogNats.v
Agent.v
Stubs.v
System.v
DropMetrics.v
PodSpec.v
Interleave.v
Footprint.v
Concurrent.v
Watching.v
