(* ===== verification/Prelude.v ===== *)
(** * weft-microvm-agent, verified

    The agent is the long-lived process inside an openweft micro-VM
    (src/cmd/weft-microvm-agent).  Its main function, run, connects to a NATS
    bus and starts one subscriber per concern; each receives whole-state
    messages for this VM, validates them and applies them.  It also serves an
    embedded SSH server, pumps exec sessions over the bus, keeps a control
    stream to the host over vsock, provisions the VM on first boot, and exposes
    metrics and a process table.

    This file holds what the others share: Go errors and results, panics,
    machine integers, bytes and strings, tactics, and the invariant rule for
    step relations.

    ** Ground

    - GoLib: the standard-library functions the code uses (strings, strconv,
      path/filepath, UTF-8 decoding), executable.  Strconv: printing and parsing
      of integers, with their round trips and ranges.
    - Json, JsonAccept, Reflect: encoding/json.  Json has the scanner with its
      syntax errors and depth limit, the unquoting and quoting of strings and the
      two layouts of the encoder; the scanner carries fuel of twice the length
      of the text and one, and is proved never to exhaust it.  JsonAccept: what the
      scanner accepts has UTF-8 strings and can be written back.  Reflect decodes a
      document into a value of a Go type and encodes one (field tags, omitempty,
      case folding, null, repeated keys, integer widths, pointers, slices and
      maps); decoding keeps the type and inverts encoding.
    - Messages: the structs of src/ that travel as JSON, each as a Go type
      with its tags, and the classes [Message] and [MessageLaws].  Shown, for all
      of them at once: round trips, and that whatever payload is accepted is well
      typed.
    - FileSys: package os on a tree of files.  Every system call consumes an
      entry of a fault schedule and every intermediate file system is recorded,
      so theorems can speak of a crash at any instant.  GoPath and AbsPath are
      the lemmas on path strings; FsLogic gives triples that hold under every
      schedule of faults, with the write-temporary-then-rename pattern proved
      atomic once; FsExec describes fault-free runs exactly.
    - Words: how strings.Fields reads lines of words and labelled values.  NetIP: net/netip and
      net.ParseCIDR.  Base64: encoding/base64, with its round trip.
    - Nft: nftables expressions, packets and what the kernel documents of
      executing the one on the other (classes [NftVM] and [Nftables] with their
      laws, and an instance of each); a type system for registers.  A transaction
      is committed whole or not at all; an error may be reported although it was
      committed.
    - Pod: the records and Validate methods of the vendored pod package
      (src/vendor/github.com/openweft/weft-microvm-init/pkg/pod; below, the
      vendored packages are those of that module).  PodSpec: the rest of that
      package, the specification a VM is started from, the loaders of the
      configuration files and the completion of a container from its image; a saved
      specification is loaded back exactly if it is well-formed.
    - Interleave, Footprint: computations of FileSys cut at their system calls
      ([prog], derived for a computation by the class [Code]) and run as threads
      in the order of an arbitrary schedule; a thread alone is the computation.
      Threads whose footprints are disjoint run as if alone; the footprint of
      a computation on a directory tree.

    ** Components

    - SshWire, SshSession, ShellProxy (src/pkg/sshd/server.go): the payload
      parsers with their slice bounds and 32-bit arithmetic; the request loop of
      a session as a function of the request sequence; the three goroutines of a
      running shell as a step relation, with writes that wait for the window of
      the channel and the room of the PTY.  Shown: round trips, exactly which
      payloads panic, at most one process per session, exact replies, what the
      client can receive, when the session ends and when it does not.
    - SshKeys (src/pkg/sshkeys, src/pkg/sshd/authstore.go,
      cmd/.../sshkeys_linux.go): only pushed keys are authorised and all of them
      are; authorized_keys is replaced atomically; the accepted keys are those
      of the last well-formed message.  Key parsing and SHA-256 are parameters.
    - SshServer (src/pkg/sshd/server.go: Serve, handleConn): accept loop,
      authentication and channels concurrent with key pushes; an established
      connection belongs to a key of a set that was current after it was
      accepted.  Sshd runs it together with the request loops of all sessions:
      who can run what over SSH, and what one panic takes down.
    - HostKey (src/pkg/sshd/hostkey.go): the host key is created once and stays.
    - Bus (src/pkg/mesh, mounts, firewall and the Subject functions): the common
      handler, the class [ReplaceSet] that says what "state is pushed whole"
      means for an applier, subjects, JetStream fall-back.
    - Mounts (Registry of the vendored cubefs package, applyBootMounts): against
      the class [Mounter], no live mount is ever lost track of; what the stream
      replays after a restart.
    - CubeFS (Mount, Unmount and their helpers of the vendored cubefs package,
      LoadShareMounts): the engine behind [Mounter], on the class [Host] of
      processes, mount table and clock.  No client process is lost; the polling
      loop ends (fuel: one poll per 200 ms of the timeout, and two); reading
      /proc/mounts agrees with the mount table for plain names.
    - Firewall (ApplyFirewall and ReadFirewallStatus of the vendored network
      package, called by cmd/.../firewall_linux.go): rules compile to well-typed
      expressions that accept exactly the packets they permit (on a little-endian
      kernel, IPv4-mapped prefixes excepted); the ruleset is replaced all or
      nothing; the status counts the drops.
    - WireGuard (ApplyWireGuard of the vendored network package, called by
      cmd/.../mesh_linux.go): everything is checked before anything is touched,
      the interface is brought up from exactly what was published, and the staged
      private key does not stay on disk unless the call that removes it fails.
    - Metrics (src/internal/metrics), FirewallStatus (src/pkg/firewallstatus):
      the drop accumulator never over-counts; every tick is counted.
    - Properties, PropertiesSync (src/pkg/properties,
      cmd/.../properties_linux.go): keys other than those naming the root
      cannot escape the tree, at any instant and under any faults; the tree
      converges to the pushed set when keys and tree are compatible.  Recursion
      over the tree carries fuel one above the depth of the tree;
      PropertiesSync proves that it is never exhausted.
    - Boot (src/pkg/boot, cmd/.../boot.go, watchAndRunBoot): effects of a run,
      provisioning once, termination of the watcher.
    - Containers, Crun (src/pkg/containers): the class [Runtime] with its laws,
      reconciliation proved against it, the stub runtime as an instance; the
      crun runtime, its confinement and its line scanner.  CrunConfig: the
      config.json crun is given for a container of a published set.
    - ExecSession, ExecPump (src/pkg/execsession): the session registry under
      every interleaving of callbacks, goroutines and stop; the command of a
      request; the frames handed to the bus, which may drop any; Run as a step
      relation.  ExecDaemon runs the registry and all the pumps together, on JSON
      requests; once stopped, the steps of the goroutines and the exits of the
      children they kill are finitely many and end every session.
    - GuestPlane (src/pkg/guestplane, newGuestplaneDispatcher): the session
      goroutines, the reconnect loop, and the dispatcher composed with the
      container reconciler and the exec subscriber.
    - Vsock (vendored pkg/transport, cmd/.../kernel_linux.go): the dial loop of
      the GuestPodPlane client leaks no descriptor and never returns neither a
      connection nor an error; what the Hello frame announces.
    - Procps (src/pkg/procps, src/pkg/introspectsrv): the process table as the
      code computes it from /proc, with executable binary64 arithmetic.
      ProcFormat: the texts of proc(5) and the table they show, stated
      independently, and that the code returns that table.
    - SlogNats (src/vendor/github.com/openweft/weft-slognats): which log records
      reach stderr and which the bus; panics of the main goroutine are reported.
    - Agent (main, run and the start functions of main.go): the flags, what is
      subscribed, that shutdown closes and unmounts it, and what a failed start
      leaves behind.
    - Stubs (the *_other.go files): a build for another system refuses every
      message.
    - Provision: a boot request from the JSON payload on the properties subject
      through the property files and the watcher to the run.
    - System: the five subscribers with their real appliers on one machine.  A
      history of messages acts on each component as the messages of its own
      subject do.
    - Concurrent: the four callbacks that write files (authorized_keys, the
      property tree, the staged WireGuard key, the files of a share mount) in every
      interleaving of their system calls: each does what it does alone.  The number
      of turns a callback needs is that of its run alone.
    - Watching: the boot watcher's read of the property tree in every
      interleaving with a push; it never sees part of a value.
    - DropMetrics: the drop counters from the packet through the nftables rule,
      the status reader and the emitter to Prometheus and, as JSON, to the host;
      true while reads succeed, and what one failed read does to them.

    ** Conventions

    A fallible Go function returns [result] or, for a bare error, [gerr]
    ([None] is nil).  Code that can panic returns [panics].  Concurrent code is a
    step relation, and its theorems quantify over every reachable state, or a set
    of threads under every schedule; a function the mutex makes atomic is one
    step.  Cryptography, gRPC, NATS,
    external commands and the user database are arguments of the definitions.
    The handlers of Bus, Mounts, Containers and ExecSession take the decoder as
    an argument too, and hold for any; the compositions (Firewall, GuestPlane,
    ExecDaemon, Provision, System) use the decoder of Messages.  A theorem with hypotheses is followed by a
    witness that applies it at concrete values.  Several theorems describe
    behaviour that differs from the code's comments; they are stated as the code
    behaves.

    ** Not modelled

    JSON: floating-point and interface values, and the text of decoder errors
    beyond their kind (no message of src/ has the one, no code reads the other);
    the JSON rendering of log records.  Symbolic links, permissions and ownership of files; the SSH handshake itself;
    the parsing of the command line and the rendering of the metrics page (cobra
    and Prometheus); the gRPC and NATS client libraries; the WireGuard library
    and netlink below the class [WgKernel]; what unmounting one share does to the
    client of another on the same mount point; two Sends on a gRPC stream at once
    (GuestPlane shows that they happen).  In System the callbacks of different
    subscriptions run one after the other; what they share is the file system,
    where Concurrent interleaves them (for places none of which lies in another,
    below directories that exist), the metrics, whose methods are atomic, and
    the log. *)

From stdpp Require Export base gmap sets list strings sorting relations.
From Stdlib Require Export ZArith Lia Ascii.
From Stdlib Require Strings.String.

(** ** Notations and scopes *)

Declare Scope go_scope.
Delimit Scope go_scope with go.

(** ** Errors

    A Go [error] is kept as the format string and the arguments the code
    passes to [fmt.Errorf] / [errors.New]; [Sentinel] stands for the exported
    error values of the standard library ([net.ErrClosed], [io.EOF], ...) and
    for the kernel's errno values. *)

Inductive error : Type :=
| Sentinel (name : string)
| Errorf (fmt : string) (args : list earg)
with earg : Type :=
| EStr (s : string)
| EInt (z : Z)
| EErr (e : error).

Coercion EStr : string >-> earg.
Coercion EInt : Z >-> earg.
Coercion EErr : error >-> earg.

Definition errors_New (msg : string) : error := Errorf msg [].

(** [errors.Is]: the chain of [%w]-wrapped errors, the outermost first. *)
Fixpoint errors_Is (e : error) (target : string) : bool :=
  match e with
  | Sentinel n => bool_decide (n = target)
  | Errorf _ args =>
      (fix any (l : list earg) : bool :=
         match l with
         | [] => false
         | EErr e' :: l' => errors_Is e' target || any l'
         | _ :: l' => any l'
         end) args
  end.

(** ** Results

    [result A] is Go's [(A, error)] with the convention that a non-nil error
    makes the value irrelevant; [gerr] is a bare [error] result, [None] for
    nil. *)

Inductive result (A : Type) : Type :=
| Ok (a : A)
| Err (e : error).
Arguments Ok {A} a.
Arguments Err {A} e.

#[export] Instance Ok_inj {A} : Inj (=) (=) (@Ok A).
Proof. by intros x y [= ->]. Qed.

Definition gerr : Type := option error.

Definition is_Ok {A} (r : result A) : bool :=
  match r with Ok _ => true | Err _ => false end.

Definition result_bind {A B} (r : result A) (f : A -> result B) : result B :=
  match r with Ok a => f a | Err e => Err e end.

Notation "x <-? c ; k" := (result_bind c (fun x => k))
  (at level 20, c at level 100, k at level 200) : go_scope.

(** A computation that may stop the process with a run-time panic. *)
Inductive panics (A : Type) : Type :=
| Value (a : A)
| Panic.
Arguments Value {A} a.
Arguments Panic {A}.

Definition panics_bind {A B} (r : panics A) (f : A -> panics B) : panics B :=
  match r with Value a => f a | Panic => Panic end.

Notation "x <-! c ; k" := (panics_bind c (fun x => k))
  (at level 20, c at level 100, k at level 200) : go_scope.
Notation "' p <-! c ; k" := (panics_bind c (fun x => match x with p => k end))
  (at level 20, p pattern, c at level 100, k at level 200) : go_scope.

(** ** Machine integers *)

Definition u8 (z : Z) : Z := (z mod 2 ^ 8)%Z.
Definition u16 (z : Z) : Z := (z mod 2 ^ 16)%Z.
Definition u32 (z : Z) : Z := (z mod 2 ^ 32)%Z.
Definition u64 (z : Z) : Z := (z mod 2 ^ 64)%Z.
Definition i32 (z : Z) : Z := ((z + 2 ^ 31) mod 2 ^ 32 - 2 ^ 31)%Z.
Definition i64 (z : Z) : Z := ((z + 2 ^ 63) mod 2 ^ 64 - 2 ^ 63)%Z.

Lemma u16_range z : (0 <= u16 z < 2 ^ 16)%Z.
Proof. apply Z.mod_pos_bound. lia. Qed.

Lemma u32_range z : (0 <= u32 z < 2 ^ 32)%Z.
Proof. apply Z.mod_pos_bound. lia. Qed.

Lemma u64_range z : (0 <= u64 z < 2 ^ 64)%Z.
Proof. apply Z.mod_pos_bound. lia. Qed.

Lemma u16_small z : (0 <= z < 2 ^ 16)%Z -> u16 z = z.
Proof. apply Z.mod_small. Qed.

Lemma u32_small z : (0 <= z < 2 ^ 32)%Z -> u32 z = z.
Proof. apply Z.mod_small. Qed.

Lemma u64_small z : (0 <= z < 2 ^ 64)%Z -> u64 z = z.
Proof. apply Z.mod_small. Qed.

Lemma i32_small z : (- 2 ^ 31 <= z < 2 ^ 31)%Z -> i32 z = z.
Proof. unfold i32. intros. rewrite Z.mod_small; lia. Qed.

(** A shifted word and the bits below it add up. *)
Lemma lor_shiftl_add a b n : (0 <= n)%Z -> (0 <= b < 2 ^ n)%Z ->
  Z.lor (Z.shiftl a n) b = (a * 2 ^ n + b)%Z.
Proof.
  intros Hn Hb. rewrite <- Z.add_lor_land, Z.shiftl_mul_pow2 by lia.
  enough (Z.land (a * 2 ^ n) b = 0)%Z by lia.
  rewrite <- Z.shiftl_mul_pow2 by lia. apply Z.bits_inj'. intros i Hi.
  rewrite Z.land_spec, Z.bits_0, Z.shiftl_spec by lia.
  destruct (Z.lt_ge_cases i n); [by rewrite Z.testbit_neg_r by lia|].
  assert (Z.testbit b i = false) as ->; [|apply andb_false_r].
  apply Z.testbit_false; [lia|]. rewrite Z.div_small; [done|]. split; [lia|].
  apply Z.lt_le_trans with (2 ^ n)%Z; [lia|]. apply Z.pow_le_mono_r; lia.
Qed.

(** ** Bytes

    A Go [byte] is an [ascii]; [string] is the type of Go strings and
    [list ascii] the type of byte slices. *)

Abbreviation bytes := (list ascii).

Definition byte_val (a : ascii) : Z := Z.of_N (N_of_ascii a).
Definition byte_of (z : Z) : ascii := ascii_of_N (Z.to_N (u8 z)).

Definition chars : string -> bytes := Stdlib.Strings.String.list_ascii_of_string.
Definition str : bytes -> string := Stdlib.Strings.String.string_of_list_ascii.

Lemma str_chars s : str (chars s) = s.
Proof. apply Stdlib.Strings.String.string_of_list_ascii_of_string. Qed.

Lemma chars_str b : chars (str b) = b.
Proof. apply Stdlib.Strings.String.list_ascii_of_string_of_list_ascii. Qed.

Lemma chars_app s t : chars (s +:+ t) = chars s ++ chars t.
Proof. induction s as [|c s IH]; simpl; [done|]. unfold chars in *. simpl. by rewrite IH. Qed.

Lemma str_app a b : str (a ++ b) = str a +:+ str b.
Proof. induction a as [|c a IH]; simpl; [done|]. unfold str in *. simpl. by rewrite IH. Qed.

#[export] Instance chars_inj : Inj (=) (=) chars.
Proof. intros s t H. by rewrite <- (str_chars s), <- (str_chars t), H. Qed.

#[export] Instance str_inj : Inj (=) (=) str.
Proof. intros s t H. by rewrite <- (chars_str s), <- (chars_str t), H. Qed.

Lemma byte_val_range a : (0 <= byte_val a < 256)%Z.
Proof. unfold byte_val. pose proof (N_ascii_bounded a). lia. Qed.

Lemma byte_val_of z : byte_val (byte_of z) = u8 z.
Proof.
  unfold byte_val, byte_of. pose proof (Z.mod_pos_bound z (2 ^ 8) eq_refl) as H.
  fold (u8 z) in H. rewrite N_ascii_embedding by lia. lia.
Qed.

Lemma byte_of_val a : byte_of (byte_val a) = a.
Proof.
  unfold byte_val, byte_of, u8. pose proof (N_ascii_bounded a).
  rewrite Z.mod_small by lia. rewrite N2Z.id. apply ascii_N_embedding.
Qed.

#[export] Instance byte_val_inj : Inj (=) (=) byte_val.
Proof. intros a b H. by rewrite <- (byte_of_val a), <- (byte_of_val b), H. Qed.

(** ** Automation *)

Create HintDb agent discriminated.

#[export] Hint Resolve u16_range u32_range u64_range byte_val_range : agent.
#[export] Hint Rewrite str_chars chars_str chars_app str_app byte_val_of byte_of_val : agent.

(** Split every conjunction in the context and the goal, then try [done]. *)
Ltac split_all := repeat match goal with
  | H : _ /\ _ |- _ => destruct H
  | H : exists _, _ |- _ => destruct H
  | |- _ /\ _ => split
  end.

(** Case analysis on every [match] / [if] scrutinee, keeping the equations. *)
Ltac case_all := repeat (case_match; simplify_eq/=).

(** Boolean tests of the code as propositions. *)
Ltac to_prop := repeat match goal with
  | H : bool_decide _ = true |- _ => apply bool_decide_eq_true in H
  | H : bool_decide _ = false |- _ => apply bool_decide_eq_false in H
  | H : _ && _ = true |- _ => apply andb_true_iff in H; destruct H
  | H : _ || _ = false |- _ => apply orb_false_iff in H; destruct H
  | H : negb _ = true |- _ => apply negb_true_iff in H
  | H : negb _ = false |- _ => apply negb_false_iff in H
  | H : (_ <? _)%Z = true |- _ => apply Z.ltb_lt in H
  | H : (_ <? _)%Z = false |- _ => apply Z.ltb_ge in H
  | H : (_ <=? _)%Z = true |- _ => apply Z.leb_le in H
  | H : (_ <=? _)%Z = false |- _ => apply Z.leb_gt in H
  | H : (_ =? _)%Z = true |- _ => apply Z.eqb_eq in H
  | H : (_ =? _)%Z = false |- _ => apply Z.eqb_neq in H
  end.

(** ** Reachability *)

Section invariants.
Context {S : Type} (step : S -> S -> Prop).

(** An inductive invariant holds in every reachable state. *)
Lemma rtc_invariant (I : S -> Prop) (s t : S) :
  (forall a b, I a -> step a b -> I b) -> I s -> rtc step s t -> I t.
Proof. intros Hstep HI Hr. induction Hr; eauto. Qed.
End invariants.
