(* ===== verification/GoLib.v ===== *)
(** * The parts of Go's standard library the agent relies on

    [strings] (Fields, TrimSpace, TrimRight, Split, Join, HasPrefix,
    Contains, IndexByte, ...), [unicode/utf8] and [unicode.IsSpace],
    [strconv] (Atoi, ParseInt, ParseUint, Itoa) and [path/filepath] (Clean,
    Join, Dir, Ext), as executable functions on byte lists with [string]
    wrappers, and the lemmas about them the components share.  Everything is
    byte-exact, invalid UTF-8 included. *)

From stdpp Require Export pretty.
From S2P Require Import Prelude.

Local Open Scope Z_scope.

(** ** UTF-8 *)

(** [utf8.DecodeRune]: the rune and its width; [(0xFFFD, 1)] on an invalid
    sequence, [(0xFFFD, 0)] on the empty one. *)
Definition RuneError : Z := 65533.

Definition cont (lo hi : Z) (a : ascii) : bool :=
  (lo <=? byte_val a) && (byte_val a <=? hi).

Definition DecodeRune (b : bytes) : Z * nat :=
  match b with
  | [] => (RuneError, 0%nat)
  | a :: t =>
      let x := byte_val a in
      let bad := (RuneError, 1%nat) in
      let two (lo hi : Z) :=
        match t with
        | b1 :: _ => if cont lo hi b1
                     then (Z.lor (Z.shiftl (Z.land x 31) 6) (Z.land (byte_val b1) 63), 2%nat)
                     else bad
        | _ => bad
        end in
      let three (lo hi : Z) :=
        match t with
        | b1 :: b2 :: _ =>
            if cont lo hi b1 && cont 128 191 b2
            then (Z.lor (Z.lor (Z.shiftl (Z.land x 15) 12)
                               (Z.shiftl (Z.land (byte_val b1) 63) 6))
                        (Z.land (byte_val b2) 63), 3%nat)
            else bad
        | _ => bad
        end in
      let four (lo hi : Z) :=
        match t with
        | b1 :: b2 :: b3 :: _ =>
            if cont lo hi b1 && cont 128 191 b2 && cont 128 191 b3
            then (Z.lor (Z.lor (Z.lor (Z.shiftl (Z.land x 7) 18)
                                      (Z.shiftl (Z.land (byte_val b1) 63) 12))
                               (Z.shiftl (Z.land (byte_val b2) 63) 6))
                        (Z.land (byte_val b3) 63), 4%nat)
            else bad
        | _ => bad
        end in
      if x <? 128 then (x, 1%nat)
      else if x <? 194 then bad
      else if x <? 224 then two 128 191
      else if x =? 224 then three 160 191
      else if x =? 237 then three 128 159
      else if x <? 240 then three 128 191
      else if x =? 240 then four 144 191
      else if x <? 244 then four 128 191
      else if x =? 244 then four 128 143
      else bad
  end.

(** The forward decoding of a byte string: runes with the bytes they came
    from.  [skip] counts the bytes of the current rune still to pass over. *)
Fixpoint runes_go (skip : nat) (b : bytes) : list (Z * bytes) :=
  match b with
  | [] => []
  | _ :: t =>
      match skip with
      | S k => runes_go k t
      | O => let '(r, w) := DecodeRune b in (r, take w b) :: runes_go (pred w) t
      end
  end.

Definition runes (b : bytes) : list (Z * bytes) := runes_go 0 b.

(** [unicode.IsSpace]. *)
Definition IsSpace (r : Z) : bool :=
  ((9 <=? r) && (r <=? 13)) || (r =? 32) || (r =? 133) || (r =? 160)
  || (r =? 5760) || ((8192 <=? r) && (r <=? 8202)) || (r =? 8232)
  || (r =? 8233) || (r =? 8239) || (r =? 8287) || (r =? 12288).

(** ** [strings] *)

Fixpoint fields_go (cur : option bytes) (rs : list (Z * bytes)) : list bytes :=
  match rs with
  | [] => option_list cur
  | (r, ch) :: rs' =>
      if IsSpace r then option_list cur ++ fields_go None rs'
      else fields_go (Some (default [] cur ++ ch)) rs'
  end.

Definition Fields (s : string) : list string :=
  str <$> fields_go None (runes (chars s)).

Fixpoint drop_while {A} (p : A -> bool) (l : list A) : list A :=
  match l with
  | [] => []
  | x :: l' => if p x then drop_while p l' else l
  end.

Definition drop_while_end {A} (p : A -> bool) (l : list A) : list A :=
  reverse (drop_while p (reverse l)).

Definition space_chunk (c : Z * bytes) : bool := IsSpace c.1.

Definition TrimSpace (s : string) : string :=
  str (mjoin (snd <$> drop_while_end space_chunk
                        (drop_while space_chunk (runes (chars s))))).

(** [strings.TrimRight(s, cutset)] for a one-byte cutset. *)
Definition TrimRight (s : string) (c : ascii) : string :=
  str (drop_while_end (fun x => bool_decide (x = c)) (chars s)).

(** [strings.Split(s, sep)] for a one-byte separator: never empty. *)
Fixpoint split_go (c : ascii) (cur : bytes) (b : bytes) : list bytes :=
  match b with
  | [] => [cur]
  | x :: t => if decide (x = c) then cur :: split_go c [] t
              else split_go c (cur ++ [x]) t
  end.

Definition Split (s : string) (c : ascii) : list string :=
  str <$> split_go c [] (chars s).

Definition split (c : ascii) (b : bytes) : list bytes := split_go c [] b.

Fixpoint join_bytes (sep : bytes) (l : list bytes) : bytes :=
  match l with
  | [] => []
  | [x] => x
  | x :: l' => x ++ sep ++ join_bytes sep l'
  end.

(** [strings.Join]. *)
Definition SJoin (l : list string) (sep : string) : string :=
  str (join_bytes (chars sep) (chars <$> l)).

Definition has_prefix (p b : bytes) : bool := bool_decide (take (length p) b = p).

Definition HasPrefix (s p : string) : bool := has_prefix (chars p) (chars s).

Definition CutPrefix (s p : string) : option string :=
  if HasPrefix s p then Some (str (drop (length (chars p)) (chars s))) else None.

Definition TrimPrefix (s p : string) : string := default s (CutPrefix s p).

Fixpoint contains (p b : bytes) : bool :=
  has_prefix p b || match b with [] => false | _ :: t => contains p t end.

Definition Contains (s p : string) : bool := contains (chars p) (chars s).

Fixpoint index_byte (c : ascii) (b : bytes) : option nat :=
  match b with
  | [] => None
  | x :: t => if decide (x = c) then Some 0%nat else S <$> index_byte c t
  end.

Fixpoint last_index_byte (c : ascii) (b : bytes) : option nat :=
  match b with
  | [] => None
  | x :: t => match last_index_byte c t with
              | Some i => Some (S i)
              | None => if decide (x = c) then Some 0%nat else None
              end
  end.

(** [strings.NewReplacer] with one-byte patterns, all replaced by [to]. *)
Definition replace_bytes (from : list ascii) (to : ascii) (s : string) : string :=
  str ((fun c => if bool_decide (c ∈ from) then to else c) <$> chars s).

(** ** [strconv] *)

Inductive num_error := ErrSyntax | ErrRange.

Definition digit (a : ascii) : option Z :=
  let v := byte_val a in if (48 <=? v) && (v <=? 57) then Some (v - 48) else None.

Definition maxUint64 : Z := 2 ^ 64 - 1.

(** The accumulation loop of [strconv.ParseUint] in base 10. *)
Fixpoint parse_uint_go (maxVal n : Z) (b : bytes) : Z * option num_error :=
  match b with
  | [] => (n, None)
  | a :: t =>
      match digit a with
      | None => (0, Some ErrSyntax)
      | Some d =>
          if maxUint64 / 10 + 1 <=? n then (maxVal, Some ErrRange)
          else let n1 := u64 (n * 10 + d) in
               if (n1 <? n * 10) || (maxVal <? n1) then (maxVal, Some ErrRange)
               else parse_uint_go maxVal n1 t
      end
  end.

Definition ParseUint (s : string) (bits : Z) : Z * option num_error :=
  match chars s with
  | [] => (0, Some ErrSyntax)
  | b => parse_uint_go (2 ^ bits - 1) 0 b
  end.

Definition ParseInt (s : string) (bits : Z) : Z * option num_error :=
  match chars s with
  | [] => (0, Some ErrSyntax)
  | a :: t =>
      let '(neg, rest) :=
        if decide (a = "+"%char) then (false, t)
        else if decide (a = "-"%char) then (true, t) else (false, a :: t) in
      let '(un, e) := ParseUint (str rest) bits in
      match e with
      | Some ErrSyntax => (0, Some ErrSyntax)
      | _ =>
          let cutoff := 2 ^ (bits - 1) in
          if negb neg && (cutoff <=? un) then (cutoff - 1, Some ErrRange)
          else if neg && (cutoff <? un) then (- cutoff, Some ErrRange)
          else (if neg then - un else un, None)
      end
  end.

(** [strconv.Atoi] on a 64-bit platform. *)
Definition Atoi (s : string) : result Z :=
  match ParseInt s 64 with
  | (n, None) => Ok n
  | (_, Some ErrSyntax) => Err (Sentinel "strconv.ErrSyntax")
  | (_, Some ErrRange) => Err (Sentinel "strconv.ErrRange")
  end.

Definition Itoa (z : Z) : string := pretty z.

(** ** [path/filepath] (Unix)

    [Clean] works on the components of the path; [clean_step] is one round of
    its loop, on the output stack held in reverse. *)

Definition slash : ascii := "/"%char.

Definition clean_step (rooted : bool) (out : list bytes) (c : bytes) : list bytes :=
  if decide (c = [] \/ c = chars ".") then out
  else if decide (c = chars "..") then
    match out with
    | top :: out' =>
        if decide (top = chars "..") then c :: out else out'
    | [] => if rooted then [] else [c]
    end
  else c :: out.

Definition clean_comps (rooted : bool) (cs : list bytes) : list bytes :=
  reverse (foldl (clean_step rooted) [] cs).

Definition is_rooted (b : bytes) : bool := has_prefix [slash] b.

Definition clean (b : bytes) : bytes :=
  match b with
  | [] => chars "."
  | _ =>
      let r := is_rooted b in
      let body := join_bytes [slash] (clean_comps r (split slash b)) in
      if r then slash :: body
      else match body with [] => chars "." | _ => body end
  end.

Definition Clean (s : string) : string := str (clean (chars s)).

(** [filepath.Join(a, b)]: leading empty elements are dropped. *)
Definition Join (a b : string) : string :=
  if decide (a = "") then (if decide (b = "") then "" else Clean b)
  else Clean (a +:+ "/" +:+ b).

Definition Dir (s : string) : string :=
  str (clean (match last_index_byte slash (chars s) with
              | Some i => take (S i) (chars s)
              | None => []
              end)).

(** [filepath.Ext]: from the last dot of the last element on. *)
Definition Ext (s : string) : string :=
  let base := match last_index_byte slash (chars s) with
              | Some i => drop (S i) (chars s)
              | None => chars s
              end in
  match last_index_byte "."%char base with
  | Some i => str (drop i base)
  | None => ""
  end.
