(* ===== verification/Strconv.v ===== *)
(** * Printing and parsing integers (strconv)

    [Itoa] prints without leading zeros, and [ParseInt] and [ParseUint] read
    the printed number back at every width; what they accept is in the range
    of the width. *)

From S2P Require Import Prelude GoLib.

Local Open Scope Z_scope.

Lemma digit_pretty d : (d < 10)%N -> digit (pretty.pretty_N_char d) = Some (Z.of_N d).
Proof.
  intros Hd. assert (d = 0 \/ d = 1 \/ d = 2 \/ d = 3 \/ d = 4 \/ d = 5 \/ d = 6 \/ d = 7 \/ d = 8 \/ d = 9)%N as H by lia.
  by destruct_or! H; subst.
Qed.

(** The accumulation loop over printed digits: exact up to the maximum, and
    saturated with ErrRange above it. *)
Lemma parse_pretty x s :
  parse_uint_go maxUint64 0 (chars (pretty.pretty_N_go x s)) =
  if Z.of_N x <=? maxUint64 then parse_uint_go maxUint64 (Z.of_N x) (chars s) else (maxUint64, Some ErrRange).
Proof.
  revert s. induction (N.lt_wf_0 x) as [x _ IH]; intros s.
  destruct (decide (x = 0)%N) as [->|Hx]; [by rewrite pretty.pretty_N_go_0|].
  rewrite pretty.pretty_N_go_step by lia. rewrite IH by (apply N.div_lt; lia). cbn [chars].
  pose proof (N.div_mod x 10 ltac:(lia)) as Hdm. pose proof (N.mod_lt x 10 ltac:(lia)) as Hm.
  set (q := (x / 10)%N) in *. set (d := (x mod 10)%N) in *.
  change (chars (String _ s)) with (pretty.pretty_N_char d :: chars s). cbn [parse_uint_go].
  rewrite digit_pretty by done. unfold maxUint64, u64 in *.
  destruct (Z.of_N q <=? 2 ^ 64 - 1) eqn:Eq; to_prop.
  - change ((2 ^ 64 - 1) / 10 + 1) with 1844674407370955162.
    destruct (1844674407370955162 <=? Z.of_N q) eqn:Ec; to_prop.
    + rewrite (proj2 (Z.leb_gt _ _)) by lia. done.
    + destruct (Z.of_N x <=? 2 ^ 64 - 1) eqn:Ex; to_prop.
      * replace (Z.of_N q * 10 + Z.of_N d) with (Z.of_N x) by lia. rewrite Z.mod_small by lia.
        rewrite (proj2 (Z.ltb_ge _ _)) by lia. rewrite (proj2 (Z.ltb_ge _ _)) by lia. done.
      * replace (Z.of_N q * 10 + Z.of_N d) with (Z.of_N x - 2 ^ 64 + 1 * 2 ^ 64) by lia.
        rewrite Z.mod_add, Z.mod_small by lia. rewrite (proj2 (Z.ltb_lt _ _)) by lia. done.
  - rewrite (proj2 (Z.leb_gt _ _)) by lia. done.
Qed.

Lemma pretty_digits x s : exists u, chars (pretty.pretty_N_go x s) = u ++ chars s /\
  Forall (fun a => is_Some (digit a)) u /\ ((0 < x)%N -> u <> []).
Proof.
  revert s. induction (N.lt_wf_0 x) as [x _ IH]; intros s.
  destruct (decide (x = 0)%N) as [->|Hx]; [exists []; split_and!; [done|constructor|lia]|].
  rewrite pretty.pretty_N_go_step by lia.
  destruct (IH (x / 10)%N ltac:(apply N.div_lt; lia) (String (pretty.pretty_N_char (x mod 10)) s)) as (u & E & Hu & _).
  exists (u ++ [pretty.pretty_N_char (x mod 10)]). rewrite E, <- app_assoc. split_and!; [done| |by destruct u].
  apply Forall_app. split; [done|]. constructor; [|constructor].
  rewrite digit_pretty by (apply N.mod_lt; lia). eauto.
Qed.

Lemma Itoa_digits n : 0 <= n -> chars (Itoa n) <> [] /\ Forall (fun a => is_Some (digit a)) (chars (Itoa n)).
Proof.
  intros Hn. destruct n as [|p|p]; [|change (Itoa (Z.pos p)) with (pretty.pretty_N_go (N.pos p) "")|lia].
  - split; [done|]. repeat constructor. vm_compute. eauto.
  - destruct (pretty_digits (N.pos p) "") as (u & E & Hu & Hne). rewrite E, app_nil_r. split; [|done]. apply Hne. lia.
Qed.

(** The same loop with a smaller maximum. *)
Lemma parse_pretty_max maxVal x s : 0 <= maxVal <= maxUint64 -> Z.of_N x <= maxVal ->
  parse_uint_go maxVal 0 (chars (pretty.pretty_N_go x s)) = parse_uint_go maxVal (Z.of_N x) (chars s).
Proof.
  intros Hmax. revert s. induction (N.lt_wf_0 x) as [x _ IH]; intros s Hx.
  destruct (decide (x = 0)%N) as [->|Hne]; [by rewrite pretty.pretty_N_go_0|].
  pose proof (N.div_mod x 10 ltac:(lia)) as Hdm. pose proof (N.mod_lt x 10 ltac:(lia)) as Hm.
  rewrite pretty.pretty_N_go_step by lia. rewrite IH;
    [|apply N.div_lt; lia|etransitivity; [|exact Hx]; apply N2Z.inj_le, N.lt_le_incl, N.div_lt; lia].
  set (q := (x / 10)%N) in *. set (d := (x mod 10)%N) in *.
  change (chars (String _ s)) with (pretty.pretty_N_char d :: chars s). cbn [parse_uint_go].
  rewrite digit_pretty by done. unfold u64. change (maxUint64 / 10 + 1) with 1844674407370955162.
  unfold maxUint64 in Hmax. rewrite (proj2 (Z.leb_gt _ _)) by lia.
  replace (Z.of_N q * 10 + Z.of_N d) with (Z.of_N x) by lia. rewrite Z.mod_small by lia.
  rewrite (proj2 (Z.ltb_ge _ _)) by lia. rewrite (proj2 (Z.ltb_ge _ _)) by lia. done.
Qed.

(** ** The printed number *)

Lemma pretty_head x s : (0 < x)%N -> exists a u, chars (pretty.pretty_N_go x s) = a :: u ++ chars s /\
  (exists d, digit a = Some d /\ 1 <= d) /\ Forall (fun a => is_Some (digit a)) u.
Proof.
  revert s. induction (N.lt_wf_0 x) as [x _ IH]; intros s Hx. rewrite pretty.pretty_N_go_step by lia.
  pose proof (N.div_mod x 10 ltac:(lia)) as Hdm. pose proof (N.mod_lt x 10 ltac:(lia)) as Hm.
  set (q := (x / 10)%N) in *. set (d := (x mod 10)%N) in *. destruct (decide (q = 0)%N) as [->|Hq].
  - rewrite pretty.pretty_N_go_0. exists (pretty.pretty_N_char d), []. split_and!; [done| |done].
    exists (Z.of_N d). split; [by apply digit_pretty|lia].
  - destruct (IH q ltac:(lia) (String (pretty.pretty_N_char d) s) ltac:(lia)) as (a & u & E & Ha & Hu).
    exists a, (u ++ [pretty.pretty_N_char d]). rewrite E, <- app_assoc. split_and!; [done|done|].
    apply Forall_app. split; [done|]. constructor; [|done]. rewrite digit_pretty by done. eauto.
Qed.

Lemma Itoa_pos p : Itoa (Z.pos p) = pretty.pretty_N_go (N.pos p) "".
Proof. done. Qed.

Lemma Itoa_neg p : chars (Itoa (Z.neg p)) = "-"%char :: chars (Itoa (Z.pos p)).
Proof. done. Qed.

Lemma Itoa_head p : exists a u, chars (Itoa (Z.pos p)) = a :: u /\ (exists d, digit a = Some d /\ 1 <= d) /\
  Forall (fun a => is_Some (digit a)) u.
Proof.
  destruct (pretty_head (N.pos p) "" ltac:(lia)) as (a & u & E & H). exists a, u. rewrite Itoa_pos, E, app_nil_r. done.
Qed.

(** ** Reading it back *)

Lemma pow2_le_64 bits : bits <= 64 -> 2 ^ bits - 1 <= maxUint64.
Proof. intros Hb. unfold maxUint64. enough (2 ^ bits <= 2 ^ 64) by lia. apply Z.pow_le_mono_r; lia. Qed.

Lemma ParseUint_Itoa bits n : 0 <= bits <= 64 -> 0 <= n < 2 ^ bits -> ParseUint (Itoa n) bits = (n, None).
Proof.
  intros Hb Hn. destruct n as [|p|p]; [|destruct (Itoa_head p) as (a & u & E & _)|lia].
  - unfold ParseUint. change (chars (Itoa 0)) with ["0"%char]. cbn [parse_uint_go].
    change (digit "0") with (Some 0). change (maxUint64 / 10 + 1 <=? 0) with false. cbv iota zeta.
    change (u64 (0 * 10 + 0)) with 0. change ((0 <? 0 * 10) || (2 ^ bits - 1 <? 0)) with (2 ^ bits - 1 <? 0).
    by rewrite (proj2 (Z.ltb_ge (2 ^ bits - 1) 0)) by lia.
  - pose proof (parse_pretty_max (2 ^ bits - 1) (N.pos p) "" ltac:(split; [lia|apply pow2_le_64; lia]) ltac:(lia)) as H.
    rewrite <- Itoa_pos, E in H. unfold ParseUint. by rewrite E, H.
Qed.

Lemma ParseInt_Itoa bits n : 0 < bits <= 64 -> - 2 ^ (bits - 1) <= n < 2 ^ (bits - 1) ->
  ParseInt (Itoa n) bits = (n, None).
Proof.
  intros Hb Hn. assert (2 ^ bits = 2 * 2 ^ (bits - 1)) as Hp
    by (rewrite <- Z.pow_succ_r by lia; f_equal; lia).
  assert (0 < 2 ^ (bits - 1)) by (apply Z.pow_pos_nonneg; lia).
  assert (forall m, 0 <= m <= 2 ^ (bits - 1) -> ParseUint (str (chars (Itoa m))) bits = (m, None)) as Hu.
  { intros m Hm. rewrite str_chars. apply ParseUint_Itoa; lia. }
  unfold ParseInt. destruct n as [|p|p].
  - specialize (Hu 0 ltac:(lia)). change (chars (Itoa 0)) with ["0"%char] in *. cbv iota beta.
    rewrite !decide_False by done. rewrite Hu. cbv iota beta. cbn [negb andb]. by rewrite (proj2 (Z.leb_gt _ _)) by lia.
  - specialize (Hu (Z.pos p) ltac:(lia)). destruct (Itoa_head p) as (a & u & E & (d & Hd & _) & _). rewrite E in *.
    rewrite !decide_False by (intros ->; discriminate). rewrite Hu. cbn [negb andb].
    by rewrite (proj2 (Z.leb_gt _ _)) by lia.
  - specialize (Hu (Z.pos p) ltac:(lia)). rewrite Itoa_neg. destruct (Itoa_head p) as (a & u & E & _). rewrite E in *.
    rewrite decide_False, decide_True by done. rewrite Hu. cbn [negb andb].
    by rewrite (proj2 (Z.ltb_ge _ _)) by lia.
Qed.

(** ** What is accepted is in range *)

Lemma parse_uint_range maxVal b : forall n v, 0 <= n <= maxVal -> parse_uint_go maxVal n b = (v, None) -> 0 <= v <= maxVal.
Proof.
  induction b as [|a b IH]; intros n v Hn; simpl; [by intros [= <-]|]. destruct (digit a) as [d|]; [|done].
  case_match; [done|]. destruct (_ || _) eqn:E; [done|]. apply orb_false_iff in E as [_ E]. to_prop.
  apply IH. split; [|done]. apply u64_range.
Qed.

Lemma ParseUint_range s bits v : 0 <= bits -> ParseUint s bits = (v, None) -> 0 <= v < 2 ^ bits.
Proof.
  intros Hb. unfold ParseUint. destruct (chars s) as [|a b]; [done|]. intros H.
  assert (0 < 2 ^ bits) by (apply Z.pow_pos_nonneg; lia). apply parse_uint_range in H; lia.
Qed.

Lemma parse_uint_saturates maxVal b : forall n v, parse_uint_go maxVal n b = (v, Some ErrRange) -> v = maxVal.
Proof.
  induction b as [|a b IH]; intros n v; simpl; [done|]. destruct (digit a) as [d|]; [|done].
  case_match; [by intros [= <-]|]. case_match; [by intros [= <-]|]. apply IH.
Qed.

Lemma ParseInt_range s bits v : 0 < bits -> ParseInt s bits = (v, None) -> - 2 ^ (bits - 1) <= v < 2 ^ (bits - 1).
Proof.
  intros Hb. unfold ParseInt. destruct (chars s) as [|a b]; [done|].
  assert (0 < 2 ^ (bits - 1)) by (apply Z.pow_pos_nonneg; lia).
  assert (2 ^ bits = 2 * 2 ^ (bits - 1)) by (rewrite <- Z.pow_succ_r by lia; f_equal; lia).
  destruct (if decide (a = "+"%char) then _ else _) as [neg rest].
  destruct (ParseUint (str rest) bits) as [un e] eqn:E. 
  assert (e <> Some ErrSyntax -> 0 <= un) as Hun.
  { intros Hs. destruct e as [[]|]; [done| |by eapply ParseUint_range in E; [lia|lia]].
    unfold ParseUint in E. destruct (chars (str rest)); [done|]. apply parse_uint_saturates in E. lia. }
  destruct e as [[]|]; [done| |]; specialize (Hun ltac:(done)); destruct neg; cbn [negb andb]; case_match; try done;
    intros [= <-]; to_prop; lia.
Qed.
