(* ===== verification/Json.v ===== *)
(** * JSON text (encoding/json): the scanner and the printer

    [parse] accepts what encoding/json's scanner accepts (RFC 8259 texts,
    10000 open brackets at most) and builds the value the decoder sees: a
    number is kept as its literal, a string is unquoted (an escape pair of
    surrogates is one rune; invalid UTF-8 and lone surrogates become U+FFFD).
    [print] is what json.Marshal writes, HTML characters escaped, and
    json.MarshalIndent through [nl] and [sp].  The round trip is proved for
    both layouts, and [parse] never runs out of its fuel. *)

From S2P Require Import Prelude GoLib Strconv.

Local Open Scope Z_scope.
Local Open Scope go_scope.

Module Json.

Unset Elimination Schemes.
Inductive json : Type :=
| JNull
| JBool (b : bool)
| JNum (lit : bytes)
| JStr (s : bytes)
| JArr (l : list json)
| JObj (l : list (bytes * json)).
Set Elimination Schemes.

(** ** Syntax errors *)

Definition unexpectedEnd : error := errors_New "unexpected end of JSON input".
Definition invalidChar (c : ascii) (context : string) : error :=
  Errorf "invalid character %q %s" [EStr (str [c]); EStr context].
Definition outOfFuel : error := Sentinel "parser fuel".

Definition dquote : ascii := "034"%char.
Definition backslash : ascii := "\"%char.

(** [isSpace] of the scanner. *)
Definition ws (c : ascii) : bool := bool_decide (c ∈ [" "; "009"; "010"; "013"]%char).

Definition skip_ws (s : bytes) : bytes := drop_while ws s.

(** ** Runes *)

(** [utf8.AppendRune]. *)
Definition AppendRune (r : Z) : bytes :=
  let tail k := byte_of (Z.lor 128 (Z.land (Z.shiftr r k) 63)) in
  if (0 <=? r) && (r <? 128) then [byte_of r]
  else if (0 <=? r) && (r <? 2048) then [byte_of (Z.lor 192 (Z.shiftr r 6)); tail 0]
  else if (r <? 0) || (1114111 <? r) || ((55296 <=? r) && (r <=? 57343)) then [byte_of 239; byte_of 191; byte_of 189]
  else if r <? 65536 then [byte_of (Z.lor 224 (Z.shiftr r 12)); tail 6; tail 0]
  else [byte_of (Z.lor 240 (Z.shiftr r 18)); tail 12; tail 6; tail 0].

Definition replacement : bytes := AppendRune RuneError.

(** [utf16.IsSurrogate], [utf16.DecodeRune]. *)
Definition IsSurrogate (r : Z) : bool := (55296 <=? r) && (r <? 57344).
Definition DecodePair (r1 r2 : Z) : Z :=
  if (55296 <=? r1) && (r1 <? 56320) && (56320 <=? r2) && (r2 <? 57344)
  then Z.lor (Z.shiftl (r1 - 55296) 10) (r2 - 56320) + 65536 else RuneError.

(** ** Strings *)

Definition hexval (c : ascii) : option Z :=
  let v := byte_val c in
  if (48 <=? v) && (v <=? 57) then Some (v - 48)
  else if (97 <=? v) && (v <=? 102) then Some (v - 87)
  else if (65 <=? v) && (v <=? 70) then Some (v - 55) else None.

(** [getu4]: the four hexadecimal digits of an escape. *)
Definition hex4 (a b c d : ascii) : option Z :=
  a ← hexval a; b ← hexval b; c ← hexval c; d ← hexval d; Some (4096 * a + 256 * b + 16 * c + d).

(** What the scanner reports when the four digits are not there. *)
Fixpoint hexError (n : nat) (s : bytes) : error :=
  match s, n with
  | [], _ | _, O => unexpectedEnd
  | c :: t, S k => if hexval c is Some _ then hexError k t else invalidChar c "in \u hexadecimal character escape"
  end.

Definition escapes : list (ascii * ascii) :=
  [("b", "008"); ("f", "012"); ("n", "010"); ("r", "013"); ("t", "009"); ("\", "\"); ("/", "/"); ("034", "034")]%char.

Definition escape (c : ascii) : option ascii := (fun p => p.2.2) <$> list_find (fun p => p.1 = c) escapes.

Definition emit (b : bytes) (r : result (bytes * bytes)) : result (bytes * bytes) :=
  match r with Ok (s, rest) => Ok (b ++ s, rest) | Err e => Err e end.

(** The contents of a string literal up to the closing quote, unquoted, and
    the rest.  [skip] counts the bytes of the current rune still to copy. *)
Fixpoint unquote (skip : nat) (s : bytes) : result (bytes * bytes) :=
  match s with
  | [] => Err unexpectedEnd
  | c :: t =>
      match skip with
      | S k => emit [c] (unquote k t)
      | O =>
          if decide (c = dquote) then Ok ([], t)
          else if decide (c = backslash) then
            match t with
            | [] => Err unexpectedEnd
            | e :: t1 =>
                if decide (e = "u"%char) then
                  match t1 with
                  | a1 :: a2 :: a3 :: a4 :: t2 =>
                      match hex4 a1 a2 a3 a4 with
                      | None => Err (hexError 4 t1)
                      | Some r =>
                          if IsSurrogate r then
                            match t2 with
                            | b :: u :: b1 :: b2 :: b3 :: b4 :: t3 =>
                                if decide (b = backslash /\ u = "u"%char) then
                                  match hex4 b1 b2 b3 b4 with
                                  | Some r2 =>
                                      if DecodePair r r2 =? RuneError then emit replacement (unquote 0 t2)
                                      else emit (AppendRune (DecodePair r r2)) (unquote 0 t3)
                                  | None => emit replacement (unquote 0 t2)
                                  end
                                else emit replacement (unquote 0 t2)
                            | _ => emit replacement (unquote 0 t2)
                            end
                          else emit (AppendRune r) (unquote 0 t2)
                      end
                  | _ => Err (hexError 4 t1)
                  end
                else match escape e with
                     | Some b => emit [b] (unquote 0 t1)
                     | None => Err (invalidChar e "in string escape code")
                     end
            end
          else if byte_val c <? 32 then Err (invalidChar c "in string literal")
          else if byte_val c <? 128 then emit [c] (unquote 0 t)
          else match (DecodeRune s).2 with
               | S (S k) => emit [c] (unquote (S k) t)
               | _ => emit replacement (unquote 0 t)
               end
      end
  end.

(** ** Numbers and literals *)

Definition is_digit (c : ascii) : bool := if digit c is Some _ then true else false.

Fixpoint digits (s : bytes) : bytes * bytes :=
  match s with
  | c :: t => if is_digit c then let '(ds, r) := digits t in (c :: ds, r) else ([], s)
  | [] => ([], [])
  end.

(** One digit at least. *)
Definition digits1 (context : string) (acc s : bytes) (k : bytes -> bytes -> result (bytes * bytes))
    : result (bytes * bytes) :=
  match digits s with
  | ([], []) => Err unexpectedEnd
  | ([], c :: _) => Err (invalidChar c context)
  | (ds, r) => k (acc ++ ds) r
  end.

Definition exponent (acc s : bytes) : result (bytes * bytes) :=
  match s with
  | c :: t =>
      if decide (c = "e"%char \/ c = "E"%char) then
        match t with
        | sg :: t' =>
            if decide (sg = "+"%char \/ sg = "-"%char)
            then digits1 "in exponent of numeric literal" (acc ++ [c; sg]) t' (fun a r => Ok (a, r))
            else digits1 "in exponent of numeric literal" (acc ++ [c]) t (fun a r => Ok (a, r))
        | [] => Err unexpectedEnd
        end
      else Ok (acc, s)
  | [] => Ok (acc, s)
  end.

Definition fraction (acc s : bytes) : result (bytes * bytes) :=
  match s with
  | c :: t =>
      if decide (c = "."%char)
      then digits1 "after decimal point in numeric literal" (acc ++ [c]) t exponent
      else exponent acc s
  | [] => exponent acc s
  end.

Definition integer (acc s : bytes) : result (bytes * bytes) :=
  match s with
  | [] => Err unexpectedEnd
  | c :: t =>
      if decide (c = "0"%char) then fraction (acc ++ [c]) t
      else if is_digit c then let '(ds, r) := digits t in fraction (acc ++ c :: ds) r
      else Err (invalidChar c "in numeric literal")
  end.

(** The literal and the rest. *)
Definition number (s : bytes) : result (bytes * bytes) :=
  match s with
  | c :: t => if decide (c = "-"%char) then integer [c] t else integer [] s
  | [] => Err unexpectedEnd
  end.

(** The rest of [true], [false] or [null]. *)
Fixpoint literal (context : string) (l s : bytes) : result bytes :=
  match l, s with
  | [], _ => Ok s
  | _ :: _, [] => Err unexpectedEnd
  | x :: l', c :: t => if decide (x = c) then literal context l' t else Err (invalidChar c context)
  end.

(** ** Values *)

Definition maxNestingDepth : Z := 10000.

(** [pushParseState]. *)
Definition push {A} (c : ascii) (d : Z) (k : result A) : result A :=
  if maxNestingDepth <? d + 1 then Err (invalidChar c "exceeded max depth") else k.

(** [members] and [elements] begin at the first byte of a key or of an
    element of an object or array that is not empty. *)
Fixpoint value (fuel : nat) (d : Z) (s : bytes) : result (json * bytes) :=
  match fuel with
  | O => Err outOfFuel
  | S f =>
      match skip_ws s with
      | [] => Err unexpectedEnd
      | c :: t =>
          if decide (c = "{"%char) then
            push c d
              match skip_ws t with
              | [] => Err unexpectedEnd
              | c' :: t' =>
                  if decide (c' = "}"%char) then Ok (JObj [], t')
                  else p <-? members f (d + 1) (c' :: t') ; Ok (JObj p.1, p.2)
              end
          else if decide (c = "["%char) then
            push c d
              match skip_ws t with
              | [] => Err unexpectedEnd
              | c' :: t' =>
                  if decide (c' = "]"%char) then Ok (JArr [], t')
                  else p <-? elements f (d + 1) (c' :: t') ; Ok (JArr p.1, p.2)
              end
          else if decide (c = dquote) then p <-? unquote 0 t ; Ok (JStr p.1, p.2)
          else if decide (c = "-"%char) then p <-? number (c :: t) ; Ok (JNum p.1, p.2)
          else if is_digit c then p <-? number (c :: t) ; Ok (JNum p.1, p.2)
          else if decide (c = "t"%char) then r <-? literal "in literal true" (chars "rue") t ; Ok (JBool true, r)
          else if decide (c = "f"%char) then r <-? literal "in literal false" (chars "alse") t ; Ok (JBool false, r)
          else if decide (c = "n"%char) then r <-? literal "in literal null" (chars "ull") t ; Ok (JNull, r)
          else Err (invalidChar c "looking for beginning of value")
      end
  end
with members (fuel : nat) (d : Z) (s : bytes) : result (list (bytes * json) * bytes) :=
  match fuel with
  | O => Err outOfFuel
  | S f =>
      match s with
      | [] => Err unexpectedEnd
      | c :: t =>
          if negb (bool_decide (c = dquote)) then Err (invalidChar c "looking for beginning of object key string")
          else
            k <-? unquote 0 t ;
            match skip_ws k.2 with
            | [] => Err unexpectedEnd
            | c1 :: t1 =>
                if negb (bool_decide (c1 = ":"%char)) then Err (invalidChar c1 "after object key")
                else
                  v <-? value f d t1 ;
                  match skip_ws v.2 with
                  | [] => Err unexpectedEnd
                  | c2 :: t2 =>
                      if decide (c2 = "}"%char) then Ok ([(k.1, v.1)], t2)
                      else if decide (c2 = ","%char) then
                        p <-? members f d (skip_ws t2) ; Ok ((k.1, v.1) :: p.1, p.2)
                      else Err (invalidChar c2 "after object key:value pair")
                  end
            end
      end
  end
with elements (fuel : nat) (d : Z) (s : bytes) : result (list json * bytes) :=
  match fuel with
  | O => Err outOfFuel
  | S f =>
      v <-? value f d s ;
      match skip_ws v.2 with
      | [] => Err unexpectedEnd
      | c2 :: t2 =>
          if decide (c2 = "]"%char) then Ok ([v.1], t2)
          else if decide (c2 = ","%char) then p <-? elements f d (skip_ws t2) ; Ok (v.1 :: p.1, p.2)
          else Err (invalidChar c2 "after array element")
      end
  end.

(** [checkValid] and the value it found: one value and white space around it. *)
Definition parse (s : bytes) : result json :=
  p <-? value (S (2 * length s)) 0 s ;
  match skip_ws p.2 with
  | [] => Ok p.1
  | c :: _ => Err (invalidChar c "after top-level value")
  end.

(** ** Printing *)

Definition hexdigit (z : Z) : ascii := default "0"%char (chars "0123456789abcdef" !! Z.to_nat z).

(** [htmlSafeSet]. *)
Definition htmlSafe (c : ascii) : bool :=
  (32 <=? byte_val c) && (byte_val c <? 128) && negb (bool_decide (c ∈ ["034"; "\"; "<"; ">"; "&"]%char)).

Definition quote_char (c : ascii) : bytes :=
  if htmlSafe c then [c]
  else if decide (c = backslash \/ c = dquote) then [backslash; c]
  else if decide (c = "008"%char) then [backslash; "b"%char]
  else if decide (c = "012"%char) then [backslash; "f"%char]
  else if decide (c = "010"%char) then [backslash; "n"%char]
  else if decide (c = "013"%char) then [backslash; "r"%char]
  else if decide (c = "009"%char) then [backslash; "t"%char]
  else chars "\u00" ++ [hexdigit (Z.shiftr (byte_val c) 4); hexdigit (Z.land (byte_val c) 15)].

(** [appendString] between its quotes; [skip] counts the bytes of the current
    rune already written. *)
Fixpoint quote_go (skip : nat) (s : bytes) : bytes :=
  match s with
  | [] => []
  | c :: t =>
      match skip with
      | S k => quote_go k t
      | O =>
          if byte_val c <? 128 then quote_char c ++ quote_go 0 t
          else
            let '(r, w) := DecodeRune s in
            if (r =? RuneError) && (w =? 1)%nat then chars "\ufffd" ++ quote_go 0 t
            else if (r =? 8232) || (r =? 8233) then
              chars "\u202" ++ [hexdigit (Z.land r 15)] ++ quote_go (pred w) t
            else take w s ++ quote_go (pred w) t
      end
  end.

Definition quote (s : bytes) : bytes := dquote :: quote_go 0 s ++ [dquote].

Section print.
(** The newline and indentation at a depth, and the space after a colon:
    nothing for json.Marshal. *)
Context (nl : nat -> bytes) (sp : bytes).

Definition print_member (print : json -> bytes) (kv : bytes * json) : bytes :=
  quote kv.1 ++ ":"%char :: sp ++ print kv.2.

Definition block (o c : ascii) (lvl : nat) (items : list bytes) : bytes :=
  match items with
  | [] => [o; c]
  | _ => o :: nl (S lvl) ++ join_bytes (","%char :: nl (S lvl)) items ++ nl lvl ++ [c]
  end.

Fixpoint print (lvl : nat) (j : json) : bytes :=
  match j with
  | JNull => chars "null"
  | JBool b => if b then chars "true" else chars "false"
  | JNum lit => lit
  | JStr s => quote s
  | JArr l => block "["%char "]"%char lvl (map (print (S lvl)) l)
  | JObj l => block "{"%char "}"%char lvl (map (print_member (print (S lvl))) l)
  end.
End print.

(** json.Marshal and json.MarshalIndent(v, "", "  "). *)
Definition compact (j : json) : bytes := print (fun _ => []) [] 0 j.
Definition newline (lvl : nat) : bytes := "010"%char :: mjoin (replicate lvl (chars "  ")).
Definition indented (j : json) : bytes := print newline [" "%char] 0 j.

(** ** UTF-8 *)

(** [utf8.Valid]. *)
Definition Valid (s : bytes) : bool :=
  forallb (fun rc => negb ((rc.1 =? RuneError) && (length rc.2 =? 1)%nat)) (runes s).

Lemma land_ones_mod v n : 0 <= n -> Z.land v (2 ^ n - 1) = v mod 2 ^ n.
Proof. intros Hn. rewrite <- Z.land_ones by done. f_equal. rewrite Z.ones_equiv. lia. Qed.

Lemma two_bytes a b : Z.lor (Z.shiftl (Z.land a 31) 6) (Z.land b 63) = a mod 32 * 64 + b mod 64.
Proof.
  change 31 with (2 ^ 5 - 1). change 63 with (2 ^ 6 - 1). rewrite !land_ones_mod by done. apply lor_shiftl_add; [done|]. apply Z.mod_pos_bound. lia.
Qed.

Lemma three_bytes a b c : Z.lor (Z.lor (Z.shiftl (Z.land a 15) 12) (Z.shiftl (Z.land b 63) 6)) (Z.land c 63) =
  a mod 16 * 4096 + b mod 64 * 64 + c mod 64.
Proof.
  change 15 with (2 ^ 4 - 1). change 63 with (2 ^ 6 - 1). rewrite !land_ones_mod by done. rewrite <- Z.lor_assoc.
  pose proof (Z.mod_pos_bound b (2 ^ 6) eq_refl). pose proof (Z.mod_pos_bound c (2 ^ 6) eq_refl).
  rewrite (lor_shiftl_add (b mod 2 ^ 6) _ 6), (lor_shiftl_add (a mod 2 ^ 4) _ 12) by lia. by rewrite Z.add_assoc.
Qed.

Lemma four_bytes a b c d :
  Z.lor (Z.lor (Z.lor (Z.shiftl (Z.land a 7) 18) (Z.shiftl (Z.land b 63) 12)) (Z.shiftl (Z.land c 63) 6)) (Z.land d 63) =
  a mod 8 * 262144 + b mod 64 * 4096 + c mod 64 * 64 + d mod 64.
Proof.
  change 7 with (2 ^ 3 - 1). change 63 with (2 ^ 6 - 1). rewrite !land_ones_mod by done.
  rewrite <- !Z.lor_assoc. pose proof (Z.mod_pos_bound b (2 ^ 6) eq_refl). pose proof (Z.mod_pos_bound c (2 ^ 6) eq_refl).
  pose proof (Z.mod_pos_bound d (2 ^ 6) eq_refl).
  rewrite (lor_shiftl_add (c mod 2 ^ 6) _ 6), (lor_shiftl_add (b mod 2 ^ 6) _ 12), (lor_shiftl_add (a mod 2 ^ 3) _ 18) by lia.
  by rewrite !Z.add_assoc.
Qed.

Ltac rewrite_tests := repeat match goal with
  | H : ?b = true |- context [if ?b then _ else _] => rewrite H
  | H : ?b = false |- context [if ?b then _ else _] => rewrite H
  end.

(** A rune of several bytes is complete, and decoding it looks at its own
    bytes only. *)
Lemma DecodeRune_multi c t r w : 128 <= byte_val c -> DecodeRune (c :: t) = (r, w) ->
  (r = RuneError /\ w = 1%nat) \/
  (2 <= w <= S (length t))%nat /\ forall rest, DecodeRune (take w (c :: t) ++ rest) = (r, w).
Proof.
  intros Hc. assert ((byte_val c <? 128) = false) as H128 by (by apply Z.ltb_ge). unfold DecodeRune at 1. rewrite H128.
  destruct t as [|b1 [|b2 [|b3 t]]]; repeat case_match; intros [= <- <-]; try (by left); right;
    (split; [simpl; lia|]); intros rest; cbn [take app]; unfold DecodeRune; rewrite_tests; done.
Qed.

(** U+2028 and U+2029 have one encoding each. *)
Lemma DecodeRune_line c t r w : 128 <= byte_val c -> DecodeRune (c :: t) = (r, w) -> r = 8232 \/ r = 8233 ->
  take w (c :: t) = AppendRune r.
Proof.
  intros Hc HD Hr.
  assert (exists b1 b2, take w (c :: t) = [c; b1; b2] /\ byte_val c = 226 /\ byte_val b1 = 128 /\ byte_val b2 = r - 8064)
    as (b1 & b2 & -> & Ec & E1 & E2).
  { unfold DecodeRune, cont, RuneError in HD. rewrite (proj2 (Z.ltb_ge (byte_val c) 128)) in HD by done.
    pose proof (byte_val_range c).
    destruct t as [|b1 [|b2 [|b3 t]]]; try pose proof (byte_val_range b1); try pose proof (byte_val_range b2);
      rewrite ?two_bytes, ?three_bytes, ?four_bytes in HD; repeat case_match; simplify_eq; try lia;
      repeat match goal with H : _ && _ = true |- _ => apply andb_true_iff in H as [? ?] end; to_prop;
      try (exfalso; Z.div_mod_to_equations; lia).
    all: exists b1, b2; split; [done|]; Z.div_mod_to_equations; lia. }
  rewrite <- (byte_of_val c), <- (byte_of_val b1), <- (byte_of_val b2), Ec, E1, E2. by destruct Hr as [-> | ->].
Qed.

Lemma runes_skip k s : runes_go k s = runes_go 0 (drop k s).
Proof. revert k. induction s as [|c s IH]; intros [|k]; try done. simpl. apply IH. Qed.

Lemma quote_skip k s : quote_go k s = quote_go 0 (drop k s).
Proof. revert k. induction s as [|c s IH]; intros [|k]; try done. simpl. apply IH. Qed.

(** Induction over the runes of a valid string. *)
Lemma Valid_ind (P : bytes -> Prop) :
  P [] ->
  (forall c t, byte_val c < 128 -> P t -> P (c :: t)) ->
  (forall c t r w, 128 <= byte_val c -> DecodeRune (c :: t) = (r, S w) -> (r <> RuneError \/ w <> 0%nat) ->
     P (drop w t) -> P (c :: t)) ->
  forall s, Valid s = true -> P s.
Proof.
  intros Hnil Hasc Hmul s. induction (Nat.lt_wf_0_projected length s) as [s _ IH]. unfold Valid, runes.
  destruct s as [|c t]; [done|]. cbn [runes_go]. destruct (DecodeRune (c :: t)) as [r w] eqn:E.
  cbn [forallb fst snd]. intros [Hr Ht]%andb_true_iff. rewrite runes_skip in Ht.
  destruct (decide (byte_val c < 128)) as [Hc|Hc].
  - apply Hasc; [done|]. apply IH; [simpl; lia|]. unfold Valid, runes.
    unfold DecodeRune in E. rewrite (proj2 (Z.ltb_lt _ _)) in E by done. by injection E as [= <- <-].
  - apply Z.nlt_ge in Hc. destruct w as [|w].
    { apply DecodeRune_multi in E; [|done]. lia. }
    apply (Hmul c t r w); [done|done| |apply IH; [rewrite length_drop; simpl; lia|done]].
    destruct (decide (r = RuneError)) as [->|]; [right; intros ->; done|by left].
Qed.

Lemma Valid_cons c t r w : DecodeRune (c :: t) = (r, S w) -> (r <> RuneError \/ w <> 0%nat) ->
  Valid (c :: t) = Valid (drop w t).
Proof.
  intros HD Hr. unfold Valid, runes. cbn [runes_go]. rewrite HD. cbn [forallb fst snd]. rewrite runes_skip. cbn [pred].
  replace (negb _) with true; [done|]. symmetry. apply negb_true_iff, andb_false_iff. destruct Hr as [Hr|Hr].
  - left. by apply Z.eqb_neq.
  - destruct (decide (byte_val c < 128)) as [Hc|Hc%Z.nlt_ge].
    { unfold DecodeRune in HD. rewrite (proj2 (Z.ltb_lt _ _)) in HD by done. by simplify_eq. }
    destruct (DecodeRune_multi _ _ _ _ Hc HD) as [[_ ?]|[Hw _]]; [lia|].
    right. apply Nat.eqb_neq. rewrite length_take. simpl. lia.
Qed.

Lemma Valid_app a b : Valid a = true -> Valid b = true -> Valid (a ++ b) = true.
Proof.
  intros Ha Hb. pattern a. revert a Ha. apply Valid_ind; [done| |].
  - intros c t Hc IH. rewrite <- IH. apply (Valid_cons c (t ++ b) (byte_val c) 0).
    + unfold DecodeRune. by rewrite (proj2 (Z.ltb_lt _ _)).
    + left. unfold RuneError. lia.
  - intros c t r w Hc HD Hr IH. destruct (DecodeRune_multi _ _ _ _ Hc HD) as [[-> ?]|[Hw Hpre]]; [lia|].
    rewrite <- IH. cbn [app]. rewrite (Valid_cons c (t ++ b) r w); [by rewrite drop_app_le by lia| |done].
    specialize (Hpre (drop w t ++ b)). cbn [take app] in Hpre. by rewrite app_assoc, take_drop in Hpre.
Qed.

Lemma unquote_skip b s : unquote (length b) (b ++ s) = emit b (unquote 0 s).
Proof.
  induction b as [|c b IH]; simpl; [by destruct (unquote 0 s) as [[]|]|]. rewrite IH.
  by destruct (unquote 0 s) as [[]|].
Qed.

Lemma unquote_char c s : byte_val c < 128 -> unquote 0 (quote_char c ++ s) = emit [c] (unquote 0 s).
Proof. destruct c as [[] [] [] [] [] [] [] []]; intros H; (by exfalso; vm_compute in H) || reflexivity. Qed.

Lemma unquote_multi c t r w s : 128 <= byte_val c -> DecodeRune (c :: t) = (r, S w) -> (r <> RuneError \/ w <> 0%nat) ->
  unquote 0 (take (S w) (c :: t) ++ s) = emit (take (S w) (c :: t)) (unquote 0 s).
Proof.
  intros Hc HD Hr. destruct (DecodeRune_multi _ _ _ _ Hc HD) as [[-> ?]|[Hw Hpre]]; [lia|].
  specialize (Hpre s). cbn [take app] in *. cbn [unquote].
  rewrite !decide_False by (intros ->; revert Hc; vm_compute; by intros []).
  rewrite !(proj2 (Z.ltb_ge _ _)) by lia. rewrite Hpre. destruct w as [|w]; [lia|]. cbn [snd].
  assert (length (take (S w) t) = S w) as Hl by (rewrite length_take; lia).
  pose proof (unquote_skip (take (S w) t) s) as Hs. rewrite Hl in Hs. rewrite Hs. by destruct (unquote 0 s) as [[]|].
Qed.

Lemma unquote_line r s : r = 8232 \/ r = 8233 ->
  unquote 0 (chars "\u202" ++ [hexdigit (Z.land r 15)] ++ s) = emit (AppendRune r) (unquote 0 s).
Proof. intros [-> | ->]; reflexivity. Qed.

(** What Marshal quotes, the decoder unquotes. *)
Lemma unquote_quote s rest : Valid s = true -> unquote 0 (quote_go 0 s ++ dquote :: rest) = Ok (s, rest).
Proof.
  intros Hv. pattern s. revert s Hv. apply Valid_ind.
  - done.
  - intros c t Hc IH. cbn [quote_go]. rewrite (proj2 (Z.ltb_lt _ _)) by done. rewrite <- app_assoc, unquote_char, IH by done.
    done.
  - intros c t r w Hc HD Hr IH. cbn [quote_go]. rewrite (proj2 (Z.ltb_ge _ _)) by done. rewrite HD.
    replace ((r =? RuneError) && (S w =? 1)%nat) with false; [|symmetry; apply andb_false_iff; destruct Hr;
      [left; by apply Z.eqb_neq|right; apply Nat.eqb_neq; lia]].
    cbn [pred]. rewrite quote_skip.
    destruct ((r =? 8232) || (r =? 8233)) eqn:El.
    + assert (r = 8232 \/ r = 8233) as Hl by (apply orb_true_iff in El; rewrite !Z.eqb_eq in El; done).
      pose proof (DecodeRune_line _ _ _ _ Hc HD Hl) as Hp.
      rewrite <- !app_assoc, unquote_line, IH by done. cbn [emit]. rewrite <- Hp. do 2 f_equal. apply (take_drop (S w) (c :: t)).
    + rewrite <- app_assoc, (unquote_multi _ _ r) by done. rewrite IH. simpl. by rewrite take_drop.
Qed.

(** ** The scanner always returns

    Every function leaves a shorter rest or a syntax error, so twice the
    length of the text is fuel enough: an element is scanned with one unit less
    than its array. *)

Definition good {A} (r : result (A * bytes)) (s : bytes) : Prop :=
  match r with Ok p => (length p.2 < length s)%nat | Err e => e <> outOfFuel end.

Lemma good_mono {A} (r : result (A * bytes)) s s' : good r s -> (length s <= length s')%nat -> good r s'.
Proof. destruct r; simpl; [lia|done]. Qed.

Lemma good_emit b r s s' : good r s -> (length s <= length s')%nat -> good (emit b r) s'.
Proof. destruct r as [[]|]; simpl; [lia|done]. Qed.

Lemma hexError_real n s : hexError n s <> outOfFuel.
Proof. revert n. induction s as [|c s IH]; intros [|n]; simpl; try done. case_match; [apply IH|done]. Qed.

Lemma unquote_good skip s : good (unquote skip s) s.
Proof.
  revert skip. induction (Nat.lt_wf_0_projected length s) as [s _ IH]. intros skip.
  assert (forall b k t, (length t < length s)%nat -> good (emit b (unquote k t)) s) as Hemit
    by (intros b k t Ht; eapply good_emit; [by apply IH|lia]).
  destruct s as [|c t]; [done|]. cbn [unquote].
  destruct skip; [|apply Hemit; simpl; lia]. case_decide; [simpl; lia|]. case_decide.
  - destruct t as [|e t1]; [done|]. case_decide; [|destruct (escape e); [apply Hemit; simpl; lia|done]].
    destruct t1 as [|a1 [|a2 [|a3 [|a4 t2]]]]; try apply hexError_real.
    destruct (hex4 _ _ _ _) as [r|]; [|apply hexError_real]. destruct (IsSurrogate r); [|apply Hemit; simpl; lia].
    destruct t2 as [|b [|u [|b1 [|b2 [|b3 [|b4 t3]]]]]]; try (apply Hemit; simpl; lia).
    repeat case_match; apply Hemit; simpl; lia.
  - case_match; [done|]. repeat case_match; apply Hemit; simpl; lia.
Qed.

Lemma digits_app s ds r : digits s = (ds, r) -> s = ds ++ r.
Proof.
  revert ds r. induction s as [|c t IH]; intros ds r; simpl; [by intros [= <- <-]|].
  destruct (is_digit c); [|by intros [= <- <-]]. destruct (digits t) as [ds' r'].
  intros [= <- <-]. simpl. f_equal. by apply IH.
Qed.

Definition leaves (r : result (bytes * bytes)) (s : bytes) : Prop :=
  match r with Ok p => (length p.2 <= length s)%nat | Err e => e <> outOfFuel end.

Lemma digits1_leaves context acc s k : (forall a r, leaves (k a r) r) -> leaves (digits1 context acc s k) s.
Proof.
  intros Hk. unfold digits1. destruct (digits s) as [ds r] eqn:E. apply digits_app in E as ->.
  destruct ds as [|d ds]; [by destruct r|]. specialize (Hk (acc ++ d :: ds) r).
  destruct (k _ _) as [p|]; [|done]. simpl in *. rewrite length_app. lia.
Qed.

Lemma exponent_leaves acc s : leaves (exponent acc s) s.
Proof.
  destruct s as [|c t]; [simpl; lia|]. simpl. case_decide; [|simpl; lia]. destruct t as [|sg t]; [done|].
  assert (forall a r, leaves (Ok (a, r)) r) as Hk by (simpl; lia).
  case_decide; [pose proof (digits1_leaves "in exponent of numeric literal" (acc ++ [c; sg]) t _ Hk) as H1|
    pose proof (digits1_leaves "in exponent of numeric literal" (acc ++ [c]) (sg :: t) _ Hk) as H1];
    destruct (digits1 _ _ _ _); simpl in *; lia || done.
Qed.

Lemma fraction_leaves acc s : leaves (fraction acc s) s.
Proof.
  destruct s as [|c t]; [simpl; lia|]. unfold fraction. case_decide; [|apply exponent_leaves].
  pose proof (digits1_leaves "after decimal point in numeric literal" (acc ++ [c]) t _ exponent_leaves) as H1.
  destruct (digits1 _ _ _ _); simpl in *; lia || done.
Qed.

Lemma integer_good acc s : good (integer acc s) s.
Proof.
  destruct s as [|c t]; [done|]. simpl. case_decide.
  - pose proof (fraction_leaves (acc ++ [c]) t). destruct (fraction _ _); simpl in *; lia || done.
  - destruct (is_digit c); [|done]. destruct (digits t) as [ds r] eqn:E. apply digits_app in E as ->.
    pose proof (fraction_leaves (acc ++ c :: ds) r). destruct (fraction _ _); simpl in *; rewrite ?length_app; lia || done.
Qed.

Lemma number_good s : good (number s) s.
Proof.
  destruct s as [|c t]; [done|]. unfold number. case_decide; [|apply integer_good].
  eapply good_mono; [apply integer_good|simpl; lia].
Qed.

Lemma literal_leaves context l s : match literal context l s with Ok r => (length r <= length s)%nat | Err e => e <> outOfFuel end.
Proof.
  revert s. induction l as [|x l IH]; intros s; [simpl; lia|]. destruct s as [|c t]; [done|]. simpl.
  case_decide; [|done]. specialize (IH t). destruct (literal _ _ _); [lia|done].
Qed.

Lemma skip_ws_length s : (length (skip_ws s) <= length s)%nat.
Proof. induction s as [|c s IH]; [done|]. unfold skip_ws in *. simpl. case_match; simpl; lia. Qed.

Lemma good_bind {A B} (r : result (A * bytes)) (f : A * bytes -> result (B * bytes)) s s' :
  good r s -> (forall p, (length p.2 < length s)%nat -> good (f p) s') -> good (result_bind r f) s'.
Proof. destruct r; simpl; auto. Qed.

Lemma scan_good fuel :
  (forall d s, (2 * length s < fuel)%nat -> good (value fuel d s) s) /\
  (forall d s, (2 * length s < fuel)%nat -> good (members fuel d s) s) /\
  (forall d s, (2 * length s + 1 < fuel)%nat -> good (elements fuel d s) s).
Proof.
  induction fuel as [|f (IHv & IHm & IHe)]; [split_and!; lia|]. split_and!; intros d s Hs.
  - cbn [value]. pose proof (skip_ws_length s) as Hw. destruct (skip_ws s) as [|c t]; [done|]. simpl in Hw.
    pose proof (skip_ws_length t) as Hw'. unfold push.
    assert (forall r : result (bytes * bytes), good r t -> good (p <-? r; Ok (JStr p.1, p.2)) s) by (intros; eapply good_bind; [done|simpl; lia]).
    assert (good (p <-? number (c :: t); Ok (JNum p.1, p.2)) s)
      by (eapply good_bind; [apply number_good|simpl; lia]).
    assert (forall (j : json) c l, good (r <-? literal c l t; Ok (j, r)) s).
    { intros j c' l. pose proof (literal_leaves c' l t). destruct (literal c' l t); simpl in *; lia || done. }
    destruct (skip_ws t) as [|c' t']; repeat (case_match; auto using unquote_good; try done); simpl in *; try lia.
    all: eapply good_bind; [first [apply IHm|apply IHe]; simpl; lia|simpl; intros; lia].
  - cbn [members]. destruct s as [|c t]; [done|]. simpl in Hs. destruct (negb _); [done|].
    eapply good_bind; [apply unquote_good|]. intros k Hk. pose proof (skip_ws_length k.2) as Hw.
    destruct (skip_ws k.2) as [|c1 t1]; [done|]. simpl in Hw. destruct (negb _); [done|].
    eapply good_bind; [apply IHv; lia|]. intros v Hv. pose proof (skip_ws_length v.2) as Hw2.
    destruct (skip_ws v.2) as [|c2 t2]; [done|]. simpl in Hw2. case_decide; [simpl; lia|]. case_decide; [|done].
    pose proof (skip_ws_length t2). eapply good_bind; [apply IHm; lia|]. simpl. lia.
  - cbn [elements]. eapply good_bind; [apply IHv; lia|]. intros v Hv. pose proof (skip_ws_length v.2) as Hw2.
    destruct (skip_ws v.2) as [|c2 t2]; [done|]. simpl in Hw2. case_decide; [simpl; lia|]. case_decide; [|done].
    pose proof (skip_ws_length t2). eapply good_bind; [apply IHe; lia|]. simpl. lia.
Qed.

Lemma parse_returns s : parse s <> Err outOfFuel.
Proof.
  unfold parse. destruct (scan_good (S (2 * length s))) as [Hv _]. specialize (Hv 0 s ltac:(lia)).
  destruct (value _ _ _) as [p|e]; simpl in *; [by case_match|congruence].
Qed.

(** ** Reading back what was printed *)

(** A number literal as the grammar has it. *)
Definition number_ok (lit : bytes) : bool :=
  match number lit with Ok (a, []) => bool_decide (a = lit) | _ => false end.

Fixpoint wf (j : json) : bool :=
  match j with
  | JNull | JBool _ => true
  | JNum lit => number_ok lit
  | JStr s => Valid s
  | JArr l => forallb wf l
  | JObj l => forallb (fun kv => Valid kv.1 && wf kv.2) l
  end.

Fixpoint depth (j : json) : Z :=
  match j with
  | JArr l => 1 + foldr Z.max 0 (map depth l)
  | JObj l => 1 + foldr Z.max 0 (map (fun kv => depth kv.2) l)
  | _ => 0
  end.

Lemma json_ind (P : json -> Prop) :
  P JNull -> (forall b, P (JBool b)) -> (forall n, P (JNum n)) -> (forall s, P (JStr s)) ->
  (forall l, Forall P l -> P (JArr l)) -> (forall l, Forall (fun kv => P kv.2) l -> P (JObj l)) ->
  forall j, P j.
Proof.
  intros Hn Hb Hnum Hs Ha Ho. fix IH 1. intros [| | | |l|l]; [done|apply Hb|apply Hnum|apply Hs| |].
  - apply Ha. induction l; constructor; [apply IH|done].
  - apply Ho. induction l as [|[k v] l IHl]; constructor; [apply IH|done].
Qed.

(** What may follow a number. *)
Definition delim (rest : bytes) : Prop :=
  match rest with [] => True | c :: _ => is_digit c = false /\ c ∉ ["."; "e"; "E"]%char end.

Lemma digits_delim s ds r rest : digits s = (ds, r) -> delim rest -> digits (s ++ rest) = (ds, r ++ rest).
Proof.
  intros E Hd. revert ds r E. induction s as [|c t IH]; intros ds r; simpl.
  - intros [= <- <-]. destruct rest as [|c t]; [done|]. simpl. by destruct Hd as [-> _].
  - destruct (is_digit c); [|by intros [= <- <-]]. destruct (digits t) as [ds' r'].
    intros [= <- <-]. by rewrite (IH _ _ eq_refl).
Qed.

(** A scanner that succeeds on [s] takes the same bytes of a longer text. *)
Definition extends (f : bytes -> bytes -> result (bytes * bytes)) : Prop :=
  forall acc s a r rest, f acc s = Ok (a, r) -> delim rest -> f acc (s ++ rest) = Ok (a, r ++ rest).

Lemma digits1_extends context k : extends k -> extends (fun acc s => digits1 context acc s k).
Proof.
  intros Hk acc s a r rest. unfold digits1. destruct (digits s) as [ds r'] eqn:E. intros H Hd.
  rewrite (digits_delim _ _ _ _ E Hd). destruct ds; [by destruct r'|]. by apply Hk.
Qed.

Lemma exponent_extends : extends exponent.
Proof.
  intros acc s a r rest H Hd. destruct s as [|c t].
  - injection H as <- <-. destruct rest as [|c t]; [done|]. simpl. destruct Hd as [_ Hd].
    rewrite decide_False; [done|]. set_solver.
  - simpl in *. case_decide; [|by injection H as <- <-]. destruct t as [|sg t]; [done|]. cbn [app] in *.
    assert (extends (fun a r => Ok (a, r))) as Hk by (by intros ?????[= <- <-]).
    case_decide; [exact (digits1_extends _ _ Hk _ t _ _ rest H Hd)|].
    exact (digits1_extends _ _ Hk _ (sg :: t) _ _ rest H Hd).
Qed.

Lemma fraction_extends : extends fraction.
Proof.
  intros acc s a r rest H Hd. destruct s as [|c t].
  - injection H as <- <-. destruct rest as [|c t]; [done|]. unfold fraction. simpl. destruct Hd as [_ Hd].
    rewrite !decide_False by set_solver. done.
  - unfold fraction in *. cbn [app]. case_decide; [|exact (exponent_extends _ (c :: t) _ _ rest H Hd)].
    exact (digits1_extends _ _ exponent_extends _ t _ _ rest H Hd).
Qed.

Lemma integer_extends : extends integer.
Proof.
  intros acc s a r rest H Hd. destruct s as [|c t]; [done|]. simpl in *.
  case_decide; [exact (fraction_extends _ t _ _ rest H Hd)|].
  destruct (is_digit c); [|done]. destruct (digits t) as [ds r'] eqn:E.
  rewrite (digits_delim _ _ _ _ E Hd). exact (fraction_extends _ r' _ _ rest H Hd).
Qed.

Lemma number_delim lit rest : number_ok lit = true -> delim rest -> number (lit ++ rest) = Ok (lit, rest).
Proof.
  unfold number_ok. intros H Hd. destruct (number lit) as [[a r]|] eqn:E; [|done]. destruct r; [|done]. to_prop. subst a.
  destruct lit as [|c t]; [done|]. unfold number in *. cbn [app].
  case_decide; [exact (integer_extends _ t _ _ rest E Hd)|exact (integer_extends _ (c :: t) _ _ rest E Hd)].
Qed.

Lemma number_head lit : number_ok lit = true -> exists c t, lit = c :: t /\ (c = "-"%char \/ is_digit c = true).
Proof.
  unfold number_ok, number. destruct lit as [|c t]; [done|]. intros H. exists c, t. split; [done|].
  case_decide; [by left|]. right. unfold integer in H. case_decide; [by subst|]. by destruct (is_digit c).
Qed.

Definition blank (w : bytes) : Prop := Forall (fun c => ws c = true) w.

Lemma skip_blank w s : blank w -> skip_ws (w ++ s) = skip_ws s.
Proof. induction 1 as [|c w Hc _ IH]; [done|]. unfold skip_ws in *. simpl. by rewrite Hc. Qed.

(** A text that starts with something else than white space or a closing
    bracket. *)
Definition solid (s : bytes) : Prop :=
  match s with [] => False | c :: _ => ws c = false /\ c <> "]"%char /\ c <> "}"%char end.

Lemma skip_solid s rest : solid s -> skip_ws (s ++ rest) = s ++ rest.
Proof. destruct s as [|c s]; [done|]. unfold skip_ws. simpl. by intros [-> _]. Qed.

Lemma solid_app s rest : solid s -> solid (s ++ rest).
Proof. by destruct s. Qed.

Lemma ws_delim c : ws c = true -> is_digit c = false /\ c ∉ ["."; "e"; "E"]%char.
Proof. unfold ws. intros H. to_prop. set_unfold in H. destruct_or! H; subst; (split; [done|by apply (bool_decide_unpack _)]) || done. Qed.

Lemma delim_punct c rest : c = ","%char \/ c = "]"%char \/ c = "}"%char -> delim (c :: rest).
Proof. intros H. destruct_or! H; subst; (split; [done|by apply (bool_decide_unpack _)]). Qed.

Lemma delim_blank w c rest : blank w -> delim (c :: rest) -> delim (w ++ c :: rest).
Proof. intros [|c' w' Hc' _]; [done|]. intros _. simpl. by apply ws_delim. Qed.

Section roundtrip.
Context (nl : nat -> bytes) (sp : bytes) (nl_blank : forall k, blank (nl k)) (sp_blank : blank sp).

Local Abbreviation print := (print nl sp).

Lemma print_solid lvl j : wf j = true -> solid (print lvl j).
Proof.
  destruct j as [|[]|lit|s|l|l]; simpl; try done.
  - intros (c & t & -> & [-> |Hc])%number_head; [done|]. simpl.
    split_and!; [|by intros ->..]. destruct (ws c) eqn:E; [|done]. apply ws_delim in E as [E _]. congruence.
  - by destruct l.
  - by destruct l.
Qed.

(** The scanner reads the printed value back, whatever follows. *)
Definition reads (j : json) : Prop := forall lvl fuel d w rest,
  wf j = true -> d + depth j <= maxNestingDepth -> (2 * length (print lvl j) < fuel)%nat -> blank w -> delim rest ->
  value fuel d (w ++ print lvl j ++ rest) = Ok (j, rest).

Lemma reads_here j lvl fuel d rest : reads j -> wf j = true -> d + depth j <= maxNestingDepth ->
  (2 * length (print lvl j) < fuel)%nat -> delim rest -> value fuel d (print lvl j ++ rest) = Ok (j, rest).
Proof. intros H ????. apply (H lvl fuel d []); [done..|constructor|done]. Qed.

Lemma elements_print lvl rest l : Forall reads l -> forall x fuel d w, reads x ->
  let text := join_bytes (","%char :: nl lvl) (map (print lvl) (x :: l)) ++ w ++ ["]"%char] in
  forallb wf (x :: l) = true -> d + foldr Z.max 0 (map depth (x :: l)) <= maxNestingDepth ->
  (2 * length text < fuel)%nat -> blank w ->
  elements fuel d (text ++ rest) = Ok (x :: l, rest).
Proof.
  induction 1 as [|y l Hy Hl IH]; intros x fuel d w Hx text Hwf Hdepth Hfuel Hw; subst text;
    destruct fuel as [|f]; try lia; cbn [elements]; simpl in Hwf; apply andb_true_iff in Hwf as [Hwx Hwl];
    rewrite !length_app in Hfuel; simpl in Hfuel, Hdepth.
  - simpl. rewrite <- !app_assoc. rewrite reads_here by (done || lia || (apply delim_blank; [done|apply delim_punct; auto])).
    simpl. by rewrite skip_blank by done.
  - cbn [map join_bytes]. rewrite <- !app_assoc. rewrite !length_app in Hfuel. simpl in Hfuel.
    rewrite reads_here by (done || lia || (apply delim_punct; auto)).
    cbn [result_bind snd fst app]. cbn [skip_ws drop_while]. change (ws ",") with false. cbv iota.
    rewrite decide_False, decide_True by done. rewrite skip_blank by done.
    assert (solid (print lvl y)) as Hs by (simpl in Hwl; apply andb_true_iff in Hwl as [? _]; by apply print_solid).
    assert (solid (join_bytes (","%char :: nl lvl) (map (print lvl) (y :: l)))) as Hs'
      by (destruct l; [done|by apply solid_app]).
    rewrite skip_solid by done.
    specialize (IH y f d w Hy ltac:(done) ltac:(simpl in *; lia)). rewrite <- !app_assoc in IH.
    rewrite !length_app in IH. simpl in IH, Hfuel. rewrite ?length_app in Hfuel. rewrite IH; [done|lia|done].
Qed.

Local Abbreviation member_ok := (fun kv : bytes * json => Valid kv.1 && wf kv.2).

(** One member, up to what follows its value. *)
Lemma members_one lvl f d k v tl : Valid k = true -> reads v -> wf v = true -> d + depth v <= maxNestingDepth ->
  (2 * length (print lvl v) < f)%nat -> delim tl ->
  members (S f) d (print_member sp (print lvl) (k, v) ++ tl) =
  match skip_ws tl with
  | [] => Err unexpectedEnd
  | c2 :: t2 =>
      if decide (c2 = "}"%char) then Ok ([(k, v)], t2)
      else if decide (c2 = ","%char) then p <-? members f d (skip_ws t2) ; Ok ((k, v) :: p.1, p.2)
      else Err (invalidChar c2 "after object key:value pair")
  end.
Proof.
  intros Hk Hv Hwf Hd Hf Htl. cbn [members]. unfold print_member, quote. cbn [fst snd app]. rewrite bool_decide_true by done.
  cbn [negb]. rewrite <- !app_assoc. cbn [app]. rewrite unquote_quote by done. cbn [result_bind fst snd skip_ws drop_while].
  change (ws ":") with false. cbv iota. rewrite bool_decide_true by done. cbn [negb]. rewrite <- !app_assoc.
  by rewrite (Hv lvl f d sp).
Qed.

Lemma print_member_length lvl k v : (length (print lvl v) < length (print_member sp (print lvl) (k, v)))%nat.
Proof. unfold print_member, quote. simpl. rewrite !length_app. simpl. rewrite !length_app. lia. Qed.

Lemma members_print lvl rest l : Forall (fun kv => reads kv.2) l -> forall x fuel d w, reads x.2 ->
  let text := join_bytes (","%char :: nl lvl) (map (print_member sp (print lvl)) (x :: l)) ++ w ++ ["}"%char] in
  forallb member_ok (x :: l) = true -> d + foldr Z.max 0 (map (fun kv => depth kv.2) (x :: l)) <= maxNestingDepth ->
  (2 * length text < fuel)%nat -> blank w ->
  members fuel d (text ++ rest) = Ok (x :: l, rest).
Proof.
  induction 1 as [|y l Hy Hl IH]; intros [kx vx] fuel d w Hx text Hwf Hdepth Hfuel Hw; subst text;
    (destruct fuel as [|f]; [lia|]); simpl in Hwf; apply andb_true_iff in Hwf as [[Hk Hwx]%andb_true_iff Hwl];
    pose proof (print_member_length lvl kx vx) as Hlen; cbn [map join_bytes] in *; rewrite <- !app_assoc;
    rewrite !length_app in Hfuel; cbn [snd foldr] in *.
  - rewrite members_one by (done || lia || (apply delim_blank; [done|apply delim_punct; auto])).
    rewrite skip_blank by done. done.
  - rewrite members_one by (done || lia || (apply delim_punct; auto)). cbn [app skip_ws drop_while].
    change (ws ",") with false. cbv iota. rewrite decide_False, decide_True by done. rewrite skip_blank by done.
    assert (solid (join_bytes (","%char :: nl lvl) (map (print_member sp (print lvl)) (y :: l)))) as Hs
      by (destruct l; done).
    rewrite skip_solid by done.
    specialize (IH y f d w Hy ltac:(done) ltac:(cbn [map foldr]; lia)). rewrite <- !app_assoc in IH.
    rewrite !length_app in IH. cbn [length] in Hfuel. rewrite ?length_app in Hfuel.
    cbn [map join_bytes app] in IH |- *. rewrite IH; [done|simpl in *; lia|done].
Qed.

Lemma max_nonneg l : 0 <= foldr Z.max 0 l.
Proof. induction l; simpl; lia. Qed.

Lemma value_array f d w text l rest : d + 1 <= maxNestingDepth -> blank w -> solid text ->
  elements f (d + 1) (text ++ rest) = Ok (l, rest) -> value (S f) d ("["%char :: w ++ text ++ rest) = Ok (JArr l, rest).
Proof.
  intros Hd Hw Hs He. cbn [value]. change (skip_ws ("["%char :: w ++ text ++ rest)) with ("["%char :: w ++ text ++ rest).
  cbv iota. rewrite decide_False, decide_True by done. unfold push. rewrite (proj2 (Z.ltb_ge _ _)) by lia.
  rewrite skip_blank, skip_solid by done. destruct text as [|c text]; [done|]. cbn [app] in *.
  destruct Hs as (_ & Hs & _). rewrite decide_False by done. by rewrite He.
Qed.

Lemma value_object f d w text l rest : d + 1 <= maxNestingDepth -> blank w -> solid text ->
  members f (d + 1) (text ++ rest) = Ok (l, rest) -> value (S f) d ("{"%char :: w ++ text ++ rest) = Ok (JObj l, rest).
Proof.
  intros Hd Hw Hs He. cbn [value]. change (skip_ws ("{"%char :: w ++ text ++ rest)) with ("{"%char :: w ++ text ++ rest).
  cbv iota. rewrite decide_True by done. unfold push. rewrite (proj2 (Z.ltb_ge _ _)) by lia.
  rewrite skip_blank, skip_solid by done. destruct text as [|c text]; [done|]. cbn [app] in *.
  destruct Hs as (_ & _ & Hs). rewrite decide_False by done. by rewrite He.
Qed.

Lemma join_solid sep x l : solid x -> solid (join_bytes sep (x :: l)).
Proof. intros Hx. destruct l; [done|]. by apply solid_app. Qed.

Lemma value_solid f d w s : blank w -> solid s -> value f d (w ++ s) = value f d s.
Proof.
  intros Hw Hs. destruct f; [done|]. cbn [value]. rewrite skip_blank by done. pose proof (skip_solid s [] Hs) as H.
  by rewrite !app_nil_r in H.
Qed.

Theorem value_print j : reads j.
Proof using nl_blank sp_blank.
  induction j as [|b|lit|s|l IH|l IH] using json_ind; intros lvl fuel d w rest Hwf Hd Hf Hw Hr;
    (rewrite value_solid; [|done|by apply solid_app, print_solid]); (destruct fuel as [|f]; [lia|]).
  - done.
  - by destruct b.
  - simpl in Hwf. destruct (number_head lit Hwf) as (c & t & -> & Hc). cbn [value print].
    rewrite skip_solid by (by apply (print_solid 0 (JNum _))). cbn [app].
    rewrite (decide_False (P := c = "{"%char)), (decide_False (P := c = "["%char)), (decide_False (P := c = dquote))
      by (intros ->; by destruct Hc).
    change (c :: t ++ rest) with ((c :: t) ++ rest). rewrite number_delim by done.
    case_decide; [done|]. destruct Hc as [?|Hc]; [done|]. by rewrite Hc.
  - simpl. rewrite <- app_assoc. simpl. by rewrite unquote_quote.
  - pose proof (max_nonneg (map depth l)) as Hm. simpl in Hwf, Hd.
    destruct l as [|x l]; cbn [print map block] in *; [by simpl; unfold push; rewrite (proj2 (Z.ltb_ge _ _)) by lia|].
    apply Forall_cons in IH as [IHx IHl]. cbn [app length] in *. rewrite length_app in Hf. rewrite <- app_assoc.
    apply value_array; [lia|done| |].
    + apply solid_app, join_solid, print_solid. by apply andb_true_iff in Hwf as [? _].
    + apply elements_print; [done|done|done|cbn [map]; lia|simpl in *; lia|done].
  - pose proof (max_nonneg (map (fun kv => depth kv.2) l)) as Hm. simpl in Hwf, Hd.
    destruct l as [|x l]; cbn [print map block] in *; [by simpl; unfold push; rewrite (proj2 (Z.ltb_ge _ _)) by lia|].
    apply Forall_cons in IH as [IHx IHl]. cbn [app length] in *. rewrite length_app in Hf. rewrite <- app_assoc.
    apply value_object; [lia|done|by apply solid_app, join_solid|].
    apply members_print; [done|done|done|cbn [map]; lia|simpl in *; lia|done].
Qed.

Lemma parse_print j : wf j = true -> depth j <= maxNestingDepth -> parse (print 0%nat j) = Ok j.
Proof using nl_blank sp_blank.
  intros Hwf Hd. unfold parse. pose proof (value_print j 0%nat (S (2 * length (print 0%nat j))) 0 [] []) as H.
  rewrite app_nil_r in H. simpl app in H. rewrite H; [done..|lia|lia|constructor|done].
Qed.

End roundtrip.

Lemma newline_blank k : blank (newline k).
Proof. constructor; [done|]. induction k as [|k IH]; simpl; [constructor|]. repeat (constructor; [done|]). apply IH. Qed.

Lemma parse_compact j : wf j = true -> depth j <= maxNestingDepth -> parse (compact j) = Ok j.
Proof. apply parse_print; [intros; constructor|constructor]. Qed.

Lemma parse_indented j : wf j = true -> depth j <= maxNestingDepth -> parse (indented j) = Ok j.
Proof. apply parse_print; [apply newline_blank|repeat constructor]. Qed.

End Json.
