(* ===== verification/JsonAccept.v ===== *)
(** * What encoding/json accepts is well formed

    Every document the scanner of [Json] accepts is one the encoder can write
    back: its strings and keys are UTF-8, whatever bytes and escapes the text
    has, its number literals follow the grammar, and it is no deeper than the
    scanner's limit.  So decoding, encoding and decoding again is decoding
    once. *)

From S2P Require Import Prelude GoLib Json.
Local Open Scope Z_scope.
Local Open Scope go_scope.

Module JsonAccept.
Import Json.

(** ** Strings *)

Lemma byte_val_small z : 0 <= z < 256 -> byte_val (byte_of z) = z.
Proof. intros Hz. rewrite byte_val_of. unfold u8. apply Z.mod_small. lia. Qed.

(** One rune of several bytes. *)
Lemma Valid_rune c t r w : DecodeRune (c :: t) = (r, S (S w)) -> length t = S w -> Valid (c :: t) = true.
Proof. intros HD Hl. rewrite (Valid_cons c t r (S w)) by (done || by right). by rewrite drop_ge by lia. Qed.

Lemma tail_byte r k : exists z, byte_of (Z.lor 128 (Z.land (Z.shiftr r k) 63)) = byte_of z /\ z = 128 + Z.shiftr r k mod 64.
Proof.
  eexists. split; [|reflexivity]. f_equal. change 63 with (2 ^ 6 - 1). rewrite land_ones_mod by lia.
  change 128 with (Z.shiftl 2 6) at 1. apply lor_shiftl_add; [lia|]. apply Z.mod_pos_bound. lia.
Qed.

Ltac decide_bytes := unfold cont; rewrite ?byte_val_small by lia;
  repeat match goal with |- context [?x <? ?y] => destruct (Z.ltb_spec x y) | |- context [?x =? ?y] => destruct (Z.eqb_spec x y)
    | |- context [?x <=? ?y] => destruct (Z.leb_spec x y) end; try lia; cbn [andb].

Lemma Valid_two x y : 194 <= x < 224 -> 128 <= y < 192 -> Valid [byte_of x; byte_of y] = true.
Proof. intros Hx Hy. eapply (Valid_rune _ _ _ 0); [|done]. unfold DecodeRune. decide_bytes. done. Qed.

Lemma Valid_three x y z : 224 <= x < 240 -> 128 <= y < 192 -> 128 <= z < 192 -> (x = 224 -> 160 <= y) -> (x = 237 -> y < 160) ->
  Valid [byte_of x; byte_of y; byte_of z] = true.
Proof. intros Hx Hy Hz H1 H2. eapply (Valid_rune _ _ _ 1); [|done]. unfold DecodeRune. decide_bytes; done. Qed.

Lemma Valid_four x y z t : 240 <= x <= 244 -> 128 <= y < 192 -> 128 <= z < 192 -> 128 <= t < 192 ->
  (x = 240 -> 144 <= y) -> (x = 244 -> y < 144) -> Valid [byte_of x; byte_of y; byte_of z; byte_of t] = true.
Proof. intros Hx Hy Hz Ht H1 H2. eapply (Valid_rune _ _ _ 2); [|done]. unfold DecodeRune. decide_bytes; done. Qed.

Lemma AppendRune_valid r : Valid (AppendRune r) = true.
Proof.
  unfold AppendRune. destruct (tail_byte r 0) as (z0 & -> & Hz0), (tail_byte r 6) as (z6 & -> & Hz6),
    (tail_byte r 12) as (z12 & -> & Hz12).
  rewrite !Z.shiftr_div_pow2 in * by lia.
  assert (forall a n hi, 0 <= n -> 0 <= hi < 2 ^ n -> Z.lor (Z.shiftl a n) hi = a * 2 ^ n + hi) as Hl
    by (intros; by apply lor_shiftl_add).
  change 192 with (Z.shiftl 3 6). change 224 with (Z.shiftl 14 4). change 240 with (Z.shiftl 30 3).
  destruct ((0 <=? r) && (r <? 128)) eqn:E1; [|destruct ((0 <=? r) && (r <? 2048)) eqn:E2;
    [|destruct ((r <? 0) || (1114111 <? r) || ((55296 <=? r) && (r <=? 57343))) eqn:E3; [done|destruct (r <? 65536) eqn:E4]]];
    rewrite ?andb_true_iff, ?andb_false_iff, ?orb_false_iff in *; to_prop; rewrite ?Z.ltb_ge, ?Z.leb_gt in *.
  - erewrite (Valid_cons _ [] r 0); [done| |left; unfold RuneError; lia]. unfold DecodeRune. decide_bytes. done.
  - rewrite Hl by (Z.div_mod_to_equations; lia). apply Valid_two; subst; Z.div_mod_to_equations; lia.
  - rewrite Hl by (Z.div_mod_to_equations; lia). apply Valid_three; subst; Z.div_mod_to_equations; lia.
  - rewrite Hl by (Z.div_mod_to_equations; lia). apply Valid_four; subst; Z.div_mod_to_equations; lia.
Qed.

(** What a string literal denotes is UTF-8: a byte that is none, or half a
    surrogate pair, becomes U+FFFD. *)
Definition yields_valid (r : result (bytes * bytes)) : Prop := match r with Ok p => Valid p.1 = true | Err _ => True end.

Lemma emit_valid b r : Valid b = true -> yields_valid r -> yields_valid (emit b r).
Proof. destruct r as [[s rest]|e]; simpl; [apply Valid_app|done]. Qed.

Lemma escape_valid e b : escape e = Some b -> Valid [b] = true.
Proof.
  unfold escape. destruct (list_find _ escapes) as [[i p]|] eqn:E; [|done]. intros [= <-].
  apply list_find_Some in E as (Hi & _ & _). apply list_elem_of_lookup_2 in Hi.
  assert (Forall (fun p => Valid [p.2] = true) escapes) as HF by (repeat constructor).
  by apply (proj1 (Forall_forall _ _) HF) in Hi.
Qed.

Lemma unquote_valid s : yields_valid (unquote 0 s).
Proof.
  induction (Nat.lt_wf_0_projected length s) as [s _ IH].
  assert (forall b t, (length t < length s)%nat -> Valid b = true -> yields_valid (emit b (unquote 0 t))) as Hemit
    by (intros b t Ht Hb; apply emit_valid; [done|by apply IH]).
  destruct s as [|c t]; [done|]. cbn [unquote]. case_decide; [done|]. case_decide.
  - destruct t as [|e t1]; [done|]. case_decide;
      [|destruct (escape e) as [b|] eqn:E; [apply Hemit; [simpl; lia|by eapply escape_valid]|done]].
    destruct t1 as [|a1 [|a2 [|a3 [|a4 t2]]]]; try done.
    destruct (hex4 _ _ _ _) as [r|]; [|done]. destruct (IsSurrogate r); [|apply Hemit; [simpl; lia|apply AppendRune_valid]].
    destruct t2 as [|b [|u [|b1 [|b2 [|b3 [|b4 t3]]]]]]; try (apply Hemit; [simpl; lia|done]).
    repeat case_match; apply Hemit; try apply AppendRune_valid; simpl; lia.
  - case_match; [done|]. destruct (byte_val c <? 128) eqn:E.
    { apply Z.ltb_lt in E. apply Hemit; [simpl; lia|]. rewrite (Valid_cons c [] (byte_val c) 0); [done| |left; unfold RuneError; lia].
      unfold DecodeRune. by rewrite (proj2 (Z.ltb_lt _ _)). }
    apply Z.ltb_ge in E. destruct (DecodeRune (c :: t)) as [r w] eqn:HD. cbn [snd].
    destruct w as [|[|k]]; try (apply Hemit; [simpl; lia|done]).
    destruct (DecodeRune_multi c t r _ E HD) as [[_ ?]|[Hw Hpre]]; [lia|].
    assert (length (take (S k) t) = S k) as Hlen by (rewrite length_take; lia).
    pose proof (unquote_skip (take (S k) t) (drop (S k) t)) as Hs. rewrite Hlen, take_drop in Hs. rewrite Hs.
    assert (Valid (c :: take (S k) t) = true) as Hv.
    { apply (Valid_rune c _ r k); [|done]. specialize (Hpre []). cbn [take app] in Hpre. by rewrite app_nil_r in Hpre. }
    assert (yields_valid (unquote 0 (drop (S k) t))) as Hr by (apply IH; rewrite length_drop; simpl; lia).
    destruct (unquote 0 (drop (S k) t)) as [[s' rest]|]; [|done]. simpl. by apply (Valid_app (c :: take (S k) t)).
Qed.

(** ** Numbers *)

(** The bytes [f] takes are all it looks at. *)
Definition takes (f : bytes -> bytes -> result (bytes * bytes)) : Prop :=
  forall acc s a r, f acc s = Ok (a, r) -> exists p, s = p ++ r /\ a = acc ++ p /\ f acc p = Ok (a, []).

Lemma digits_prefix s ds p r : digits s = (ds, p ++ r) -> digits (ds ++ p) = (ds, p).
Proof.
  revert ds. induction s as [|c t IH]; intros ds; simpl.
  { intros [= <- E]. symmetry in E. by apply app_eq_nil in E as [-> _]. }
  destruct (is_digit c) eqn:Hc.
  - destruct (digits t) as [ds' r'] eqn:E. intros [= <- ->]. simpl. by rewrite Hc, (IH ds').
  - intros [= <- E]. destruct p as [|x p]; [done|]. simplify_eq/=. by rewrite Hc.
Qed.

Lemma digits1_takes context k : takes k -> takes (fun acc s => digits1 context acc s k).
Proof.
  intros Hk acc s a r. unfold digits1. destruct (digits s) as [ds r'] eqn:E. pose proof (digits_app _ _ _ E) as ->.
  destruct ds as [|d ds]; [by destruct r'|]. intros (p & -> & -> & Hp)%Hk. exists ((d :: ds) ++ p).
  rewrite (digits_prefix _ _ _ _ E), <- !app_assoc. rewrite <- app_assoc in Hp. done.
Qed.

Lemma ok_takes : takes (fun a r => Ok (a, r)).
Proof. intros acc s a r [= <- <-]. exists []. by rewrite app_nil_r. Qed.

Lemma exponent_takes : takes exponent.
Proof.
  intros acc s a r. destruct s as [|c t]; simpl; [intros [= <- <-]; exists []; by rewrite !app_nil_r|].
  case_decide as Hc; [|intros [= <- <-]; exists []; by rewrite !app_nil_r]. destruct t as [|sg t]; [done|].
  case_decide as Hsg; intros (p & Hs & -> & Hp)%(digits1_takes _ _ ok_takes).
  - subst t. exists (c :: sg :: p). rewrite <- app_assoc in *. simpl. split_and!; [done|done|]. by rewrite !decide_True.
  - exists (c :: p). rewrite Hs. rewrite <- app_assoc in *. simpl. split_and!; [done|done|]. rewrite decide_True by done.
    destruct p as [|x p]; [done|]. simplify_eq/=. by rewrite decide_False.
Qed.

Lemma fraction_takes : takes fraction.
Proof.
  intros acc s a r. destruct s as [|c t]; [intros [= <- <-]; exists []; by rewrite !app_nil_r|]. unfold fraction at 1. case_decide as Hc.
  - intros (p & -> & -> & Hp)%(digits1_takes _ _ exponent_takes). exists (c :: p). rewrite <- app_assoc in *.
    split_and!; [done|done|]. unfold fraction. by rewrite decide_True.
  - intros (p & Hs & -> & Hp)%exponent_takes. exists p. split_and!; [done|done|]. destruct p as [|x p]; [done|].
    simplify_eq/=. by rewrite decide_False.
Qed.

Lemma integer_takes : takes integer.
Proof.
  intros acc s a r. destruct s as [|c t]; [done|]. simpl. case_decide as Hc.
  - intros (p & -> & -> & Hp)%fraction_takes. exists (c :: p). rewrite <- app_assoc in *. simpl. by rewrite decide_True.
  - destruct (is_digit c) eqn:Hd; [|done]. destruct (digits t) as [ds r'] eqn:E. pose proof (digits_app _ _ _ E) as ->.
    intros (p & -> & -> & Hp)%fraction_takes. exists (c :: ds ++ p). simpl.
    rewrite decide_False, Hd, (digits_prefix _ _ _ _ E) by done. rewrite <- app_assoc in *. simpl. by rewrite <- app_assoc.
Qed.

Lemma number_accepts s lit r : number s = Ok (lit, r) -> number_ok lit = true.
Proof.
  unfold number_ok. intros H. enough (number lit = Ok (lit, [])) as -> by (by apply bool_decide_eq_true).
  destruct s as [|c t]; [done|]. unfold number in H. case_decide as Hc.
  - apply integer_takes in H as (p & -> & -> & Hp). simpl. by rewrite decide_True.
  - apply integer_takes in H as (p & Hs & -> & Hp). simpl. destruct p as [|x p]; [done|].
    simplify_eq/=. by rewrite decide_False.
Qed.

(** ** Documents *)

(** What the three scanners yield at nesting [d]. *)
Definition fits (d : Z) (j : json) : Prop := wf j = true /\ d + depth j <= maxNestingDepth.
Definition sound {A} (P : A -> Prop) (r : result (A * bytes)) : Prop := match r with Ok p => P p.1 | Err _ => True end.
Definition member_fits (d : Z) (kv : bytes * json) : Prop := Valid kv.1 = true /\ fits d kv.2.

Lemma sound_bind {A B} (P : A -> Prop) (Q : B -> Prop) (r : result (A * bytes)) (f : A * bytes -> result (B * bytes)) :
  sound P r -> (forall p, P p.1 -> sound Q (f p)) -> sound Q (result_bind r f).
Proof. destruct r; simpl; auto. Qed.

Lemma max_below l d : d <= maxNestingDepth -> Forall (fun x => d + x <= maxNestingDepth) l -> d + foldr Z.max 0 l <= maxNestingDepth.
Proof. intros Hd. induction 1; simpl; lia. Qed.

Lemma fits_arr d l : d + 1 <= maxNestingDepth -> Forall (fits (d + 1)) l -> fits d (JArr l).
Proof.
  intros Hd H. split; simpl.
  - apply forallb_forall. intros x Hx%list_elem_of_In. by apply (proj1 (Forall_forall _ _) H).
  - rewrite Z.add_assoc. apply max_below; [done|]. apply Forall_map. eapply Forall_impl; [exact H|]. by intros x [_ ?].
Qed.

Lemma fits_obj d l : d + 1 <= maxNestingDepth -> Forall (member_fits (d + 1)) l -> fits d (JObj l).
Proof.
  intros Hd H. split; simpl.
  - apply forallb_forall. intros x Hx%list_elem_of_In. apply (proj1 (Forall_forall _ _) H) in Hx as [Hk [Hv _]].
    by rewrite Hk, Hv.
  - rewrite Z.add_assoc. apply max_below; [done|]. apply Forall_map. eapply Forall_impl; [exact H|]. by intros x (_ & _ & ?).
Qed.

Lemma scan_sound fuel :
  (forall d s, d <= maxNestingDepth -> sound (fits d) (value fuel d s)) /\
  (forall d s, d <= maxNestingDepth -> sound (Forall (member_fits d)) (members fuel d s)) /\
  (forall d s, d <= maxNestingDepth -> sound (Forall (fits d)) (elements fuel d s)).
Proof.
  induction fuel as [|f (IHv & IHm & IHe)]; [done|]. split_and!; intros d s Hd.
  - cbn [value]. destruct (skip_ws s) as [|c t]; [done|]. unfold push.
    assert (forall b, fits d (JBool b)) by (intros b; split; simpl; lia).
    assert (fits d JNull) by (split; simpl; lia).
    assert (sound (fits d) (p <-? number (c :: t); Ok (JNum p.1, p.2))).
    { destruct (number (c :: t)) as [[lit r]|] eqn:E; [|done]. split; [by eapply number_accepts|simpl; lia]. }
    assert (sound (fits d) (p <-? unquote 0 t; Ok (JStr p.1, p.2))).
    { pose proof (unquote_valid t) as Hu. destruct (unquote 0 t) as [[u r]|]; [|done]. split; [done|simpl; lia]. }
    assert (forall (j : json) c l, fits d j -> sound (fits d) (r <-? literal c l t; Ok (j, r)))
      by (intros j c' l Hj; by destruct (literal c' l t)).
    repeat (case_match; auto; try done).
    all: match goal with H : (_ <? _) = false |- _ => apply Z.ltb_ge in H end.
    + by apply fits_obj.
    + eapply sound_bind; [by apply IHm|]. intros p Hp. by apply fits_obj.
    + by apply fits_arr.
    + eapply sound_bind; [by apply IHe|]. intros p Hp. by apply fits_arr.
  - cbn [members]. destruct s as [|c t]; [done|]. destruct (negb _); [done|].
    eapply (sound_bind (fun k => Valid k = true)).
    { pose proof (unquote_valid t) as Hu. by destruct (unquote 0 t). }
    intros k Hk. destruct (skip_ws k.2) as [|c1 t1]; [done|]. destruct (negb _); [done|].
    eapply sound_bind; [by apply IHv|]. intros v Hv. destruct (skip_ws v.2) as [|c2 t2]; [done|].
    case_decide; [by apply Forall_singleton|]. case_decide; [|done].
    eapply sound_bind; [by apply IHm|]. intros p Hp. by constructor.
  - cbn [elements]. eapply sound_bind; [by apply IHv|]. intros v Hv. destruct (skip_ws v.2) as [|c2 t2]; [done|].
    case_decide; [by apply Forall_singleton|]. case_decide; [|done].
    eapply sound_bind; [by apply IHe|]. intros p Hp. by constructor.
Qed.

Lemma parse_accepts s j : parse s = Ok j -> wf j = true /\ depth j <= maxNestingDepth.
Proof.
  unfold parse. destruct (scan_sound (S (2 * length s))) as [Hv _]. specialize (Hv 0 s ltac:(unfold maxNestingDepth; lia)).
  destruct (value _ _ _) as [p|e]; simpl in *; [|done]. case_match; [|done]. intros [= <-]. exact Hv.
Qed.

Lemma parse_canonical s j : parse s = Ok j -> parse (compact j) = Ok j /\ parse (indented j) = Ok j.
Proof. intros [Hw Hd]%parse_accepts. split; [by apply parse_compact|by apply parse_indented]. Qed.

End JsonAccept.
