(* ===== verification/Reflect.v ===== *)
(** * json.Marshal and json.Unmarshal by reflection

    encoding/json walks a value along its Go type.  [gotype] is the part of
    the reflected type the agent's messages use, [goval] a value of such a
    type; a slice keeps, behind its visible elements, the spare cells of its
    backing array, which a repeated key can make visible again.  [decode] is
    the decoder's treatment of every pair of JSON value and Go type: unknown
    keys are dropped, a key matches a field by name and then by its folded
    name, null clears what can be nil and leaves the rest, a mismatch is
    recorded and decoding goes on. *)

From S2P Require Import Prelude GoLib Strconv Json JsonAccept.

Local Open Scope Z_scope.
Local Open Scope go_scope.

Module Reflect.

Import Json.

(** A JSON field: the name and the omitempty of its tag. *)
Record field := { f_name : string; f_omitempty : bool }.

Unset Elimination Schemes.
Inductive gotype : Type :=
| TString
| TBool
| TInt (bits : Z)
| TUint (bits : Z)
| TSlice (t : gotype)
| TMap (t : gotype)
| TPtr (t : gotype)
| TStruct (fs : list (field * gotype)).

Inductive goval : Type :=
| GString (s : bytes)
| GBool (b : bool)
| GInt (z : Z)
| GNil                                  (* the nil slice, map or pointer *)
| GSlice (vis spare : list goval)
| GMap (l : list (bytes * goval))
| GPtr (v : goval)
| GStruct (vs : list goval).
Set Elimination Schemes.

Fixpoint zero (ty : gotype) : goval :=
  match ty with
  | TString => GString []
  | TBool => GBool false
  | TInt _ | TUint _ => GInt 0
  | TSlice _ | TMap _ | TPtr _ => GNil
  | TStruct fs => GStruct (map (fun f => zero f.2) fs)
  end.

(** ** Unmarshal *)

(** UnmarshalTypeError, with the JSON kind it names. *)
Definition typeError (kind : string) : error := Errorf "json: cannot unmarshal %s into Go value" [EStr kind].

Definition first_error (a b : gerr) : gerr := match a with Some _ => a | None => b end.

(** [indirect]: the value behind the pointers, allocated where they are nil,
    and how to put a new value in its place. *)
Fixpoint indirect (ty : gotype) (v : goval) : gotype * goval * (goval -> goval) :=
  match ty with
  | TPtr t =>
      let '(base, v0, put) := indirect t (match v with GPtr v' => v' | _ => zero t end) in
      (base, v0, fun x => GPtr (put x))
  | _ => (ty, v, fun x => x)
  end.

(** [foldName] on the runes: ASCII letters are upper-cased; the long s and the
    Kelvin sign are the other runes that fold to an ASCII letter. *)
Definition foldRune (r : Z) : Z :=
  if (97 <=? r) && (r <=? 122) then r - 32 else if r =? 383 then 83 else if r =? 8490 then 75 else r.

Definition foldName (s : bytes) : list Z := foldRune ∘ fst <$> runes s.

Definition field_index (fs : list (field * gotype)) (k : bytes) : option (nat * gotype) :=
  match list_find (fun f => chars (f_name f.1) = k) fs with
  | Some (i, f) => Some (i, f.2)
  | None => (fun x => (x.1, x.2.2)) <$> list_find (fun f => foldName (chars (f_name f.1)) = foldName k) fs
  end.

Fixpoint map_set (k : bytes) (v : goval) (l : list (bytes * goval)) : list (bytes * goval) :=
  match l with
  | [] => [(k, v)]
  | (k', v') :: l' => if decide (k' = k) then (k, v) :: l' else (k', v') :: map_set k v l'
  end.

Definition in_int (bits z : Z) : bool := (- 2 ^ (bits - 1) <=? z) && (z <? 2 ^ (bits - 1)).
Definition in_uint (bits z : Z) : bool := (0 <=? z) && (z <? 2 ^ bits).

(** [literalStore] of a number: parsed at 64 bits, then the overflow check. *)
Definition store_number (lit : bytes) (ty : gotype) (v : goval) : goval * gerr :=
  match ty with
  | TInt bits =>
      match ParseInt (str lit) 64 with
      | (n, None) => if in_int bits n then (GInt n, None) else (v, Some (typeError ("number " +:+ str lit)))
      | _ => (v, Some (typeError ("number " +:+ str lit)))
      end
  | TUint bits =>
      match ParseUint (str lit) 64 with
      | (n, None) => if in_uint bits n then (GInt n, None) else (v, Some (typeError ("number " +:+ str lit)))
      | _ => (v, Some (typeError ("number " +:+ str lit)))
      end
  | _ => (v, Some (typeError "number"))
  end.

Definition cells (v : goval) : list goval := match v with GSlice vis spare => vis ++ spare | _ => [] end.
Definition entries (v : goval) : list (bytes * goval) := match v with GMap l => l | _ => [] end.
Definition fields (v : goval) : list goval := match v with GStruct vs => vs | _ => [] end.

(** The loops of [array] and [object], over the decoder of one value: the
    elements into the cells of the slice, the members into the fields of the
    struct, the entries into the map. *)
Section loops.
Context (dec : json -> gotype -> goval -> goval * gerr).

Definition decode_elems (t : gotype) : list json -> list goval -> list goval * gerr :=
  fix elems l cs :=
    match l with
    | [] => ([], None)
    | j :: l' =>
        let '(x, e) := dec j t (default (zero t) (head cs)) in
        let '(xs, e') := elems l' (tail cs) in (x :: xs, first_error e e')
    end.

Definition decode_members (fs : list (field * gotype)) : list (bytes * json) -> list goval -> list goval * gerr :=
  fix members l vs :=
    match l with
    | [] => (vs, None)
    | (k, j) :: l' =>
        match field_index fs k with
        | None => members l' vs
        | Some (i, t) =>
            let '(x, e) := dec j t (default (zero t) (vs !! i)) in
            let '(vs', e') := members l' (<[i:=x]> vs) in (vs', first_error e e')
        end
    end.

Definition decode_entries (t : gotype) : list (bytes * json) -> list (bytes * goval) -> list (bytes * goval) * gerr :=
  fix entries l m :=
    match l with
    | [] => (m, None)
    | (k, j) :: l' =>
        let '(x, e) := dec j t (zero t) in
        let '(m', e') := entries l' (map_set k x m) in (m', first_error e e')
    end.
End loops.

Fixpoint decode (j : json) (ty : gotype) (v : goval) {struct j} : goval * gerr :=
  match j with
  | JNull => (match ty with TSlice _ | TMap _ | TPtr _ => GNil | _ => v end, None)
  | _ =>
      let '(base, v0, put) := indirect ty v in
      let '(x, e) :=
        match j, base with
        | JNull, _ => (v0, None)
        | JBool b, TBool => (GBool b, None)
        | JBool _, _ => (v0, Some (typeError "bool"))
        | JNum lit, _ => store_number lit base v0
        | JStr s, TString => (GString s, None)
        | JStr _, _ => (v0, Some (typeError "string"))
        | JArr l, TSlice t =>
            let '(xs, e) := decode_elems decode t l (cells v0) in
            (GSlice xs (match l with [] => [] | _ => drop (length l) (cells v0) end), e)
        | JArr _, _ => (v0, Some (typeError "array"))
        | JObj l, TStruct fs => let '(vs, e) := decode_members decode fs l (fields v0) in (GStruct vs, e)
        | JObj l, TMap t => let '(m, e) := decode_entries decode t l (entries v0) in (GMap m, e)
        | JObj _, _ => (v0, Some (typeError "object"))
        end in
      (put x, e)
  end.

(** json.Unmarshal into a value: the text is checked first, and a mismatch
    does not stop the decoding. *)
Definition UnmarshalInto (data : bytes) (ty : gotype) (v : goval) : goval * gerr :=
  match parse data with
  | Err e => (v, Some e)
  | Ok j => decode j ty v
  end.

Definition Unmarshal (data : bytes) (ty : gotype) : result goval :=
  match UnmarshalInto data ty (zero ty) with
  | (v, None) => Ok v
  | (_, Some e) => Err e
  end.

(** ** Marshal *)

(** [isEmptyValue]. *)
Definition isEmpty (v : goval) : bool :=
  match v with
  | GString s => bool_decide (s = [])
  | GBool b => negb b
  | GInt z => z =? 0
  | GNil => true
  | GSlice vis _ => bool_decide (vis = [])
  | GMap l => match l with [] => true | _ => false end
  | GPtr _ | GStruct _ => false
  end.

Definition omitted (f : field) (v : goval) : bool := f_omitempty f && isEmpty v.

(** [strings.Compare] on the keys of a map. *)
Fixpoint bytes_leb (a b : bytes) : bool :=
  match a, b with
  | [], _ => true
  | _ :: _, [] => false
  | x :: a', y :: b' => (byte_val x <? byte_val y) || ((byte_val x =? byte_val y) && bytes_leb a' b')
  end.

Definition key_le {A} (x y : bytes * A) : Prop := bytes_leb x.1 y.1 = true.
#[export] Instance key_le_dec {A} : RelDecision (@key_le A).
Proof. intros x y. unfold key_le. apply _. Defined.

Definition sort_keys {A} (l : list (bytes * A)) : list (bytes * A) := merge_sort key_le l.

(** The members of a struct, from the encoder of one value. *)
Definition encode_fields (enc : gotype -> goval -> json) : list (field * gotype) -> list goval -> list (bytes * json) :=
  fix go fs vs :=
    match fs, vs with
    | (f, t) :: fs', v :: vs' =>
        if omitted f v then go fs' vs' else (chars (f_name f), enc t v) :: go fs' vs'
    | _, _ => []
    end.

Fixpoint encode (ty : gotype) (v : goval) : json :=
  match ty, v with
  | TString, GString s => JStr s
  | TBool, GBool b => JBool b
  | (TInt _ | TUint _), GInt z => JNum (chars (Itoa z))
  | TSlice t, GSlice vis _ => JArr (map (encode t) vis)
  | TMap t, GMap l => JObj (map (fun kv => (kv.1, encode t kv.2)) (sort_keys l))
  | TPtr t, GPtr v' => encode t v'
  | TStruct fs, GStruct vs => JObj (encode_fields encode fs vs)
  | _, _ => JNull
  end.

Definition Marshal (ty : gotype) (v : goval) : bytes := compact (encode ty v).
Definition MarshalIndent (ty : gotype) (v : goval) : bytes := indented (encode ty v).

(** ** Typing *)

Lemma gotype_ind (P : gotype -> Prop) :
  P TString -> P TBool -> (forall b, P (TInt b)) -> (forall b, P (TUint b)) ->
  (forall t, P t -> P (TSlice t)) -> (forall t, P t -> P (TMap t)) -> (forall t, P t -> P (TPtr t)) ->
  (forall fs, Forall (fun f => P f.2) fs -> P (TStruct fs)) -> forall ty, P ty.
Proof.
  intros Hs Hb Hi Hu Hsl Hm Hp Hst. fix IH 1.
  intros [| | | |t|t|t|fs]; [done|done|apply Hi|apply Hu|apply Hsl, IH|apply Hm, IH|apply Hp, IH|].
  apply Hst. induction fs as [|[f t] fs IHfs]; constructor; [apply IH|done].
Qed.

Fixpoint all2 {A B} (p : A -> B -> bool) (l : list A) (m : list B) : bool :=
  match l, m with
  | [], [] => true
  | x :: l', y :: m' => p x y && all2 p l' m'
  | _, _ => false
  end.

(** The values of a type, their strings restricted by [ok]. *)
Fixpoint has_type (ok : bytes -> bool) (ty : gotype) (v : goval) : bool :=
  match ty, v with
  | TString, GString s => ok s
  | TBool, GBool _ => true
  | TInt bits, GInt z => in_int bits z
  | TUint bits, GInt z => in_uint bits z
  | (TSlice _ | TMap _ | TPtr _), GNil => true
  | TSlice t, GSlice vis spare => forallb (has_type ok t) (vis ++ spare)
  | TMap t, GMap l => forallb (fun kv => ok kv.1 && has_type ok t kv.2) l && bool_decide (NoDup l.*1)
  | TPtr t, GPtr v' => has_type ok t v'
  | TStruct fs, GStruct vs => all2 (fun f v' => has_type ok f.2 v') fs vs
  | _, _ => false
  end.

(** The types in use: widths of Go, pointers to structs, no repeated name. *)
Fixpoint wf_type (ty : gotype) : bool :=
  match ty with
  | TString | TBool => true
  | TInt bits | TUint bits => (0 <? bits) && (bits <=? 64)
  | TSlice t | TMap t => wf_type t
  | TPtr t => match t with TStruct _ => wf_type t | _ => false end
  | TStruct fs => forallb (fun f => Valid (chars (f_name f.1)) && wf_type f.2) fs && bool_decide (NoDup (f_name ∘ fst <$> fs))
  end.

Fixpoint type_depth (ty : gotype) : Z :=
  match ty with
  | TSlice t | TMap t => 1 + type_depth t
  | TPtr t => type_depth t
  | TStruct fs => 1 + foldr Z.max 0 (map (fun f => type_depth f.2) fs)
  | _ => 0
  end.

Lemma all2_Forall2 {A B} (p : A -> B -> bool) l m : all2 p l m = true <-> Forall2 (fun x y => p x y = true) l m.
Proof.
  revert m. induction l as [|x l IH]; intros [|y m]; simpl; try (split; intros H; by inversion H).
  rewrite andb_true_iff, IH. split; [intros []; by constructor|intros H; by inversion H].
Qed.

Lemma zero_typed ok ty : ok [] = true -> wf_type ty = true -> has_type ok ty (zero ty) = true.
Proof.
  intros Hok. induction ty as [| |b|b| | | |fs IH] using gotype_ind; simpl; try done.
  - intros [H1 H2]%andb_true_iff. to_prop. unfold in_int. assert (0 < 2 ^ (b - 1)) by (apply Z.pow_pos_nonneg; lia).
    apply andb_true_iff. rewrite Z.leb_le, Z.ltb_lt. lia.
  - intros [H1 H2]%andb_true_iff. to_prop. unfold in_uint. assert (0 < 2 ^ b) by (apply Z.pow_pos_nonneg; lia).
    apply andb_true_iff. rewrite Z.leb_le, Z.ltb_lt. lia.
  - intros [H _]%andb_true_iff. apply all2_Forall2. induction IH as [|f fs Hf _ IHfs]; [constructor|].
    simpl in H. apply andb_true_iff in H as [[_ H1]%andb_true_iff H2]. constructor; auto.
Qed.

(** ** Decoding keeps the type *)

Lemma forallb_app_iff {A} (p : A -> bool) l m : forallb p (l ++ m) = true <-> forallb p l = true /\ forallb p m = true.
Proof. by rewrite forallb_app, andb_true_iff. Qed.

Lemma map_set_keys k v l : (map_set k v l).*1 = if decide (k ∈ l.*1) then l.*1 else l.*1 ++ [k].
Proof.
  induction l as [|[k' v'] l IH]; [by rewrite decide_False by set_solver|]. cbn [map_set].
  destruct (decide (k' = k)) as [->|Hne]; [by rewrite decide_True by set_solver|].
  rewrite fmap_cons, IH. rewrite fmap_cons. cbn [fst].
  destruct (decide (k ∈ l.*1)); [rewrite decide_True by set_solver|rewrite decide_False by set_solver]; done.
Qed.

Lemma map_set_NoDup k v l : NoDup l.*1 -> NoDup (map_set k v l).*1.
Proof.
  intros H. rewrite map_set_keys. case_decide; [done|]. apply NoDup_app. split_and!; [done|set_solver|apply NoDup_singleton].
Qed.

Lemma map_set_forallb p k v l : p (k, v) = true -> forallb p l = true -> forallb p (map_set k v l) = true.
Proof.
  intros Hp. induction l as [|[k' v'] l IH]; simpl; [by rewrite Hp|]. intros [H1 H2]%andb_true_iff.
  case_decide; simpl; [by rewrite Hp, H2|]. by rewrite H1, IH.
Qed.

(** The strings and keys of a JSON value. *)
Fixpoint strings_ok (ok : bytes -> bool) (j : json) : bool :=
  match j with
  | JStr s => ok s
  | JArr l => forallb (strings_ok ok) l
  | JObj l => forallb (fun kv => ok kv.1 && strings_ok ok kv.2) l
  | _ => true
  end.

Lemma strings_any j : strings_ok (fun _ => true) j = true.
Proof.
  induction j as [| | | |l IH|l IH] using json_ind; simpl; try done; induction IH as [|x l Hx _ IHl]; simpl; [done| |done|];
    by rewrite Hx.
Qed.

Lemma field_index_Some fs k i t : field_index fs k = Some (i, t) -> exists f, fs !! i = Some (f, t).
Proof.
  unfold field_index. destruct (list_find _ fs) as [[i' [f t']]|] eqn:E.
  - intros [= <- <-]. apply list_find_Some in E as [E _]. eauto.
  - destruct (list_find (fun f => foldName _ = _) fs) as [[i' [f t']]|] eqn:E'; [|done].
    intros [= <- <-]. apply list_find_Some in E' as [E' _]. eauto.
Qed.

Section typing.
Context (ok : bytes -> bool) (ok_nil : ok [] = true).

(** The types behind pointers. *)
Lemma indirect_typed ty v : wf_type ty = true -> has_type ok ty v = true ->
  let '(base, v0, put) := indirect ty v in
  wf_type base = true /\ has_type ok base v0 = true /\ forall x, has_type ok base x = true -> has_type ok ty (put x) = true.
Proof using ok_nil.
  revert v. induction ty as [| |b|b|t _|t _|t IH|fs _] using gotype_ind; intros v Hw Hv; try (by split_and!).
  assert (wf_type t = true) as Hwt by (simpl in Hw; by destruct t).
  cbn [indirect]. specialize (IH (match v with GPtr v' => v' | _ => zero t end) Hwt).
  destruct (indirect t _) as [[base v0] put]. apply IH. destruct v; try (by apply zero_typed). done.
Qed.

Lemma store_number_typed lit ty v : wf_type ty = true -> has_type ok ty v = true ->
  has_type ok ty (store_number lit ty v).1 = true.
Proof.
  intros Hw Hv. destruct ty; try done; unfold store_number.
  - destruct (ParseInt _ _) as [n [e|]]; [done|]. by destruct (in_int bits n) eqn:E.
  - destruct (ParseUint _ _) as [n [e|]]; [done|]. by destruct (in_uint bits n) eqn:E.
Qed.

Lemma decode_members_cons fs k j l vs : decode_members decode fs ((k, j) :: l) vs =
  match field_index fs k with
  | None => decode_members decode fs l vs
  | Some (i, t) =>
      let '(x, e) := decode j t (default (zero t) (vs !! i)) in
      let '(vs', e') := decode_members decode fs l (<[i:=x]> vs) in (vs', first_error e e')
  end.
Proof. done. Qed.

Lemma decode_entries_cons t k j l m : decode_entries decode t ((k, j) :: l) m =
  let '(x, e) := decode j t (zero t) in
  let '(m', e') := decode_entries decode t l (map_set k x m) in (m', first_error e e').
Proof. done. Qed.

Definition dec_typed (j : json) : Prop := strings_ok ok j = true -> forall ty v,
  wf_type ty = true -> has_type ok ty v = true -> has_type ok ty (decode j ty v).1 = true.

Lemma decode_elems_typed t l : wf_type t = true -> Forall dec_typed l -> forallb (strings_ok ok) l = true -> forall cs,
  forallb (has_type ok t) cs = true -> forallb (has_type ok t) (decode_elems decode t l cs).1 = true.
Proof using ok_nil.
  intros Hw. induction 1 as [|j l Hj _ IH]; intros Hl cs Hcs; [done|]. simpl in *. apply andb_true_iff in Hl as [Hl1 Hl2].
  assert (has_type ok t (default (zero t) (head cs)) = true) as Hc.
  { destruct cs; simpl in *; [by apply zero_typed|]. by apply andb_true_iff in Hcs as [? _]. }
  specialize (Hj Hl1 t _ Hw Hc). specialize (IH Hl2 (tail cs)).
  destruct (decode j t _) as [x e], (decode_elems _ _ _ _) as [xs e']. simpl in *. rewrite Hj. apply IH.
  destruct cs; [done|]. by apply andb_true_iff in Hcs as [_ ?].
Qed.

Lemma fields_insert fs vs i f t x : fs !! i = Some (f, t) -> has_type ok t x = true ->
  has_type ok (TStruct fs) (GStruct vs) = true -> has_type ok (TStruct fs) (GStruct (<[i:=x]> vs)) = true.
Proof.
  intros Hi Hx. cbn [has_type]. rewrite !all2_Forall2. intros H. apply Forall2_same_length_lookup.
  rewrite length_insert. apply Forall2_same_length_lookup in H as [Hlen H]. split; [done|]. intros k fk y Hfk Hy.
  apply list_lookup_insert_Some in Hy as [(-> & <- & _)|[_ Hy]]; [by simplify_eq|eauto].
Qed.

Lemma decode_members_typed fs l : wf_type (TStruct fs) = true -> Forall (fun kv => dec_typed kv.2) l ->
  forallb (fun kv => ok kv.1 && strings_ok ok kv.2) l = true -> forall vs, has_type ok (TStruct fs) (GStruct vs) = true ->
  has_type ok (TStruct fs) (GStruct (decode_members decode fs l vs).1) = true.
Proof using ok_nil.
  intros Hw. induction 1 as [|[k j] l Hj _ IH]; intros Hl vs Hvs; [done|]. simpl in Hl.
  apply andb_true_iff in Hl as [[_ Hl1]%andb_true_iff Hl2]. rewrite decode_members_cons.
  destruct (field_index fs k) as [[i t]|] eqn:Ei; [|by apply IH].
  apply field_index_Some in Ei as [f Hf].
  assert (wf_type t = true) as Hwt.
  { cbn [wf_type] in Hw. apply andb_true_iff in Hw as [Hw _]. rewrite forallb_forall in Hw.
    specialize (Hw (f, t) (proj1 (list_elem_of_In _ _) (list_elem_of_lookup_2 _ _ _ Hf))). by apply andb_true_iff in Hw as [_ ?]. }
  assert (has_type ok t (default (zero t) (vs !! i)) = true) as Hv.
  { destruct (vs !! i) as [v|] eqn:Ev; [|by apply zero_typed]. cbn [has_type] in Hvs. apply all2_Forall2 in Hvs.
    exact (Forall2_lookup_lr _ _ _ _ _ _ Hvs Hf Ev). }
  specialize (Hj Hl1 t _ Hwt Hv). cbn [snd] in *. destruct (decode j t _) as [x e]. specialize (IH Hl2 (<[i:=x]> vs)).
  destruct (decode_members _ _ _ _) as [vs' e']. apply IH. by eapply fields_insert.
Qed.

Lemma decode_entries_typed t l : wf_type t = true -> Forall (fun kv => dec_typed kv.2) l ->
  forallb (fun kv => ok kv.1 && strings_ok ok kv.2) l = true -> forall m, has_type ok (TMap t) (GMap m) = true ->
  has_type ok (TMap t) (GMap (decode_entries decode t l m).1) = true.
Proof using ok_nil.
  intros Hw. induction 1 as [|[k j] l Hj _ IH]; intros Hl m Hm; [done|]. simpl in Hl.
  apply andb_true_iff in Hl as [[Hk Hl1]%andb_true_iff Hl2]. rewrite decode_entries_cons.
  specialize (Hj Hl1 t _ Hw (zero_typed ok t ok_nil Hw)). cbn [snd] in *. destruct (decode j t _) as [x e].
  specialize (IH Hl2 (map_set k x m)). destruct (decode_entries _ _ _ _) as [m' e']. apply IH.
  cbn [has_type] in *. apply andb_true_iff in Hm as [Hm1 Hm2]. to_prop.
  apply andb_true_iff. split; [apply map_set_forallb; [simpl in *; by rewrite Hk|done]|].
  apply bool_decide_eq_true. by apply map_set_NoDup.
Qed.

Lemma decode_typed j : dec_typed j.
Proof using ok_nil.
  induction j as [|b|lit|s|l IH|l IH] using json_ind; intros Hj ty v Hw Hv; [by destruct ty|..];
    cbn [decode]; pose proof (indirect_typed ty v Hw Hv) as Hi; destruct (indirect ty v) as [[base v0] put];
    destruct Hi as (Hwb & Hv0 & Hput).
  - destruct base; by apply Hput.
  - pose proof (store_number_typed lit base v0 Hwb Hv0) as Hs. destruct (store_number _ _ _) as [x e]. by apply Hput.
  - destruct base; by apply Hput.
  - destruct base as [| | | |t|t|t|fs]; try by apply Hput.
    assert (forallb (has_type ok t) (cells v0) = true) as Hc by (by destruct v0).
    pose proof (decode_elems_typed t l Hwb IH Hj (cells v0) Hc) as He.
    destruct (decode_elems _ _ _ _) as [xs e]. apply Hput. simpl. apply forallb_app_iff. split; [done|].
    destruct l as [|j l]; [done|]. rewrite <- (take_drop (length (j :: l)) (cells v0)) in Hc. by apply forallb_app_iff in Hc as [_ ?].
  - destruct base as [| | | |t|t|t|fs]; try by apply Hput.
    + assert (has_type ok (TMap t) (GMap (entries v0)) = true) as Hm by (by destruct v0).
      pose proof (decode_entries_typed t l Hwb IH Hj _ Hm) as He. destruct (decode_entries _ _ _ _). by apply Hput.
    + destruct v0 as [| | | | | | |vs]; try done. pose proof (decode_members_typed fs l Hwb IH Hj vs Hv0) as He.
      simpl. destruct (decode_members _ _ _ _). by apply Hput.
Qed.

End typing.

(** ** Marshal, then Unmarshal

    What comes back is the value itself up to what JSON does not carry: the
    spare cells of a slice, the order of a map, and, under omitempty, the
    difference between nil and empty. *)

Definition norm_fields (norm : gotype -> goval -> goval) : list (field * gotype) -> list goval -> list goval :=
  fix go fs vs :=
    match fs, vs with
    | (f, t) :: fs', v :: vs' => (if omitted f v then zero t else norm t v) :: go fs' vs'
    | _, _ => []
    end.

Fixpoint norm (ty : gotype) (v : goval) : goval :=
  match ty, v with
  | TSlice t, GSlice vis _ => GSlice (map (norm t) vis) []
  | TMap t, GMap l => GMap (map (fun kv => (kv.1, norm t kv.2)) (sort_keys l))
  | TPtr t, GPtr v' => GPtr (norm t v')
  | TStruct fs, GStruct vs => GStruct (norm_fields norm fs vs)
  | _, _ => v
  end.

Lemma field_index_here pre f t post : NoDup (f_name ∘ fst <$> pre ++ (f, t) :: post) ->
  field_index (pre ++ (f, t) :: post) (chars (f_name f)) = Some (length pre, t).
Proof.
  rewrite fmap_app, fmap_cons. intros (_ & Hd & _)%NoDup_app. unfold field_index.
  assert (list_find (fun g => chars (f_name g.1) = chars (f_name f)) (pre ++ (f, t) :: post) = Some (length pre, (f, t))) as ->;
    [|done].
  apply list_find_Some. split_and!; [by rewrite list_lookup_middle|done|]. intros k y Hk Hlt.
  rewrite lookup_app_l in Hk by done. intros E%(inj chars). apply (Hd (f_name f)); [|set_solver].
  apply list_elem_of_fmap. exists y. split; [done|]. by eapply list_elem_of_lookup_2.
Qed.

Definition roundtrips (ty : gotype) : Prop := forall v, wf_type ty = true -> has_type Valid ty v = true ->
  decode (encode ty v) ty (zero ty) = (norm ty v, None).

Lemma elems_roundtrip t vis : roundtrips t -> wf_type t = true -> forallb (has_type Valid t) vis = true ->
  decode_elems decode t (map (encode t) vis) [] = (map (norm t) vis, None).
Proof.
  intros IH Hw. induction vis as [|v vis IHv]; simpl; [done|]. intros [Hv Hvis]%andb_true_iff.
  rewrite IH by done. by rewrite IHv.
Qed.

Lemma map_set_new k v l : k ∉ l.*1 -> map_set k v l = l ++ [(k, v)].
Proof.
  induction l as [|[k' v'] l IH]; simpl; [done|]. intros Hk. rewrite decide_False by set_solver. rewrite IH; set_solver.
Qed.

Lemma entries_roundtrip t l m : roundtrips t -> wf_type t = true ->
  forallb (fun kv => Valid kv.1 && has_type Valid t kv.2) l = true -> NoDup (m.*1 ++ l.*1) ->
  decode_entries decode t (map (fun kv => (kv.1, encode t kv.2)) l) m =
  (m ++ map (fun kv => (kv.1, norm t kv.2)) l, None).
Proof.
  intros IH Hw. revert m. induction l as [|[k v] l IHl]; intros m Hl Hnd; [by rewrite app_nil_r|].
  simpl in Hl. apply andb_true_iff in Hl as [[Hk Hv]%andb_true_iff Hl]. cbn [map fst snd]. rewrite decode_entries_cons.
  rewrite IH by done. rewrite map_set_new.
  - rewrite IHl; [by rewrite <- app_assoc|done|]. rewrite fmap_app, <- app_assoc. done.
  - apply NoDup_app in Hnd as (_ & Hd & _). intros Hin. apply (Hd k Hin). set_solver.
Qed.

Lemma members_roundtrip fs : Forall (fun f => roundtrips f.2) fs -> forall pre done vs,
  length pre = length done -> forallb (fun f => Valid (chars (f_name f.1)) && wf_type f.2) fs = true ->
  NoDup (f_name ∘ fst <$> done ++ fs) -> all2 (fun f v => has_type Valid f.2 v) fs vs = true ->
  decode_members decode (done ++ fs) (encode_fields encode fs vs) (pre ++ map (fun f => zero f.2) fs) =
  (pre ++ norm_fields norm fs vs, None).
Proof.
  induction 1 as [|[f t] fs Hf _ IH]; intros pre done vs Hlen Hw Hnd Hvs; [by destruct vs|].
  destruct vs as [|v vs]; [done|]. simpl in Hvs, Hw. apply andb_true_iff in Hvs as [Hv Hvs].
  apply andb_true_iff in Hw as [[_ Hwt]%andb_true_iff Hw]. cbn [snd] in *.
  specialize (IH (pre ++ [if omitted f v then zero t else norm t v]) (done ++ [(f, t)]) vs).
  rewrite <- !app_assoc in IH. cbn [app] in IH.
  specialize (IH ltac:(rewrite !length_app; simpl; lia) Hw Hnd Hvs).
  cbn [encode_fields norm_fields map snd].
  destruct (omitted f v); [exact IH|]. rewrite decode_members_cons, field_index_here by done.
  rewrite <- Hlen, list_lookup_middle by done. cbn [default]. rewrite Hf by done.
  rewrite insert_app_r_alt by lia. rewrite Nat.sub_diag.
  change (<[0%nat:=norm t v]> (zero t :: map (fun f0 => zero f0.2) fs)) with (norm t v :: map (fun f0 => zero f0.2) fs).
  by rewrite IH.
Qed.

Lemma sort_keys_perm {A} (l : list (bytes * A)) : sort_keys l ≡ₚ l.
Proof. apply merge_sort_Permutation. Qed.

Lemma forallb_perm {A} (p : A -> bool) l m : l ≡ₚ m -> forallb p l = forallb p m.
Proof.
  induction 1 as [| |x y l|? ? ? ? IH1 ? IH2]; simpl; [done|congruence| |congruence]. by rewrite !andb_assoc, (andb_comm (p y)).
Qed.

Lemma int_roundtrip ty v z : wf_type ty = true -> (exists b, ty = TInt b /\ in_int b z = true) \/ (exists b, ty = TUint b /\ in_uint b z = true) ->
  store_number (chars (Itoa z)) ty v = (GInt z, None).
Proof.
  intros Hw [(b & -> & Hz)|(b & -> & Hz)]; unfold store_number; rewrite str_chars; simpl in Hw;
    apply andb_true_iff in Hw as [Hb1 Hb2]; pose proof Hz as Hz'; apply andb_true_iff in Hz' as [Hz1 Hz2]; to_prop.
  - assert (2 ^ (b - 1) <= 2 ^ (64 - 1)) by (apply Z.pow_le_mono_r; lia). rewrite ParseInt_Itoa by lia. by rewrite Hz.
  - assert (2 ^ b <= 2 ^ 64) by (apply Z.pow_le_mono_r; lia). rewrite ParseUint_Itoa by lia. by rewrite Hz.
Qed.

Lemma decode_inverts ty : roundtrips ty.
Proof.
  induction ty as [| |b|b|t IH|t IH|t IH|fs IH] using gotype_ind; intros v Hw Hv; destruct v; try done.
  - cbn [encode decode indirect]. rewrite int_roundtrip; [done|done|eauto].
  - cbn [encode decode indirect]. rewrite int_roundtrip; [done|done|eauto].
  - cbn [encode decode indirect zero cells]. simpl in Hv, Hw. apply forallb_app_iff in Hv as [Hv _].
    rewrite elems_roundtrip by done. cbn [norm]. do 2 f_equal. by destruct vis.
  - cbn [encode decode indirect zero entries]. simpl in Hv, Hw. apply andb_true_iff in Hv as [Hv Hnd]. to_prop.
    rewrite entries_roundtrip; [done|done|done| |].
    + by rewrite (forallb_perm _ _ _ (sort_keys_perm l)).
    + simpl. by rewrite (sort_keys_perm l).
  - simpl in Hv, Hw. destruct t as [| | | | | | |fs]; try done. specialize (IH v Hw Hv). destruct v; try done.
    cbn [encode decode indirect zero] in *. destruct (decode_members _ _ _ _) as [vs' e].
    cbn [norm] in *. by simplify_eq.
  - cbn [encode decode indirect zero fields]. cbn [wf_type has_type] in *. apply andb_true_iff in Hw as [Hw Hnd]. to_prop.
    pose proof (members_roundtrip fs IH [] [] vs eq_refl Hw Hnd Hv) as H. simpl in H. by rewrite H.
Qed.

(** The JSON value of a message can be printed and read back. *)

Lemma Itoa_number z : number_ok (chars (Itoa z)) = true.
Proof.
  assert (forall a u, (exists d, digit a = Some d /\ 1 <= d) -> Forall (fun c => is_Some (digit c)) u -> forall acc,
    integer acc (a :: u) = Ok (acc ++ a :: u, [])) as Hi.
  { intros a u (d & Hd & Hpos) Hu acc. simpl. rewrite decide_False by (intros ->; vm_compute in Hd; congruence || (injection Hd as <-; lia)).
    unfold is_digit. rewrite Hd.
    assert (digits u = (u, [])) as ->; [|done].
    induction Hu as [|c u [d' Hc] _ IHu]; [done|]. simpl. unfold is_digit. by rewrite Hc, IHu. }
  unfold number_ok. destruct z as [|p|p]; [done| |].
  - destruct (Itoa_head p) as (a & u & E & Ha & Hu). rewrite E. unfold number.
    rewrite decide_False by (intros ->; by destruct Ha as (? & ? & _)). rewrite (Hi a u Ha Hu []). by apply bool_decide_true.
  - rewrite Itoa_neg. destruct (Itoa_head p) as (a & u & E & Ha & Hu). rewrite E. unfold number. rewrite decide_True by done.
    rewrite (Hi a u Ha Hu ["-"%char]). by apply bool_decide_true.
Qed.

Lemma fields_pred (p : bytes * json -> bool) fs vs :
  Forall2 (fun f v => p (chars (f_name f.1), encode f.2 v) = true) fs vs -> forallb p (encode_fields encode fs vs) = true.
Proof.
  induction 1 as [|[f t] v fs vs Hp _ IH]; simpl in *; [done|]. destruct (omitted f v); [done|]. simpl. by rewrite Hp.
Qed.

Lemma wf_encode ty : forall v, wf_type ty = true -> has_type Valid ty v = true -> wf (encode ty v) = true.
Proof.
  induction ty as [| |b|b|t IH|t IH|t IH|fs IH] using gotype_ind; intros v Hw Hv; destruct v; try done.
  - apply Itoa_number.
  - apply Itoa_number.
  - simpl in *. apply forallb_app_iff in Hv as [Hv _]. rewrite forallb_forall in *. intros j Hj.
    apply in_map_iff in Hj as (v & <- & Hin). auto.
  - simpl in *. apply andb_true_iff in Hv as [Hv _]. rewrite <- (forallb_perm _ _ _ (sort_keys_perm l)) in Hv.
    rewrite forallb_forall in *. intros j Hj. apply in_map_iff in Hj as (v & <- & Hin).
    specialize (Hv v Hin). apply andb_true_iff in Hv as [Hk Hv]. simpl. by rewrite Hk, IH.
  - simpl in *. apply IH; [by destruct t|done].
  - cbn [encode wf wf_type has_type] in *. apply fields_pred. apply andb_true_iff in Hw as [Hw _].
    rewrite all2_Forall2 in Hv. induction Hv as [|[f t] v fs vs Hv _ IHv]; [constructor|].
    apply Forall_cons in IH as [IHf IH]. simpl in Hw. apply andb_true_iff in Hw as [[Hn Hwt]%andb_true_iff Hw].
    constructor; [simpl in *; by rewrite Hn, IHf|by apply IHv].
Qed.

Lemma max_bound l n : 0 <= n -> (foldr Z.max 0 l <= n <-> Forall (fun x => x <= n) l).
Proof.
  intros Hn. induction l as [|x l IH]; simpl; [by split; [constructor|]|]. rewrite Forall_cons, <- IH. lia.
Qed.

Lemma type_depth_nonneg ty : 0 <= type_depth ty.
Proof.
  induction ty as [| |b|b|t IH|t IH|t IH|fs IH] using gotype_ind; simpl; try lia.
  pose proof (max_nonneg (map (fun f => type_depth f.2) fs)). lia.
Qed.

Lemma depth_encode ty : forall v, has_type Valid ty v = true -> depth (encode ty v) <= type_depth ty.
Proof.
  induction ty as [| |b|b|t IH|t IH|t IH|fs IH] using gotype_ind; intros v Hv; destruct v; try done;
    try (pose proof (type_depth_nonneg t)); cbn [encode depth type_depth]; try lia.
  - simpl in Hv. apply forallb_app_iff in Hv as [Hv _]. rewrite forallb_forall in Hv.
    enough (foldr Z.max 0 (map depth (map (encode t) vis)) <= type_depth t) by lia.
    apply max_bound; [done|]. rewrite map_map. apply Forall_map, Forall_forall. intros v Hin. apply IH, Hv. by apply list_elem_of_In.
  - simpl in Hv. apply andb_true_iff in Hv as [Hv _]. rewrite <- (forallb_perm _ _ _ (sort_keys_perm l)), forallb_forall in Hv.
    enough (foldr Z.max 0 (map (fun kv => depth kv.2) (map (fun kv => (kv.1, encode t kv.2)) (sort_keys l))) <= type_depth t) by lia.
    apply max_bound; [done|]. rewrite map_map. apply Forall_map, Forall_forall. intros v Hin. simpl. apply IH.
    apply list_elem_of_In, Hv in Hin. by apply andb_true_iff in Hin as [_ ?].
  - simpl in Hv. by apply IH.
  - cbn [has_type] in Hv. apply all2_Forall2 in Hv.
    set (n := foldr Z.max 0 (map (fun f => type_depth f.2) fs)).
    assert (Forall (fun f => type_depth f.2 <= n) fs) as Hn.
    { apply (proj1 (Forall_map (fun f => type_depth f.2) (fun x => x <= n) fs)).
      apply (proj1 (max_bound _ n (max_nonneg _))). done. }
    enough (foldr Z.max 0 (map (fun kv => depth kv.2) (encode_fields encode fs vs)) <= n) by lia.
    apply max_bound; [apply max_nonneg|]. clearbody n. induction Hv as [|[f t] v fs vs Hv _ IHv]; [constructor|].
    apply Forall_cons in IH as [IHf IH], Hn as [Hf Hn]. simpl in *. destruct (omitted f v); [by apply IHv|].
    constructor; [|by apply IHv]. simpl. specialize (IHf v Hv). lia.
Qed.

Lemma Unmarshal_print nl sp ty v : (forall k, blank (nl k)) -> blank sp -> wf_type ty = true ->
  type_depth ty <= maxNestingDepth -> has_type Valid ty v = true ->
  Unmarshal (print nl sp 0 (encode ty v)) ty = Ok (norm ty v).
Proof.
  intros Hnl Hsp Hw Hd Hv. unfold Unmarshal, UnmarshalInto. rewrite parse_print; [|done|done|by apply wf_encode|].
  - by rewrite decode_inverts.
  - pose proof (depth_encode ty v Hv). lia.
Qed.

Lemma Unmarshal_Marshal ty v : wf_type ty = true -> type_depth ty <= maxNestingDepth -> has_type Valid ty v = true ->
  Unmarshal (Marshal ty v) ty = Ok (norm ty v).
Proof. apply Unmarshal_print; [intros; constructor|constructor]. Qed.

Lemma Unmarshal_MarshalIndent ty v : wf_type ty = true -> type_depth ty <= maxNestingDepth -> has_type Valid ty v = true ->
  Unmarshal (MarshalIndent ty v) ty = Ok (norm ty v).
Proof. apply Unmarshal_print; [apply newline_blank|repeat constructor]. Qed.

(** A document that can be written back has UTF-8 strings only. *)
Lemma strings_wf j : Json.wf j = true -> strings_ok Valid j = true.
Proof.
  induction j as [| | | |l IH|l IH] using json_ind; simpl; try done; induction IH as [|x l Hx _ IHl]; simpl; try done.
  - intros [H1 H2]%andb_true_iff. by rewrite Hx, IHl.
  - rewrite !andb_true_iff. intros [[H1 H2] H3]. by rewrite H1, Hx, IHl.
Qed.

(** Whatever the payload, an accepted message is a value of its type, with
    UTF-8 strings. *)
Lemma Unmarshal_typed data ty v : wf_type ty = true -> Unmarshal data ty = Ok v -> has_type Valid ty v = true.
Proof.
  intros Hw. unfold Unmarshal, UnmarshalInto. destruct (parse data) as [j|e] eqn:Hp; [|done].
  apply JsonAccept.parse_accepts in Hp as [Hj _].
  pose proof (decode_typed Valid eq_refl j (strings_wf j Hj) ty (zero ty) Hw (zero_typed _ _ eq_refl Hw)) as H.
  destruct (decode _ _ _) as [v' [e|]]; [done|]. by intros [= <-].
Qed.

(** ** No error of the decoder is the model's own *)

Definition real (e : gerr) : Prop := e <> Some outOfFuel.

Lemma first_real a b : real a -> real b -> real (first_error a b).
Proof. by destruct a. Qed.

Lemma number_real lit ty v : real (store_number lit ty v).2.
Proof. unfold store_number, real. repeat case_match; done. Qed.

Lemma elems_real t l : Forall (fun j => forall ty v, real (decode j ty v).2) l -> forall cs, real (decode_elems decode t l cs).2.
Proof.
  induction 1 as [|j l Hj _ IH]; intros cs; [done|]. simpl.
  specialize (Hj t (default (zero t) (head cs))). destruct (decode j _ _) as [x e]. specialize (IH (tail cs)).
  destruct (decode_elems _ _ _ _). by apply first_real.
Qed.

Lemma members_real fs l : Forall (fun kv => forall ty v, real (decode kv.2 ty v).2) l -> forall vs,
  real (decode_members decode fs l vs).2.
Proof.
  induction 1 as [|[k j] l Hj _ IH]; intros vs; [done|]. rewrite decode_members_cons.
  destruct (field_index fs k) as [[i t]|]; [|apply IH].
  specialize (Hj t (default (zero t) (vs !! i))). simpl in Hj. destruct (decode j _ _) as [x e]. specialize (IH (<[i:=x]> vs)).
  destruct (decode_members _ _ _ _). by apply first_real.
Qed.

Lemma entries_real t l : Forall (fun kv => forall ty v, real (decode kv.2 ty v).2) l -> forall m,
  real (decode_entries decode t l m).2.
Proof.
  induction 1 as [|[k j] l Hj _ IH]; intros m; [done|]. rewrite decode_entries_cons.
  specialize (Hj t (zero t)). simpl in Hj. destruct (decode j _ _) as [x e]. specialize (IH (map_set k x m)).
  destruct (decode_entries _ _ _ _). by apply first_real.
Qed.

Lemma decode_real j : forall ty v, real (decode j ty v).2.
Proof.
  induction j as [|b|lit|s|l IH|l IH] using json_ind; intros ty v; [by destruct ty|..]; cbn [decode];
    destruct (indirect ty v) as [[base v0] put].
  - by destruct base.
  - pose proof (number_real lit base v0). by destruct (store_number _ _ _).
  - by destruct base.
  - destruct base as [| | | |t|t|t|fs]; try done. pose proof (elems_real t l IH (cells v0)). by destruct (decode_elems _ _ _ _).
  - destruct base as [| | | |t|t|t|fs]; try done.
    + pose proof (entries_real t l IH (entries v0)). by destruct (decode_entries _ _ _ _).
    + pose proof (members_real fs l IH (fields v0)). by destruct (decode_members _ _ _ _).
Qed.

Lemma Unmarshal_returns data ty : Unmarshal data ty <> Err outOfFuel.
Proof.
  unfold Unmarshal, UnmarshalInto. pose proof (parse_returns data) as Hp. destruct (parse data) as [j|e]; [|congruence].
  pose proof (decode_real j ty (zero ty)) as Hd. unfold real in Hd. destruct (decode _ _ _) as [v [e|]]; simpl in *; congruence.
Qed.

End Reflect.
