(* ===== verification/SshWire.v ===== *)
(** * SSH request payloads (src/pkg/sshd/server.go, the payload parsers)

    [unmarshalString], [beUint32] and the four parsers of the session
    requests, with Go's slice-bounds panics made explicit: an expression
    [b[lo:hi]] with [lo > hi] stops the whole agent process.  The wire
    encoders are the reference the parsers are compared with (RFC 4251
    section 5, RFC 4254 sections 6.2, 6.4, 6.5 and 6.7). *)

From S2P Require Import Prelude.

Local Open Scope Z_scope.
Local Open Scope go_scope.

Module SshWire.

Definition len (b : bytes) : Z := Z.of_nat (length b).

(** The slice expression [b[lo:hi]] for [hi] at most [len(b)]. *)
Definition slice (b : bytes) (lo hi : Z) : panics bytes :=
  if (0 <=? lo) && (lo <=? hi) && (hi <=? len b)
  then Value (take (Z.to_nat (hi - lo)) (drop (Z.to_nat lo) b))
  else Panic.

Definition beUint32 (b : bytes) : panics Z :=
  match b with
  | b0 :: b1 :: b2 :: b3 :: _ =>
      Value (Z.lor (Z.lor (Z.lor (u32 (Z.shiftl (byte_val b0) 24))
                                 (u32 (Z.shiftl (byte_val b1) 16)))
                          (u32 (Z.shiftl (byte_val b2) 8)))
                   (byte_val b3))
  | _ => Panic
  end.

Definition unmarshalString (b : bytes) : panics (string * bytes * bool) :=
  if len b <? 4 then Value (("", b), false)
  else
    n <-! (h <-! slice b 0 4; beUint32 h);
    if u32 (len b) <? u32 (4 + n) then Value (("", b), false)
    else
      s <-! slice b 4 (u32 (4 + n));
      rest <-! slice b (u32 (4 + n)) (len b);
      Value ((str s, rest), true).

Record ptyReqPayload := {
  pty_term : string;
  pty_cols : Z; pty_rows : Z;
  pty_xPx : Z; pty_yPx : Z
}.

Definition parsePtyReq (p : bytes) : panics (result ptyReqPayload) :=
  '(term, rest, ok) <-! unmarshalString p;
  if negb ok then Value (Err (errors_New "pty-req: missing TERM"))
  else if len rest <? 16 then Value (Err (errors_New "pty-req: short"))
  else
    cols <-! (h <-! slice rest 0 4; beUint32 h);
    rows <-! (h <-! slice rest 4 8; beUint32 h);
    xPx <-! (h <-! slice rest 8 12; beUint32 h);
    yPx <-! (h <-! slice rest 12 16; beUint32 h);
    Value (Ok {| pty_term := term; pty_cols := cols; pty_rows := rows;
                 pty_xPx := xPx; pty_yPx := yPx |}).

Definition parseEnvReq (p : bytes) : panics (result (string * string)) :=
  '(k, rest, ok) <-! unmarshalString p;
  if negb ok then Value (Err (errors_New "env: missing key"))
  else
    '(v, _, ok2) <-! unmarshalString rest;
    if negb ok2 then Value (Err (errors_New "env: missing value"))
    else Value (Ok (k, v)).

Definition parseExecReq (p : bytes) : panics (result string) :=
  '(line, _, ok) <-! unmarshalString p;
  if negb ok then Value (Err (errors_New "exec: missing command"))
  else Value (Ok line).

Record winChPayload := {
  win_cols : Z; win_rows : Z;
  win_xPx : Z; win_yPx : Z
}.

Definition parseWinChReq (p : bytes) : panics (result winChPayload) :=
  if len p <? 16 then Value (Err (errors_New "window-change: short"))
  else
    cols <-! (h <-! slice p 0 4; beUint32 h);
    rows <-! (h <-! slice p 4 8; beUint32 h);
    xPx <-! (h <-! slice p 8 12; beUint32 h);
    yPx <-! (h <-! slice p 12 16; beUint32 h);
    Value (Ok {| win_cols := cols; win_rows := rows; win_xPx := xPx; win_yPx := yPx |}).

(** The exit-status payload startShell builds from [uint32(ExitCode())]. *)
Definition exitStatusPayload (exitCode : Z) : bytes :=
  let exit := u32 exitCode in
  [byte_of (Z.shiftr exit 24); byte_of (Z.shiftr exit 16);
   byte_of (Z.shiftr exit 8); byte_of exit].

(** ** The wire encoders *)

Definition put_u32 (n : Z) : bytes :=
  [byte_of (n / 2 ^ 24); byte_of (n / 2 ^ 16); byte_of (n / 2 ^ 8); byte_of n].

Definition put_string (s : string) : bytes := put_u32 (len (chars s)) ++ chars s.

(** The big-endian value of four bytes. *)
Definition be_value (b0 b1 b2 b3 : ascii) : Z :=
  byte_val b0 * 2 ^ 24 + byte_val b1 * 2 ^ 16 + byte_val b2 * 2 ^ 8 + byte_val b3.

(** ** Lemmas on integers and slices *)

Lemma shiftl_u32 a n : 0 <= n <= 24 -> 0 <= a < 256 -> u32 (Z.shiftl a n) = Z.shiftl a n.
Proof.
  intros Hn Ha. apply u32_small. rewrite Z.shiftl_mul_pow2 by lia.
  assert (2 ^ n <= 2 ^ 24) by (apply Z.pow_le_mono_r; lia).
  assert (0 < 2 ^ n) by (apply Z.pow_pos_nonneg; lia). nia.
Qed.

Lemma be_value_range b0 b1 b2 b3 : 0 <= be_value b0 b1 b2 b3 < 2 ^ 32.
Proof.
  unfold be_value. pose proof (byte_val_range b0). pose proof (byte_val_range b1).
  pose proof (byte_val_range b2). pose proof (byte_val_range b3). lia.
Qed.

Lemma beUint32_value b0 b1 b2 b3 t :
  beUint32 (b0 :: b1 :: b2 :: b3 :: t) = Value (be_value b0 b1 b2 b3).
Proof.
  unfold beUint32, be_value.
  pose proof (byte_val_range b0). pose proof (byte_val_range b1).
  pose proof (byte_val_range b2). pose proof (byte_val_range b3).
  rewrite !shiftl_u32 by lia. f_equal.
  rewrite <- !Z.lor_assoc.
  rewrite (lor_shiftl_add (byte_val b2) (byte_val b3) 8) by lia.
  rewrite (lor_shiftl_add (byte_val b1) _ 16) by lia.
  rewrite (lor_shiftl_add (byte_val b0) _ 24) by lia. lia.
Qed.

Lemma be_value_put n : 0 <= n < 2 ^ 32 ->
  be_value (byte_of (n / 2 ^ 24)) (byte_of (n / 2 ^ 16)) (byte_of (n / 2 ^ 8)) (byte_of n) = n.
Proof.
  intros Hn. unfold be_value. rewrite !byte_val_of. unfold u8.
  change (2 ^ 8) with 256. change (2 ^ 16) with 65536. change (2 ^ 24) with 16777216.
  change (2 ^ 32) with 4294967296 in Hn.
  rewrite (Z.mod_small (n / 16777216)) by
    (split; [apply Z.div_pos; lia | apply Z.div_lt_upper_bound; lia]).
  pose proof (Z.div_mod n 256 ltac:(lia)).
  pose proof (Z.div_mod (n / 256) 256 ltac:(lia)) as H1.
  pose proof (Z.div_mod (n / 65536) 256 ltac:(lia)) as H2.
  rewrite Z.div_div in H1, H2 by lia. change (256 * 256) with 65536 in H1.
  change (65536 * 256) with 16777216 in H2. lia.
Qed.

Lemma beUint32_put n t : 0 <= n < 2 ^ 32 -> beUint32 (put_u32 n ++ t) = Value n.
Proof. intros. unfold put_u32. simpl app. rewrite beUint32_value. by rewrite be_value_put. Qed.

Lemma len_nonneg b : 0 <= len b.
Proof. unfold len. lia. Qed.

Lemma len_app a b : len (a ++ b) = len a + len b.
Proof. unfold len. rewrite length_app. lia. Qed.

Lemma slice_app_l a b : slice (a ++ b) 0 (len a) = Value a.
Proof.
  unfold slice. rewrite len_app. pose proof (len_nonneg a). pose proof (len_nonneg b).
  rewrite (proj2 (Z.leb_le 0 (len a))), (proj2 (Z.leb_le (len a) (len a + len b))) by lia.
  simpl. rewrite drop_0. unfold len. rewrite Z.sub_0_r, Nat2Z.id. by rewrite take_app_length.
Qed.

Lemma slice_app_mid a b c lo hi : lo = len a -> hi = len a + len b ->
  slice (a ++ b ++ c) lo hi = Value b.
Proof.
  intros -> ->. unfold slice. rewrite !len_app.
  pose proof (len_nonneg a). pose proof (len_nonneg b). pose proof (len_nonneg c).
  rewrite (proj2 (Z.leb_le 0 (len a))), (proj2 (Z.leb_le (len a) (len a + len b))),
    (proj2 (Z.leb_le (len a + len b) (len a + (len b + len c)))) by lia.
  simpl. replace (len a + len b - len a) with (len b) by lia.
  unfold len. rewrite !Nat2Z.id, drop_app_length, take_app_length. done.
Qed.

(** Four bytes of a long enough slice, read where [beUint32(b[lo:lo+4])] reads. *)
Lemma slice_be32 a n c lo hi : lo = len a -> hi = len a + 4 -> 0 <= n < 2 ^ 32 ->
  (h <-! slice (a ++ put_u32 n ++ c) lo hi; beUint32 h) = Value n.
Proof.
  intros -> -> Hn. rewrite slice_app_mid by done. cbn [panics_bind].
  rewrite <- (app_nil_r (put_u32 n)). by apply beUint32_put.
Qed.

Lemma slice_be32_0 n c : 0 <= n < 2 ^ 32 ->
  (h <-! slice (put_u32 n ++ c) 0 4; beUint32 h) = Value n.
Proof. by apply (slice_be32 [] n c). Qed.

Lemma slice_total b lo hi : 0 <= lo <= hi -> hi <= len b ->
  slice b lo hi = Value (take (Z.to_nat (hi - lo)) (drop (Z.to_nat lo) b)).
Proof.
  intros. unfold slice.
  by rewrite (proj2 (Z.leb_le 0 lo)), (proj2 (Z.leb_le lo hi)), (proj2 (Z.leb_le hi (len b))) by lia.
Qed.

Lemma length4 (b : bytes) : 4 <= len b ->
  exists b0 b1 b2 b3 t, b = b0 :: b1 :: b2 :: b3 :: t.
Proof.
  unfold len. intros. destruct b as [|b0 [|b1 [|b2 [|b3 t]]]]; simpl in *; try lia. eauto 10.
Qed.

Lemma beUint32_total b : 4 <= len b -> exists n, beUint32 b = Value n /\ 0 <= n < 2 ^ 32.
Proof.
  intros (b0 & b1 & b2 & b3 & t & ->)%length4. rewrite beUint32_value.
  eauto using be_value_range.
Qed.

Lemma read_be32_total b lo : 0 <= lo -> lo + 4 <= len b ->
  exists n, (h <-! slice b lo (lo + 4); beUint32 h) = Value n /\ 0 <= n < 2 ^ 32.
Proof.
  intros. rewrite slice_total by lia. simpl. apply beUint32_total.
  unfold len in *. rewrite length_take, length_drop. lia.
Qed.

(** The length prefix of a payload of at least four bytes. *)
Definition prefix_value (b : bytes) : option Z :=
  match b with
  | b0 :: b1 :: b2 :: b3 :: _ => Some (be_value b0 b1 b2 b3)
  | _ => None
  end.

Lemma prefix_value_range b n : prefix_value b = Some n -> 0 <= n < 2 ^ 32 /\ 4 <= len b.
Proof.
  unfold prefix_value, len. intros. case_all. split; [apply be_value_range|lia].
Qed.

(** [unmarshalString] on a payload of at least four bytes, by its prefix. *)
Lemma unmarshalString_unfold b n : prefix_value b = Some n ->
  unmarshalString b =
    if u32 (len b) <? u32 (4 + n) then Value (("", b), false)
    else s <-! slice b 4 (u32 (4 + n));
         rest <-! slice b (u32 (4 + n)) (len b); Value ((str s, rest), true).
Proof.
  intros Hp. destruct (prefix_value_range _ _ Hp) as [_ Hl].
  unfold unmarshalString. rewrite (proj2 (Z.ltb_ge (len b) 4)) by done.
  rewrite slice_total by lia. cbn [panics_bind].
  destruct (length4 b Hl) as (b0 & b1 & b2 & b3 & t & ->). injection Hp as <-.
  change (take _ (drop (Z.to_nat 0) _)) with [b0; b1; b2; b3].
  by rewrite beUint32_value.
Qed.

Lemma unmarshalString_short b : len b < 4 -> unmarshalString b = Value (("", b), false).
Proof. intros. unfold unmarshalString. by rewrite (proj2 (Z.ltb_lt (len b) 4)). Qed.

Lemma prefix_value_None b : prefix_value b = None -> len b < 4.
Proof. destruct b as [|? [|? [|? [|? ?]]]]; unfold len; simpl; naive_solver lia. Qed.

Lemma put_string_app s rest : put_string s ++ rest = put_u32 (len (chars s)) ++ chars s ++ rest.
Proof. unfold put_string. by rewrite <- app_assoc. Qed.

Lemma len_put_string s : len (put_string s) = 4 + len (chars s).
Proof. unfold put_string. rewrite len_app. done. Qed.

Lemma prefix_value_put n t : 0 <= n < 2 ^ 32 -> prefix_value (put_u32 n ++ t) = Some n.
Proof. intros. simpl. by rewrite be_value_put. Qed.

(** Decoding an encoded string, as a rewrite rule for the parsers. *)
Lemma unmarshal_put_string s rest : len (put_string s ++ rest) < 2 ^ 32 ->
  unmarshalString (put_string s ++ rest) = Value ((s, rest), true).
Proof.
  intros Hlen. rewrite len_app, len_put_string in Hlen.
  pose proof (len_nonneg (chars s)). pose proof (len_nonneg rest).
  assert (prefix_value (put_string s ++ rest) = Some (len (chars s))) as Hp.
  { rewrite put_string_app. apply prefix_value_put. lia. }
  rewrite (unmarshalString_unfold _ _ Hp), len_app, len_put_string.
  rewrite !u32_small by lia. rewrite (proj2 (Z.ltb_ge _ _)) by lia.
  rewrite put_string_app at 1. rewrite (slice_app_mid _ _ _ 4) by done. cbn [panics_bind].
  rewrite <- (app_nil_r (put_string s ++ rest)), <- app_assoc.
  rewrite slice_app_mid by (rewrite len_put_string; lia). cbn [panics_bind].
  by rewrite str_chars.
Qed.

Lemma unmarshal_bad_prefix b n : prefix_value b = Some n -> 2 ^ 32 - 4 <= n ->
  4 <= len b < 2 ^ 32 -> unmarshalString b = Panic.
Proof.
  intros Hp Hn Hl. destruct (prefix_value_range _ _ Hp) as [Hr _].
  rewrite (unmarshalString_unfold _ _ Hp), (u32_small (len b)) by lia.
  assert (u32 (4 + n) = n + 4 - 2 ^ 32) as ->.
  { unfold u32. rewrite <- (Z.mod_add _ (-1)), Z.mod_small; lia. }
  rewrite (proj2 (Z.ltb_ge _ _)) by lia. unfold slice at 1.
  by rewrite (proj2 (Z.leb_gt 4 (n + 4 - 2 ^ 32))) by lia.
Qed.

Lemma byte_of_low x q a : x = q * 256 + byte_val a -> byte_of x = a.
Proof.
  intros ->. apply byte_val_inj. rewrite byte_val_of. unfold u8.
  rewrite Z.add_comm, Z.mod_add, Z.mod_small; try lia. apply byte_val_range.
Qed.

Lemma put_be_value b0 b1 b2 b3 : put_u32 (be_value b0 b1 b2 b3) = [b0; b1; b2; b3].
Proof.
  pose proof (byte_val_range b0). pose proof (byte_val_range b1).
  pose proof (byte_val_range b2). pose proof (byte_val_range b3).
  unfold put_u32. f_equal; [|f_equal; [|f_equal; [|f_equal]]].
  - apply (byte_of_low _ 0). symmetry. unfold be_value.
    apply Z.div_unique with (byte_val b1 * 2 ^ 16 + byte_val b2 * 2 ^ 8 + byte_val b3); lia.
  - apply (byte_of_low _ (byte_val b0)). symmetry. unfold be_value.
    apply Z.div_unique with (byte_val b2 * 2 ^ 8 + byte_val b3); lia.
  - apply (byte_of_low _ (byte_val b0 * 256 + byte_val b1)). symmetry. unfold be_value.
    apply Z.div_unique with (byte_val b3); lia.
  - apply (byte_of_low _ ((byte_val b0 * 256 + byte_val b1) * 256 + byte_val b2)).
    unfold be_value. lia.
Qed.

Lemma unmarshal_good_prefix b n : prefix_value b = Some n -> n < 2 ^ 32 - 4 ->
  len b < 2 ^ 32 ->
  (len b < 4 + n /\ unmarshalString b = Value (("", b), false)) \/
  (exists s rest, b = put_string s ++ rest /\ len (chars s) = n /\
                  unmarshalString b = Value ((s, rest), true)).
Proof.
  intros Hp Hn Hl. destruct (prefix_value_range _ _ Hp) as [Hr H4].
  destruct (Z.lt_ge_cases (len b) (4 + n)) as [Hlt|Hge].
  - left. split; [done|]. rewrite (unmarshalString_unfold _ _ Hp), !u32_small by lia.
    by rewrite (proj2 (Z.ltb_lt _ _)).
  - right. destruct (length4 b H4) as (b0 & b1 & b2 & b3 & t & ->). simpl in Hp.
    simplify_eq. set (n := be_value b0 b1 b2 b3) in *.
    exists (str (take (Z.to_nat n) t)), (drop (Z.to_nat n) t).
    assert (len (chars (str (take (Z.to_nat n) t))) = n) as Hlen.
    { rewrite chars_str. unfold len in *. rewrite length_take. simpl in *. lia. }
    assert (b0 :: b1 :: b2 :: b3 :: t =
            put_string (str (take (Z.to_nat n) t)) ++ drop (Z.to_nat n) t) as Heq.
    { unfold put_string. rewrite Hlen, chars_str, <- app_assoc, take_drop.
      unfold n. by rewrite put_be_value. }
    split_and!; [done|done|]. rewrite Heq. apply unmarshal_put_string. by rewrite <- Heq.
Qed.

Lemma parseWinChReq_spec p :
  (len p < 16 /\ parseWinChReq p = Value (Err (errors_New "window-change: short"))) \/
  (16 <= len p /\ exists w, parseWinChReq p = Value (Ok w) /\
     0 <= win_cols w < 2 ^ 32 /\ 0 <= win_rows w < 2 ^ 32 /\
     0 <= win_xPx w < 2 ^ 32 /\ 0 <= win_yPx w < 2 ^ 32).
Proof.
  unfold parseWinChReq. destruct (Z.ltb_spec (len p) 16); [by left|right]. split; [done|].
  destruct (read_be32_total p 0) as (c & Hc & ?); [lia..|].
  destruct (read_be32_total p 4) as (r & Hr & ?); [lia..|].
  destruct (read_be32_total p 8) as (x & Hx & ?); [lia..|].
  destruct (read_be32_total p 12) as (y & Hy & ?); [lia..|].
  change (0 + 4) with 4 in Hc. change (4 + 4) with 8 in Hr.
  change (8 + 4) with 12 in Hx. change (12 + 4) with 16 in Hy.
  rewrite Hc. cbn [panics_bind]. rewrite Hr. cbn [panics_bind].
  rewrite Hx. cbn [panics_bind]. rewrite Hy. cbn [panics_bind].
  eexists. split; [done|]. simpl. lia.
Qed.

Lemma parseWinChReq_cases p :
  (exists e, parseWinChReq p = Value (Err e)) \/ (exists w, parseWinChReq p = Value (Ok w)).
Proof. destruct (parseWinChReq_spec p) as [[_ ->]|(_ & w & -> & _)]; eauto. Qed.

(** ** Properties *)

(** Round trip of the SSH string encoding: for every string [s] and every
    trailing data [rest] that fit a uint32-sized payload, decoding the
    encoding of [s] yields [s], leaves exactly [rest] and does not panic. *)
Theorem unmarshalString_roundtrip s rest :
  len (put_string s ++ rest) < 2 ^ 32 ->
  unmarshalString (put_string s ++ rest) = Value ((s, rest), true).
Proof. apply unmarshal_put_string. Qed.

Lemma unmarshalString_roundtrip_witness :
  unmarshalString (put_string "xterm" ++ chars "tail") = Value (("xterm", chars "tail"), true).
Proof. apply (unmarshalString_roundtrip "xterm" (chars "tail")). reflexivity. Defined.

(** C35.  Exact characterisation of the crash: on a payload below 4 GiB the
    parser panics if and only if its 32-bit length prefix is one of the four
    largest values, for which [4+n] wraps around to less than 4, passes the
    bounds test and makes the slice expression [b[4:4+n]] illegal. *)
Theorem unmarshalString_panic_iff b :
  len b < 2 ^ 32 ->
  unmarshalString b = Panic <-> exists n, prefix_value b = Some n /\ 2 ^ 32 - 4 <= n.
Proof.
  intros Hl. destruct (prefix_value b) as [n|] eqn:Hp.
  - destruct (prefix_value_range _ _ Hp). destruct (Z.lt_ge_cases n (2 ^ 32 - 4)).
    + destruct (unmarshal_good_prefix b n) as [[_ ->]|(?&?&_&_&->)]; try done;
        split; naive_solver lia.
    + rewrite (unmarshal_bad_prefix b n Hp) by lia. naive_solver lia.
  - rewrite unmarshalString_short by (by apply prefix_value_None). naive_solver.
Qed.

Lemma unmarshalString_panic_iff_witness :
  unmarshalString [byte_of 255; byte_of 255; byte_of 255; byte_of 252] = Panic.
Proof.
  apply (unmarshalString_panic_iff [byte_of 255; byte_of 255; byte_of 255; byte_of 252]);
    [reflexivity|]. exists 4294967292. split; [reflexivity|lia].
Defined.

(** Soundness of a successful decode: the string and the rest returned
    are exactly the split of the input that the length prefix describes. *)
Theorem unmarshalString_sound b s rest :
  len b < 2 ^ 32 ->
  unmarshalString b = Value ((s, rest), true) -> b = put_string s ++ rest.
Proof.
  intros Hl Hu. destruct (prefix_value b) as [n|] eqn:Hp.
  - destruct (prefix_value_range _ _ Hp). destruct (Z.lt_ge_cases n (2 ^ 32 - 4)).
    + destruct (unmarshal_good_prefix b n) as [[_ He]|(?&?&?&_&He)]; simplify_eq/=; try done; congruence.
    + rewrite (unmarshal_bad_prefix b n Hp) in Hu by lia. done.
  - rewrite unmarshalString_short in Hu by (by apply prefix_value_None). done.
Qed.

Lemma unmarshalString_sound_witness :
  chars (String "000" (String "000" (String "000" (String "002" "hi!")))) =
  put_string "hi" ++ chars "!".
Proof.
  apply (unmarshalString_sound _ "hi" (chars "!")); reflexivity.
Defined.

(** [parsePtyReq] inverts the RFC 4254 encoding of a pty-req: the
    terminal name and the four 32-bit dimensions come back unchanged, the
    terminal modes are ignored. *)
Theorem parsePtyReq_roundtrip term cols rows xPx yPx modes :
  0 <= cols < 2 ^ 32 -> 0 <= rows < 2 ^ 32 -> 0 <= xPx < 2 ^ 32 -> 0 <= yPx < 2 ^ 32 ->
  len (put_string term ++ put_u32 cols ++ put_u32 rows ++ put_u32 xPx ++ put_u32 yPx ++ modes) < 2 ^ 32 ->
  parsePtyReq (put_string term ++ put_u32 cols ++ put_u32 rows ++ put_u32 xPx ++ put_u32 yPx ++ modes) =
    Value (Ok {| pty_term := term; pty_cols := cols; pty_rows := rows;
                 pty_xPx := xPx; pty_yPx := yPx |}).
Proof.
  intros ?? ?? Hl. unfold parsePtyReq. rewrite unmarshal_put_string by done.
  cbn [panics_bind negb]. rewrite !len_app. pose proof (len_nonneg modes).
  rewrite (proj2 (Z.ltb_ge _ _)) by (change (len (put_u32 _)) with 4; lia).
  rewrite slice_be32_0 by done. cbn [panics_bind].
  rewrite (slice_be32 (put_u32 cols) rows) by done. cbn [panics_bind].
  rewrite app_assoc, (slice_be32 (put_u32 cols ++ put_u32 rows) xPx) by done. cbn [panics_bind].
  rewrite app_assoc, (slice_be32 ((put_u32 cols ++ put_u32 rows) ++ put_u32 xPx) yPx) by done.
  done.
Qed.

Lemma parsePtyReq_roundtrip_witness :
  parsePtyReq (put_string "xterm" ++ put_u32 80 ++ put_u32 24 ++ put_u32 0 ++ put_u32 0 ++ []) =
    Value (Ok {| pty_term := "xterm"; pty_cols := 80; pty_rows := 24; pty_xPx := 0; pty_yPx := 0 |}).
Proof. apply (parsePtyReq_roundtrip "xterm" 80 24 0 0 []); [lia..|reflexivity]. Defined.

(** The window-change parser is total: no payload, of whatever length
    and content, makes it panic; it fails exactly on payloads shorter than
    sixteen bytes and the dimensions it returns are 32-bit values. *)
Theorem parseWinChReq_total p :
  (len p < 16 /\ parseWinChReq p = Value (Err (errors_New "window-change: short"))) \/
  (16 <= len p /\ exists w, parseWinChReq p = Value (Ok w) /\
     0 <= win_cols w < 2 ^ 32 /\ 0 <= win_rows w < 2 ^ 32 /\
     0 <= win_xPx w < 2 ^ 32 /\ 0 <= win_yPx w < 2 ^ 32).
Proof.
  apply parseWinChReq_spec.
Qed.

(** The exit-status payload: the four bytes the server sends decode, in
    network order, to the child's exit code modulo 2^32; a child killed by a
    signal (exit code -1) is therefore reported as 4294967295. *)
Theorem exitStatusPayload_value code t :
  beUint32 (exitStatusPayload code ++ t) = Value (u32 code).
Proof.
  pose proof (u32_range code). rewrite <- (beUint32_put (u32 code) t) by lia.
  unfold exitStatusPayload, put_u32. by rewrite !Z.shiftr_div_pow2 by lia.
Qed.

End SshWire.
