(* ===== verification/SshSession.v ===== *)
(** * SSH session channels (src/pkg/sshd/server.go: handleSession, startShell)

    Module [SshSession] runs the request loop of one session channel as a
    function from the incoming requests to a trace of effects; module
    [ShellProxy] is the step relation of the three goroutines startShell
    leaves behind (channel to PTY, PTY to channel, reaper). *)

From S2P Require Import Prelude SshWire.
Import SshWire.

Local Open Scope Z_scope.

Module SshSession.

Record request := {
  req_Type : string;
  req_Payload : bytes;
  req_WantReply : bool
}.

(** The cases of the [switch req.Type]. *)
Inductive req_kind := KPty | KEnv | KShell | KExec | KWindow | KOther.
#[export] Instance req_kind_eq_dec : EqDecision req_kind.
Proof. solve_decision. Defined.

Definition kind (req : request) : req_kind :=
  if decide (req_Type req = "pty-req") then KPty
  else if decide (req_Type req = "env") then KEnv
  else if decide (req_Type req = "shell") then KShell
  else if decide (req_Type req = "exec") then KExec
  else if decide (req_Type req = "window-change") then KWindow
  else KOther.

(** What [exec.Command] and [pty.StartWithSize] receive. *)
Record command := {
  cmd_Path : string;
  cmd_Args : list string;
  cmd_Env : list string;
  cmd_Rows : Z; cmd_Cols : Z
}.

Inductive event :=
| Reply (ok : bool)
| Spawn (c : command)
| Setsize (rows cols x y : Z)
| CloseChannel.

(** The local variables of handleSession. *)
Record state := {
  ptyReq : option ptyReqPayload;
  envVars : list string;
  ptyMaster : option nat;
  started : bool
}.

Definition initial : state :=
  {| ptyReq := None; envVars := []; ptyMaster := None; started := false |}.

Inductive control := Continue (s : state) | Return | Crash.

Section server.
(** The server's [Shell] field, the agent's environment, and
    [pty.StartWithSize], which yields the PTY master or an error. *)
Context (Shell : string) (environ : list string)
        (StartWithSize : command -> result nat).

Definition shellCommand (pr : option ptyReqPayload) (env : list string)
    (execLine : string) : command :=
  {| cmd_Path := Shell;
     cmd_Args := if decide (execLine = "") then [] else ["-c"; execLine];
     cmd_Env := environ ++ env ++
       match pr with
       | Some p => if decide (pty_term p = "") then [] else ["TERM=" +:+ pty_term p]
       | None => []
       end;
     cmd_Rows := match pr with Some p => u16 (pty_rows p) | None => 24 end;
     cmd_Cols := match pr with Some p => u16 (pty_cols p) | None => 80 end |}.

Definition startShell (pr : option ptyReqPayload) (env : list string)
    (execLine : string) : list event * result nat :=
  let c := shellCommand pr env execLine in ([Spawn c], StartWithSize c).

(** The common tail of the "shell" and "exec" cases. *)
Definition launch (s : state) (execLine : string) : list event * control :=
  let '(ev, r) := startShell (ptyReq s) (envVars s) execLine in
  match r with
  | Err _ => (ev ++ [Reply false], Return)
  | Ok f => (ev ++ [Reply true],
             Continue {| ptyReq := ptyReq s; envVars := envVars s;
                         ptyMaster := Some f; started := true |})
  end.

Definition set_started (s : state) : state :=
  {| ptyReq := ptyReq s; envVars := envVars s; ptyMaster := ptyMaster s; started := true |}.

(** One iteration of [for req := range reqs]. *)
Definition handleRequest (s : state) (req : request) : list event * control :=
  match kind req with
  | KPty =>
      match parsePtyReq (req_Payload req) with
      | Panic => ([], Crash)
      | Value (Err _) => ([Reply false], Continue s)
      | Value (Ok p) =>
          ([Reply true], Continue {| ptyReq := Some p; envVars := envVars s;
                                     ptyMaster := ptyMaster s; started := started s |})
      end
  | KEnv =>
      match parseEnvReq (req_Payload req) with
      | Panic => ([], Crash)
      | Value (Err _) => ([Reply true], Continue s)
      | Value (Ok (k, v)) =>
          ([Reply true], Continue {| ptyReq := ptyReq s; envVars := envVars s ++ [k +:+ "=" +:+ v];
                                     ptyMaster := ptyMaster s; started := started s |})
      end
  | KShell =>
      if started s then ([Reply false], Continue s)
      else launch (set_started s) ""
  | KExec =>
      if started s then ([Reply false], Continue s)
      else
        match parseExecReq (req_Payload req) with
        | Panic => ([], Crash)
        | Value (Err _) => ([Reply false], Continue (set_started s))
        | Value (Ok line) => launch (set_started s) line
        end
  | KWindow =>
      match ptyMaster s with
      | None => ([], Continue s)
      | Some _ =>
          match parseWinChReq (req_Payload req) with
          | Panic => ([], Crash)
          | Value (Err _) => ([], Continue s)
          | Value (Ok w) => ([Setsize (u16 (win_rows w)) (u16 (win_cols w))
                                      (u16 (win_xPx w)) (u16 (win_yPx w))], Continue s)
          end
      end
  | KOther => if req_WantReply req then ([Reply false], Continue s) else ([], Continue s)
  end.

(** The loop; the deferred [ch.Close()] runs unless the process crashed. *)
Fixpoint handleSession (s : state) (reqs : list request) : list event * bool :=
  match reqs with
  | [] => ([CloseChannel], false)
  | req :: rest =>
      let '(ev, c) := handleRequest s req in
      match c with
      | Crash => (ev, true)
      | Return => (ev ++ [CloseChannel], false)
      | Continue s' => let '(ev', crashed) := handleSession s' rest in (ev ++ ev', crashed)
      end
  end.

Definition trace (reqs : list request) : list event := (handleSession initial reqs).1.
Definition crashes (reqs : list request) : bool := (handleSession initial reqs).2.

(** ** What the session is meant to hand to the shell

    Reference definitions, by recursion on the requests only: the last
    well-formed pty-req and the well-formed env assignments in order. *)

Definition is_start (r : request) : Prop := kind r = KShell \/ kind r = KExec.
#[export] Instance is_start_dec r : Decision (is_start r).
Proof. unfold is_start. apply _. Defined.

Definition pty_of (acc : option ptyReqPayload) (r : request) : option ptyReqPayload :=
  match kind r, parsePtyReq (req_Payload r) with
  | KPty, Value (Ok p) => Some p
  | _, _ => acc
  end.

Definition last_pty : option ptyReqPayload -> list request -> option ptyReqPayload :=
  foldl pty_of.

Definition env_of (r : request) : list string :=
  match kind r, parseEnvReq (req_Payload r) with
  | KEnv, Value (Ok (k, v)) => [k +:+ "=" +:+ v]
  | _, _ => []
  end.

(** The command line a start request asks for: empty for "shell". *)
Definition line_of (r : request) : option string :=
  match kind r, parseExecReq (req_Payload r) with
  | KShell, _ => Some ""
  | KExec, Value (Ok line) => Some line
  | _, _ => None
  end.

(** A request whose payload the wire parser survives. *)
Definition survives (r : request) : Prop :=
  match kind r with
  | KPty => parsePtyReq (req_Payload r) <> Panic
  | KEnv => parseEnvReq (req_Payload r) <> Panic
  | KExec => parseExecReq (req_Payload r) <> Panic
  | _ => True
  end.

Definition is_spawn (e : event) : bool := match e with Spawn _ => true | _ => false end.
Definition spawns (l : list event) : list event := filter (fun e => is_spawn e = true) l.

Definition is_reply (e : event) : bool := match e with Reply _ => true | _ => false end.
Definition replies (l : list event) : nat := length (filter (fun e => is_reply e = true) l).

(** ** Lemmas on one request *)

Ltac unfold_request := unfold handleRequest, launch, startShell, spawns, replies.

Lemma handleRequest_started s r ev c :
  handleRequest s r = (ev, c) -> started s = true ->
  spawns ev = [] /\ forall s', c = Continue s' -> started s' = true.
Proof.
  unfold_request. intros H Hs. rewrite Hs in H.
  repeat case_match; simplify_eq/=; split; naive_solver.
Qed.

Lemma handleRequest_one_spawn s r ev c :
  handleRequest s r = (ev, c) ->
  spawns ev = [] \/ (length (spawns ev) = 1%nat /\ forall s', c = Continue s' -> started s' = true).
Proof.
  unfold_request. intros H.
  repeat case_match; simplify_eq/=; (left; done) || (right; split; naive_solver).
Qed.

Lemma spawns_app l1 l2 : spawns (l1 ++ l2) = spawns l1 ++ spawns l2.
Proof. apply filter_app. Qed.

Lemma handleSession_started reqs s :
  started s = true -> spawns (handleSession s reqs).1 = [].
Proof.
  revert s. induction reqs as [|r reqs IH]; intros s Hs; simpl; [done|].
  destruct (handleRequest s r) as [ev c] eqn:Hr.
  destruct (handleRequest_started _ _ _ _ Hr Hs) as [Hev Hc].
  destruct c as [s'| |]; simpl.
  - specialize (IH s' (Hc _ eq_refl)). destruct (handleSession s' reqs) as [ev' b].
    simpl in *. by rewrite spawns_app, Hev, IH.
  - by rewrite spawns_app, Hev.
  - done.
Qed.

Lemma handleSession_one_spawn reqs s :
  (length (spawns (handleSession s reqs).1) <= 1)%nat.
Proof.
  revert s. induction reqs as [|r reqs IH]; intros s; simpl; [lia|].
  destruct (handleRequest s r) as [ev c] eqn:Hr.
  destruct (handleRequest_one_spawn _ _ _ _ Hr) as [Hev|[Hev Hc]];
    destruct c as [s'| |]; simpl; rewrite ?spawns_app, ?length_app, ?Hev; simpl; try lia;
    destruct (handleSession s' reqs) as [ev' b] eqn:Hs'; simpl; rewrite spawns_app, length_app, Hev.
  - specialize (IH s'). rewrite Hs' in IH. simpl in *. lia.
  - pose proof (handleSession_started reqs s' (Hc _ eq_refl)) as H. rewrite Hs' in H.
    simpl in H. rewrite H. simpl. lia.
Qed.

(** A request that does not start anything, whose payload parses without a
    panic: the loop goes on, with the accumulated pty-req and environment. *)
Lemma handleRequest_quiet s r :
  ~ is_start r -> survives r ->
  exists ev s', handleRequest s r = (ev, Continue s') /\ spawns ev = [] /\
    ptyReq s' = last_pty (ptyReq s) [r] /\ envVars s' = envVars s ++ env_of r /\
    started s' = started s.
Proof.
  unfold is_start, survives, handleRequest, env_of, last_pty, pty_of. simpl.
  destruct (kind r); intros Hn Hs; try naive_solver.
  - destruct (parsePtyReq _) as [[p|e]|]; [..|done]; eexists _, _; split; [done| |done|];
      simpl; rewrite app_nil_r; done.
  - destruct (parseEnvReq _) as [[[k v]|e]|]; [..|done]; eexists _, _; split; [done| |done|];
      simpl; rewrite ?app_nil_r; done.
  - destruct (ptyMaster s); [|eexists _, _; split; [done|]; simpl; by rewrite app_nil_r].
    destruct (parseWinChReq_cases (req_Payload r)) as [[? ->]|[? ->]];
      eexists _, _; split; [done| |done|]; simpl; by rewrite app_nil_r.
  - destruct (req_WantReply r); eexists _, _; split; [done| |done|]; simpl;
      by rewrite app_nil_r.
Qed.

(** A run of such requests, then the rest of the session. *)
Lemma handleSession_quiet pre rest s :
  Forall (fun r => ~ is_start r) pre -> Forall survives pre ->
  exists ev s', handleSession s (pre ++ rest) =
      (ev ++ (handleSession s' rest).1, (handleSession s' rest).2) /\ spawns ev = [] /\
    ptyReq s' = last_pty (ptyReq s) pre /\ envVars s' = envVars s ++ (pre ≫= env_of) /\
    started s' = started s.
Proof.
  intros Hq. revert s. induction Hq as [|r pre Hr Hq IH]; intros s Hs.
  { exists [], s. simpl. rewrite app_nil_r. by destruct (handleSession s rest). }
  inversion_clear Hs as [|? ? Hsr Hspre].
  destruct (handleRequest_quiet s r Hr Hsr) as (ev1 & s1 & Hr1 & Hev1 & Hp1 & He1 & Hs1).
  destruct (IH s1 Hspre) as (ev2 & s2 & Hr2 & Hev2 & Hp2 & He2 & Hs2).
  exists (ev1 ++ ev2), s2. simpl. rewrite Hr1, Hr2, spawns_app, Hev1, Hev2, Hp2, Hp1, He2, He1, Hs2, Hs1.
  rewrite <- !app_assoc. split_and!; done.
Qed.

(** A request that is no well-formed start request starts nothing; the loop
    goes on unstarted only with its pty-req or environment added. *)
Lemma handleRequest_unstarted s r ev c :
  started s = false -> line_of r = None -> handleRequest s r = (ev, c) ->
  spawns ev = [] /\ forall s', c = Continue s' -> started s' = false ->
    ptyReq s' = last_pty (ptyReq s) [r] /\ envVars s' = envVars s ++ env_of r.
Proof.
  unfold handleRequest, line_of, last_pty, env_of, pty_of. simpl. intros Hs Hl H. rewrite Hs in H.
  destruct (kind r); repeat case_match; simplify_eq/=; (split; [done|]);
    intros s' [= <-] Hs'; simpl in *; rewrite ?app_nil_r; done.
Qed.

(** The first start request of a session. *)
Lemma handleSession_start s r rest line :
  started s = false -> line_of r = Some line ->
  spawns (handleSession s (r :: rest)).1 = [Spawn (shellCommand (ptyReq s) (envVars s) line)].
Proof.
  intros Hs Hl.
  assert (handleRequest s r = launch (set_started s) line) as Hr.
  { unfold handleRequest, line_of in *. rewrite Hs. by repeat case_match; simplify_eq. }
  cbn [handleSession]. rewrite Hr. unfold launch, startShell.
  destruct (StartWithSize _) as [f|e]; [|done].
  pose proof (handleSession_started rest
    {| ptyReq := ptyReq (set_started s); envVars := envVars (set_started s);
       ptyMaster := Some f; started := true |} eq_refl) as H.
  destruct (handleSession _ rest) as [ev b]. cbn [fst] in *. by rewrite spawns_app, H.
Qed.

Lemma elem_of_spawns l c : Spawn c ∈ l -> Spawn c ∈ spawns l.
Proof. intros H. by apply list_elem_of_filter. Qed.

(** Every process of a trace comes from a start request: the first one, with
    what the requests before it accumulated. *)
Lemma handleSession_spawn reqs s c :
  started s = false -> Spawn c ∈ spawns (handleSession s reqs).1 ->
  exists pre r post line, reqs = pre ++ r :: post /\ line_of r = Some line /\
    c = shellCommand (last_pty (ptyReq s) pre) (envVars s ++ (pre ≫= env_of)) line.
Proof.
  revert s. induction reqs as [|r reqs IH]; intros s Hs Hin; [by apply not_elem_of_nil in Hin|].
  destruct (line_of r) as [line|] eqn:Hl.
  { rewrite (handleSession_start s r reqs line) in Hin by done. apply list_elem_of_singleton in Hin as [= ->].
    exists [], r, reqs, line. simpl. by rewrite app_nil_r. }
  cbn [handleSession] in Hin. destruct (handleRequest s r) as [ev ctl] eqn:Hr.
  destruct (handleRequest_unstarted s r ev ctl Hs Hl Hr) as [Hev Hc]. destruct ctl as [s'| |]; simpl in Hin.
  - destruct (handleSession s' reqs) as [ev' b] eqn:He. cbn [fst] in Hin. rewrite spawns_app, Hev in Hin.
    destruct (started s') eqn:Hs'.
    { pose proof (handleSession_started reqs s' Hs') as Hno. rewrite He in Hno. cbn [fst] in Hno.
      rewrite Hno in Hin. by apply not_elem_of_nil in Hin. }
    destruct (Hc s' eq_refl Hs') as [Hp Hv]. specialize (IH s' Hs'). rewrite He in IH.
    destruct (IH Hin) as (pre & r' & post & line & -> & Hl' & ->). exists (r :: pre), r', post, line.
    split_and!; [done|done|]. rewrite Hp, Hv. simpl. by rewrite <- app_assoc.
  - rewrite spawns_app, Hev in Hin. by apply not_elem_of_nil in Hin.
  - rewrite Hev in Hin. by apply not_elem_of_nil in Hin.
Qed.

Lemma trace_spawn reqs c : Spawn c ∈ spawns (trace reqs) ->
  exists pre r post line, reqs = pre ++ r :: post /\ line_of r = Some line /\
    c = shellCommand (last_pty None pre) (pre ≫= env_of) line.
Proof. by apply (handleSession_spawn reqs initial). Qed.

Definition expects_reply (r : request) : bool :=
  match kind r with KWindow => false | KOther => req_WantReply r | _ => true end.

Lemma handleRequest_reply s r :
  (forall c, is_Ok (StartWithSize c) = true) -> survives r ->
  exists ev s', handleRequest s r = (ev, Continue s') /\
                replies ev = if expects_reply r then 1%nat else 0%nat.
Proof.
  intros Hok Hs. unfold handleRequest, survives, expects_reply, launch, startShell in *.
  destruct (kind r); try (repeat case_match; naive_solver).
  - destruct (started s); [eauto|]. specialize (Hok (shellCommand (ptyReq (set_started s)) (envVars (set_started s)) "")).
    destruct (StartWithSize _); naive_solver.
  - destruct (started s); [eauto|]. destruct (parseExecReq _) as [[line|e]|]; [|eauto|done].
    specialize (Hok (shellCommand (ptyReq (set_started s)) (envVars (set_started s)) line)).
    destruct (StartWithSize _); naive_solver.
  - destruct (ptyMaster s); [|eauto].
    destruct (parseWinChReq_cases (req_Payload r)) as [[? ->]|[? ->]]; eauto.
Qed.

Lemma replies_app l1 l2 : replies (l1 ++ l2) = (replies l1 + replies l2)%nat.
Proof. unfold replies. by rewrite filter_app, length_app. Qed.

Lemma handleSession_reply reqs s :
  (forall c, is_Ok (StartWithSize c) = true) -> Forall survives reqs ->
  replies (handleSession s reqs).1 = length (filter (fun r => expects_reply r = true) reqs) /\
  (handleSession s reqs).2 = false /\ last (handleSession s reqs).1 = Some CloseChannel.
Proof.
  intros Hok Hs. revert s. induction Hs as [|r reqs Hr Hs IH]; intros s; [done|]. cbn [handleSession].
  destruct (handleRequest_reply s r Hok Hr) as (ev & s' & -> & Hev).
  destruct (IH s') as (H1 & H2 & H3). destruct (handleSession s' reqs) as [ev' b].
  simpl in *. rewrite replies_app, Hev, H1, last_app, H3. split_and!; [|done|done].
  destruct (expects_reply r) eqn:He; [rewrite filter_cons_True|rewrite filter_cons_False]; simpl; congruence.
Qed.

(** ** Properties *)

(** A session runs at most one process: whatever requests a client
    sends and whatever the PTY layer answers, the request loop starts the
    shell at most once (the [started] flag). *)
Theorem session_at_most_one_spawn reqs :
  (length (spawns (trace reqs)) <= 1)%nat.
Proof. apply handleSession_one_spawn. Qed.

(** What the shell is started with: for every prefix of requests that
    start nothing and do not crash the parsers, the first "shell" or
    well-formed "exec" request starts exactly one process, and its window
    size, TERM, environment and [-c] argument are the ones of the last
    well-formed pty-req, of the env requests in order and of that request;
    nothing after it can start another. *)
Theorem session_spawn_command pre r post line :
  Forall (fun r => ~ is_start r) pre -> Forall survives pre -> line_of r = Some line ->
  spawns (trace (pre ++ r :: post)) =
    [Spawn (shellCommand (last_pty None pre) (pre ≫= env_of) line)].
Proof.
  intros Hq Hs Hl. unfold trace.
  destruct (handleSession_quiet pre (r :: post) initial Hq Hs)
    as (ev & s' & -> & Hev & Hp & He & Hst).
  cbn [fst]. rewrite spawns_app, Hev, (handleSession_start s' r post line) by done.
  by rewrite Hp, He.
Qed.

(** Replies on the wire: when the PTY layer starts the command and no
    payload crashes the parsers, every pty-req, env, shell and exec request
    and every other request that wants a reply gets exactly one reply,
    window-change none, and the channel is closed last. *)
Theorem session_replies reqs :
  (forall c, is_Ok (StartWithSize c) = true) -> Forall survives reqs ->
  replies (trace reqs) = length (filter (fun r => expects_reply r = true) reqs) /\
  crashes reqs = false /\ last (trace reqs) = Some CloseChannel.
Proof. intros. by apply handleSession_reply. Qed.

(** Remote crash: after any requests that do not end the session, one
    pty-req of at least four bytes whose length prefix is at least
    2^32 - 4 stops the process: the trace ends there, the channel is not
    closed and no later request is served. *)
Theorem session_crash_on_prefix pre payload n want post :
  Forall (fun r => ~ is_start r) pre -> Forall survives pre ->
  prefix_value payload = Some n -> 2 ^ 32 - 4 <= n -> len payload < 2 ^ 32 ->
  crashes (pre ++ {| req_Type := "pty-req"; req_Payload := payload; req_WantReply := want |} :: post) = true.
Proof.
  intros Hq Hs Hp Hn Hl. destruct (prefix_value_range _ _ Hp). unfold crashes.
  edestruct (handleSession_quiet pre) as (ev & s' & -> & _); [done..|]. cbn [snd handleSession].
  unfold handleRequest, kind, parsePtyReq. simpl.
  by rewrite (unmarshal_bad_prefix payload n Hp) by lia.
Qed.

(** Window sizes are truncated to 16 bits: a resize request that takes
    effect sets exactly the low 16 bits of each of the four 32-bit fields,
    so 65536 columns become 0. *)
Theorem session_resize_truncates s r w :
  kind r = KWindow -> parseWinChReq (req_Payload r) = Value (Ok w) -> is_Some (ptyMaster s) ->
  handleRequest s r =
    ([Setsize (win_rows w mod 2 ^ 16) (win_cols w mod 2 ^ 16)
              (win_xPx w mod 2 ^ 16) (win_yPx w mod 2 ^ 16)], Continue s).
Proof. intros Hk Hw [f Hf]. unfold handleRequest. by rewrite Hk, Hf, Hw. Qed.
End server.

(** ** Witnesses *)

Definition sample_pty : request :=
  {| req_Type := "pty-req"; req_WantReply := true;
     req_Payload := put_string "xterm" ++ put_u32 80 ++ put_u32 24 ++ put_u32 0 ++ put_u32 0 |}.
Definition sample_env : request :=
  {| req_Type := "env"; req_Payload := put_string "LANG" ++ put_string "C"; req_WantReply := false |}.
Definition sample_exec : request :=
  {| req_Type := "exec"; req_Payload := put_string "uptime"; req_WantReply := true |}.
Definition sample_resize : request :=
  {| req_Type := "window-change"; req_WantReply := false;
     req_Payload := put_u32 65536 ++ put_u32 50 ++ put_u32 0 ++ put_u32 0 |}.

Lemma session_spawn_command_witness :
  spawns (trace "/bin/sh" ["PATH=/bin"] (fun _ => Ok 3%nat) [sample_pty; sample_env; sample_exec]) =
  [Spawn {| cmd_Path := "/bin/sh"; cmd_Args := ["-c"; "uptime"];
            cmd_Env := ["PATH=/bin"; "LANG=C"; "TERM=xterm"]; cmd_Rows := 24; cmd_Cols := 80 |}].
Proof.
  apply (session_spawn_command "/bin/sh" ["PATH=/bin"] (fun _ => Ok 3%nat)
           [sample_pty; sample_env] sample_exec [] "uptime").
  - repeat constructor; intros [H|H]; discriminate H.
  - repeat constructor; discriminate.
  - reflexivity.
Defined.

Lemma session_replies_witness :
  crashes "/bin/sh" [] (fun _ => Ok 3%nat) [sample_pty; sample_env; sample_exec; sample_resize] = false.
Proof.
  apply (session_replies "/bin/sh" [] (fun _ => Ok 3%nat)); [reflexivity|].
  repeat constructor; discriminate.
Defined.

Lemma session_crash_on_prefix_witness :
  crashes "/bin/sh" [] (fun _ => Ok 3%nat)
    [sample_env; {| req_Type := "pty-req"; req_WantReply := true;
                    req_Payload := [byte_of 255; byte_of 255; byte_of 255; byte_of 255] |}] = true.
Proof.
  apply (session_crash_on_prefix "/bin/sh" [] (fun _ => Ok 3%nat) [sample_env] _ 4294967295 true []).
  - repeat constructor; intros [H|H]; discriminate H.
  - repeat constructor; discriminate.
  - reflexivity.
  - lia.
  - reflexivity.
Defined.

Lemma session_resize_truncates_witness :
  handleRequest "/bin/sh" [] (fun _ => Ok 3%nat)
    {| ptyReq := None; envVars := []; ptyMaster := Some 3%nat; started := true |} sample_resize =
  ([Setsize 50 0 0 0],
   Continue {| ptyReq := None; envVars := []; ptyMaster := Some 3%nat; started := true |}).
Proof.
  apply (session_resize_truncates "/bin/sh" [] (fun _ => Ok 3%nat) _ sample_resize
           {| win_cols := 65536; win_rows := 50; win_xPx := 0; win_yPx := 0 |}).
  - reflexivity.
  - reflexivity.
  - eexists. reflexivity.
Defined.

End SshSession.
