(* ===== verification/ShellProxy.v ===== *)
(** * The goroutines of a shell session (src/pkg/sshd/server.go, startShell)

    Once the child runs, startShell leaves three goroutines: [io.Copy(f, ch)]
    (client to PTY), [io.Copy(ch, f)] (PTY to client) and the reaper, which
    waits for one copy to end, closes the PTY, waits for the other copy,
    reaps the child and sends "exit-status".  The model is the step relation
    of their interleavings with the client and the child.  A write can block:
    [ch.Write] sends no more than the client's window allows and waits while the
    window is empty, holding the chunk it has read from the PTY, and [f.Write]
    takes no more than the PTY has room for.  Bytes the client's transport has
    not taken count as window it has not given. *)

From S2P Require Import Prelude SshWire.

Local Open Scope Z_scope.

Module ShellProxy.

(** Where the reaper goroutine is: before the first [<-done], before the
    second, before [cmd.Process.Wait()], after [ch.Close()]. *)
Inductive reaper_pc := Wait1 | Wait2 | WaitChild | Finished.

#[export] Instance reaper_pc_eq_dec : EqDecision reaper_pc.
Proof. solve_decision. Defined.

Record st := St {
  inbox : bytes;         (* sent by the client, not yet read from the channel *)
  clientEOF : bool;      (* the client closed its sending side *)
  clientClosed : bool;   (* the client closed the channel *)
  window : nat;          (* the bytes the client still allows on the channel *)
  room : nat;            (* the bytes the PTY still takes *)
  ptyIn : bytes;         (* written to the PTY master *)
  ptyOut : bytes;        (* written by the child, not yet read from the master *)
  produced : bytes;      (* everything the child wrote *)
  chunk : bytes;         (* read from the master, not yet written to the channel *)
  sent : bytes;          (* written to the channel *)
  child : option Z;      (* exit code once exited *)
  ptyOpen : bool;
  copyIn : bool;         (* io.Copy(f, ch) is running *)
  copyOut : bool;        (* io.Copy(ch, f) is running *)
  done : nat;            (* values in the channel done *)
  reaper : reaper_pc;
  status : option Z      (* the exit-status request sent, if any *)
}.

(** The window the client opened the channel with, and the room of a new PTY. *)
Definition init (w r : nat) : st :=
  St [] false false w r [] [] [] [] [] None true true true 0 Wait1 None.

(** The buffer of [io.Copy]. *)
Definition copy_buffer : Z := 32 * 1024.

Inductive actor := Client | Child | Agent.

Inductive step : actor -> st -> st -> Prop :=
| c_send c ib cl w ro pi po pr bf se ch op ci co d r x :
    step Client (St ib false cl w ro pi po pr bf se ch op ci co d r x)
                (St (ib ++ c) false cl w ro pi po pr bf se ch op ci co d r x)
| c_eof ib cl w ro pi po pr bf se ch op ci co d r x :
    step Client (St ib false cl w ro pi po pr bf se ch op ci co d r x)
                (St ib true cl w ro pi po pr bf se ch op ci co d r x)
| c_close ib eof w ro pi po pr bf se ch op ci co d r x :
    step Client (St ib eof false w ro pi po pr bf se ch op ci co d r x)
                (St ib true true w ro pi po pr bf se ch op ci co d r x)
| c_adjust n ib eof w ro pi po pr bf se ch op ci co d r x :
    step Client (St ib eof false w ro pi po pr bf se ch op ci co d r x)
                (St ib eof false (w + n) ro pi po pr bf se ch op ci co d r x)
| p_write c ib eof cl w ro pi po pr bf se ci co d r x :
    step Child (St ib eof cl w ro pi po pr bf se None true ci co d r x)
               (St ib eof cl w ro pi (po ++ c) (pr ++ c) bf se None true ci co d r x)
| p_read n ib eof cl w ro pi po pr bf se op ci co d r x :
    step Child (St ib eof cl w ro pi po pr bf se None op ci co d r x)
               (St ib eof cl w (ro + n) pi po pr bf se None op ci co d r x)
| p_exit code ib eof cl w ro pi po pr bf se op ci co d r x :
    step Child (St ib eof cl w ro pi po pr bf se None op ci co d r x)
               (St ib eof cl w ro pi po pr bf se (Some code) op ci co d r x)
(* io.Copy(f, ch) *)
| a_in_copy c ib eof cl w ro pi po pr bf se ch co d r x :
    c <> [] -> (length c <= ro)%nat ->
    step Agent (St (c ++ ib) eof cl w ro pi po pr bf se ch true true co d r x)
               (St ib eof cl w (ro - length c) (pi ++ c) po pr bf se ch true true co d r x)
| a_in_fail c ib eof cl w ro pi po pr bf se ch op co d r x :
    c <> [] -> op = false \/ is_Some ch ->
    step Agent (St (c ++ ib) eof cl w ro pi po pr bf se ch op true co d r x)
               (St ib eof cl w ro pi po pr bf se ch op false co (S d) r x)
| a_in_eof cl w ro pi po pr bf se ch op co d r x :
    step Agent (St [] true cl w ro pi po pr bf se ch op true co d r x)
               (St [] true cl w ro pi po pr bf se ch op false co (S d) r x)
(* io.Copy(ch, f): read, then write until the chunk is out *)
| a_out_read c ib eof cl w ro pi po pr se ch ci d r x :
    c <> [] -> Z.of_nat (length c) <= copy_buffer ->
    step Agent (St ib eof cl w ro pi (c ++ po) pr [] se ch true ci true d r x)
               (St ib eof cl w ro pi po pr c se ch true ci true d r x)
| a_out_write c ib eof w ro pi po pr bf se ch op ci d r x :
    c <> [] -> (length c <= w)%nat ->
    step Agent (St ib eof false w ro pi po pr (c ++ bf) se ch op ci true d r x)
               (St ib eof false (w - length c) ro pi po pr bf (se ++ c) ch op ci true d r x)
| a_out_fail ib eof w ro pi po pr bf se ch op ci d r x :
    bf <> [] ->
    step Agent (St ib eof true w ro pi po pr bf se ch op ci true d r x)
               (St ib eof true w ro pi po pr bf se ch op ci false (S d) r x)
| a_out_end ib eof cl w ro pi po pr se ch op ci d r x :
    op = false \/ (is_Some ch /\ po = []) ->
    step Agent (St ib eof cl w ro pi po pr [] se ch op ci true d r x)
               (St ib eof cl w ro pi po pr [] se ch op ci false (S d) r x)
(* the reaper; SendRequest fails once the client has closed the channel *)
| a_reap1 ib eof cl w ro pi po pr bf se ch op ci co d x :
    step Agent (St ib eof cl w ro pi po pr bf se ch op ci co (S d) Wait1 x)
               (St ib eof cl w ro pi po pr bf se ch false ci co d Wait2 x)
| a_reap2 ib eof cl w ro pi po pr bf se ch op ci co d x :
    step Agent (St ib eof cl w ro pi po pr bf se ch op ci co (S d) Wait2 x)
               (St ib eof cl w ro pi po pr bf se ch op ci co d WaitChild x)
| a_reap3 code ib eof cl w ro pi po pr bf se op ci co d x :
    step Agent (St ib eof cl w ro pi po pr bf se (Some code) op ci co d WaitChild x)
               (St ib eof cl w ro pi po pr bf se (Some code) op ci co d Finished
                  (if cl then None else Some (u32 code))).

Definition any_step (s t : st) : Prop := exists a, step a s t.
Definition quiet_step (s t : st) : Prop := step Child s t \/ step Agent s t.
Definition reachable (s : st) : Prop := exists w r, rtc any_step (init w r) s.

(** ** Invariants *)

(** How many values the reaper has taken from [done]. *)
Definition taken (r : reaper_pc) : nat :=
  match r with Wait1 => 0 | Wait2 => 1 | WaitChild | Finished => 2 end.
Definition ended (b : bool) : nat := if b then 0 else 1.

(** Every value in [done] is a copy that ended; the PTY is open exactly until
    the reaper took the first one; the status is the child's, and sent unless
    the client had closed the channel. *)
Definition inv (s : st) : Prop :=
  (done s + taken (reaper s) = ended (copyIn s) + ended (copyOut s))%nat /\
  ptyOpen s = bool_decide (reaper s = Wait1) /\
  (reaper s <> Finished -> status s = None) /\
  (reaper s = Finished -> exists code, child s = Some code /\
     (status s = Some (u32 code) \/ (status s = None /\ clientClosed s = true))) /\
  sent s `prefix_of` produced s /\
  (copyOut s = true -> produced s = sent s ++ chunk s ++ ptyOut s) /\
  (clientClosed s = true -> clientEOF s = true).

Lemma inv_init w r : inv (init w r).
Proof. unfold inv. simpl. by split_and!. Qed.

Lemma inv_step a s t : inv s -> step a s t -> inv t.
Proof.
  unfold inv. intros (H1 & H2 & H3 & H4 & H5 & H6 & H7) Hs.
  destruct Hs; simpl in *; split_and!; simpl; try done; try lia; auto; try congruence.
  - intros E. destruct (H4 E) as (code & ? & [?|[? _]]); eauto.
  - by apply prefix_app_r.
  - intros Hc. rewrite H6 by done. by rewrite !app_assoc.
  - intros ->. by destruct (H4 eq_refl) as (? & ? & ?).
  - rewrite H6 by done. rewrite <- app_assoc, app_assoc. by apply prefix_app_r.
  - intros _. rewrite H6 by done. by rewrite <- !app_assoc.
  - destruct cl; eauto.
Qed.

Lemma rtc_inv s t : inv s -> rtc any_step s t -> inv t.
Proof.
  intros Hs Hr. apply (rtc_invariant any_step inv s t); [|done|done].
  intros a b Ha [x Hx]. by eapply inv_step.
Qed.

Lemma inv_reachable s : reachable s -> inv s.
Proof. intros (w & r & Hr). eapply rtc_inv; [apply inv_init|done]. Qed.


(** While the client neither sends nor closes, the input copy blocks. *)
Definition silent (s : st) : Prop :=
  inv s /\ inbox s = [] /\ clientEOF s = false /\ clientClosed s = false /\ copyIn s = true.

Lemma silent_step s t : silent s -> quiet_step s t -> silent t.
Proof.
  intros (Hi & Hib & He & Hc & Hci) Hs.
  assert (inv t) as Ht by (destruct Hs; by eapply inv_step).
  split; [done|]. destruct Hs as [Hs|Hs]; inversion Hs; subst; simpl in *; subst; try done;
    destruct c; simplify_eq/=.
Qed.

(** ** Termination of the agent's own steps *)










(** ** Properties *)

(** A run: the child prints two bytes, of which the client's window first lets
    one through; the client ends its input, the child exits with 3, the reaper
    closes the PTY while the second byte is still held, the client widens its
    window, and the session ends. *)
Definition hi : bytes := chars "hi".

Definition held : st :=
  St [] true false 0 5 [] [] hi ["i"%char] ["h"%char] (Some 3) false false true 0 Wait2 None.
Definition over : st :=
  St [] true false 0 5 [] [] hi [] hi (Some 3) false false false 0 Finished (Some 3).

Lemma held_reachable : reachable held.
Proof.
  exists 1%nat, 5%nat.
  eapply rtc_l; [exists Child; apply (p_write hi)|].
  eapply rtc_l; [exists Agent; apply (a_out_read hi [] _ _ _ _ _ []); [done|unfold copy_buffer; simpl; lia]|].
  eapply rtc_l; [exists Agent; apply (a_out_write ["h"%char]); [done|simpl; lia]|].
  eapply rtc_l; [exists Client; apply c_eof|].
  eapply rtc_l; [exists Agent; apply a_in_eof|].
  eapply rtc_l; [exists Agent; apply a_reap1|].
  apply rtc_once. exists Child. apply p_exit.
Qed.

Lemma over_reachable : reachable over.
Proof.
  destruct held_reachable as (w & r & H). exists w, r. etrans; [exact H|].
  eapply rtc_l; [exists Client; apply (c_adjust 1)|].
  eapply rtc_l; [exists Agent; apply (a_out_write ["i"%char] _ _ _ _ _ _ _ []); [done|simpl; lia]|].
  eapply rtc_l; [exists Agent; apply a_out_end; by left|].
  eapply rtc_l; [exists Agent; apply a_reap2|].
  apply rtc_once. exists Agent. apply a_reap3.
Qed.

(** C26.  Safety of the proxy: in every reachable state what the client has
    received is a prefix of what the child wrote, and an exit-status, if one
    was sent, is the exit code of the (exited) child, sent after both copies
    ended and the PTY was closed. *)
Theorem proxy_safety s : reachable s ->
  sent s `prefix_of` produced s /\
  forall x, status s = Some x ->
    exists code, child s = Some code /\ x = u32 code /\
      copyIn s = false /\ copyOut s = false /\ ptyOpen s = false.
Proof.
  intros Hr. destruct (inv_reachable s Hr) as (H1 & H2 & H3 & H4 & H5 & _). split; [done|].
  intros x Hx. destruct (decide (reaper s = Finished)) as [Hf|Hf]; [|naive_solver congruence].
  destruct (H4 Hf) as (code & Hc & [Hst|[Hst _]]); [|congruence]. exists code. rewrite Hf in H1, H2.
  destruct (copyIn s), (copyOut s); simpl in *; split_and!; try done; try lia; congruence.
Qed.

(** At [held] half of the output has arrived and there is no status yet; at
    [over] all of it has, and the status is the child's. *)
Lemma proxy_safety_witness :
  (["h"%char] `prefix_of` hi /\ status held = None) /\
  exists code, child over = Some code /\ 3 = u32 code /\
    copyIn over = false /\ copyOut over = false /\ ptyOpen over = false.
Proof.
  split; [split; [apply (proxy_safety held held_reachable)|reflexivity]|].
  apply (proxy_safety over over_reachable). reflexivity.
Defined.





(** The session does not end when the child exits: as long as the client
    neither sends a byte nor closes, no interleaving of the child and of the
    agent's goroutines ever sends an exit-status or ends the input copy, the
    child's exit included. *)
Theorem proxy_silent_client_hangs w r s :
  rtc quiet_step (init w r) s -> status s = None /\ copyIn s = true /\ reaper s <> Finished.
Proof.
  intros Hr. assert (silent s) as ((H1 & _ & H3 & _) & _ & _ & _ & Hci).
  { apply (rtc_invariant quiet_step silent (init w r) s); [apply silent_step| |done].
    split; [apply inv_init|done]. }
  rewrite Hci in H1. simpl in H1.
  assert (reaper s <> Finished) as Hf by (intros Hf; rewrite Hf in H1; simpl in H1;
    destruct (copyOut s); simpl in H1; lia).
  naive_solver.
Qed.

Definition child_gone : st :=
  St [] false false 9 9 [] [] [] [] [] (Some 0) false true false 0 Wait2 None.

Lemma proxy_silent_client_hangs_witness : status child_gone = None /\ child child_gone = Some 0.
Proof.
  split; [|reflexivity]. apply (proxy_silent_client_hangs 9 9 child_gone).
  eapply rtc_l; [left; apply (p_exit 0)|].
  eapply rtc_l; [right; apply a_out_end; right; split; [eauto|reflexivity]|].
  eapply rtc_l; [right; apply a_reap1|]. apply rtc_refl.
Defined.

(** Output can be lost: there is an execution in which the client only
    closes its sending side (as with [ssh host cmd < /dev/null]), the child
    writes its output and exits with 0, the exit-status 0 is sent, and not
    one byte of the output was forwarded to the still open client, however wide
    its window. *)
Theorem proxy_loses_output (w r : nat) (out : bytes) :
  exists s, reachable s /\ status s = Some 0 /\ clientClosed s = false /\ window s = w /\
            produced s = out /\ sent s = [].
Proof.
  exists (St [] true false w r [] out out [] [] (Some 0) false false false 0 Finished (Some 0)).
  split; [|done]. exists w, r. unfold any_step.
  eapply rtc_l; [exists Child; apply (p_write out)|].
  eapply rtc_l; [exists Client; apply c_eof|].
  eapply rtc_l; [exists Agent; apply a_in_eof|].
  eapply rtc_l; [exists Agent; apply a_reap1|].
  eapply rtc_l; [exists Child; apply (p_exit 0)|].
  eapply rtc_l; [exists Agent; apply a_out_end; by left|].
  eapply rtc_l; [exists Agent; apply a_reap2|].
  eapply rtc_l; [exists Agent; apply a_reap3|]. apply rtc_refl.
Qed.

End ShellProxy.
