(* ===== verification/FileSys.v ===== *)
(** * The guest's file system, as the agent uses it through package [os]

    A file system is a finite map from component lists to nodes; the root
    directory is implicit.  Each system call takes one entry of a fault
    schedule: [Some (n, e)] makes it fail with [e] after [n] units of progress
    (bytes for a write, directories for MkdirAll), [None] lets it run.  Every
    intermediate file system is recorded, so that theorems can speak of what
    a concurrent reader, or a reboot after a crash, may see ([Interleave] runs
    several computations at once).  Symbolic links,
    permissions and ownership are left out; relative paths are resolved from
    the root directory. *)

From S2P Require Import Prelude GoLib.

Abbreviation path := (list string).

Inductive node := NFile (data : string) | NDir.
#[export] Instance node_eq_dec : EqDecision node.
Proof. solve_decision. Defined.

Abbreviation fsys := (gmap path node).

Definition ENOENT : error := Sentinel "ENOENT".
Definition ENOTDIR : error := Sentinel "ENOTDIR".
Definition EISDIR : error := Sentinel "EISDIR".
Definition EEXIST : error := Sentinel "EEXIST".
Definition ENOTEMPTY : error := Sentinel "ENOTEMPTY".
Definition EBUSY : error := Sentinel "EBUSY".
Definition ENOTSUP : error := Sentinel "ENOTSUP".

(** [os.IsNotExist]. *)
Definition IsNotExist (e : error) : bool := errors_Is e "ENOENT".

(** The components a path string denotes. *)
Definition path_of (s : string) : path :=
  str <$> clean_comps true (GoLib.split slash (chars s)).

(** ** Pure file-system operations *)

Definition node_at (f : fsys) (p : path) : option node :=
  match p with [] => Some NDir | _ => f !! p end.

(** Kernel path resolution from directory [cur]. *)
Fixpoint walk (f : fsys) (cur rest : path) : result node :=
  match node_at f cur with
  | None => Err ENOENT
  | Some n =>
      match rest, n with
      | [], _ => Ok n
      | _ :: _, NFile _ => Err ENOTDIR
      | c :: rest', NDir => walk f (cur ++ [c]) rest'
      end
  end.

Definition lookup_path (f : fsys) (p : path) : result node := walk f [] p.

Definition parent (p : path) : path := take (pred (length p)) p.

Definition is_child (p q : path) : bool :=
  bool_decide (parent q = p /\ q <> []).

Definition children (f : fsys) (p : path) : list (path * node) :=
  filter (fun qn => is_child p qn.1 = true) (map_to_list f).

(** Directory entries in the order ReadDir returns them. *)
Definition entry_le (a b : string * bool) : Prop := String.le a.1 b.1.
#[export] Instance entry_le_dec a b : Decision (entry_le a b).
Proof. unfold entry_le. apply _. Defined.

Definition entries (f : fsys) (p : path) : list (string * bool) :=
  merge_sort entry_le
    ((fun qn => (default "" (last qn.1), bool_decide (qn.2 = NDir))) <$> children f p).

Fixpoint mkdirs (budget : option nat) (f : fsys) (cur rest : path) : result unit * fsys :=
  match rest with
  | [] => (Ok tt, f)
  | c :: rest' =>
      let q := cur ++ [c] in
      match f !! q with
      | Some NDir => mkdirs budget f q rest'
      | Some (NFile _) => (Err ENOTDIR, f)
      | None =>
          match budget with
          | Some O => (Ok tt, f)
          | Some (S b) => mkdirs (Some b) (<[q:=NDir]> f) q rest'
          | None => mkdirs None (<[q:=NDir]> f) q rest'
          end
      end
  end.

(** ** System calls *)

Abbreviation fault := (option (nat * error)).

Record os := mk_os {
  files : fsys;
  faults : list fault;
  history : list fsys
}.

Definition M (A : Type) : Type := os -> result A * os.

Definition oret {A} (a : A) : M A := fun w => (Ok a, w).
Definition ofail {A} (e : error) : M A := fun w => (Err e, w).

(** Go's [v, err := c]: the continuation sees the error. *)
Definition ocatch {A B} (c : M A) (k : result A -> M B) : M B :=
  fun w => let '(r, w') := c w in k r w'.

Definition obind {A B} (c : M A) (k : A -> M B) : M B :=
  ocatch c (fun r => match r with Ok a => k a | Err e => ofail e end).

(** [if err := c; err != nil { return fmt.Errorf(..., err) }]. *)
Definition owrap {A} (wrap : error -> error) (c : M A) : M A :=
  ocatch c (fun r => match r with Ok a => oret a | Err e => ofail (wrap e) end).

Declare Scope os_scope.
Delimit Scope os_scope with os.
Notation "x <- c ;; k" := (obind c (fun x => k))
  (at level 20, c at level 99, k at level 200) : os_scope.
Notation "x <~ c ;; k" := (ocatch c (fun x => k))
  (at level 20, c at level 99, k at level 200) : os_scope.
Notation "c ;;; k" := (obind c (fun _ => k))
  (at level 100, k at level 200, right associativity) : os_scope.
Local Open Scope os_scope.

Definition syscall {A} (f : fault -> fsys -> result A * fsys) : M A :=
  fun w =>
    let ft := match faults w with [] => None | x :: _ => x end in
    let '(r, fs') := f ft (files w) in
    (r, {| files := fs'; faults := tail (faults w); history := history w ++ [fs'] |}).

(** A call that fails without effect. *)
Definition guarded {A} (f : fsys -> result A * fsys) (ft : fault) (fs : fsys) : result A * fsys :=
  match ft with Some (_, e) => (Err e, fs) | None => f fs end.

Definition os_Stat (p : string) : M node :=
  syscall (guarded (fun fs => (lookup_path fs (path_of p), fs))).

Definition os_ReadFile (p : string) : M string :=
  syscall (guarded (fun fs =>
    (match lookup_path fs (path_of p) with
     | Ok (NFile d) => Ok d
     | Ok NDir => Err EISDIR
     | Err e => Err e
     end, fs))).

(** [open(p, O_WRONLY|O_CREATE|O_TRUNC)]. *)
Definition open_trunc (p : path) (fs : fsys) : result unit * fsys :=
  match p with
  | [] => (Err EISDIR, fs)
  | _ =>
      match lookup_path fs (parent p) with
      | Err e => (Err e, fs)
      | Ok (NFile _) => (Err ENOTDIR, fs)
      | Ok NDir =>
          match fs !! p with
          | Some NDir => (Err EISDIR, fs)
          | _ => (Ok tt, <[p:=NFile ""]> fs)
          end
      end
  end.

Definition write_data (p : path) (data : string) (ft : fault) (fs : fsys) : result unit * fsys :=
  match ft with
  | None => (Ok tt, <[p:=NFile data]> fs)
  | Some (n, e) => (Err e, <[p:=NFile (str (take n (chars data)))]> fs)
  end.

Definition os_WriteFile (p data : string) : M unit :=
  syscall (guarded (open_trunc (path_of p))) ;;;
  syscall (write_data (path_of p) data).

(** [os.Rename] of a regular file (every rename of the agent is one). *)
Definition rename_file (a b : path) (fs : fsys) : result unit * fsys :=
  match lookup_path fs a with
  | Err e => (Err e, fs)
  | Ok NDir => (Err ENOTSUP, fs)
  | Ok (NFile d) =>
      match b with
      | [] => (Err EEXIST, fs)
      | _ =>
          match lookup_path fs (parent b) with
          | Err e => (Err e, fs)
          | Ok (NFile _) => (Err ENOTDIR, fs)
          | Ok NDir =>
              match fs !! b with
              | Some NDir => (Err EEXIST, fs)
              | _ => (Ok tt, if decide (a = b) then fs else <[b:=NFile d]> (delete a fs))
              end
          end
      end
  end.

Definition os_Rename (a b : string) : M unit :=
  syscall (guarded (rename_file (path_of a) (path_of b))).

Definition remove_node (p : path) (fs : fsys) : result unit * fsys :=
  match p with
  | [] => (Err EBUSY, fs)
  | _ =>
      match lookup_path fs p with
      | Err e => (Err e, fs)
      | Ok (NFile _) => (Ok tt, delete p fs)
      | Ok NDir => if decide (children fs p = []) then (Ok tt, delete p fs)
                   else (Err ENOTEMPTY, fs)
      end
  end.

Definition os_Remove (p : string) : M unit := syscall (guarded (remove_node (path_of p))).

Definition os_MkdirAll (p : string) : M unit :=
  syscall (fun ft fs =>
    match ft with
    | None => mkdirs None fs [] (path_of p)
    | Some (n, e) => (Err e, (mkdirs (Some n) fs [] (path_of p)).2)
    end).

Definition os_ReadDir (p : string) : M (list (string * bool)) :=
  syscall (guarded (fun fs =>
    (match lookup_path fs (path_of p) with
     | Ok NDir => Ok (entries fs (path_of p))
     | Ok (NFile _) => Err ENOTDIR
     | Err e => Err e
     end, fs))).

(** [os.Chown]: ownership is not part of the model; it may fail. *)
Definition os_Chown (p : string) : M unit :=
  syscall (guarded (fun fs => (Ok tt, fs))).

(** [os.RemoveAll]: the subtree at [p]; a missing path is not an error. *)
Definition under (p q : path) : bool := bool_decide (take (length p) q = p).

Definition os_RemoveAll (p : string) : M unit :=
  syscall (guarded (fun fs =>
    (Ok tt, filter (fun qn => under (path_of p) qn.1 = false) fs))).

(** ** Well-formed file systems *)

Definition wf (f : fsys) : Prop :=
  f !! ([] : path) = None /\
  forall p c n, f !! (p ++ [c]) = Some n -> node_at f p = Some NDir.

(** ** Loops and recursion bounds *)

(** [for _, x := range l { ... }], stopping at the first error. *)
Fixpoint ofor {A : Type} (l : list A) (f : A -> M unit) : M unit :=
  match l with [] => oret tt | x :: l' => f x ;;; ofor l' f end.

(** The length of the longest path, anywhere and below a directory: bounds on
    the depth of a recursion over the tree. *)
Definition height (f : fsys) : nat := foldr Nat.max 0 ((fun qn => length qn.1) <$> map_to_list f).
Definition depth_below (p : path) (f : fsys) : nat := height (filter (fun qn => under p qn.1 = true) f).

(** A recursion whose bound is measured on the file system it starts from. *)
Definition measured {A : Type} (bound : fsys -> nat) (c : nat -> M A) : M A := fun w => c (bound (files w)) w.
