(* ===== verification/GoPath.v ===== *)
(** * Lemmas on path strings

    [path_of] (FileSys) gives the components a path string denotes.  Here:
    [Clean] does not change them, [Join], [Dir] and a string suffix act on
    them as expected, and a key without ".." can only extend its root. *)

From S2P Require Import Prelude GoLib FileSys.

(** ** Splitting and joining *)

Lemma split_go_cur c cur b :
  exists x l, split_go c cur b = (cur ++ x) :: l /\ split_go c [] b = x :: l.
Proof.
  revert cur. induction b as [|a b IH]; intros cur; simpl.
  { exists [], []. by rewrite app_nil_r. }
  case_decide.
  { exists [], (split_go c [] b). by rewrite app_nil_r. }
  destruct (IH (cur ++ [a])) as (x & l & -> & H2). destruct (IH [a]) as (x' & l' & -> & H2').
  exists (a :: x), l. rewrite H2 in H2'. simplify_eq. by rewrite <- app_assoc.
Qed.

Lemma split_go_app c cur a b :
  split_go c cur (a ++ c :: b) = split_go c cur a ++ split_go c [] b.
Proof.
  revert cur. induction a as [|x a IH]; intros cur; simpl.
  - by rewrite decide_True.
  - case_decide; [|apply IH]. simpl. by rewrite IH.
Qed.

Lemma split_app c a b : split c (a ++ c :: b) = split c a ++ split c b.
Proof. apply split_go_app. Qed.

Lemma split_go_free c cur a : c ∉ a -> split_go c cur a = [cur ++ a].
Proof.
  revert cur. induction a as [|x a IH]; intros cur Ha; simpl; [by rewrite app_nil_r|].
  apply not_elem_of_cons in Ha as [Hx Ha]. rewrite decide_False by congruence.
  rewrite IH by done. by rewrite <- app_assoc.
Qed.

Lemma split_free c a : c ∉ a -> split c a = [a].
Proof. apply split_go_free. Qed.

Lemma split_pieces_free c b : Forall (fun x => c ∉ x) (split c b).
Proof.
  unfold split. assert (forall cur, c ∉ cur -> Forall (fun x => c ∉ x) (split_go c cur b)) as H;
    [|apply H; apply not_elem_of_nil].
  induction b as [|x b IH]; intros cur Hc; simpl; [by constructor|]. case_decide.
  - constructor; [done|]. apply IH, not_elem_of_nil.
  - apply IH. rewrite elem_of_app, list_elem_of_singleton. naive_solver.
Qed.

Lemma split_join c l : l <> [] -> Forall (fun x => c ∉ x) l -> split c (join_bytes [c] l) = l.
Proof.
  intros Hne Hf. induction Hf as [|x l Hx Hf IH]; [done|]. destruct l as [|y l].
  - by apply split_free.
  - change (join_bytes [c] (x :: y :: l)) with (x ++ c :: join_bytes [c] (y :: l)).
    rewrite split_app, split_free, IH by done. done.
Qed.

Lemma join_bytes_snoc sep l x : l <> [] ->
  join_bytes sep (l ++ [x]) = join_bytes sep l ++ sep ++ x.
Proof.
  intros Hne. induction l as [|y l IH]; [done|]. destruct l as [|z l]; [done|].
  change ((y :: z :: l) ++ [x]) with (y :: (z :: l) ++ [x]).
  assert (exists w l', (z :: l) ++ [x] = w :: l') as (w & l' & Hw) by (simpl; eauto).
  transitivity (y ++ sep ++ join_bytes sep ((z :: l) ++ [x])); [by rewrite Hw|].
  rewrite IH by done. simpl. by rewrite <- !app_assoc.
Qed.

(** ** The cleaning fold *)

Definition trivial_comp (c : bytes) : Prop := c = [] \/ c = chars ".".
#[export] Instance trivial_comp_dec c : Decision (trivial_comp c).
Proof. unfold trivial_comp. apply _. Defined.

Definition plain (c : bytes) : Prop := ~ trivial_comp c /\ c <> chars "..".
#[export] Instance plain_dec c : Decision (plain c).
Proof. unfold plain. apply _. Defined.

Lemma clean_step_plain r out c : plain c -> clean_step r out c = c :: out.
Proof. intros [H1 H2]. unfold clean_step. by rewrite decide_False, decide_False. Qed.

Lemma clean_step_trivial r out c : trivial_comp c -> clean_step r out c = out.
Proof. intros. unfold clean_step. by rewrite decide_True. Qed.

Lemma clean_fold_nodotdot r out cs : chars ".." ∉ cs ->
  foldl (clean_step r) out cs = reverse (filter plain cs) ++ out.
Proof.
  revert out. induction cs as [|c cs IH]; intros out Hd; [done|].
  apply not_elem_of_cons in Hd as [Hc Hd]. cbn [foldl]. rewrite IH by done.
  destruct (decide (trivial_comp c)) as [Ht|Ht].
  - rewrite clean_step_trivial, filter_cons_False by (done || by intros [? _]). done.
  - assert (plain c) by done. rewrite clean_step_plain, filter_cons_True by done.
    rewrite reverse_cons, <- app_assoc. done.
Qed.

(** On a rooted path the output is plain; in general ".." only stays below
    every plain component of the stack. *)
Lemma clean_fold_plain out cs : Forall plain out ->
  Forall plain (foldl (clean_step true) out cs).
Proof.
  revert out. induction cs as [|c cs IH]; intros out Ho; [done|]. cbn [foldl]. apply IH.
  unfold clean_step. repeat case_decide; try done.
  - destruct out as [|t out]; [done|]. inversion Ho as [|? ? [_ Ht] Ho']; subst.
    by rewrite decide_False.
  - by constructor.
Qed.

Definition stack_ok (out : list bytes) : Prop :=
  exists ns ds, out = ns ++ ds /\ Forall plain ns /\ Forall (eq (chars "..")) ds.

Lemma filter_plain_all ns : Forall plain ns -> filter plain ns = ns.
Proof. induction 1; [done|]. by rewrite filter_cons_True, IHForall. Qed.

Lemma filter_plain_none ds : Forall (eq (chars "..")) ds -> filter plain ds = [].
Proof.
  induction 1 as [|d ds Hd _ IH]; [done|]. rewrite filter_cons_False; [done|].
  intros [_ H]. by apply H.
Qed.

(** The unrooted run simulates the rooted one. *)
Lemma clean_fold_sim cs outF outT :
  stack_ok outF -> outT = filter plain outF ->
  stack_ok (foldl (clean_step false) outF cs) /\
  foldl (clean_step true) outT cs = filter plain (foldl (clean_step false) outF cs).
Proof.
  revert outF outT. induction cs as [|c cs IH]; intros outF outT Hok ->; [done|].
  cbn [foldl]. apply IH.
  - destruct Hok as (ns & ds & -> & Hn & Hd). destruct (decide (trivial_comp c)) as [Ht|Ht].
    { rewrite clean_step_trivial by done. by exists ns, ds. }
    destruct (decide (c = chars "..")) as [->|Hc].
    + destruct ns as [|n ns].
      * exists [], (chars ".." :: ds). split_and!; [|done|by constructor]. simpl.
        destruct ds as [|d ds]; [done|]. inversion Hd; subst. done.
      * exists ns, ds. inversion Hn as [|? ? [_ Hx]]; subst. split_and!; [|done|done].
        unfold clean_step. simpl. by rewrite decide_False.
    + exists (c :: ns), ds. rewrite clean_step_plain by done. split_and!; [done|by constructor|done].
  - destruct Hok as (ns & ds & -> & Hn & Hd).
    rewrite filter_app, (filter_plain_all ns), (filter_plain_none ds), app_nil_r by done.
    destruct (decide (trivial_comp c)) as [Ht|Ht].
    { rewrite !clean_step_trivial by done.
      by rewrite filter_app, (filter_plain_all ns), (filter_plain_none ds), app_nil_r by done. }
    destruct (decide (c = chars "..")) as [->|Hc].
    + destruct ns as [|n ns].
      * assert (Forall (eq (chars "..")) (clean_step false ([] ++ ds) (chars ".."))) as Hf.
        { destruct ds as [|d ds]; [by repeat constructor|]. inversion Hd; subst. by constructor. }
        by rewrite (filter_plain_none _ Hf).
      * inversion Hn as [|? ? [_ Hx] Hn']; subst. unfold clean_step. simpl.
        rewrite !decide_False by done.
        by rewrite filter_app, (filter_plain_all ns), (filter_plain_none ds), app_nil_r by done.
    + rewrite !clean_step_plain by done. rewrite filter_cons_True by done.
      by rewrite filter_app, (filter_plain_all ns), (filter_plain_none ds), app_nil_r by done.
Qed.

(** The components of a byte path. *)
Definition comps (b : bytes) : list bytes := clean_comps true (split slash b).

Lemma path_of_comps s : path_of s = str <$> comps (chars s).
Proof. done. Qed.

Lemma comps_plain b : Forall plain (comps b).
Proof. unfold comps, clean_comps. rewrite Forall_reverse. by apply clean_fold_plain. Qed.

Lemma clean_step_elem r out c x : x ∈ clean_step r out c -> x ∈ c :: out.
Proof.
  unfold clean_step. repeat case_decide; repeat case_match; set_solver.
Qed.

Lemma clean_comps_elem r cs x : x ∈ clean_comps r cs -> x ∈ cs.
Proof.
  unfold clean_comps. rewrite elem_of_reverse.
  assert (forall out, x ∈ foldl (clean_step r) out cs -> x ∈ cs ++ out) as H.
  { induction cs as [|c cs IH]; intros out; [done|]. cbn [foldl]. intros Hx%IH.
    apply elem_of_app in Hx as [Hx|Hx%clean_step_elem]; set_solver. }
  intros Hx%H. by rewrite app_nil_r in Hx.
Qed.

Lemma clean_comps_free r b : Forall (fun x => slash ∉ x) (clean_comps r (split slash b)).
Proof.
  apply Forall_forall. intros x Hx%clean_comps_elem.
  by pose proof (proj1 (Forall_forall _ _) (split_pieces_free slash b) x Hx).
Qed.

Lemma comps_free b : Forall (fun x => slash ∉ x) (comps b).
Proof. apply clean_comps_free. Qed.

(** ** [Clean], [Join], [Dir] and suffixes on components *)

Lemma comps_join_rooted l : Forall plain l -> Forall (fun x => slash ∉ x) l ->
  comps (slash :: join_bytes [slash] l) = l.
Proof.
  intros Hp Hf. unfold comps, clean_comps.
  change (slash :: ?b) with ([] ++ slash :: b). rewrite split_app.
  destruct l as [|x l]; [done|]. rewrite split_join by done.
  rewrite clean_fold_nodotdot.
  - rewrite filter_app, (filter_plain_all (x :: l)) by done. by rewrite app_nil_r, reverse_involutive.
  - rewrite elem_of_app. intros [Hx|Hx]; [set_solver|].
    by destruct (proj1 (Forall_forall _ _) Hp _ Hx) as [_ ?].
Qed.

Lemma clean_fold_dotdots ds : Forall (eq (chars "..")) ds -> foldl (clean_step true) [] ds = [].
Proof. induction 1 as [|d l <- _ IH]; [done|]. exact IH. Qed.

Lemma comps_join_unrooted l : stack_ok (reverse l) -> Forall (fun x => slash ∉ x) l -> l <> [] ->
  comps (join_bytes [slash] l) = filter plain l.
Proof.
  intros (ns & ds & Hl & Hn & Hd) Hf Hne. unfold comps, clean_comps. rewrite split_join by done.
  assert (l = reverse ds ++ reverse ns) as ->.
  { by rewrite <- reverse_app, <- Hl, reverse_involutive. }
  rewrite foldl_app. assert (foldl (clean_step true) [] (reverse ds) = []) as ->.
  { apply clean_fold_dotdots. by rewrite Forall_reverse. }
  assert (Forall plain (reverse ns)) as Hn' by by rewrite Forall_reverse.
  rewrite clean_fold_nodotdot.
  - rewrite filter_app, (filter_plain_all (reverse ns)), (filter_plain_none (reverse ds)) by
      (done || by rewrite Forall_reverse). by rewrite app_nil_r, reverse_involutive.
  - intros Hx. by destruct (proj1 (Forall_forall _ _) Hn' _ Hx) as [_ ?].
Qed.

Lemma comps_clean b : comps (clean b) = comps b.
Proof.
  destruct b as [|a b]; [done|]. unfold clean. set (w := a :: b). destruct (is_rooted w) eqn:Hr.
  - rewrite comps_join_rooted; [done|apply comps_plain|apply comps_free].
  - destruct (clean_fold_sim (split slash w) [] []) as [Hok Heq]; [by exists [], []|done|].
    assert (comps w = filter plain (clean_comps false (split slash w))) as ->.
    { unfold comps, clean_comps. rewrite Heq.
      generalize (foldl (clean_step false) [] (split slash w)) as l. intros l.
      induction l as [|x l IH]; [done|]. rewrite reverse_cons, filter_app, <- IH.
      destruct (decide (plain x)).
      - by rewrite !filter_cons_True, reverse_cons by done.
      - by rewrite !filter_cons_False, app_nil_r by done. }
    set (l := clean_comps false (split slash w)) in *.
    destruct (decide (l = [])) as [->|Hne]; [done|].
    assert (join_bytes [slash] l <> []) as Hj.
    { intros Hj. assert (comps [] = comps (join_bytes [slash] l)) as Hc by by rewrite Hj.
      pose proof (f_equal (split slash) Hj) as Hs.
      rewrite split_join in Hs by (done || apply clean_comps_free).
      assert ([] ∈ l) as Hx by (rewrite Hs; by left).
      unfold l, clean_comps in Hx. rewrite elem_of_reverse in Hx.
      destruct Hok as (ns & ds & Hns & Hn & Hd). rewrite Hns in Hx.
      apply elem_of_app in Hx as [Hx|Hx].
      - destruct (proj1 (Forall_forall _ _) Hn _ Hx) as [Ht _]. apply Ht. by left.
      - by pose proof (proj1 (Forall_forall _ _) Hd _ Hx). }
    destruct (join_bytes [slash] l) eqn:Hj'; [done|]. rewrite <- Hj'.
    apply comps_join_unrooted; [|apply clean_comps_free|done].
    unfold l, clean_comps. by rewrite reverse_involutive.
Qed.

Lemma path_of_Clean s : path_of (Clean s) = path_of s.
Proof. unfold Clean. by rewrite !path_of_comps, chars_str, comps_clean. Qed.

Lemma comps_app u v : chars ".." ∉ split slash v ->
  comps (u ++ slash :: v) = comps u ++ filter plain (split slash v).
Proof.
  intros Hv. unfold comps, clean_comps. rewrite split_app, foldl_app, clean_fold_nodotdot by done.
  by rewrite reverse_app, reverse_involutive.
Qed.

(** The components a key contributes below a root. *)
Definition key_comps (k : string) : path := str <$> filter plain (split slash (chars k)).

Lemma path_of_Join root k : root <> "" -> chars ".." ∉ split slash (chars k) ->
  path_of (Join root k) = path_of root ++ key_comps k.
Proof.
  intros Hr Hk. unfold Join. rewrite decide_False by done.
  rewrite path_of_Clean, path_of_comps, !chars_app. simpl.
  rewrite comps_app by done. by rewrite fmap_app.
Qed.

(** A path string that ends in the component [l]. *)
Definition ends_in (s : string) (u l : bytes) : Prop :=
  chars s = u ++ slash :: l /\ slash ∉ l /\ plain l.

Lemma path_of_ends_in s u l : ends_in s u l -> path_of s = (str <$> comps u) ++ [str l].
Proof.
  intros (Hs & Hf & Hp). rewrite path_of_comps, Hs, comps_app.
  - rewrite split_free, filter_cons_True, fmap_app by done. done.
  - rewrite split_free, list_elem_of_singleton by done. intros <-. by destruct Hp.
Qed.

Lemma last_index_byte_free c a : c ∉ a -> last_index_byte c a = None.
Proof.
  induction a as [|x a IH]; intros Ha; [done|]. apply not_elem_of_cons in Ha as [Hx Ha].
  simpl. by rewrite IH, decide_False by congruence.
Qed.

Lemma last_index_byte_app c u l : c ∉ l -> last_index_byte c (u ++ c :: l) = Some (length u).
Proof.
  intros Hl. induction u as [|x u IH]; simpl.
  - by rewrite last_index_byte_free, decide_True.
  - by rewrite IH.
Qed.

Lemma index_byte_Some c b i : index_byte c b = Some i ->
  exists u v, b = u ++ c :: v /\ length u = i.
Proof.
  revert i. induction b as [|x b IH]; intros i; simpl; [done|]. case_decide as E.
  - intros [= <-]. exists [], b. by subst.
  - destruct (index_byte c b) as [j|]; [|done]. intros [= <-].
    destruct (IH j eq_refl) as (u & v & -> & <-). by exists (x :: u), v.
Qed.

Lemma index_byte_app c u v : c ∉ u -> index_byte c (u ++ c :: v) = Some (length u).
Proof.
  induction u as [|x u IH]; intros Hu; simpl; [by rewrite decide_True|].
  apply not_elem_of_cons in Hu as [Hx Hu]. rewrite decide_False by congruence. by rewrite IH.
Qed.

Lemma last_index_byte_Some c b i : last_index_byte c b = Some i -> b !! i = Some c.
Proof.
  revert i. induction b as [|x b IH]; intros i; simpl; [done|].
  destruct (last_index_byte c b) as [j|]; [intros [= <-]; by apply IH|].
  case_decide; [|done]. intros [= <-]. by subst.
Qed.

Lemma path_of_Dir s u l : ends_in s u l -> path_of (Dir s) = str <$> comps u.
Proof.
  intros (Hs & Hf & _). unfold Dir. rewrite path_of_comps, chars_str, Hs.
  rewrite last_index_byte_app by done.
  rewrite comps_clean. replace (take (S (length u)) (u ++ slash :: l)) with (u ++ slash :: []).
  - rewrite comps_app by (change (split slash []) with [[] : bytes]; by rewrite list_elem_of_singleton). by rewrite app_nil_r.
  - rewrite take_app_ge by lia. replace (S (length u) - length u) with 1 by lia. done.
Qed.

Lemma parent_snoc (p : path) x : parent (p ++ [x]) = p.
Proof.
  unfold parent. rewrite length_app. simpl. replace (pred (length p + 1)) with (length p) by lia.
  by rewrite take_app_length.
Qed.

Lemma last_plain_tmp l t : plain l -> (4 <= length t)%nat -> plain (l ++ t).
Proof.
  intros [Ht _] Hl. split; [intros [H|H]|intros H]; apply (f_equal length) in H;
    rewrite length_app in H; simpl in H; lia.
Qed.

Lemma ends_in_suffix s u l t : ends_in s u l -> slash ∉ chars t -> (4 <= length (chars t))%nat ->
  ends_in (s +:+ t) u (l ++ chars t).
Proof.
  intros (Hs & Hf & Hp) Ht Hlen. split_and!.
  - rewrite chars_app, Hs, <- app_assoc. done.
  - rewrite elem_of_app. naive_solver.
  - by apply last_plain_tmp.
Qed.

(** A cleaned rooted path with at least one component ends in one. *)
Lemma Clean_ends_in s : HasPrefix s "/" = true -> path_of s <> [] ->
  exists u l, ends_in (Clean s) u l.
Proof.
  intros Hr Hne. unfold HasPrefix in Hr. unfold Clean, clean.
  destruct (chars s) as [|a b] eqn:Hs; [done|]. unfold is_rooted. change (chars "/") with [slash] in Hr.
  rewrite Hr. set (w := a :: b) in *.
  assert (comps w <> []) as Hc by (intros Hc; apply Hne; by rewrite path_of_comps, Hs, Hc).
  unfold comps in Hc. set (l := clean_comps true (split slash w)) in *.
  destruct (exists_last Hc) as (l' & x & Hl).
  assert (plain x /\ slash ∉ x) as [Hpx Hfx].
  { pose proof (comps_plain w) as H1. pose proof (comps_free w) as H2.
    unfold comps in H1, H2. fold l in H1, H2. rewrite Hl in H1, H2.
    apply Forall_app in H1 as [_ H1], H2 as [_ H2]. inversion H1. inversion H2. done. }
  rewrite Hl. destruct (decide (l' = [])) as [->|Hne'].
  - exists [], x. split_and!; try done; try apply Hpx. by rewrite chars_str.
  - exists (slash :: join_bytes [slash] l'), x. split_and!; try done; try apply Hpx.
    rewrite chars_str, join_bytes_snoc by done. done.
Qed.
