(* ===== verification/FsLogic.v ===== *)
(** * A small program logic for code that runs system calls

    [triple ff I P c Q]: from any state whose file system satisfies the
    invariant [I] and the precondition [P], running [c] keeps [I] at every
    instant (in every file system recorded in the history) and ends with the
    result and the file system related by [Q].  With [ff = true] the
    statement is about fault-free runs, with [ff = false] about every fault
    schedule.  The facts on each system call below are the rules the
    components use. *)

From S2P Require Import Prelude GoLib FileSys.

Definition fault_free (ff : bool) (w : os) : Prop :=
  ff = true -> Forall (fun x => x = None) (faults w).

Definition triple {A : Type} (ff : bool) (I P : fsys -> Prop) (c : M A)
    (Q : result A -> fsys -> Prop) : Prop :=
  forall w, fault_free ff w -> I (files w) -> P (files w) ->
    fault_free ff (c w).2 /\
    (exists h, history (c w).2 = history w ++ h /\ Forall I h) /\
    I (files (c w).2) /\ Q (c w).1 (files (c w).2).

Section rules.
Context {A B : Type} (ff : bool) (I : fsys -> Prop).

Lemma t_ret (P : fsys -> Prop) (Q : result A -> fsys -> Prop) a :
  (forall fs, I fs -> P fs -> Q (Ok a) fs) -> triple ff I P (oret a) Q.
Proof.
  intros H w Hw HI HP. simpl. split_and!; eauto. exists []. by rewrite app_nil_r.
Qed.

Lemma t_fail (P : fsys -> Prop) (Q : result A -> fsys -> Prop) e :
  (forall fs, I fs -> P fs -> Q (Err e) fs) -> triple ff I P (ofail e) Q.
Proof.
  intros H w Hw HI HP. simpl. split_and!; eauto. exists []. by rewrite app_nil_r.
Qed.

Lemma t_catch (P : fsys -> Prop) (R : result A -> fsys -> Prop)
    (Q : result B -> fsys -> Prop) (c : M A) (k : result A -> M B) :
  triple ff I P c R -> (forall r, triple ff I (R r) (k r) Q) ->
  triple ff I P (ocatch c k) Q.
Proof.
  intros Hc Hk w Hw HI HP. destruct (Hc w Hw HI HP) as (Hw1 & (h1 & Hh1 & HF1) & HI1 & HR).
  unfold ocatch. destruct (c w) as [r w1]. simpl in *.
  destruct (Hk r w1 Hw1 HI1 HR) as (Hw2 & (h2 & Hh2 & HF2) & HI2 & HQ).
  split_and!; try done. exists (h1 ++ h2). rewrite Hh2, Hh1, app_assoc.
  split; [done|]. by apply Forall_app.
Qed.

Lemma t_bind (P : fsys -> Prop) (R : result A -> fsys -> Prop)
    (Q : result B -> fsys -> Prop) (c : M A) (k : A -> M B) :
  triple ff I P c R -> (forall a, triple ff I (R (Ok a)) (k a) Q) ->
  (forall e fs, I fs -> R (Err e) fs -> Q (Err e) fs) ->
  triple ff I P (obind c k) Q.
Proof.
  intros Hc Hk He. eapply t_catch; [done|]. intros [a|e]; [apply Hk|].
  intros w Hw HI HR. simpl. split_and!; eauto. exists []. by rewrite app_nil_r.
Qed.

Lemma t_conseq (P P' : fsys -> Prop) (Q Q' : result A -> fsys -> Prop) (c : M A) :
  triple ff I P' c Q' -> (forall fs, I fs -> P fs -> P' fs) ->
  (forall r fs, I fs -> Q' r fs -> Q r fs) -> triple ff I P c Q.
Proof. intros Hc HP HQ w Hw HI H. destruct (Hc w) as (? & ? & ? & ?); eauto 10. Qed.

Lemma t_syscall (P : fsys -> Prop) (Q : result A -> fsys -> Prop) (f : fault -> fsys -> result A * fsys) :
  (forall ft fs, (ff = true -> ft = None) -> I fs -> P fs ->
     I (f ft fs).2 /\ Q (f ft fs).1 (f ft fs).2) ->
  triple ff I P (syscall f) Q.
Proof.
  intros Hf w Hw HI HP. unfold syscall.
  set (ft := match faults w with [] => None | x :: _ => x end).
  assert (ff = true -> ft = None) as Hft.
  { intros Hff. specialize (Hw Hff). unfold ft. by destruct Hw. }
  destruct (Hf ft (files w) Hft HI HP) as [HI' HQ]. destruct (f ft (files w)) as [r fs'].
  simpl in *. split_and!; try done.
  - intros Hff. specialize (Hw Hff). by destruct Hw.
  - exists [fs']. auto.
Qed.

(** A guarded call: under faults it changes nothing and reports the fault. *)
Lemma t_guarded (P : fsys -> Prop) (Q : result A -> fsys -> Prop) (f : fsys -> result A * fsys) :
  (forall fs, I fs -> P fs -> I (f fs).2 /\ Q (f fs).1 (f fs).2) ->
  (ff = false -> forall e fs, I fs -> P fs -> Q (Err e) fs) ->
  triple ff I P (syscall (guarded f)) Q.
Proof.
  intros Hf He. apply t_syscall. intros [[n e]|] fs Hft HI HP; simpl; [|auto].
  destruct ff; [by specialize (Hft eq_refl)|]. auto.
Qed.
End rules.

(** ** Well-formedness and path resolution *)

Lemma node_at_snoc (f : fsys) p c : node_at f (p ++ [c]) = f !! (p ++ [c]).
Proof. by destruct p. Qed.

Lemma node_at_ne (f : fsys) p : p <> [] -> node_at f p = f !! p.
Proof. by destruct p. Qed.

Lemma wf_ancestor (f : fsys) p q n : wf f -> q <> [] -> f !! (p ++ q) = Some n -> node_at f p = Some NDir.
Proof.
  intros [Hr Hwf] Hq. revert n. induction q as [|c q IH] using rev_ind; [done|]. intros n Hn.
  rewrite app_assoc in Hn. apply Hwf in Hn. destruct (decide (q = [])) as [->|Hne].
  - by rewrite app_nil_r in Hn.
  - apply (IH Hne NDir). rewrite node_at_ne in Hn; [done|]. by destruct p, q.
Qed.

Lemma walk_ok (f : fsys) cur rest n : wf f -> node_at f cur = Some NDir ->
  walk f cur rest = Ok n <-> node_at f (cur ++ rest) = Some n.
Proof.
  intros Hwf. revert cur. induction rest as [|c rest IH]; intros cur Hc; simpl; rewrite Hc.
  - rewrite app_nil_r, Hc. naive_solver.
  - destruct rest as [|d rest].
    + simpl. rewrite node_at_snoc. destruct (f !! (cur ++ [c])); naive_solver.
    + destruct (node_at f (cur ++ [c])) as [[data|]|] eqn:Hn.
      * simpl. rewrite Hn. split; [done|]. intros H. exfalso.
        rewrite (cons_middle c), app_assoc in H. rewrite node_at_ne in H by (by destruct cur).
        apply wf_ancestor in H; [congruence|done|done].
      * rewrite IH by done. by rewrite <- app_assoc.
      * simpl. rewrite Hn. split; [done|]. intros H. exfalso.
        rewrite (cons_middle c), app_assoc in H. rewrite node_at_ne in H by (by destruct cur).
        apply wf_ancestor in H; [congruence|done|done].
Qed.

Lemma lookup_path_ok (f : fsys) p n : wf f -> lookup_path f p = Ok n <-> node_at f p = Some n.
Proof. intros. unfold lookup_path. by rewrite (walk_ok f [] p n). Qed.

Lemma parent_app (p : path) c : parent (p ++ [c]) = p.
Proof.
  unfold parent. rewrite length_app. simpl. replace (pred (length p + 1)) with (length p) by lia.
  by rewrite take_app_length.
Qed.

Lemma snoc_inv (p : path) : p <> [] -> exists q c, p = q ++ [c].
Proof. intros H. destruct (exists_last H) as (q & c & ->). eauto. Qed.

(** Creating or overwriting a regular file below an existing directory. *)
Lemma wf_insert_file (f : fsys) p d : wf f -> p <> [] -> node_at f (parent p) = Some NDir ->
  (forall d', f !! p = Some d' -> d' <> NDir) -> wf (<[p:=NFile d]> f).
Proof.
  intros [Hr Hwf] Hne Hpar Hnd. split; [by rewrite lookup_insert_ne|].
  intros q c n Hq. assert (q <> p) as Hqp.
  { intros ->. destruct (decide (p = p ++ [c])) as [H|H].
    - apply (f_equal length) in H. rewrite length_app in H. simpl in H. lia.
    - rewrite lookup_insert_ne in Hq by done. apply Hwf in Hq.
      rewrite node_at_ne in Hq by done. by apply Hnd in Hq. }
  assert (node_at f q = Some NDir) as Hd.
  { destruct (decide (q ++ [c] = p)) as [<-|H]; [by rewrite parent_app in Hpar|].
    rewrite lookup_insert_ne in Hq by done. eauto. }
  destruct q as [|x q]; [done|]. rewrite node_at_ne in * by done. by rewrite lookup_insert_ne.
Qed.

Lemma wf_insert_dir (f : fsys) p : wf f -> p <> [] -> node_at f (parent p) = Some NDir ->
  f !! p = None -> wf (<[p:=NDir]> f).
Proof.
  intros [Hr Hwf] Hne Hpar Hn. split; [by rewrite lookup_insert_ne|].
  intros q c n Hq. destruct (decide (q = p)) as [->|Hqp].
  { rewrite node_at_ne by done. by rewrite lookup_insert_eq. }
  assert (node_at f q = Some NDir) as Hd.
  { destruct (decide (q ++ [c] = p)) as [<-|H]; [by rewrite parent_app in Hpar|].
    rewrite lookup_insert_ne in Hq by done. eauto. }
  destruct q as [|x q]; [done|]. rewrite node_at_ne in * by done. by rewrite lookup_insert_ne.
Qed.

(** Deleting a node with nothing below it. *)
Lemma wf_empty : wf ∅.
Proof. split; [by rewrite lookup_empty|]. intros q c n. by rewrite lookup_empty. Qed.

Lemma wf_delete (f : fsys) p : wf f -> (forall c, f !! (p ++ [c]) = None) -> wf (delete p f).
Proof.
  intros [Hr Hwf] Hleaf. split; [by apply lookup_delete_None; right|].
  intros q c n [Hne Hq]%lookup_delete_Some. specialize (Hwf _ _ _ Hq).
  destruct q as [|x q]; [done|]. rewrite node_at_ne in * by done.
  destruct (decide (p = x :: q)) as [->|H].
  - by rewrite Hleaf in Hq.
  - by rewrite lookup_delete_ne.
Qed.

Lemma wf_file_leaf (f : fsys) p d c : wf f -> f !! p = Some (NFile d) -> p <> [] -> f !! (p ++ [c]) = None.
Proof.
  intros [Hr Hwf] Hp Hne. destruct (f !! (p ++ [c])) eqn:H; [|done].
  apply Hwf in H. rewrite node_at_ne in H by done. congruence.
Qed.

Lemma parent_ne (p : path) : p <> [] -> parent p <> p.
Proof.
  intros (q & c & ->)%snoc_inv. rewrite parent_app. intros H.
  apply (f_equal length) in H. rewrite length_app in H. simpl in H. lia.
Qed.

Lemma node_at_insert_parent (f : fsys) (p : path) (n : node) : p <> [] ->
  node_at f (parent p) = Some NDir -> node_at (<[p:=n]> f) (parent p) = Some NDir.
Proof.
  intros Hne Hpar. pose proof (parent_ne p Hne) as Hpp.
  destruct (parent p) as [|x q]; [done|]. rewrite node_at_ne in * by done.
  by rewrite lookup_insert_ne.
Qed.

(** ** The system calls of the agent *)

Lemma open_trunc_spec (f : fsys) p : wf f ->
  (exists e, open_trunc p f = (Err e, f)) \/
  (open_trunc p f = (Ok tt, <[p:=NFile ""]> f) /\ wf (<[p:=NFile ""]> f) /\
   p <> [] /\ node_at f (parent p) = Some NDir /\ f !! p <> Some NDir).
Proof.
  intros Hwf. unfold open_trunc. destruct p as [|c p]; [eauto|]. set (q := c :: p).
  destruct (lookup_path f (parent q)) as [[d|]|e] eqn:Hl; eauto.
  apply lookup_path_ok in Hl; [|done].
  destruct (f !! q) as [[d|]|] eqn:Hq; eauto; right; split_and!; try done;
    apply wf_insert_file; try done; rewrite Hq; naive_solver.
Qed.

(** [os.WriteFile] only touches its target; when it succeeds the target holds
    the data. *)
Lemma WriteFile_spec (ff : bool) (I P : fsys -> Prop) (p data : string) :
  (forall fs, I fs -> wf fs) ->
  (forall fs d, I fs -> wf (<[path_of p:=NFile d]> fs) -> I (<[path_of p:=NFile d]> fs)) ->
  (forall fs d, P fs -> P (<[path_of p:=NFile d]> fs)) ->
  triple ff I P (os_WriteFile p data)
    (fun r fs => P fs /\ (r = Ok tt -> fs !! path_of p = Some (NFile data) /\
                          path_of p <> [] /\ node_at fs (parent (path_of p)) = Some NDir)).
Proof.
  intros HIwf HI HP. unfold os_WriteFile.
  apply (t_bind _ _ _ (fun r fs => P fs /\ (r = Ok tt -> fs !! path_of p = Some (NFile "") /\
     path_of p <> [] /\ node_at fs (parent (path_of p)) = Some NDir))).
  - apply t_guarded; [|naive_solver]. intros fs HIf HPf.
    destruct (open_trunc_spec fs (path_of p) (HIwf fs HIf)) as [[e ->]|(-> & Hw & Hne & Hpar & _)];
      simpl; [naive_solver|].
    split_and!; auto. intros _. rewrite lookup_insert_eq. auto using node_at_insert_parent.
  - intros []. apply t_syscall. intros ft fs _ HIf [HPf Hok]. specialize (Hok eq_refl).
    destruct Hok as (Hfile & Hne & Hpar).
    assert (forall d, I (<[path_of p:=NFile d]> fs)) as HI'.
    { intros d. apply HI; [done|]. apply wf_insert_file; auto. rewrite Hfile. naive_solver. }
    unfold write_data. destruct ft as [[n e]|]; simpl; [naive_solver|].
    split_and!; auto. intros _. rewrite lookup_insert_eq. auto using node_at_insert_parent.
  - naive_solver.
Qed.

Lemma rename_file_spec (f : fsys) (a b : path) : wf f ->
  (exists e, rename_file a b f = (Err e, f)) \/
  (exists d, f !! a = Some (NFile d) /\ b <> [] /\ f !! b <> Some NDir /\
     rename_file a b f = (Ok tt, if decide (a = b) then f else <[b:=NFile d]> (delete a f)) /\
     wf (if decide (a = b) then f else <[b:=NFile d]> (delete a f))).
Proof.
  intros Hwf. unfold rename_file.
  destruct (lookup_path f a) as [[d|]|e] eqn:Ha; eauto.
  apply lookup_path_ok in Ha; [|done]. destruct a as [|x a]; [done|]. set (p := x :: a) in *.
  rewrite node_at_ne in Ha by done.
  destruct b as [|y b]; [eauto|]. set (q := y :: b) in *.
  destruct (lookup_path f (parent q)) as [[d'|]|e] eqn:Hl; eauto.
  apply lookup_path_ok in Hl; [|done].
  assert (parent q <> p) as Hpq.
  { intros Heq. rewrite Heq, node_at_ne in Hl by done. congruence. }
  assert (f !! q <> Some NDir ->
          wf (if decide (p = q) then f else <[q:=NFile d]> (delete p f))) as Hres.
  { intros Hq. case_decide as Hd; [done|].
    assert (wf (delete p f)) as Hw.
    { apply wf_delete; [done|]. intros c. by eapply wf_file_leaf. }
    apply wf_insert_file; [done|done| |].
    - destruct (parent q) eqn:Hp; [done|]. rewrite node_at_ne in * by done.
      by rewrite lookup_delete_ne.
    - rewrite lookup_delete_ne by done. naive_solver. }
  destruct (f !! q) as [[d'|]|] eqn:Hq; eauto; right; exists d; split_and!; auto.
Qed.

(** [os.Rename] moves the content of [a] to [b] in one step, or changes
    nothing. *)
Lemma Rename_spec (ff : bool) (I P : fsys -> Prop) (Q : result unit -> fsys -> Prop) (a b : string) :
  (forall fs, I fs -> wf fs) ->
  (forall e fs, I fs -> P fs -> Q (Err e) fs) ->
  (forall fs d, I fs -> P fs -> fs !! path_of a = Some (NFile d) -> path_of b <> [] ->
     fs !! path_of b <> Some NDir ->
     let fs' := if decide (path_of a = path_of b) then fs
                else <[path_of b:=NFile d]> (delete (path_of a) fs) in
     wf fs' -> I fs' /\ Q (Ok tt) fs') ->
  triple ff I P (os_Rename a b) Q.
Proof.
  intros HIwf He Hok. apply t_guarded; [|auto]. intros fs HI HP.
  destruct (rename_file_spec fs (path_of a) (path_of b) (HIwf fs HI))
    as [[e ->]|(d & Ha & Hne & Hb & -> & Hw)]; simpl; auto.
Qed.

Lemma children_nil (f : fsys) (p : path) : children f p = [] -> forall c, f !! (p ++ [c]) = None.
Proof.
  intros Hc c. destruct (f !! (p ++ [c])) as [n|] eqn:H; [|done]. exfalso.
  assert ((p ++ [c], n) ∈ children f p) as Hin; [|rewrite Hc in Hin; by apply not_elem_of_nil in Hin].
  unfold children. apply list_elem_of_filter. split.
  - unfold is_child. apply bool_decide_eq_true_2. simpl. rewrite parent_app. split; [done|]. by destruct p.
  - by apply elem_of_map_to_list.
Qed.

Lemma remove_node_spec (f : fsys) (p : path) : wf f ->
  (exists e, remove_node p f = (Err e, f)) \/
  (remove_node p f = (Ok tt, delete p f) /\ wf (delete p f) /\ p <> [] /\ is_Some (f !! p) /\
   forall c, f !! (p ++ [c]) = None).
Proof.
  intros Hwf. unfold remove_node. destruct p as [|x p]; [eauto|]. set (q := x :: p).
  destruct (lookup_path f q) as [[d|]|e] eqn:Hq; eauto;
    apply lookup_path_ok in Hq; try done; rewrite node_at_ne in Hq by done.
  - right. assert (forall c, f !! (q ++ [c]) = None) by (intros; by eapply wf_file_leaf).
    split_and!; eauto. by apply wf_delete.
  - case_decide as Hc; eauto. right. pose proof (children_nil f q Hc).
    split_and!; eauto. by apply wf_delete.
Qed.

Lemma Remove_spec (ff : bool) (I P : fsys -> Prop) (Q : result unit -> fsys -> Prop) (p : string) :
  (forall fs, I fs -> wf fs) ->
  (forall e fs, I fs -> P fs -> Q (Err e) fs) ->
  (forall fs, I fs -> P fs -> is_Some (fs !! path_of p) -> wf (delete (path_of p) fs) ->
     I (delete (path_of p) fs) /\ Q (Ok tt) (delete (path_of p) fs)) ->
  triple ff I P (os_Remove p) Q.
Proof.
  intros HIwf He Hok. apply t_guarded; [|auto]. intros fs HI HP.
  destruct (remove_node_spec fs (path_of p) (HIwf fs HI)) as [[e ->]|(-> & Hw & _ & Hs & _)];
    simpl; auto.
Qed.

(** [mkdirs] only adds directories, on the way to its target. *)
Definition grown (p : path) (f g : fsys) : Prop :=
  (forall q n, f !! q = Some n -> g !! q = Some n) /\
  (forall q, g !! q <> f !! q -> g !! q = Some NDir /\ f !! q = None /\ q `prefix_of` p).

Lemma grown_refl p f : grown p f f.
Proof. split; [done|]. by intros q []. Qed.

Lemma grown_insert (p q : path) (f g : fsys) :
  f !! q = None -> q `prefix_of` p -> grown p (<[q:=NDir]> f) g -> grown p f g.
Proof.
  intros Hq Hpre [H1 H2]. split.
  - intros r n Hr. apply H1. rewrite lookup_insert_ne; [done|]. congruence.
  - intros r Hne. destruct (decide (r = q)) as [->|Hrq].
    + split_and!; try done. apply H1. by rewrite lookup_insert_eq.
    + rewrite <- (lookup_insert_ne f q r NDir) in Hne |- * by done. by apply H2.
Qed.

Lemma mkdirs_spec (budget : option nat) (f : fsys) (cur rest : path) :
  wf f -> node_at f cur = Some NDir ->
  let '(r, g) := mkdirs budget f cur rest in
  wf g /\ grown (cur ++ rest) f g /\
  (budget = None -> r = Ok tt -> node_at g (cur ++ rest) = Some NDir).
Proof.
  revert budget f cur. induction rest as [|c rest IH]; intros budget f cur Hwf Hc.
  { simpl. rewrite app_nil_r. split_and!; [done|apply grown_refl|done]. }
  cbn [mkdirs]. set (q := cur ++ [c]). rewrite (cons_middle c), app_assoc. fold q.
  assert (q <> []) as Hne by (unfold q; by destruct cur).
  destruct (f !! q) as [[d|]|] eqn:Hq.
  - split_and!; [done|apply grown_refl|done].
  - apply IH; [done|]. by rewrite node_at_ne.
  - assert (wf (<[q:=NDir]> f)) as Hw.
    { apply wf_insert_dir; try done. unfold q. by rewrite parent_app. }
    assert (node_at (<[q:=NDir]> f) q = Some NDir) as Hn.
    { rewrite node_at_ne by done. apply lookup_insert_eq. }
    assert (q `prefix_of` q ++ rest) as Hpre by (by apply prefix_app_r).
    destruct budget as [[|b]|].
    + split_and!; [done|apply grown_refl|done].
    + specialize (IH (Some b) _ q Hw Hn). destruct (mkdirs _ _ _ _) as [r g].
      destruct IH as (? & Hg & _). split_and!; [done|by eapply grown_insert|done].
    + specialize (IH None _ q Hw Hn). destruct (mkdirs _ _ _ _) as [r g].
      destruct IH as (? & Hg & ?). split_and!; [done|by eapply grown_insert|done].
Qed.

Lemma MkdirAll_spec (ff : bool) (I P : fsys -> Prop) (Q : result unit -> fsys -> Prop) (p : string) :
  (forall fs, I fs -> wf fs) ->
  (forall r fs g, I fs -> P fs -> wf g -> grown (path_of p) fs g ->
     (r = Ok tt -> node_at g (path_of p) = Some NDir) -> I g /\ Q r g) ->
  triple ff I P (os_MkdirAll p) Q.
Proof.
  intros HIwf Hok. apply t_syscall. intros ft fs _ HI HP.
  destruct ft as [[n e]|].
  - pose proof (mkdirs_spec (Some n) fs [] (path_of p) (HIwf fs HI) eq_refl) as H.
    destruct (mkdirs _ _ _ _) as [r g]. simpl in *. destruct H as (? & ? & ?). eapply Hok; naive_solver.
  - pose proof (mkdirs_spec None fs [] (path_of p) (HIwf fs HI) eq_refl) as H.
    destruct (mkdirs _ _ _ _) as [r g]. simpl in *. destruct H as (? & ? & ?). eapply Hok; naive_solver.
Qed.

Lemma Chown_spec (ff : bool) (I P : fsys -> Prop) (p : string) :
  triple ff I P (os_Chown p) (fun _ fs => P fs).
Proof. apply t_guarded; auto. Qed.

(** ** The atomic-replace pattern: write [tmp], rename over [path]

    Shared by the authorized_keys writer, the property tree and the host
    key; [between] is what runs between the two calls, its error ignored. *)

Definition write_tmp_rename (tmp target data : string) (wrapW wrapR : error -> error)
    (between : M unit) : M unit :=
  (owrap wrapW (os_WriteFile tmp data) ;;;
   ignored <~ between ;;
   r <~ os_Rename tmp target ;;
   match r with
   | Ok _ => oret tt
   | Err e => ignored <~ os_Remove tmp ;; ofail (wrapR e)
   end)%os.

(** A call that is harmless: it keeps every assertion, whatever it returns. *)
Definition harmless (c : M unit) : Prop :=
  forall (ff : bool) (I P : fsys -> Prop), triple ff I P c (fun _ fs => P fs).

Lemma harmless_ret : harmless (oret tt).
Proof. intros ff I P. by apply t_ret. Qed.

Lemma harmless_Chown p : harmless (os_Chown p).
Proof. intros ff I P. apply Chown_spec. Qed.

Lemma t_wrap {A : Type} (ff : bool) (I P : fsys -> Prop) (R Q : result A -> fsys -> Prop)
    (wrap : error -> error) (c : M A) :
  triple ff I P c R ->
  (forall a fs, I fs -> R (Ok a) fs -> Q (Ok a) fs) ->
  (forall e fs, I fs -> R (Err e) fs -> Q (Err (wrap e)) fs) ->
  triple ff I P (owrap wrap c) Q.
Proof.
  intros Hc Hok He. eapply t_catch; [done|]. intros [a|e]; [apply t_ret|apply t_fail]; auto.
Qed.

Section atomic_replace.
Context (ff : bool) (base : fsys) (tmp target data : string) (wrapW wrapR : error -> error).
Context (between : M unit) (Hbetween : harmless between).
Context (Hneq : path_of tmp <> path_of target).

(** At every instant: the target is untouched or holds the new data, and
    nothing but the target and the temporary file differs from [base]. *)
Definition replace_inv (fs : fsys) : Prop :=
  wf fs /\
  (fs !! path_of target = base !! path_of target \/
   fs !! path_of target = Some (NFile data)) /\
  forall q, q <> path_of target -> q <> path_of tmp -> fs !! q = base !! q.

Definition replace_post (r : result unit) (fs : fsys) : Prop :=
  match r with
  | Ok _ => fs !! path_of target = Some (NFile data) /\ fs !! path_of tmp = None
  | Err _ => fs !! path_of target = base !! path_of target
  end.

Lemma replace_inv_tmp fs n :
  replace_inv fs -> wf (<[path_of tmp:=n]> fs) -> replace_inv (<[path_of tmp:=n]> fs).
Proof.
  intros (Hw & Ht & Hf) Hw'. split_and!; [done| |].
  - by rewrite lookup_insert_ne.
  - intros q Hq1 Hq2. rewrite lookup_insert_ne; auto.
Qed.

Lemma atomic_replace :
  triple ff replace_inv (fun fs => fs !! path_of target = base !! path_of target)
    (write_tmp_rename tmp target data wrapW wrapR between) replace_post.
Proof.
  unfold write_tmp_rename.
  apply (t_bind _ _ _ (fun r fs => fs !! path_of target = base !! path_of target /\
           (r = Ok tt -> fs !! path_of tmp = Some (NFile data)))).
  - eapply t_wrap.
    + apply WriteFile_spec with (P := fun fs => fs !! path_of target = base !! path_of target).
      * by intros fs [? _].
      * intros. by apply replace_inv_tmp.
      * intros. by rewrite lookup_insert_ne.
    + naive_solver.
    + naive_solver.
  - intros []. eapply t_catch; [apply Hbetween|]. intros ignored. cbv beta.
    apply (t_catch _ _ _ (fun r fs => match r with
      | Ok _ => fs !! path_of target = Some (NFile data) /\ fs !! path_of tmp = None
      | Err _ => fs !! path_of target = base !! path_of target end)).
    + apply Rename_spec.
      * by intros fs [? _].
      * naive_solver.
      * intros fs d (Hw & Ht & Hf) [Hold Hd] Htmp Hne Hnd. rewrite decide_False by done.
        cbv zeta. intros Hw'. rewrite Hd in Htmp by done. simplify_eq. split.
        -- split_and!; [done|right; apply lookup_insert_eq|].
           intros q Hq1 Hq2. rewrite lookup_insert_ne, lookup_delete_ne; auto.
        -- rewrite lookup_insert_eq, lookup_insert_ne, lookup_delete_eq; auto.
    + intros [[]|e]; [apply t_ret; auto|].
      apply (t_catch _ _ _ (fun _ fs => fs !! path_of target = base !! path_of target)).
      * apply Remove_spec; [by intros fs [? _]|naive_solver|].
        intros fs (Hw & Ht & Hf) Hold Hs Hw'. split.
        -- split_and!; [done|rewrite lookup_delete_ne; auto|].
           intros q Hq1 Hq2. rewrite lookup_delete_ne; auto.
        -- by rewrite lookup_delete_ne.
      * intros r. apply t_fail. auto.
  - naive_solver.
Qed.
End atomic_replace.

(** ** Composing invariants *)

(** Reason about the file system found at this point by name. *)
Lemma t_at {A : Type} (ff : bool) (I P : fsys -> Prop) (c : M A) (Q : result A -> fsys -> Prop) :
  (forall g, I g -> P g -> triple ff I (fun fs => fs = g) c Q) -> triple ff I P c Q.
Proof. intros H w Hw HI HP. by apply (H (files w)). Qed.

(** A stronger invariant that holds at entry may be used inside. *)
Lemma t_inv {A : Type} (ff : bool) (I J P R : fsys -> Prop) (c : M A) (Q : result A -> fsys -> Prop) :
  triple ff J R c Q -> (forall fs, J fs -> I fs) -> (forall fs, I fs -> P fs -> J fs /\ R fs) ->
  triple ff I P c (fun r fs => J fs /\ Q r fs).
Proof.
  intros Hc HJI HP w Hw HI HPw. destruct (HP _ HI HPw) as [HJ HR].
  destruct (Hc w Hw HJ HR) as (? & (h & ? & ?) & ? & ?). split_and!; auto.
  exists h. split; [done|]. eapply Forall_impl; eauto.
Qed.

(** What a triple says about one run. *)
Lemma triple_run {A : Type} (I P : fsys -> Prop) (c : M A) (Q : result A -> fsys -> Prop) w :
  triple false I P c Q -> I (files w) -> P (files w) ->
  (exists h, history (c w).2 = history w ++ h /\ Forall I h) /\
  I (files (c w).2) /\ Q (c w).1 (files (c w).2).
Proof. intros Hc HI HP. by destruct (Hc w) as (_ & ? & ? & ?). Qed.

(** An unreachable continuation. *)
Lemma t_false {A : Type} (ff : bool) (I P : fsys -> Prop) (c : M A) (Q : result A -> fsys -> Prop) :
  (forall fs, ~ P fs) -> triple ff I P c Q.
Proof. intros H w _ _ HP. by apply H in HP. Qed.

(** ** Progress: without faults the calls succeed *)

(** No file stands where a directory on the way to [p] has to be. *)
Definition clear_way (p : path) (f : fsys) : Prop :=
  forall q d, q `prefix_of` p -> f !! q <> Some (NFile d).

Lemma mkdirs_ok (f : fsys) (cur rest : path) :
  clear_way (cur ++ rest) f -> (mkdirs None f cur rest).1 = Ok tt.
Proof.
  revert f cur. induction rest as [|c rest IH]; intros f cur Hc; [done|]. cbn [mkdirs].
  rewrite (cons_middle c), app_assoc in Hc. set (q := cur ++ [c]) in *.
  destruct (f !! q) as [[d|]|] eqn:Hq.
  - exfalso. apply (Hc q d); [by apply prefix_app_r|done].
  - by apply IH.
  - apply IH. intros r d Hr. destruct (decide (r = q)) as [->|Hne].
    + by rewrite lookup_insert_eq.
    + rewrite lookup_insert_ne by done. by apply Hc.
Qed.

Lemma MkdirAll_ok (p : string) (f : fsys) :
  wf f -> clear_way (path_of p) f ->
  triple true wf (fun fs => fs = f) (os_MkdirAll p)
    (fun r fs => r = Ok tt /\ grown (path_of p) f fs /\ node_at fs (path_of p) = Some NDir).
Proof.
  intros Hwf Hc. apply t_syscall. intros ft fs Hft _ ->. rewrite Hft by done.
  pose proof (mkdirs_spec None f [] (path_of p) Hwf eq_refl) as Hs.
  pose proof (mkdirs_ok f [] (path_of p) Hc) as Hok.
  destruct (mkdirs _ _ _ _) as [r g]. simpl in *. naive_solver.
Qed.

Lemma open_trunc_ok (f : fsys) (p : path) : wf f -> p <> [] ->
  node_at f (parent p) = Some NDir -> f !! p <> Some NDir ->
  open_trunc p f = (Ok tt, <[p:=NFile ""]> f) /\ wf (<[p:=NFile ""]> f).
Proof.
  intros Hwf Hne Hpar Hnd. unfold open_trunc. destruct p as [|c p]; [done|].
  rewrite (proj2 (lookup_path_ok f _ NDir Hwf)) by done. split.
  - destruct (f !! _) as [[d|]|]; done.
  - apply wf_insert_file; try done. destruct (f !! _) as [[d|]|] eqn:E; naive_solver.
Qed.

Lemma WriteFile_ok (p data : string) (f : fsys) :
  wf f -> path_of p <> [] -> node_at f (parent (path_of p)) = Some NDir ->
  f !! path_of p <> Some NDir ->
  triple true wf (fun fs => fs = f) (os_WriteFile p data)
    (fun r fs => r = Ok tt /\ fs = <[path_of p:=NFile data]> f).
Proof.
  intros Hwf Hne Hpar Hnd. destruct (open_trunc_ok f (path_of p)) as [Ho Hw]; try done.
  unfold os_WriteFile.
  apply (t_bind _ _ _ (fun r fs => r = Ok tt /\ fs = <[path_of p:=NFile ""]> f)).
  - apply t_guarded; [|done]. intros fs _ ->. by rewrite Ho.
  - intros []. apply t_syscall. intros ft fs Hft _ [_ ->]. rewrite Hft by done. simpl.
    rewrite insert_insert_eq. split; [|done].
    apply wf_insert_file; try done. naive_solver.
  - naive_solver.
Qed.

Lemma Rename_ok (a b : string) (d : string) (f : fsys) :
  wf f -> f !! path_of a = Some (NFile d) -> path_of b <> [] ->
  node_at f (parent (path_of b)) = Some NDir -> f !! path_of b <> Some NDir ->
  path_of a <> path_of b ->
  triple true wf (fun fs => fs = f) (os_Rename a b)
    (fun r fs => r = Ok tt /\ fs = <[path_of b:=NFile d]> (delete (path_of a) f)).
Proof.
  intros Hwf Ha Hb Hpar Hnd Hne.
  assert (rename_file (path_of a) (path_of b) f =
          (Ok tt, <[path_of b:=NFile d]> (delete (path_of a) f))) as Hr.
  { unfold rename_file.
    rewrite (proj2 (lookup_path_ok f (path_of a) (NFile d) Hwf)).
    2:{ rewrite node_at_ne; [done|]. intros E. rewrite E in Ha. destruct Hwf. congruence. }
    destruct (path_of b) as [|x q] eqn:E; [done|].
    rewrite (proj2 (lookup_path_ok f _ NDir Hwf)) by done. rewrite decide_False by done.
    destruct (f !! (x :: q)) as [[d'|]|]; done. }
  apply t_guarded; [|done]. intros fs _ ->. rewrite Hr. simpl. split; [|done].
  destruct (rename_file_spec f (path_of a) (path_of b) Hwf) as [[e He]|(d' & _ & _ & _ & H1 & H2)];
    rewrite Hr in *; [done|]. injection H1 as H1. by rewrite H1.
Qed.

(** The whole pattern: the new file system is known exactly. *)
Lemma write_tmp_rename_ok (tmp target data : string) (wrapW wrapR : error -> error)
    (between : M unit) (f : fsys) :
  harmless between -> wf f -> path_of tmp <> path_of target ->
  path_of tmp <> [] -> node_at f (parent (path_of tmp)) = Some NDir -> f !! path_of tmp <> Some NDir ->
  path_of target <> [] -> node_at f (parent (path_of target)) = Some NDir ->
  f !! path_of target <> Some NDir -> parent (path_of target) <> path_of tmp ->
  triple true wf (fun fs => fs = f) (write_tmp_rename tmp target data wrapW wrapR between)
    (fun r fs => r = Ok tt /\ fs = <[path_of target:=NFile data]> (delete (path_of tmp) f)).
Proof.
  intros Hh Hwf Hne Ht1 Ht2 Ht3 Hg1 Hg2 Hg3 Hpt. unfold write_tmp_rename.
  apply (t_bind _ _ _ (fun r fs => r = Ok tt /\ fs = <[path_of tmp:=NFile data]> f)).
  - eapply t_wrap; [by apply WriteFile_ok|naive_solver|naive_solver].
  - intros []. eapply t_catch; [apply Hh|]. intros ignored. cbv beta.
    eapply t_conseq with (P' := fun fs => wf fs /\ fs = <[path_of tmp:=NFile data]> f);
      [|naive_solver|intros r fs _ H; exact H].
    apply t_at. intros g _ [Hw ->].
    eapply t_catch; [apply (Rename_ok tmp target data)|]; try done.
    + by rewrite lookup_insert_eq.
    + destruct (parent (path_of target)) eqn:E; [done|]. rewrite node_at_ne in * by done.
      by rewrite lookup_insert_ne.
    + by rewrite lookup_insert_ne.
    + intros [[]|e]; [apply t_ret|apply t_false; naive_solver].
      intros fs _ [_ ->]. by rewrite delete_insert_eq.
  - naive_solver.
Qed.

(** ** Loops and the replace pattern keep any suitable invariant *)

Lemma t_for {A : Type} (ff : bool) (I : fsys -> Prop) (l : list A) (f : A -> M unit) :
  (forall x, x ∈ l -> triple ff I (fun _ => True) (f x) (fun _ _ => True)) ->
  triple ff I (fun _ => True) (ofor l f) (fun _ _ => True).
Proof.
  induction l as [|x l IH]; intros H; cbn [ofor]; [by apply t_ret|].
  eapply t_bind; [apply H; set_solver| |done]. intros []. apply IH. intros y Hy. apply H. set_solver.
Qed.

Lemma write_tmp_rename_keeps (ff : bool) (I : fsys -> Prop) (tmp target data : string)
    (wrapW wrapR : error -> error) (between : M unit) :
  harmless between ->
  (forall fs, I fs -> wf fs) ->
  (forall fs d, I fs -> wf (<[path_of tmp:=NFile d]> fs) -> I (<[path_of tmp:=NFile d]> fs)) ->
  (forall fs, I fs -> wf (delete (path_of tmp) fs) -> I (delete (path_of tmp) fs)) ->
  (forall fs, I fs -> wf (<[path_of target:=NFile data]> (delete (path_of tmp) fs)) ->
     I (<[path_of target:=NFile data]> (delete (path_of tmp) fs))) ->
  triple ff I (fun _ => True) (write_tmp_rename tmp target data wrapW wrapR between) (fun _ _ => True).
Proof.
  intros Hh Hw Hins Hdel Hren. unfold write_tmp_rename.
  apply (t_bind _ _ _ (fun r fs => match r with Ok _ => fs !! path_of tmp = Some (NFile data) | Err _ => True end));
    [eapply t_wrap; [apply (WriteFile_spec ff I (fun _ => True)); auto|intros []; naive_solver|done]| |done].
  intros []. eapply t_catch; [apply (Hh ff I (fun fs => fs !! path_of tmp = Some (NFile data)))|].
  intros ignored. cbv beta.
  eapply t_catch; [apply (Rename_spec ff I (fun fs => fs !! path_of tmp = Some (NFile data)) (fun _ _ => True)); auto|].
  - intros fs d HI Hd Hd' _ _. cbv zeta. rewrite Hd in Hd'. simplify_eq. case_decide; auto.
  - intros [[]|e]; [by apply t_ret|].
    eapply t_catch; [apply (Remove_spec ff I (fun _ => True) (fun _ _ => True)); auto|].
    intros r. by apply t_fail.
Qed.
