(* ===== verification/Pod.v ===== *)
(** * The wire payloads and their validation
    (src/vendor/github.com/openweft/weft-microvm-init/pkg/pod)

    The Go structs the event-bus messages decode into and their [Validate]
    methods, on every branch.  A Go map is a [gmap], a pointer field an
    [option]. *)

From S2P Require Import Prelude.

Local Open Scope Z_scope.

Module Pod.

(** ** wireguard.go, spec.go *)

Record WGPeer := {
  wp_PublicKey : string;
  wp_Endpoint : string;
  wp_AllowedIPs : list string;
  wp_PersistentKeepalive : Z
}.

Record WireGuard := {
  wg_Interface : string;
  wg_PrivateKey : string;
  wg_ListenPort : Z;
  wg_Address : string;
  wg_Peers : list WGPeer
}.

Fixpoint wg_peers_Validate (i : Z) (ps : list WGPeer) : gerr :=
  match ps with
  | [] => None
  | p :: ps' =>
      if decide (wp_PublicKey p = "") then Some (Errorf "peer[%d]: public_key is required" [EInt i])
      else if decide (wp_AllowedIPs p = []) then
        Some (Errorf "peer[%d]: at least one allowed_ip is required" [EInt i])
      else wg_peers_Validate (i + 1) ps'
  end.

Definition WireGuard_Validate (w : WireGuard) : gerr :=
  if decide (wg_PrivateKey w = "") then Some (errors_New "private_key is required")
  else if decide (wg_Address w = "") then Some (errors_New "address is required")
  else wg_peers_Validate 0 (wg_Peers w).

(** ** firewall.go *)

Record FirewallRule := {
  fr_Direction : string;
  fr_Protocol : string;
  fr_PortMin : Z;
  fr_PortMax : Z;
  fr_RemoteCIDR : string
}.

Record Firewall := { fw_Rules : list FirewallRule }.

Section firewall.
(** [netip.ParsePrefix], as far as [Validate] uses it: its error. *)
Context (ParsePrefix : string -> gerr).

Definition FirewallRule_Validate (r : FirewallRule) : gerr :=
  if negb (bool_decide (fr_Direction r ∈ ["ingress"; "egress"])) then
    Some (Errorf "direction %q: must be ingress or egress" [EStr (fr_Direction r)])
  else if negb (bool_decide (fr_Protocol r ∈ [""; "tcp"; "udp"; "icmp"])) then
    Some (Errorf "protocol %q: must be tcp, udp, icmp or empty" [EStr (fr_Protocol r)])
  else
    let ports :=
      if negb (fr_PortMin r =? 0) || negb (fr_PortMax r =? 0) then
        if negb (bool_decide (fr_Protocol r = "tcp")) && negb (bool_decide (fr_Protocol r = "udp")) then
          Some (Errorf "port range requires tcp or udp, got %q" [EStr (fr_Protocol r)])
        else if fr_PortMax r <? fr_PortMin r then
          Some (Errorf "port_min %d > port_max %d" [EInt (fr_PortMin r); EInt (fr_PortMax r)])
        else None
      else None in
    match ports with
    | Some e => Some e
    | None =>
        if decide (fr_RemoteCIDR r = "") then None
        else match ParsePrefix (fr_RemoteCIDR r) with
             | Some e => Some (Errorf "remote_cidr %q: %w" [EStr (fr_RemoteCIDR r); EErr e])
             | None => None
             end
    end.

Fixpoint fw_rules_Validate (i : Z) (rs : list FirewallRule) : gerr :=
  match rs with
  | [] => None
  | r :: rs' =>
      match FirewallRule_Validate r with
      | Some e => Some (Errorf "rule[%d]: %w" [EInt i; EErr e])
      | None => fw_rules_Validate (i + 1) rs'
      end
  end.

Definition Firewall_Validate (f : Firewall) : gerr := fw_rules_Validate 0 (fw_Rules f).
End firewall.

(** ** share.go *)

Record CubeFSMount := {
  cf_Volume : string;
  cf_Masters : list string;
  cf_Owner : string;
  cf_AccessKey : string;
  cf_SecretKey : string;
  cf_SubDir : string
}.

Record ShareMount := {
  sm_ID : string;
  sm_Action : string;
  sm_Backend : string;
  sm_MountPoint : string;
  sm_Readonly : bool;
  sm_CubeFS : option CubeFSMount
}.

Definition MountActionUnmount : string := "unmount".
Definition BackendCubeFS : string := "cubefs".

Definition backend (m : ShareMount) : string :=
  if decide (sm_Backend m = "") then BackendCubeFS else sm_Backend m.

Definition ShareMount_Validate (m : ShareMount) : gerr :=
  if decide (sm_ID m = "") then Some (errors_New "id is required")
  else if decide (sm_Action m = MountActionUnmount) then
    if decide (sm_MountPoint m = "") then
      Some (Errorf "unmount %q: mount_point is required" [EStr (sm_ID m)])
    else None
  else if decide (sm_MountPoint m = "") then
    Some (Errorf "mount %q: mount_point is required" [EStr (sm_ID m)])
  else if decide (backend m = BackendCubeFS) then
    match sm_CubeFS m with
    | None => Some (Errorf "mount %q: cubefs block is required" [EStr (sm_ID m)])
    | Some c =>
        if decide (cf_Volume c = "") then
          Some (Errorf "mount %q: cubefs.volume is required" [EStr (sm_ID m)])
        else if decide (cf_Masters c = []) then
          Some (Errorf "mount %q: cubefs.masters is required" [EStr (sm_ID m)])
        else if decide (cf_Owner c = "") then
          Some (Errorf "mount %q: cubefs.owner is required" [EStr (sm_ID m)])
        else None
    end
  else Some (Errorf "mount %q: unsupported backend %q" [EStr (sm_ID m); EStr (sm_Backend m)]).

(** ** containers.go *)

Record ContainerMount := { cm_HostPath : string; cm_MountPath : string; cm_Readonly : bool }.
#[export] Instance ContainerMount_eq_dec : EqDecision ContainerMount.
Proof. solve_decision. Defined.

Record WorkloadContainer := {
  wc_Name : string;
  wc_Image : string;
  wc_Command : list string;
  wc_Args : list string;
  wc_Env : gmap string string;
  wc_Mounts : list ContainerMount;
  wc_WorkingDir : string;
  wc_Net : string;
  wc_Restart : string;
  wc_Annotations : gmap string string
}.
#[export] Instance WorkloadContainer_eq_dec : EqDecision WorkloadContainer.
Proof. solve_decision. Defined.

Record ContainerSet := { cs_Version : Z; cs_Containers : list WorkloadContainer }.

Definition ContainerSetVersion : Z := 1.

Fixpoint mounts_Validate (i j : Z) (ms : list ContainerMount) : gerr :=
  match ms with
  | [] => None
  | m :: ms' =>
      if decide (cm_HostPath m = "" \/ cm_MountPath m = "") then
        Some (Errorf "containers[%d].mounts[%d]: host_path + mount_path required" [EInt i; EInt j])
      else mounts_Validate i (j + 1) ms'
  end.

Fixpoint containers_Validate (seen : gset string) (i : Z) (l : list WorkloadContainer) : gerr :=
  match l with
  | [] => None
  | c :: l' =>
      if decide (wc_Name c = "") then Some (Errorf "containers[%d]: name required" [EInt i])
      else if decide (wc_Name c ∈ seen) then
        Some (Errorf "containers[%d]: duplicate name %q" [EInt i; EStr (wc_Name c)])
      else if decide (wc_Image c = "") then
        Some (Errorf "containers[%d]: image required (got name=%q)" [EInt i; EStr (wc_Name c)])
      else if negb (bool_decide (wc_Net c ∈ [""; "host"; "none"; "shared"])) then
        Some (Errorf "containers[%d]: invalid net %q (host|none|shared|empty)" [EInt i; EStr (wc_Net c)])
      else if negb (bool_decide (wc_Restart c ∈ [""; "always"; "on-failure"; "never"])) then
        Some (Errorf "containers[%d]: invalid restart %q (always|on-failure|never|empty)"
                     [EInt i; EStr (wc_Restart c)])
      else match mounts_Validate i 0 (wc_Mounts c) with
           | Some e => Some e
           | None => containers_Validate ({[wc_Name c]} ∪ seen) (i + 1) l'
           end
  end.

(** [ContainerSet.Validate] also fills in a missing version. *)
Definition ContainerSet_Validate (s : ContainerSet) : ContainerSet * gerr :=
  let s' := if cs_Version s =? 0
            then {| cs_Version := ContainerSetVersion; cs_Containers := cs_Containers s |} else s in
  (s', if ContainerSetVersion <? cs_Version s' then
         Some (Errorf "unsupported ContainerSet version %d (agent supports %d)"
                      [EInt (cs_Version s'); EInt ContainerSetVersion])
       else containers_Validate ∅ 0 (cs_Containers s')).

(** ** firewallstatus.go *)

Record FirewallStatus := {
  fs_Overall : string;
  fs_TableInstalled : bool;
  fs_RulesInstalled : Z;
  fs_LastError : string;
  fs_PublishedAtUnix : Z;
  fs_DropsPackets : Z;
  fs_DropsBytes : Z
}.

(** ** What an accepted container set guarantees *)

Definition well_formed (c : WorkloadContainer) : Prop :=
  wc_Name c <> "" /\ wc_Image c <> "" /\ wc_Net c ∈ [""; "host"; "none"; "shared"] /\
  wc_Restart c ∈ [""; "always"; "on-failure"; "never"] /\
  Forall (fun m => cm_HostPath m <> "" /\ cm_MountPath m <> "") (wc_Mounts c).

Lemma mounts_Validate_ok i j ms :
  mounts_Validate i j ms = None <->
  Forall (fun m => cm_HostPath m <> "" /\ cm_MountPath m <> "") ms.
Proof.
  revert j. induction ms as [|m ms IH]; intros j; simpl; [by split; constructor|].
  case_decide as Hd; [split; [done|]|]; rewrite ?Forall_cons.
  - intros [? _]. tauto.
  - rewrite IH. tauto.
Qed.

Lemma containers_Validate_ok seen i l :
  containers_Validate seen i l = None <->
  Forall well_formed l /\ NoDup (wc_Name <$> l) /\ Forall (fun c => wc_Name c ∉ seen) l.
Proof.
  revert seen i. induction l as [|c l IH]; intros seen i.
  { simpl. split; [|done]. by repeat split; constructor. }
  cbn [containers_Validate fmap list_fmap]. rewrite !Forall_cons, NoDup_cons. unfold well_formed at 1.
  case_decide; [naive_solver|]. case_decide; [naive_solver|]. case_decide; [naive_solver|].
  case_bool_decide; [|naive_solver]. case_bool_decide; [|naive_solver]. simpl.
  destruct (mounts_Validate i 0 (wc_Mounts c)) eqn:Hm.
  { split; [done|]. intros (((_&_&_&_&Hf)&_)&_). rewrite <- (mounts_Validate_ok i 0) in Hf. congruence. }
  rewrite mounts_Validate_ok in Hm. rewrite IH, !Forall_forall.
  setoid_rewrite list_elem_of_fmap. setoid_rewrite not_elem_of_union.
  setoid_rewrite not_elem_of_singleton. rewrite Forall_forall in Hm.
  split.
  - intros (Hwf & Hnd & Hs). split_and!; try done; try naive_solver.
  - intros ((_ & Hwf) & (Hnotin & Hnd) & (_ & Hs)). split_and!; try done. naive_solver.
Qed.

Lemma ContainerSet_Validate_ok s s' :
  ContainerSet_Validate s = (s', None) ->
  cs_Containers s' = cs_Containers s /\ cs_Version s' <= ContainerSetVersion /\
  Forall well_formed (cs_Containers s) /\ NoDup (wc_Name <$> cs_Containers s).
Proof.
  unfold ContainerSet_Validate.
  set (t := if cs_Version s =? 0 then Build_ContainerSet _ _ else s).
  assert (cs_Containers t = cs_Containers s) as Ht by (unfold t; by destruct (cs_Version s =? 0)).
  destruct (Z.ltb_spec ContainerSetVersion (cs_Version t)); intros [= <- Hv].
  rewrite Ht in Hv. apply containers_Validate_ok in Hv as (? & ? & ?). done.
Qed.

End Pod.
