(* ===== verification/Bus.v ===== *)
(** * The event-bus side of the agent
    (src/pkg/mesh, src/pkg/mounts, src/pkg/firewall; the HandleMessage and
    Subject functions of src/pkg/sshkeys, src/pkg/properties,
    src/pkg/containers and src/pkg/execsession have the same shape)

    Every concern receives whole-state messages on a per-VM subject, decodes
    them, validates them and hands them to an ApplyFunc.  [json.Unmarshal] is
    an argument of the handlers (any function from bytes to a payload or an
    error); the ApplyFunc is a state transformer, so that the theorems cover
    every concern's applier. *)

From S2P Require Import Prelude GoLib GoPath Pod.

Module Bus.

Section handler.
Context {A S : Type} (decodeMsg invalidMsg : string).
Context (Unmarshal : bytes -> result A) (Validate : A -> gerr).

(** The common body of the HandleMessage functions. *)
Definition HandleMessage (data : bytes) (apply : A -> S -> gerr * S) (s : S) : gerr * S :=
  match Unmarshal data with
  | Err e => (Some (Errorf decodeMsg [EErr e]), s)
  | Ok m =>
      match Validate m with
      | Some e => (Some (Errorf invalidMsg [EErr e]), s)
      | None => apply m s
      end
  end.

(** The subscription callback run on each message of a sequence: errors
    are logged and dropped. *)
Definition deliver (apply : A -> S -> gerr * S) (s : S) (msgs : list bytes) : S :=
  foldl (fun s data => (HandleMessage data apply s).2) s msgs.

Definition accepted (data : bytes) (m : A) : Prop :=
  Unmarshal data = Ok m /\ Validate m = None.

Lemma HandleMessage_accepted data m apply s :
  accepted data m -> HandleMessage data apply s = apply m s.
Proof. intros [H1 H2]. unfold HandleMessage. by rewrite H1, H2. Qed.

Lemma HandleMessage_rejected data apply s :
  (forall m, ~ accepted data m) ->
  exists e, HandleMessage data apply s = (Some e, s).
Proof.
  intros H. unfold HandleMessage, accepted in *.
  destruct (Unmarshal data) as [m|e]; [|eauto]. destruct (Validate m) eqn:Hv; [eauto|].
  exfalso. by apply (H m).
Qed.
End handler.

(** What "state is pushed whole" means for an applier: the part [view] of the
    state it leaves does not depend on the state it found. *)
Class ReplaceSet {A S V : Type} (view : S -> V) (apply : A -> S -> gerr * S) : Prop :=
  replace_set : forall m s1 s2, view (apply m s1).2 = view (apply m s2).2.

Section self_heal.
Context {A S V : Type} (decodeMsg invalidMsg : string) (view : S -> V).
Context (Unmarshal : bytes -> result A) (Validate : A -> gerr).
Context (apply : A -> S -> gerr * S) `{!ReplaceSet view apply}.

Local Abbreviation run := (deliver decodeMsg invalidMsg Unmarshal Validate apply).

Lemma deliver_rejected s msgs :
  Forall (fun d => forall m, ~ accepted Unmarshal Validate d m) msgs -> run s msgs = s.
Proof.
  intros H. revert s. induction H as [|d msgs Hd _ IH]; intros s; [done|]. unfold deliver in *. simpl.
  by destruct (HandleMessage_rejected decodeMsg invalidMsg Unmarshal Validate d apply s Hd) as [e ->].
Qed.

(** Whatever was delivered, lost or reordered before it, the last accepted
    message determines the view. *)
Lemma deliver_last pre data m post s s' :
  accepted Unmarshal Validate data m ->
  Forall (fun d => forall m, ~ accepted Unmarshal Validate d m) post ->
  view (run s (pre ++ data :: post)) = view (apply m s').2.
Proof.
  intros Ha Hp. unfold deliver. rewrite foldl_app. simpl.
  rewrite (HandleMessage_accepted _ _ _ _ _ _ _ _ Ha).
  change (view (run (apply m (run s pre)).2 post) = view (apply m s').2).
  rewrite deliver_rejected by done. apply replace_set.
Qed.
End self_heal.

(** ** Subjects *)

Definition Mesh_Subject (vmID : string) : string := "weft.mesh." +:+ vmID.
Definition Mounts_Subject (vmID : string) : string := "weft.mounts." +:+ vmID.
Definition Firewall_Subject (vmID : string) : string := "weft.firewall." +:+ vmID.
Definition FirewallStatus_Subject (vmID : string) : string :=
  "weft.firewall." +:+ vmID +:+ ".status".
Definition SshKeys_Subject (vmID : string) : string := "weft.sshkeys." +:+ vmID.
Definition Properties_Subject (vmID : string) : string := "weft.properties." +:+ vmID.
Definition Containers_Subject (vmID : string) : string := "weft.containers." +:+ vmID.
Definition SubjectOpen (vmID : string) : string := "weft.exec." +:+ vmID +:+ ".open".
Definition SubjectIn (vmID sid : string) : string :=
  "weft.exec." +:+ vmID +:+ "." +:+ sid +:+ ".in".
Definition SubjectOut (vmID sid : string) : string :=
  "weft.exec." +:+ vmID +:+ "." +:+ sid +:+ ".out".

(** Every subject the agent subscribes or publishes to, by purpose. *)
Inductive purpose :=
| PMesh | PMounts | PFirewall | PFirewallStatus | PSshKeys | PProperties | PContainers
| POpen | PIn (sid : string) | POut (sid : string).

Definition subject (p : purpose) (vmID : string) : string :=
  match p with
  | PMesh => Mesh_Subject vmID
  | PMounts => Mounts_Subject vmID
  | PFirewall => Firewall_Subject vmID
  | PFirewallStatus => FirewallStatus_Subject vmID
  | PSshKeys => SshKeys_Subject vmID
  | PProperties => Properties_Subject vmID
  | PContainers => Containers_Subject vmID
  | POpen => SubjectOpen vmID
  | PIn sid => SubjectIn vmID sid
  | POut sid => SubjectOut vmID sid
  end.

Definition dot : ascii := "."%char.
Definition one_token (s : string) : Prop := dot ∉ chars s.

(** The tokens NATS matches on. *)
Definition tokens (p : purpose) (vmID : string) : list string :=
  match p with
  | PMesh => ["weft"; "mesh"; vmID]
  | PMounts => ["weft"; "mounts"; vmID]
  | PFirewall => ["weft"; "firewall"; vmID]
  | PFirewallStatus => ["weft"; "firewall"; vmID; "status"]
  | PSshKeys => ["weft"; "sshkeys"; vmID]
  | PProperties => ["weft"; "properties"; vmID]
  | PContainers => ["weft"; "containers"; vmID]
  | POpen => ["weft"; "exec"; vmID; "open"]
  | PIn sid => ["weft"; "exec"; vmID; sid; "in"]
  | POut sid => ["weft"; "exec"; vmID; sid; "out"]
  end.

Definition ids_ok (p : purpose) (vmID : string) : Prop :=
  one_token vmID /\ match p with PIn sid | POut sid => one_token sid | _ => True end.

Lemma subject_tokens p vmID :
  chars (subject p vmID) = join_bytes [dot] (chars <$> tokens p vmID).
Proof. destruct p; simpl; rewrite ?chars_app; reflexivity. Qed.

Lemma subject_split p vmID : ids_ok p vmID ->
  GoLib.split dot (chars (subject p vmID)) = chars <$> tokens p vmID.
Proof.
  intros [Hv Hs]. unfold one_token in *. rewrite subject_tokens. apply split_join; [by destruct p|].
  destruct p; simpl; repeat constructor; try done; set_solver.
Qed.

(** ** Delivery modes (src/pkg/mounts Start and ensureStream) *)

Inductive nats_call :=
| CallJetStream
| CallStreamInfo (stream : string)
| CallAddStream (stream subjects : string) (maxMsgsPerSubject : Z)
| CallJSSubscribe (subj : string)     (* DeliverLastPerSubject *)
| CallSubscribe (subj : string).      (* core NATS *)

(** The broker's answers, one per call. *)
Record broker := {
  br_JetStream : gerr;
  br_StreamInfo : gerr;
  br_AddStream : gerr;
  br_JSSubscribe : gerr;
  br_Subscribe : gerr
}.

Inductive delivery := JetStreamReplay | CoreNats.

Definition Mounts_streamName : string := "weft-mounts".

Definition ensureStream (b : broker) : list nats_call * gerr :=
  match br_StreamInfo b with
  | None => ([CallStreamInfo Mounts_streamName], None)
  | Some _ => ([CallStreamInfo Mounts_streamName;
                CallAddStream Mounts_streamName "weft.mounts.*" 1], br_AddStream b)
  end.

Definition core_subscribe (b : broker) (vmID : string) : list nats_call * result delivery :=
  ([CallSubscribe (Mounts_Subject vmID)],
   match br_Subscribe b with None => Ok CoreNats | Some e => Err e end).

Definition Mounts_Start (b : broker) (vmID : string) : list nats_call * result delivery :=
  match br_JetStream b with
  | Some _ => let '(c, r) := core_subscribe b vmID in (CallJetStream :: c, r)
  | None =>
      let '(c1, e) := ensureStream b in
      match e with
      | Some _ => let '(c, r) := core_subscribe b vmID in (CallJetStream :: c1 ++ c, r)
      | None =>
          match br_JSSubscribe b with
          | Some _ => let '(c, r) := core_subscribe b vmID in
                      (CallJetStream :: c1 ++ CallJSSubscribe (Mounts_Subject vmID) :: c, r)
          | None => (CallJetStream :: c1 ++ [CallJSSubscribe (Mounts_Subject vmID)], Ok JetStreamReplay)
          end
      end
  end.

(** [containers.Subscriber.Start]: the same broker, without the fallback. *)
Definition Containers_streamName : string := "weft-containers".

Definition Containers_Start (b : broker) (vmID : string) : list nats_call * result delivery :=
  match br_JetStream b with
  | Some e => ([CallJetStream], Err (Errorf "jetstream: %w" [EErr e]))
  | None =>
      let '(c1, e) :=
        match br_StreamInfo b with
        | None => ([CallStreamInfo Containers_streamName], None)
        | Some _ => ([CallStreamInfo Containers_streamName;
                      CallAddStream Containers_streamName "weft.containers.*" 1], br_AddStream b)
        end in
      match e with
      | Some e => (CallJetStream :: c1, Err (Errorf "ensure stream: %w" [EErr e]))
      | None =>
          (CallJetStream :: c1 ++ [CallJSSubscribe (Containers_Subject vmID)],
           match br_JSSubscribe b with
           | Some e => Err (Errorf "subscribe: %w" [EErr e])
           | None => Ok JetStreamReplay
           end)
      end
  end.

(** ** The concerns whose applier lives outside this repository *)

Section concerns.
Context {S : Type}.

Definition Mesh_HandleMessage (Unmarshal : bytes -> result Pod.WireGuard)
    : bytes -> (Pod.WireGuard -> S -> gerr * S) -> S -> gerr * S :=
  HandleMessage "decode mesh update: %w" "invalid mesh update: %w" Unmarshal Pod.WireGuard_Validate.

Definition Mounts_HandleMessage (Unmarshal : bytes -> result Pod.ShareMount)
    : bytes -> (Pod.ShareMount -> S -> gerr * S) -> S -> gerr * S :=
  HandleMessage "decode mount update: %w" "invalid mount update: %w" Unmarshal Pod.ShareMount_Validate.

Definition Firewall_HandleMessage (ParsePrefix : string -> gerr)
    (Unmarshal : bytes -> result Pod.Firewall)
    : bytes -> (Pod.Firewall -> S -> gerr * S) -> S -> gerr * S :=
  HandleMessage "decode firewall update: %w" "invalid firewall update: %w" Unmarshal
                (Pod.Firewall_Validate ParsePrefix).
End concerns.

(** ** Properties *)

(** Subjects are private to a VM and a purpose: as long as VM ids and
    session ids are single NATS tokens (no dot), two subjects are equal only
    if they have the same purpose, the same session and the same VM. *)
Theorem subject_injective p1 p2 vm1 vm2 :
  ids_ok p1 vm1 -> ids_ok p2 vm2 -> subject p1 vm1 = subject p2 vm2 ->
  p1 = p2 /\ vm1 = vm2.
Proof.
  intros H1 H2 Heq. apply (f_equal (fun s => GoLib.split dot (chars s))) in Heq.
  rewrite !subject_split in Heq by done. apply (inj (fmap chars)) in Heq.
  destruct p1, p2; simpl in Heq; simplify_eq; try done; repeat split.
Qed.

Lemma subject_injective_witness : PMesh = PMesh /\ "vm1" = "vm1".
Proof.
  apply (subject_injective PMesh PMesh "vm1" "vm1"); [| |reflexivity];
    (split; [unfold one_token; set_solver|exact I]).
Defined.

(** The mounts subscriber never gives up while core NATS works: it ends
    up subscribed to its own subject whatever JetStream answers, with boot
    replay exactly when the whole JetStream chain succeeded, and it fails only
    if the plain subscription itself fails. *)
Theorem Mounts_Start_falls_back b vmID :
  br_Subscribe b = None ->
  exists calls d, Mounts_Start b vmID = (calls, Ok d) /\
    (d = JetStreamReplay <->
       br_JetStream b = None /\ (br_StreamInfo b = None \/ br_AddStream b = None) /\
       br_JSSubscribe b = None) /\
    last calls = Some (match d with
                       | JetStreamReplay => CallJSSubscribe (Mounts_Subject vmID)
                       | CoreNats => CallSubscribe (Mounts_Subject vmID)
                       end).
Proof.
  intros Hs. unfold Mounts_Start, core_subscribe, ensureStream. rewrite Hs.
  destruct (br_JetStream b) as [e|], (br_StreamInfo b) as [e1|], (br_AddStream b) as [e2|],
    (br_JSSubscribe b) as [e3|]; simpl; eexists _, _; split; try done;
    (split; [naive_solver|]); done.
Qed.

Lemma Mounts_Start_falls_back_witness :
  exists calls d, Mounts_Start {| br_JetStream := Some (Sentinel "no JetStream"); br_StreamInfo := None;
     br_AddStream := None; br_JSSubscribe := None; br_Subscribe := None |} "vm1" = (calls, Ok d) /\
    d = CoreNats.
Proof.
  destruct (Mounts_Start_falls_back {| br_JetStream := Some (Sentinel "no JetStream");
     br_StreamInfo := None; br_AddStream := None; br_JSSubscribe := None; br_Subscribe := None |}
     "vm1" eq_refl) as (calls & d & H & _).
  exists calls, d. split; [exact H|]. vm_compute in H. congruence.
Defined.

End Bus.
