(* ===== verification/Metrics.v ===== *)
(** * Package metrics (src/internal/metrics/metrics.go)

    The Prometheus recorder: its counters are maps from label values to
    integers, the latency histogram keeps the observed durations (in
    nanoseconds), and the reset-aware accumulator of the firewall drop
    counters is kept at its uint64 width, with the conversion to float64 that
    the counter's Add receives.  Methods take a possibly nil pointer, as in
    the code.  The Prometheus registry itself (naming, exposition format) is
    a library and is not modelled: a counter is the sum of what was added. *)

From S2P Require Import Prelude.
Local Open Scope Z_scope.

(** [float64(x)] for a uint64 [x]: round to nearest, ties to even, at 53 bits
    of mantissa. *)
Definition float64 (x : Z) : Z :=
  if x <? 2 ^ 53 then x
  else
    let ulp := 2 ^ (Z.log2 x - 52) in
    let q := x / ulp in
    let r := x mod ulp in
    let up := (ulp <? 2 * r) || ((2 * r =? ulp) && Z.odd q) in
    (if up then q + 1 else q) * ulp.

Lemma float64_exact x : 0 <= x < 2 ^ 53 -> float64 x = x.
Proof. intros H. unfold float64. by rewrite (proj2 (Z.ltb_lt _ _)) by lia. Qed.

Lemma float64_nonneg x : 0 <= x -> 0 <= float64 x.
Proof.
  intros H. unfold float64. destruct (x <? 2 ^ 53) eqn:E; [done|]. cbv zeta.
  assert (0 < 2 ^ (Z.log2 x - 52)).
  { apply Z.pow_pos_nonneg; [done|]. apply Z.ltb_ge in E.
    pose proof (Z.log2_le_mono _ _ E) as Hl. change (Z.log2 (2 ^ 53)) with 53 in Hl. lia. }
  apply Z.mul_nonneg_nonneg; [|lia].
  pose proof (Z.div_pos x (2 ^ (Z.log2 x - 52)) H). destruct (_ || _); lia.
Qed.

Module Metrics.

Record Recorder := mkRecorder {
  buildInfo : gmap (string * string * string) Z;
  applyTotal : gmap (string * string) Z;
  applyDuration : gmap string (list Z);
  natsConnected : Z;
  firewallStatusPublishes : gmap string Z;
  firewallDropsPackets : Z;
  firewallDropsBytes : Z;
  firewallDropsLastPkt : Z;
  firewallDropsLastByt : Z
}.

Definition New (version commit date : string) : Recorder := {|
  buildInfo := {[ (version, commit, date) := 1 ]};
  applyTotal := ∅;
  applyDuration := ∅;
  natsConnected := 0;
  firewallStatusPublishes := ∅;
  firewallDropsPackets := 0;
  firewallDropsBytes := 0;
  firewallDropsLastPkt := 0;
  firewallDropsLastByt := 0
|}.

(** A counter vector: a label set that was never touched reads 0. *)
Section vec.
Context {K : Type} `{Countable K}.
Definition counter (m : gmap K Z) (k : K) : Z := default 0 (m !! k).
Definition Inc (m : gmap K Z) (k : K) : gmap K Z := <[k := counter m k + 1]> m.

Lemma counter_Inc m k k' : counter (Inc m k) k' = counter m k' + (if decide (k = k') then 1 else 0).
Proof.
  unfold counter, Inc. case_decide as E.
  - subst. by rewrite lookup_insert_eq.
  - rewrite lookup_insert_ne by done. unfold counter. lia.
Qed.
End vec.

Definition label (err : gerr) : string := match err with None => "ok" | Some _ => "error" end.

Definition RecordApply (concern : string) (err : gerr) (dur : Z) (r : option Recorder) : option Recorder :=
  match r with
  | None => None
  | Some r => Some {|
      buildInfo := buildInfo r;
      applyTotal := Inc (applyTotal r) (concern, label err);
      applyDuration := <[concern := default [] (applyDuration r !! concern) ++ [dur]]> (applyDuration r);
      natsConnected := natsConnected r;
      firewallStatusPublishes := firewallStatusPublishes r;
      firewallDropsPackets := firewallDropsPackets r;
      firewallDropsBytes := firewallDropsBytes r;
      firewallDropsLastPkt := firewallDropsLastPkt r;
      firewallDropsLastByt := firewallDropsLastByt r |}
  end.

Definition RecordFirewallStatusPublish (err : gerr) (r : option Recorder) : option Recorder :=
  match r with
  | None => None
  | Some r => Some {|
      buildInfo := buildInfo r;
      applyTotal := applyTotal r;
      applyDuration := applyDuration r;
      natsConnected := natsConnected r;
      firewallStatusPublishes := Inc (firewallStatusPublishes r) (label err);
      firewallDropsPackets := firewallDropsPackets r;
      firewallDropsBytes := firewallDropsBytes r;
      firewallDropsLastPkt := firewallDropsLastPkt r;
      firewallDropsLastByt := firewallDropsLastByt r |}
  end.

(** One field of the accumulator: the new counter value and the new last
    observation. *)
Definition accumulate (total last current : Z) : Z * Z :=
  let last := if current <? last then 0 else last in
  let delta := u64 (current - last) in
  (if 0 <? delta then total + float64 delta else total, current).

Definition RecordFirewallDrops (packets bytes : Z) (r : option Recorder) : option Recorder :=
  match r with
  | None => None
  | Some r =>
      let '(tp, lp) := accumulate (firewallDropsPackets r) (firewallDropsLastPkt r) packets in
      let '(tb, lb) := accumulate (firewallDropsBytes r) (firewallDropsLastByt r) bytes in
      Some {|
      buildInfo := buildInfo r;
      applyTotal := applyTotal r;
      applyDuration := applyDuration r;
      natsConnected := natsConnected r;
      firewallStatusPublishes := firewallStatusPublishes r;
      firewallDropsPackets := tp;
      firewallDropsBytes := tb;
      firewallDropsLastPkt := lp;
      firewallDropsLastByt := lb |}
  end.

Definition SetNATSConnected (connected : bool) (r : option Recorder) : option Recorder :=
  match r with
  | None => None
  | Some r => Some {|
      buildInfo := buildInfo r;
      applyTotal := applyTotal r;
      applyDuration := applyDuration r;
      natsConnected := if connected then 1 else 0;
      firewallStatusPublishes := firewallStatusPublishes r;
      firewallDropsPackets := firewallDropsPackets r;
      firewallDropsBytes := firewallDropsBytes r;
      firewallDropsLastPkt := firewallDropsLastPkt r;
      firewallDropsLastByt := firewallDropsLastByt r |}
  end.

(** ** The drop counters against the kernel's history

    The kernel side: packets are dropped by the tail rule, the table is
    rebuilt (which clears its counter), the emitter samples.  The ghost
    fields are the true number of drops, whether the table was rebuilt since
    the last sample, and what an observer who is told about rebuilds would
    have published. *)

Inductive kernel_event := Dropped (n : Z) | Rebuilt | Sampled.

Record drops := mkDrops {
  kernel : Z;              (* the tail rule's counter *)
  published : Z;           (* the Prometheus counter *)
  last_seen : Z;           (* firewallDropsLastPkt / Byt *)
  dropped : Z;             (* ghost: drops so far *)
  rebuilt : bool;          (* ghost: rebuilt since the last sample *)
  informed : Z;            (* ghost: the informed observer's total *)
  detectable : bool        (* ghost: every rebuild so far was seen as a decrease *)
}.

Definition drops0 : drops := mkDrops 0 0 0 0 false 0 true.

Definition kernel_step (d : drops) (ev : kernel_event) : drops :=
  match ev with
  | Dropped n => mkDrops (u64 (kernel d + n)) (published d) (last_seen d) (dropped d + n)
                         (rebuilt d) (informed d) (detectable d)
  | Rebuilt => mkDrops 0 (published d) (last_seen d) (dropped d) true (informed d) (detectable d)
  | Sampled =>
      let '(tot, last) := accumulate (published d) (last_seen d) (kernel d) in
      mkDrops (kernel d) tot last (dropped d) false
        (informed d + (if rebuilt d then kernel d else kernel d - last_seen d))
        (detectable d && (negb (rebuilt d) || (kernel d <? last_seen d) || (last_seen d =? 0)))
  end.

Definition kernel_run (evs : list kernel_event) : drops := foldl kernel_step drops0 evs.

Definition sane (ev : kernel_event) : Prop := match ev with Dropped n => 0 <= n | _ => True end.

Definition drops_inv (d : drops) : Prop :=
  0 <= kernel d < 2 ^ 53 /\ 0 <= last_seen d < 2 ^ 53 /\
  (rebuilt d = false -> last_seen d <= kernel d) /\
  0 <= published d <= informed d /\ last_seen d <= informed d /\
  informed d + kernel d <= dropped d + (if rebuilt d then 0 else last_seen d) /\
  (detectable d = true -> published d = informed d).

Lemma accumulate_small total last current :
  0 <= last < 2 ^ 53 -> 0 <= current < 2 ^ 53 ->
  accumulate total last current = (total + (if current <? last then current else current - last), current).
Proof.
  intros Hl Hc. unfold accumulate. cbv zeta. f_equal.
  destruct (current <? last) eqn:E; to_prop; rewrite u64_small by lia;
    rewrite float64_exact by lia; case_match; to_prop; lia.
Qed.

Lemma kernel_step_inv d ev :
  sane ev -> drops_inv d -> dropped (kernel_step d ev) < 2 ^ 53 -> drops_inv (kernel_step d ev).
Proof.
  intros Hs (Hk & Hl & Hr & Hp & Hli & Hi & Hd) Hbound.
  destruct ev as [n| |]; cbn [kernel_step sane] in *;
    [|simpl in *|rewrite accumulate_small in Hbound |- * by done]; simpl in *.
  - assert (kernel d <= dropped d) by (destruct (rebuilt d); [|specialize (Hr eq_refl)]; lia).
    unfold drops_inv; simpl. rewrite u64_small by lia. split_and!; try done; try lia.
    intros E. specialize (Hr E). lia.
  - unfold drops_inv; simpl. split_and!; try done; try lia.
    destruct (rebuilt d); [|specialize (Hr eq_refl)]; lia.
  - unfold drops_inv; simpl.
    destruct (rebuilt d); simpl.
    + destruct (kernel d <? last_seen d) eqn:E; to_prop; split_and!; try lia; intros Hx; to_prop.
      * specialize (Hd H). lia.
      * rewrite orb_false_l in *. to_prop. specialize (Hd H). lia.
    + specialize (Hr eq_refl). rewrite (proj2 (Z.ltb_ge _ _)) by lia.
      split_and!; try lia. intros Hx. to_prop. specialize (Hd H). lia.
Qed.

Lemma kernel_step_dropped d ev : sane ev -> dropped d <= dropped (kernel_step d ev).
Proof. destruct ev; simpl; lia. Qed.

Lemma kernel_run_dropped evs d : Forall sane evs -> dropped d <= dropped (foldl kernel_step d evs).
Proof.
  intros H. revert d. induction H as [|ev evs Hs _ IH]; intros d; [done|]. simpl.
  etransitivity; [by apply kernel_step_dropped|apply IH].
Qed.

Lemma kernel_run_inv evs d :
  Forall sane evs -> drops_inv d -> dropped (foldl kernel_step d evs) < 2 ^ 53 ->
  drops_inv (foldl kernel_step d evs).
Proof.
  intros H. revert d. induction H as [|ev evs Hs Hevs IH]; intros d Hd Hb; [done|]. simpl in *.
  apply IH; [|done]. apply kernel_step_inv; [done|done|].
  pose proof (kernel_run_dropped evs (kernel_step d ev) Hevs). lia.
Qed.

(** The drop counter never over-counts, and is exact up to what cannot be
    observed: over any history of drops, table rebuilds and samples with
    fewer than 2^53 drops, the published total is at most what an observer
    informed of every rebuild would publish, which is at most the true number
    of drops; and whenever each rebuild was visible as a decrease (or nothing
    had been counted), the published total equals the informed one. *)
Theorem drops_never_overcount evs :
  Forall sane evs -> dropped (kernel_run evs) < 2 ^ 53 ->
  let d := kernel_run evs in
  0 <= published d <= informed d /\ informed d <= dropped d /\
  (detectable d = true -> published d = informed d).
Proof.
  intros Hs Hb d. destruct (kernel_run_inv evs drops0 Hs) as (Hk & Hl & Hr & Hp & Hli & Hi & Hd).
  - unfold drops_inv. simpl. lia.
  - done.
  - fold (kernel_run evs) in *. fold d in Hk, Hl, Hr, Hp, Hli, Hi, Hd.
    split_and!; try lia; [|done]. destruct (rebuilt d); [lia|]. specialize (Hr eq_refl). lia.
Qed.

Lemma drops_never_overcount_witness :
  let d := kernel_run [Dropped 10; Sampled; Dropped 5; Rebuilt; Dropped 3; Sampled] in
  published d = 13 /\ informed d = 13 /\ dropped d = 18.
Proof.
  destruct (drops_never_overcount [Dropped 10; Sampled; Dropped 5; Rebuilt; Dropped 3; Sampled])
    as (_ & _ & H).
  - repeat constructor; simpl; lia.
  - vm_compute. reflexivity.
  - cbv zeta. split_and!; [rewrite H|..]; reflexivity.
Defined.

(** A rebuild hidden between two samples by fast growth is lost: the counter
    went 10, (rebuild), 12, and only 2 of the 12 new drops are published. *)
Lemma drops_hidden_rebuild :
  let d := kernel_run [Dropped 10; Sampled; Rebuilt; Dropped 12; Sampled] in
  published d = 12 /\ dropped d = 22 /\ detectable d = false.
Proof. by vm_compute. Qed.

(** ** Every Apply is counted *)

Abbreviation apply_call := (string * gerr * Z)%type.

Definition record_all (calls : list apply_call) (r : option Recorder) : option Recorder :=
  foldl (fun r c => RecordApply c.1.1 c.1.2 c.2 r) r calls.

Definition calls_of (concern result : string) (calls : list apply_call) : list apply_call :=
  filter (fun c => c.1.1 = concern /\ label c.1.2 = result) calls.

(** apply_total is exact: after any sequence of RecordApply calls on a
    live recorder, each (concern, result) counter grew by the number of calls
    with that concern and outcome, the histogram of a concern received exactly
    its durations in order, and no other metric moved. *)
Theorem apply_total_exact calls r : exists r',
  record_all calls (Some r) = Some r' /\
  (forall concern result,
     counter (applyTotal r') (concern, result) =
     counter (applyTotal r) (concern, result) + Z.of_nat (length (calls_of concern result calls))) /\
  (forall concern,
     default [] (applyDuration r' !! concern) =
     default [] (applyDuration r !! concern) ++ (snd <$> filter (fun c => c.1.1 = concern) calls)) /\
  natsConnected r' = natsConnected r /\ firewallDropsPackets r' = firewallDropsPackets r /\
  firewallDropsBytes r' = firewallDropsBytes r /\ firewallStatusPublishes r' = firewallStatusPublishes r.
Proof.
  revert r. induction calls as [|[[c e] d] calls IH]; intros r; simpl.
  { exists r. split_and!; try done; intros; [unfold calls_of; simpl; lia|].
    simpl. by rewrite app_nil_r. }
  destruct (IH (default r (RecordApply c e d (Some r)))) as (r' & Hr & Ht & Hd & H1 & H2 & H3 & H4).
  exists r'. split_and!; try done.
  - intros concern result. rewrite Ht. simpl. rewrite counter_Inc. unfold calls_of. rewrite filter_cons. simpl.
    destruct (decide ((c, label e) = (concern, result))), (decide (c = concern /\ label e = result));
      simpl; try lia; naive_solver.
  - intros concern. rewrite Hd. simpl. rewrite filter_cons. simpl. case_decide as E.
    + subst. rewrite lookup_insert_eq. simpl. by rewrite <- app_assoc.
    + by rewrite lookup_insert_ne.
Qed.

End Metrics.
