(* ===== verification/FirewallStatus.v ===== *)
(** * The firewall status emitter (src/pkg/firewallstatus/firewallstatus.go)
    and its wiring to the recorder (startFirewallStatus in
    src/cmd/weft-microvm-agent/main.go)

    The emitter is parametric in the world [S] its callbacks act on: the read
    function, the clock, the JSON encoder, the NATS publish and the two
    optional metrics hooks are fields or arguments; DropMetrics instantiates
    them. *)

From S2P Require Import Prelude Pod Bus Metrics.
Local Open Scope Z_scope.

Module FirewallStatus.

Section emitter.
Context {S : Type}.
Context (read : S -> Pod.FirewallStatus * S) (now : S -> Z * S).
Context (Marshal : Pod.FirewallStatus -> result bytes).
Context (Publish : string -> bytes -> S -> gerr * S).

(** Durations are in nanoseconds. *)
Record Emitter := mkEmitter {
  vmID : string;
  interval : Z;
  hook : option (gerr -> S -> S);
  readHook : option (Z -> Z -> S -> S)
}.

Definition defaultInterval : Z := 10 * 10 ^ 9.

(** [New]: the flags tell whether the connection and the read function are
    non-nil. *)
Definition New (nc_ok read_ok : bool) (vm : string) (every : Z) : result Emitter :=
  if negb nc_ok then Err (errors_New "firewallstatus.New: nil nats conn")
  else if decide (vm = "") then Err (errors_New "firewallstatus.New: empty vmID")
  else if negb read_ok then Err (errors_New "firewallstatus.New: nil read func")
  else Ok {| vmID := vm; interval := if every <=? 0 then defaultInterval else every;
             hook := None; readHook := None |}.

Definition SetMetricsHook (e : Emitter) (h : option (gerr -> S -> S)) : Emitter :=
  {| vmID := vmID e; interval := interval e; hook := h; readHook := readHook e |}.

Definition SetReadHook (e : Emitter) (h : option (Z -> Z -> S -> S)) : Emitter :=
  {| vmID := vmID e; interval := interval e; hook := hook e; readHook := h |}.

Definition stamp (st : Pod.FirewallStatus) (t : Z) : Pod.FirewallStatus := {|
  Pod.fs_Overall := Pod.fs_Overall st;
  Pod.fs_TableInstalled := Pod.fs_TableInstalled st;
  Pod.fs_RulesInstalled := Pod.fs_RulesInstalled st;
  Pod.fs_LastError := Pod.fs_LastError st;
  Pod.fs_PublishedAtUnix := t;
  Pod.fs_DropsPackets := Pod.fs_DropsPackets st;
  Pod.fs_DropsBytes := Pod.fs_DropsBytes st |}.

(** The deferred hook runs last, with the error observed on the way. *)
Definition publishOnce (e : Emitter) (s : S) : S :=
  let '(status, s) := read s in
  let s := match readHook e with
           | Some h => h (Pod.fs_DropsPackets status) (Pod.fs_DropsBytes status) s
           | None => s
           end in
  let '(t, s) := now s in
  let '(publishErr, s) :=
    match Marshal (stamp status t) with
    | Err err => (Some err, s)
    | Ok data => Publish (Bus.FirewallStatus_Subject (vmID e)) data s
    end in
  match hook e with Some h => h publishErr s | None => s end.

(** What [select] delivers to the loop: a tick, or the cancelled context. *)
Inductive wakeup := Tick | CtxDone (err : error).

(** [Run] after its first publication; [None] while it has not returned. *)
Fixpoint loop (e : Emitter) (s : S) (ws : list wakeup) : S * option error :=
  match ws with
  | [] => (s, None)
  | CtxDone err :: _ => (s, Some err)
  | Tick :: ws' => loop e (publishOnce e s) ws'
  end.

Definition Run (e : Emitter) (s : S) (ws : list wakeup) : S * option error :=
  loop e (publishOnce e s) ws.

(** The ticks handled before the context was cancelled. *)
Fixpoint ticks (ws : list wakeup) : nat :=
  match ws with
  | Tick :: ws' => Datatypes.S (ticks ws')
  | _ => 0
  end.

Lemma loop_iter e s ws : (loop e s ws).1 = Nat.iter (ticks ws) (publishOnce e) s.
Proof.
  revert s. induction ws as [|[|err] ws IH]; intros s; try done.
  cbn [loop ticks]. rewrite IH. by rewrite Nat.iter_succ_r.
Qed.

Lemma Run_iter e s ws : (Run e s ws).1 = Nat.iter (Datatypes.S (ticks ws)) (publishOnce e) s.
Proof. unfold Run. rewrite loop_iter. by rewrite Nat.iter_succ_r. Qed.
End emitter.
Arguments Emitter : clear implicits.

(** ** The agent's emitter: both hooks go to the recorder *)

(** The world of startFirewallStatus: what the kernel will report on each
    read, what the broker will answer to each publish, the clock, the recorder
    and everything published so far. *)
Record world := mkWorld {
  reads : list Pod.FirewallStatus;
  clock : list Z;
  answers : list gerr;
  recorder : option Metrics.Recorder;
  sent : list (string * bytes)
}.

Section wiring.
Context (Marshal : Pod.FirewallStatus -> result bytes).
Context (empty_status : Pod.FirewallStatus).

Definition firewallStatusRead (w : world) : Pod.FirewallStatus * world :=
  (hd empty_status (reads w),
   mkWorld (tl (reads w)) (clock w) (answers w) (recorder w) (sent w)).

Definition time_Now (w : world) : Z * world :=
  (hd 0 (clock w), mkWorld (reads w) (tl (clock w)) (answers w) (recorder w) (sent w)).

Definition nc_Publish (subj : string) (data : bytes) (w : world) : gerr * world :=
  (hd None (answers w),
   mkWorld (reads w) (clock w) (tl (answers w)) (recorder w)
     (match hd None (answers w) with None => sent w ++ [(subj, data)] | Some _ => sent w end)).

Definition on_recorder (f : option Metrics.Recorder -> option Metrics.Recorder) (w : world) : world :=
  mkWorld (reads w) (clock w) (answers w) (f (recorder w)) (sent w).

(** The emitter startFirewallStatus runs. *)
Definition agentEmitter (vm : string) (every : Z) : result (Emitter world) :=
  match New true true vm every with
  | Err e => Err e
  | Ok em =>
      let em := SetMetricsHook em (Some (fun err => on_recorder (Metrics.RecordFirewallStatusPublish err))) in
      Ok (SetReadHook em (Some (fun p b => on_recorder (Metrics.RecordFirewallDrops p b))))
  end.

Definition emit (em : Emitter world) : world -> list wakeup -> world * option error :=
  Run firewallStatusRead time_Now Marshal nc_Publish em.

Definition once (em : Emitter world) : world -> world :=
  publishOnce firewallStatusRead time_Now Marshal nc_Publish em.

(** Sum of a publish counter over its two labels. *)
Definition publishes (w : world) : Z :=
  match recorder w with
  | None => 0
  | Some r => Metrics.counter (Metrics.firewallStatusPublishes r) "ok"
            + Metrics.counter (Metrics.firewallStatusPublishes r) "error"
  end.

Definition ok_publishes (w : world) : Z :=
  match recorder w with
  | None => 0
  | Some r => Metrics.counter (Metrics.firewallStatusPublishes r) "ok"
  end.

Definition pub_count (r : Metrics.Recorder) (l : string) : Z :=
  Metrics.counter (Metrics.firewallStatusPublishes r) l.

Lemma drops_keep p b r : exists r', Metrics.RecordFirewallDrops p b (Some r) = Some r' /\
  Metrics.firewallStatusPublishes r' = Metrics.firewallStatusPublishes r.
Proof.
  unfold Metrics.RecordFirewallDrops. destruct (Metrics.accumulate _ _ _), (Metrics.accumulate _ _ _). eauto.
Qed.

(** One publication by the agent's emitter. *)
Lemma once_spec vm every em w :
  agentEmitter vm every = Ok em -> is_Some (recorder w) ->
  let w' := once em w in
  is_Some (recorder w') /\ publishes w' = publishes w + 1 /\
  reads w' = tl (reads w) /\
  ok_publishes w' - ok_publishes w = Z.of_nat (length (sent w')) - Z.of_nat (length (sent w)) /\
  (Forall (fun m => m.1 = Bus.FirewallStatus_Subject vm) (sent w) ->
   Forall (fun m => m.1 = Bus.FirewallStatus_Subject vm) (sent w')).
Proof.
  unfold agentEmitter, New. simpl. case_decide; [done|]. intros Hem [r Hr]; simplify_eq.
  unfold once, publishOnce.
  cbn [firewallStatusRead readHook SetReadHook SetMetricsHook hook time_Now vmID on_recorder
       recorder reads clock answers sent].
  destruct (drops_keep (Pod.fs_DropsPackets (hd empty_status (reads w)))
              (Pod.fs_DropsBytes (hd empty_status (reads w))) r) as (r' & Hd & Hpub).
  rewrite Hr, Hd.
  assert (publishes w = pub_count r' "ok" + pub_count r' "error" /\ ok_publishes w = pub_count r' "ok")
    as [-> ->] by (unfold publishes, ok_publishes, pub_count; by rewrite Hr, Hpub).
  destruct (Marshal _) as [data|err]; [unfold nc_Publish; destruct (hd None _) as [e|]|];
    cbn [on_recorder recorder reads clock answers sent]; unfold publishes, ok_publishes; simpl;
    rewrite ?Metrics.counter_Inc; simpl; unfold pub_count; split_and!; eauto; try done; try lia.
  - rewrite length_app. simpl. lia.
  - intros Hf. apply Forall_app. split; [done|]. by constructor.
Qed.

Lemma once_iter vm every em n w :
  agentEmitter vm every = Ok em -> is_Some (recorder w) ->
  let w' := Nat.iter n (once em) w in
  is_Some (recorder w') /\ publishes w' = publishes w + Z.of_nat n /\
  reads w' = drop n (reads w) /\
  ok_publishes w' - ok_publishes w = Z.of_nat (length (sent w')) - Z.of_nat (length (sent w)) /\
  (Forall (fun m => m.1 = Bus.FirewallStatus_Subject vm) (sent w) ->
   Forall (fun m => m.1 = Bus.FirewallStatus_Subject vm) (sent w')).
Proof.
  intros Hem Hw. induction n as [|n IH].
  { simpl. rewrite drop_0. split_and!; try done; lia. }
  destruct IH as (Hr & Hp & Hrd & Hok & Hf).
  destruct (once_spec vm every em _ Hem Hr) as (Hr' & Hp' & Hrd' & Hok' & Hf').
  cbv zeta. rewrite Nat.iter_succ. split_and!; try done.
  - rewrite Hp', Hp. lia.
  - rewrite Hrd', Hrd. change (Datatypes.S n) with (1 + n)%nat. by rewrite Nat.add_comm, <- drop_drop.
  - lia.
  - auto.
Qed.

(** Every tick of the firewall-status loop is accounted for: a run that
    handles n ticks reads the kernel state n+1 times (one publication at
    entry), counts exactly n+1 outcomes in the recorder, its "ok" count grows
    by exactly the number of messages that reached the bus, and every message
    goes to this VM's status subject, whatever the encoder, the clock and the
    broker answer. *)
Theorem emitter_counts_every_tick vm every em w ws :
  agentEmitter vm every = Ok em -> is_Some (recorder w) -> sent w = [] ->
  let w' := (emit em w ws).1 in
  publishes w' = publishes w + Z.of_nat (ticks ws) + 1 /\
  reads w' = drop (Datatypes.S (ticks ws)) (reads w) /\
  ok_publishes w' - ok_publishes w = Z.of_nat (length (sent w')) /\
  Forall (fun m => m.1 = Bus.FirewallStatus_Subject vm) (sent w').
Proof.
  intros Hem Hw Hsent w'. unfold w', emit. rewrite Run_iter. fold (once em).
  destruct (once_iter vm every em (Datatypes.S (ticks ws)) w Hem Hw) as (_ & Hp & Hrd & Hok & Hf).
  rewrite Hsent in *. split_and!; try done.
  - rewrite Hp. lia.
  - simpl in Hok. rewrite Z.sub_0_r in Hok. done.
  - by apply Hf.
Qed.
End wiring.

Definition sample_status : Pod.FirewallStatus :=
  {| Pod.fs_Overall := "ok"; Pod.fs_TableInstalled := true; Pod.fs_RulesInstalled := 2;
     Pod.fs_LastError := ""; Pod.fs_PublishedAtUnix := 0; Pod.fs_DropsPackets := 7;
     Pod.fs_DropsBytes := 420 |}.

Lemma emitter_counts_every_tick_witness : exists em,
  agentEmitter "vm1" 0 = Ok em /\ interval em = defaultInterval /\
  let w := mkWorld [sample_status; sample_status] [100; 110] [None; Some (Sentinel "nats: connection closed")]
             (Some (Metrics.New "v" "c" "d")) [] in
  publishes (emit (fun _ => Ok []) sample_status em w [Tick; CtxDone (Sentinel "canceled")]).1 = 2.
Proof.
  eexists. split; [reflexivity|]. split; [reflexivity|]. cbv zeta.
  refine (proj1 (emitter_counts_every_tick (fun _ => Ok []) sample_status "vm1" 0 _
            (mkWorld [sample_status; sample_status] [100; 110] [None; Some (Sentinel "nats: connection closed")]
             (Some (Metrics.New "v" "c" "d")) []) [Tick; CtxDone (Sentinel "canceled")] _ _ _));
    [reflexivity|eexists; reflexivity|reflexivity].
Defined.

End FirewallStatus.
