(* ===== verification/SshKeys.v ===== *)
(** * Authorised keys: from the bus to the two places they are used
    (src/pkg/sshkeys/sshkeys.go, src/pkg/sshd/authstore.go, the
    PublicKeyCallback of src/pkg/sshd/server.go, and
    src/cmd/weft-microvm-agent: sshKeysApplyer and startSSHKeys)

    The SSH library is a parameter: parsing an authorized_keys line, the
    fingerprint of a key and its wire encoding. *)

From S2P Require Import Prelude GoLib FileSys GoPath FsLogic Bus Metrics.
Local Open Scope Z_scope.

Module SshKeys.

(** ** Package sshkeys *)

Record Key := { PublicKey : string }.
Record KeySet := { Keys : list Key }.

Definition algorithms : list string :=
  ["ssh-rsa"; "ssh-ed25519"; "ssh-dss";
   "ecdsa-sha2-nistp256"; "ecdsa-sha2-nistp384"; "ecdsa-sha2-nistp521"].

Fixpoint keys_Validate (i : Z) (ks : list Key) : gerr :=
  match ks with
  | [] => None
  | k :: ks' =>
      match Fields (PublicKey k) with
      | alg :: _ :: _ =>
          if decide (alg ∈ algorithms) then keys_Validate (i + 1) ks'
          else Some (Errorf "key %d: unsupported algorithm %q" [EInt i; EStr alg])
      | _ => Some (Errorf "key %d: expected '<type> <base64> [comment]', got %q" [EInt i; EStr (PublicKey k)])
      end
  end.

Definition Validate (s : KeySet) : gerr := keys_Validate 0 (Keys s).

Definition HandleMessage {S : Type} (Unmarshal : bytes -> result KeySet)
    : bytes -> (KeySet -> S -> gerr * S) -> S -> gerr * S :=
  Bus.HandleMessage "decode sshkeys update: %w" "invalid sshkeys update: %w" Unmarshal Validate.

Definition lenAfterDecode (Unmarshal : bytes -> result KeySet) (data : bytes) : Z :=
  match Unmarshal data with Err _ => -1 | Ok ks => Z.of_nat (length (Keys ks)) end.

(** The subscription callback: the log line it writes and the new state. *)
Definition onMessage {S : Type} (Unmarshal : bytes -> result KeySet) (vmID : string)
    (apply : KeySet -> S -> gerr * S) (data : bytes) (s : S) : error * S :=
  let '(err, s') := HandleMessage Unmarshal data apply s in
  (match err with
   | Some e => Errorf "sshkeys: %v" [EErr e]
   | None => Errorf "sshkeys: applied update for %s (%d keys)"
                    [EStr vmID; EInt (lenAfterDecode Unmarshal data)]
   end, s').

(** What Validate accepts: every line has a known algorithm and a second
    field. *)
Definition valid_line (k : Key) : Prop :=
  exists alg blob rest, Fields (PublicKey k) = alg :: blob :: rest /\ alg ∈ algorithms.

Lemma keys_Validate_ok i ks : keys_Validate i ks = None <-> Forall valid_line ks.
Proof.
  revert i. induction ks as [|k ks IH]; intros i; cbn [keys_Validate]; [by split|].
  rewrite Forall_cons. unfold valid_line at 1.
  destruct (Fields (PublicKey k)) as [|alg [|blob rest]]; [naive_solver..|].
  case_decide as Ha; [|naive_solver]. rewrite (IH (i + 1)). naive_solver.
Qed.

(** ** Package sshd: AuthStore *)

Section store.
Context {PubKey : Type}.
Context (ParseAuthorizedKey : string -> result (PubKey * string)).
Context (FingerprintSHA256 : PubKey -> string) (Marshal : PubKey -> string).

Record AuthStore := mkStore {
  byFingerprint : gmap string PubKey;
  names : gmap string string
}.

Definition NewAuthStore : AuthStore := mkStore ∅ ∅.

(** The loop of [Replace], with the two counters. *)
Fixpoint collect (ks : list Key) (fresh : AuthStore) (accepted rejected : Z) : AuthStore * Z * Z :=
  match ks with
  | [] => (fresh, accepted, rejected)
  | k :: ks' =>
      match ParseAuthorizedKey (PublicKey k) with
      | Err _ => collect ks' fresh accepted (rejected + 1)
      | Ok (pub, comment) =>
          let fp := FingerprintSHA256 pub in
          collect ks' (mkStore (<[fp:=pub]> (byFingerprint fresh)) (<[fp:=comment]> (names fresh)))
                  (accepted + 1) rejected
      end
  end.

(** [Replace]: the new contents of the store, then (accepted, rejected). *)
Definition Replace (s : AuthStore) (ks : KeySet) : AuthStore * (Z * Z) :=
  let '(fresh, accepted, rejected) := collect (Keys ks) NewAuthStore 0 0 in
  (fresh, (accepted, rejected)).

Definition Authorize (s : AuthStore) (key : PubKey) : string * bool :=
  let fp := FingerprintSHA256 key in
  match byFingerprint s !! fp with
  | None => ("", false)
  | Some pub =>
      if decide (Marshal pub = Marshal key) then (default "" (names s !! fp), true) else ("", false)
  end.

Definition Size (s : AuthStore) : Z := Z.of_nat (size (byFingerprint s)).

(** [config]'s PublicKeyCallback: the permissions' extensions. *)
Definition PublicKeyCallback (s : AuthStore) (key : PubKey) : result (gmap string string) :=
  match Authorize s key with
  | (_, false) => Err (Errorf "ssh: key %s not in AuthStore" [EStr (FingerprintSHA256 key)])
  | (name, true) => Ok (<["weft-key-name" := name]>
                       (<["weft-key-fingerprint" := FingerprintSHA256 key]> ∅))
  end.

(** ** What the store holds after a Replace *)

(** The lines of a key set that parse, in order. *)
Definition parsed (ks : list Key) : list (PubKey * string) :=
  omap (fun k => match ParseAuthorizedKey (PublicKey k) with Ok pc => Some pc | Err _ => None end) ks.

Definition put (s : AuthStore) (pc : PubKey * string) : AuthStore :=
  mkStore (<[FingerprintSHA256 pc.1 := pc.1]> (byFingerprint s))
          (<[FingerprintSHA256 pc.1 := pc.2]> (names s)).

Lemma parsed_cons k ks :
  parsed (k :: ks) =
  match ParseAuthorizedKey (PublicKey k) with Ok pc => [pc] | Err _ => [] end ++ parsed ks.
Proof. unfold parsed. simpl. by destruct (ParseAuthorizedKey _). Qed.

Lemma collect_eq ks fresh a r :
  collect ks fresh a r =
  (foldl put fresh (parsed ks), a + Z.of_nat (length (parsed ks)),
   r + (Z.of_nat (length ks) - Z.of_nat (length (parsed ks)))).
Proof.
  revert fresh a r. induction ks as [|k ks IH]; intros fresh a r; cbn [collect].
  - simpl. apply f_equal2; [apply f_equal2; [done|lia]|lia].
  - rewrite parsed_cons. destruct (ParseAuthorizedKey _) as [[pub c]|e]; rewrite IH;
      cbn [app length foldl]; unfold put; (apply f_equal2; [apply f_equal2|]); first [done|lia].
Qed.

(** The last line with a given fingerprint. *)
Definition last_with (fp : string) (l : list (PubKey * string)) : option (PubKey * string) :=
  last (filter (fun pc => FingerprintSHA256 pc.1 = fp) l).

Lemma foldl_put l s fp :
  byFingerprint (foldl put s l) !! fp =
    match last_with fp l with Some pc => Some pc.1 | None => byFingerprint s !! fp end /\
  names (foldl put s l) !! fp =
    match last_with fp l with Some pc => Some pc.2 | None => names s !! fp end.
Proof.
  unfold last_with. revert s. induction l as [|pc l IH] using rev_ind; intros s; [done|].
  rewrite foldl_app, filter_app. simpl. rewrite filter_cons, filter_nil. case_decide as E; simpl.
  - rewrite last_snoc, E, !lookup_insert_eq. done.
  - rewrite app_nil_r, !lookup_insert_ne by done. apply IH.
Qed.

Lemma Replace_eq s ks : (Replace s ks).1 = foldl put NewAuthStore (parsed (Keys ks)).
Proof. unfold Replace. by rewrite collect_eq. Qed.

Lemma last_with_elem fp l pc : last_with fp l = Some pc -> pc ∈ l /\ FingerprintSHA256 pc.1 = fp.
Proof.
  intros H. apply last_Some_elem_of, list_elem_of_filter in H. naive_solver.
Qed.

Lemma last_with_is_Some fp l pc : pc ∈ l -> FingerprintSHA256 pc.1 = fp -> is_Some (last_with fp l).
Proof.
  intros Hin Hfp. apply last_is_Some. intros Hnil.
  assert (pc ∈ filter (fun pc => FingerprintSHA256 pc.1 = fp) l) as H by (by apply list_elem_of_filter).
  rewrite Hnil in H. by apply not_elem_of_nil in H.
Qed.

(** Both maps always have the same keys. *)
Definition store_wf (s : AuthStore) : Prop := dom (byFingerprint s) = dom (names s).

Lemma put_wf s pc : store_wf s -> store_wf (put s pc).
Proof. unfold store_wf, put. simpl. intros H. by rewrite !dom_insert_L, H. Qed.

Lemma foldl_put_wf l s : store_wf s -> store_wf (foldl put s l).
Proof. revert s. induction l as [|pc l IH]; intros s Hs; simpl; auto using put_wf. Qed.

Lemma size_put_le l s :
  (size (byFingerprint (foldl put s l)) <= size (byFingerprint s) + length l)%nat.
Proof.
  revert s. induction l as [|pc l IH]; intros s; simpl; [lia|].
  etransitivity; [apply IH|]. simpl. rewrite map_size_insert. case_match; simpl; lia.
Qed.

Definition in_set (ks : KeySet) (key : PubKey) : Prop :=
  exists k pub c, k ∈ Keys ks /\ ParseAuthorizedKey (PublicKey k) = Ok (pub, c) /\
                  Marshal pub = Marshal key.

Lemma parsed_elem ks pc :
  pc ∈ parsed ks <-> exists k, k ∈ ks /\ ParseAuthorizedKey (PublicKey k) = Ok pc.
Proof.
  unfold parsed. rewrite list_elem_of_omap. split; intros (k & Hk & H); exists k; split; try done.
  - by destruct (ParseAuthorizedKey _); simplify_eq.
  - by rewrite H.
Qed.

Lemma Authorize_Replace s ks key :
  Authorize (Replace s ks).1 key =
  match last_with (FingerprintSHA256 key) (parsed (Keys ks)) with
  | Some (pub, c) => if decide (Marshal pub = Marshal key) then (c, true) else ("", false)
  | None => ("", false)
  end.
Proof.
  unfold Authorize. rewrite Replace_eq.
  destruct (foldl_put (parsed (Keys ks)) NewAuthStore (FingerprintSHA256 key)) as [-> ->].
  destruct (last_with _ _) as [[pub c]|]; simpl; [done|]. done.
Qed.

(** C1.  Access control, no false accept: whatever the store held before, a
    key is authorised after Replace only if some line of the pushed set
    parses to a key with the same wire encoding, and the reported name is
    that line's comment.  No assumption on fingerprint collisions. *)
Theorem Authorize_sound s ks key name :
  Authorize (Replace s ks).1 key = (name, true) ->
  exists k pub, k ∈ Keys ks /\ ParseAuthorizedKey (PublicKey k) = Ok (pub, name) /\
                Marshal pub = Marshal key /\ FingerprintSHA256 pub = FingerprintSHA256 key.
Proof.
  rewrite Authorize_Replace. destruct (last_with _ _) as [[pub c]|] eqn:Hl; [|done].
  case_decide as Hm; [|done]. intros; simplify_eq.
  apply last_with_elem in Hl as [Hin Hfp]. apply parsed_elem in Hin as (k & Hk & Hp). eauto 10.
Qed.

(** C36.  Access control, no false reject: when the fingerprint is a function
    of the wire encoding and no two keys of the pushed set collide, a key is
    authorised after Replace exactly if it is in the set (so an empty set
    revokes everyone). *)
Theorem Authorize_complete s ks key :
  (forall a b, Marshal a = Marshal b -> FingerprintSHA256 a = FingerprintSHA256 b) ->
  (forall a b, in_set ks a -> in_set ks b ->
     FingerprintSHA256 a = FingerprintSHA256 b -> Marshal a = Marshal b) ->
  (Authorize (Replace s ks).1 key).2 = true <-> in_set ks key.
Proof.
  intros Hdet Hinj. rewrite Authorize_Replace. split.
  - destruct (last_with _ _) as [[pub c]|] eqn:Hl; [|done]. case_decide as Hm; [|done]. intros _.
    apply last_with_elem in Hl as [Hin Hfp]. apply parsed_elem in Hin as (k & Hk & Hp).
    exists k, pub, c. done.
  - intros Hset. pose proof Hset as (k & pub & c & Hk & Hp & Hm).
    assert ((pub, c) ∈ parsed (Keys ks)) as Hin by (apply parsed_elem; eauto).
    destruct (last_with_is_Some (FingerprintSHA256 key) _ _ Hin (Hdet _ _ Hm)) as [[pub' c'] Hl].
    rewrite Hl. apply last_with_elem in Hl as [Hin' Hfp]. simpl in Hfp.
    apply parsed_elem in Hin' as (k' & Hk' & Hp').
    rewrite decide_True; [done|]. apply Hinj; [|done|done].
    exists k', pub', c'. done.
Qed.

(** The counts Replace reports: accepted and rejected add up to the
    number of lines, the store holds at most the accepted keys, every
    fingerprint has both a key and a name, and the previous contents of the
    store are irrelevant. *)
Theorem Replace_counts s s' ks :
  let '(st, (accepted, rejected)) := Replace s ks in
  accepted + rejected = Z.of_nat (length (Keys ks)) /\ 0 <= accepted /\ 0 <= rejected /\
  0 <= Size st <= accepted /\ store_wf st /\ Replace s' ks = Replace s ks.
Proof.
  pose proof (Replace_eq s ks) as Heq. unfold Replace in *. rewrite collect_eq in *. simpl in Heq.
  pose proof (size_put_le (parsed (Keys ks)) NewAuthStore) as Hs.
  simpl in Hs. rewrite map_size_empty in Hs.
  assert (length (parsed (Keys ks)) <= length (Keys ks))%nat.
  { clear. induction (Keys ks) as [|k l IH]; [done|]. rewrite parsed_cons. case_match; simpl; lia. }
  unfold Size. split_and!; try lia; [|done]. apply foldl_put_wf. done.
Qed.
End store.
Arguments AuthStore : clear implicits.

(** A concrete library for the witnesses: a key is its base64 field. *)
Definition toyParse (line : string) : result (string * string) :=
  match Fields line with
  | _ :: blob :: rest => Ok (blob, SJoin rest " ")
  | _ => Err (errors_New "ssh: no key found")
  end.
Definition toyFingerprint (b : string) : string := "SHA256:" +:+ b.

Definition alice : Key := {| PublicKey := "ssh-ed25519 AAAA alice@laptop" |}.
Definition broken : Key := {| PublicKey := "garbage" |}.
Definition sample_set : KeySet := {| Keys := [alice; broken] |}.

Lemma Authorize_sound_witness :
  Authorize toyFingerprint id (Replace toyParse toyFingerprint NewAuthStore sample_set).1 "AAAA"
    = ("alice@laptop", true) /\
  exists k pub, k ∈ Keys sample_set /\ toyParse (PublicKey k) = Ok (pub, "alice@laptop") /\ id pub = id "AAAA".
Proof.
  split; [reflexivity|].
  destruct (Authorize_sound toyParse toyFingerprint id NewAuthStore sample_set "AAAA" "alice@laptop" eq_refl)
    as (k & pub & H1 & H2 & H3 & _). eauto.
Defined.

Lemma Authorize_complete_witness :
  (Authorize toyFingerprint id (Replace toyParse toyFingerprint NewAuthStore sample_set).1 "BBBB").2 = true
  <-> in_set toyParse id sample_set "BBBB".
Proof.
  apply (Authorize_complete toyParse toyFingerprint id NewAuthStore sample_set "BBBB").
  - unfold id. congruence.
  - intros a b _ _ H. unfold toyFingerprint in H. injection H as H. exact H.
Defined.

(** ** authorized_keys on disk (sshKeysApplyer) *)

Definition newline : ascii := "010"%char.
Definition header : string := "# Managed by weft-microvm-agent. Edits are overwritten on next push.".

(** The builder's contents. *)
Definition line (s : string) : string := s +:+ str [newline].
Definition authorized_keys (ks : KeySet) : string :=
  foldl (fun buf k => buf +:+ line (PublicKey k)) (line header) (Keys ks).

(** [if uid >= 0 && gid >= 0 { _ = os.Chown(p, uid, gid) }]. *)
Definition chown_if (uid gid : Z) (p : string) : M unit :=
  if (0 <=? uid) && (0 <=? gid) then os_Chown p else oret tt.

Definition sshKeysApplyer (authorizedKeysPath : string) (uid gid : Z) (ks : KeySet) : M unit :=
  (let dir := Dir authorizedKeysPath in
   owrap (fun e => Errorf "mkdir %s: %w" [EStr dir; EErr e]) (os_MkdirAll dir) ;;;
   ignored <~ chown_if uid gid dir ;;
   let tmp := authorizedKeysPath +:+ ".tmp" in
   write_tmp_rename tmp authorizedKeysPath (authorized_keys ks)
     (fun e => Errorf "write tmp %s: %w" [EStr tmp; EErr e])
     (fun e => Errorf "rename %s -> %s: %w" [EStr tmp; EStr authorizedKeysPath; EErr e])
     (chown_if uid gid tmp))%os.

Lemma harmless_chown_if uid gid p : harmless (chown_if uid gid p).
Proof. unfold chown_if. case_match; [apply harmless_Chown|apply harmless_ret]. Qed.

(** Nothing outside the target, its temporary file and the directories above
    them is touched. *)
Definition file_only (target tmp dir : path) (f g : fsys) : Prop :=
  forall q, q <> target -> q <> tmp -> g !! q = f !! q \/ (g !! q = Some NDir /\ f !! q = None /\ q `prefix_of` dir).

Lemma target_ne_tmp p u l t : ends_in p u l -> slash ∉ chars t -> (4 <= length (chars t))%nat ->
  path_of (p +:+ t) <> path_of p.
Proof.
  intros He Hs Ht Heq. pose proof (ends_in_suffix p u l t He Hs Ht) as He'.
  rewrite (path_of_ends_in _ _ _ He), (path_of_ends_in _ _ _ He') in Heq.
  apply app_inj_tail in Heq as [_ Heq]. apply (f_equal chars) in Heq. rewrite !chars_str in Heq.
  apply (f_equal length) in Heq. rewrite length_app in Heq. lia.
Qed.

Lemma not_prefix_target (q : path) x : ~ (q ++ [x]) `prefix_of` q.
Proof. intros H. apply prefix_length in H. rewrite length_app in H. simpl in H. lia. Qed.

Section file.
Context (p : string) (u l : bytes) (Hp : ends_in p u l).
Context (base : fsys).
Local Abbreviation target := (path_of p).
Local Abbreviation tmp := (path_of (p +:+ ".tmp")).
Local Abbreviation dir := (path_of (Dir p)).

Definition file_inv (data : string) (fs : fsys) : Prop :=
  wf fs /\ (fs !! target = base !! target \/ fs !! target = Some (NFile data)) /\
  file_only target tmp dir base fs.

Definition file_post (data : string) (r : result unit) (fs : fsys) : Prop :=
  match r with
  | Ok _ => fs !! target = Some (NFile data) /\ fs !! tmp = None
  | Err _ => fs !! target = base !! target
  end.

Lemma target_dir : target = dir ++ [str l].
Proof. by rewrite (path_of_ends_in _ _ _ Hp), (path_of_Dir _ _ _ Hp). Qed.

Lemma tmp_ne : path_of (p +:+ ".tmp") <> path_of p.
Proof. apply (target_ne_tmp p u l); [done| |simpl; lia]. unfold chars, slash; simpl. set_solver. Qed.

Lemma sshKeysApplyer_triple (uid gid : Z) ks (ff : bool) :
  triple ff (file_inv (authorized_keys ks)) (fun fs => fs = base)
    (sshKeysApplyer p uid gid ks) (file_post (authorized_keys ks)).
Proof.
  unfold sshKeysApplyer. cbv zeta.
  apply (t_bind _ _ _ (fun _ fs => fs !! target = base !! target)).
  - apply (t_wrap _ _ _ (fun _ fs => fs !! target = base !! target)); [|done|done].
    apply MkdirAll_spec; [by intros fs [? _]|]. intros r fs g _ -> Hw [Hg1 Hg2] _.
    assert (g !! target = base !! target) as Ht.
    { destruct (decide (g !! target = base !! target)) as [|Hne]; [done|].
      apply Hg2 in Hne as (_ & _ & Hpre). rewrite target_dir in Hpre. by apply not_prefix_target in Hpre. }
    split; [|done]. split_and!; [done|by left|]. intros q _ _.
    destruct (decide (g !! q = base !! q)) as [|Hne]; [by left|right; by apply Hg2].
  - intros []. eapply t_catch; [apply harmless_chown_if|]. intros ignored. cbv beta.
    apply t_at. intros g (Hw & Hor & Hfo) Hg.
    eapply t_conseq; [eapply (t_inv _ _ (replace_inv g (p +:+ ".tmp") p (authorized_keys ks)) (fun fs => fs = g));
      [apply atomic_replace; [apply harmless_chown_if|apply tmp_ne]|..]|done|].
    + intros fs (Hw' & Ht & Hf). rewrite Hg in Ht. split_and!; [done|done|].
      intros q Hq1 Hq2. rewrite Hf by done. by apply Hfo.
    + intros fs _ ->. split; [|done]. split_and!; [done|by left|done].
    + intros r fs _ [_ Hr]. unfold file_post, replace_post in *. destruct r; [done|by rewrite Hr].
  - intros e fs _ H. exact H.
Qed.
End file.

(** C15.  authorized_keys is replaced atomically under every schedule of
    system-call faults and partial writes: at every instant a reader (or a
    reboot) finds the old contents or the complete new ones; success means the
    new contents are in place and no temporary file is left, an error means
    the old contents are still there; and nothing but the file, its .tmp and
    missing parent directories is ever touched. *)
Theorem authorized_keys_atomic p u l uid gid ks w :
  ends_in p u l -> wf (files w) ->
  let '(r, w') := sshKeysApplyer p uid gid ks w in
  let new := Some (NFile (authorized_keys ks)) in
  (exists h, history w' = history w ++ h /\
     Forall (fun fs => (fs !! path_of p = files w !! path_of p \/ fs !! path_of p = new) /\
                       file_only (path_of p) (path_of (p +:+ ".tmp")) (path_of (Dir p)) (files w) fs) h) /\
  match r with
  | Ok _ => files w' !! path_of p = new /\ files w' !! path_of (p +:+ ".tmp") = None
  | Err _ => files w' !! path_of p = files w !! path_of p
  end.
Proof.
  intros Hp Hwf.
  destruct (triple_run _ _ _ _ w (sshKeysApplyer_triple p u l Hp (files w) uid gid ks false))
    as ((h & Hh & HF) & HI & HQ); [|done|].
  - split_and!; [done|by left|by left].
  - destruct (sshKeysApplyer p uid gid ks w) as [r w']. split; [|by destruct r].
    exists h. split; [done|]. eapply Forall_impl; [exact HF|]. intros fs (_ & Ht & Hf). done.
Qed.

Definition sample_path : string := "/root/.ssh/authorized_keys".
Lemma sample_ends_in : ends_in sample_path (chars "/root/.ssh") (chars "authorized_keys").
Proof. unfold ends_in. apply (bool_decide_unpack _). vm_compute. exact I. Qed.

(** The rename fails on the first attempt: EBUSY after mkdir, chown, open,
    write and chown went through. *)
Definition sample_os : os := mk_os ∅ [None; None; None; None; None; Some (0%nat, EBUSY)] [].

Lemma authorized_keys_atomic_witness :
  is_Ok (sshKeysApplyer sample_path 0 0 sample_set sample_os).1 = false /\
  files (sshKeysApplyer sample_path 0 0 sample_set sample_os).2 !! path_of sample_path = None.
Proof.
  pose proof (authorized_keys_atomic sample_path _ _ 0 0 sample_set sample_os sample_ends_in wf_empty) as H.
  destruct (sshKeysApplyer sample_path 0 0 sample_set sample_os) as [r w'] eqn:E.
  assert (is_Ok r = false) as Hr.
  { apply (f_equal (fun x => is_Ok x.1)) in E. simpl in E. rewrite <- E. vm_compute. reflexivity. }
  split; [exact Hr|]. destruct H as [_ H]. destruct r; [discriminate Hr|exact H].
Defined.

(** The write goes through: without faults, when no file blocks the
    directory above the target and neither the target nor its .tmp is a
    directory, sshKeysApplyer returns nil and authorized_keys holds exactly
    the pushed set. *)
Theorem authorized_keys_succeeds p u l uid gid ks w :
  ends_in p u l -> wf (files w) -> Forall (fun ft => ft = None) (faults w) ->
  clear_way (path_of (Dir p)) (files w) ->
  files w !! path_of p <> Some NDir -> files w !! path_of (p +:+ ".tmp") <> Some NDir ->
  let '(r, w') := sshKeysApplyer p uid gid ks w in
  r = Ok tt /\ files w' !! path_of p = Some (NFile (authorized_keys ks)) /\
  files w' !! path_of (p +:+ ".tmp") = None.
Proof.
  intros Hp Hwf Hff Hc Hnd Hnt.
  assert (ends_in (p +:+ ".tmp") u (l ++ chars ".tmp")) as Hp'.
  { apply ends_in_suffix; [done| |simpl; lia]. unfold chars, slash; simpl. set_solver. }
  pose proof (path_of_ends_in _ _ _ Hp) as Et. pose proof (path_of_ends_in _ _ _ Hp') as Em.
  pose proof (path_of_Dir _ _ _ Hp) as Ed.
  assert (triple true wf (fun fs => fs = files w) (sshKeysApplyer p uid gid ks)
    (fun r fs => r = Ok tt /\ fs !! path_of p = Some (NFile (authorized_keys ks)) /\
                 fs !! path_of (p +:+ ".tmp") = None)) as Htr.
  { unfold sshKeysApplyer. cbv zeta.
    apply (t_bind _ _ _ (fun r fs => r = Ok tt /\ grown (path_of (Dir p)) (files w) fs /\
             node_at fs (path_of (Dir p)) = Some NDir)).
    - eapply t_wrap; [by apply MkdirAll_ok|naive_solver|naive_solver].
    - intros []. eapply t_catch; [apply harmless_chown_if|]. intros ignored. cbv beta.
      apply t_at. intros g Hwg (_ & Hg & Hn).
      assert (forall x, files w !! (path_of (Dir p) ++ [x]) <> Some NDir ->
                        g !! (path_of (Dir p) ++ [x]) <> Some NDir) as Hkeep.
      { intros x Hx Hgx. destruct Hg as [_ Hg2]. destruct (Hg2 (path_of (Dir p) ++ [x])) as (_ & _ & Hpre).
        - by rewrite Hgx.
        - by apply not_prefix_target in Hpre. }
      rewrite Ed in *. eapply t_conseq; [apply write_tmp_rename_ok with (f := g)|done|].
      + apply harmless_chown_if.
      + done.
      + by eapply tmp_ne.
      + rewrite Em. by destruct (str <$> comps u).
      + by rewrite Em, parent_snoc.
      + rewrite Em in *. by apply Hkeep.
      + rewrite Et. by destruct (str <$> comps u).
      + by rewrite Et, parent_snoc.
      + rewrite Et in *. by apply Hkeep.
      + rewrite Em, Et, parent_snoc. intros E. apply (f_equal length) in E.
        rewrite length_app in E. simpl in E. lia.
      + simpl. intros r fs _ [-> ->]. rewrite lookup_insert_eq. split_and!; try done.
        rewrite lookup_insert_ne, lookup_delete_eq; [done|]. apply not_eq_sym. by eapply tmp_ne.
    - naive_solver. }
  destruct (Htr w) as (_ & _ & _ & HQ); [by intros _|done|done|]. by destruct (sshKeysApplyer p uid gid ks w).
Qed.

Lemma authorized_keys_succeeds_witness :
  let '(r, w') := sshKeysApplyer sample_path 0 0 sample_set (mk_os ∅ [] []) in
  r = Ok tt /\ files w' !! path_of sample_path = Some (NFile (authorized_keys sample_set)) /\
  files w' !! path_of (sample_path +:+ ".tmp") = None.
Proof.
  apply (authorized_keys_succeeds sample_path _ _ 0 0 sample_set (mk_os ∅ [] []) sample_ends_in wf_empty).
  - constructor.
  - intros q d _. simpl. rewrite lookup_empty. discriminate.
  - simpl. rewrite lookup_empty. discriminate.
  - simpl. rewrite lookup_empty. discriminate.
Defined.

(** ** The lines of authorized_keys *)

Lemma authorized_keys_concat ks :
  chars (authorized_keys ks) =
  chars header ++ newline :: concat ((fun k => chars (PublicKey k) ++ [newline]) <$> Keys ks).
Proof.
  unfold authorized_keys.
  assert (forall l (acc : string), chars (foldl (fun buf k => buf +:+ line (PublicKey k)) acc l) =
    chars acc ++ concat ((fun k => chars (PublicKey k) ++ [newline]) <$> l)) as H.
  { induction l as [|k l IH]; intros acc; simpl; [by rewrite app_nil_r|].
    rewrite IH. unfold line. rewrite !chars_app, chars_str. by rewrite <- !app_assoc. }
  rewrite H. unfold line. rewrite chars_app, chars_str. by rewrite <- app_assoc.
Qed.

Lemma split_lines l : Forall (fun b => newline ∉ b) l ->
  GoLib.split newline (concat ((fun b => b ++ [newline]) <$> l)) = l ++ [[]].
Proof.
  intros H. induction H as [|b l Hb _ IH]; [done|]. rewrite fmap_cons, concat_cons, <- app_assoc.
  change ([newline] ++ ?x) with (newline :: x). rewrite split_app, IH, split_free by done. done.
Qed.

(** The file's lines are the header and the pushed keys, one line each, in
    order, provided no key contains a newline.  (Validate does not enforce the
    proviso, see [authorized_keys_injection].) *)
Theorem authorized_keys_lines ks :
  Forall (fun k => newline ∉ chars (PublicKey k)) (Keys ks) ->
  Split (authorized_keys ks) newline = header :: (PublicKey <$> Keys ks) ++ [""].
Proof.
  intros H. unfold Split. change (split_go newline [] ?b) with (GoLib.split newline b).
  rewrite authorized_keys_concat, split_app, split_free
    by (apply (bool_decide_unpack _); vm_compute; exact I).
  rewrite (list_fmap_compose (fun k => chars (PublicKey k)) (fun b => b ++ [newline])).
  rewrite split_lines by (by apply Forall_fmap).
  rewrite fmap_app. simpl. rewrite fmap_app. f_equal. f_equal. rewrite <- list_fmap_compose. apply list_fmap_ext. intros i k _.
  simpl. apply str_chars.
Qed.

Lemma authorized_keys_lines_witness :
  Split (authorized_keys sample_set) newline = [header; PublicKey alice; PublicKey broken; ""].
Proof.
  apply (authorized_keys_lines sample_set).
  apply (bool_decide_unpack _). vm_compute. exact I.
Defined.

(** A key set that passes Validate can add lines of its own choosing to
    authorized_keys: the second field may be followed by a newline and any
    further text, here a line with a command= option. *)
Theorem authorized_keys_injection : exists ks,
  Validate ks = None /\ length (Keys ks) = 1%nat /\
  Split (authorized_keys ks) newline =
    [header; "ssh-ed25519 AAAA"; "command=true ssh-rsa EVIL"; ""].
Proof.
  exists {| Keys := [{| PublicKey := "ssh-ed25519 AAAA" +:+ str [newline] +:+ "command=true ssh-rsa EVIL" |}] |}.
  split_and!; vm_compute; reflexivity.
Qed.

(** ** The composed apply (startSSHKeys) *)

Section wiring.
Context {PubKey : Type}.
Context (ParseAuthorizedKey : string -> result (PubKey * string)).
Context (FingerprintSHA256 : PubKey -> string).
Context (path : string) (uid gid : Z).

(** What the subscription callback acts on; [elapsed] is what time.Since
    will report, call after call, and [logged] the lines given to the logger,
    unformatted. *)
Record world := mkWorld {
  store : AuthStore PubKey;
  disk : os;
  recorder : option Metrics.Recorder;
  elapsed : list Z;
  logged : list error
}.

(** [has_store] is [authStore != nil]. *)
Definition composed (has_store : bool) (ks : KeySet) (w : world) : gerr * world :=
  let '(store', log') :=
    if has_store then
      let '(st, (accepted, rejected)) := Replace ParseAuthorizedKey FingerprintSHA256 (store w) ks in
      (st, logged w ++ [Errorf "weft-microvm-agent: sshkeys authstore : %d accepted, %d rejected"
                          [EInt accepted; EInt rejected]])
    else (store w, logged w) in
  let '(r, disk') := sshKeysApplyer path uid gid ks (disk w) in
  let err := match r with Ok _ => None | Err e => Some e end in
  (err, mkWorld store' disk' (Metrics.RecordApply "sshkeys" err (hd 0 (elapsed w)) (recorder w))
                (tl (elapsed w)) log').

Lemma composed_true ks w : composed true ks w =
  let '(r, disk') := sshKeysApplyer path uid gid ks (disk w) in
  let err := match r with Ok _ => None | Err e => Some e end in
  let '(st, (accepted, rejected)) := Replace ParseAuthorizedKey FingerprintSHA256 (store w) ks in
  (err, mkWorld st disk' (Metrics.RecordApply "sshkeys" err (hd 0 (elapsed w)) (recorder w)) (tl (elapsed w))
          (logged w ++ [Errorf "weft-microvm-agent: sshkeys authstore : %d accepted, %d rejected"
                          [EInt accepted; EInt rejected]])).
Proof. unfold composed. destruct (Replace _ _ _ _) as [st [a b]]. by destruct (sshKeysApplyer _ _ _ _ _). Qed.

Lemma composed_store ks w : store (composed true ks w).2 = (Replace ParseAuthorizedKey FingerprintSHA256 (store w) ks).1.
Proof.
  rewrite composed_true. destruct (sshKeysApplyer _ _ _ _ _) as [r d]. by destruct (Replace _ _ _ _) as [st [a b]].
Qed.

#[export] Instance composed_replaces : Bus.ReplaceSet store (composed true).
Proof.
  intros ks w1 w2. rewrite !composed_store. by rewrite !Replace_eq.
Qed.

(** C14.  Key pushes self-heal, revocation included: after any sequence of
    messages, whatever was lost, reordered, malformed or failed to reach the
    disk, the set of keys the SSH server accepts is the one of the last
    well-formed message, and that message alone. *)
Theorem keys_self_heal Unmarshal pre data ks post w :
  Bus.accepted Unmarshal Validate data ks ->
  Forall (fun d => forall m, ~ Bus.accepted Unmarshal Validate d m) post ->
  store (Bus.deliver "decode sshkeys update: %w" "invalid sshkeys update: %w" Unmarshal Validate
           (composed true) w (pre ++ data :: post)) =
  (Replace ParseAuthorizedKey FingerprintSHA256 NewAuthStore ks).1.
Proof.
  intros Ha Hp. rewrite (Bus.deliver_last _ _ store Unmarshal Validate (composed true) pre data ks post w w Ha Hp).
  rewrite composed_store. by rewrite !Replace_eq.
Qed.
End wiring.

(** A decoder for the witness: the message is a single key line; an empty
    message is malformed. *)
Definition toyUnmarshal (b : bytes) : result KeySet :=
  match b with
  | [] => Err (errors_New "unexpected end of JSON input")
  | _ => Ok {| Keys := [{| PublicKey := str b |}] |}
  end.

Lemma keys_self_heal_witness :
  let w0 := mkWorld (PubKey := string) NewAuthStore (mk_os ∅ [Some (0%nat, EBUSY)] []) None [] [] in
  store (Bus.deliver "decode sshkeys update: %w" "invalid sshkeys update: %w" toyUnmarshal Validate
           (composed toyParse toyFingerprint sample_path 0 0 true) w0
           ([chars "ssh-rsa OLD bob"] ++ chars (PublicKey alice) :: [[]])) =
  (Replace toyParse toyFingerprint NewAuthStore {| Keys := [alice] |}).1.
Proof.
  apply (keys_self_heal toyParse toyFingerprint sample_path 0 0 toyUnmarshal [chars "ssh-rsa OLD bob"]).
  - split; reflexivity.
  - constructor; [|constructor]. intros m [H _]. discriminate H.
Defined.

End SshKeys.
