(* ===== verification/SshServer.v ===== *)
(** * The SSH server: accept loop, authentication, channels
      (src/pkg/sshd/server.go: config, Serve, handleConn)

    The accept loop, a goroutine per connection and the key subscriber, which
    replaces the auth store while connections authenticate, as one step
    relation.  Replace and Authorize take the store's lock, so each is a single
    step.  Of crypto/ssh the model uses its documented contract: the
    PublicKeyCallback decides about each key a client offers, its answer is
    remembered for the connection, and a connection is established with a key
    only if the answer for that key was positive.  What a session channel then
    does is SshSession. *)

From S2P Require Import Prelude GoLib SshKeys.
Import SshKeys.

Module SshServer.

Section server.
Context {PubKey : Type}.
Context (ParseAuthorizedKey : string -> result (PubKey * string)).
Context (FingerprintSHA256 : PubKey -> string) (Marshal : PubKey -> string).

Abbreviation perms := (gmap string string).

(** [since]: how many key sets had been pushed when the connection was
    accepted; [answers]: what the callback said about the keys offered. *)
Inductive conn :=
| Handshaking (since : nat) (answers : list (PubKey * result perms))
| Established (since : nat) (key : PubKey) (p : perms) (sessions : nat).

Record server := mkServer {
  store : @AuthStore PubKey;
  pushed : list KeySet;            (* the key sets applied so far, oldest first *)
  listening : bool;
  serve : option gerr;             (* what Serve returned, once it has *)
  conns : gmap nat conn;
  next : nat
}.

Definition started : server := mkServer NewAuthStore [] true None ∅ 0.

Definition push (ks : KeySet) (s : server) : server :=
  mkServer (Replace ParseAuthorizedKey FingerprintSHA256 (store s) ks).1 (pushed s ++ [ks]) (listening s) (serve s)
    (conns s) (next s).

Definition set_conn (c : nat) (k : option conn) (s : server) : server :=
  mkServer (store s) (pushed s) (listening s) (serve s)
    (match k with Some k => <[c:=k]> (conns s) | None => delete c (conns s) end) (next s).

(** Accept returned a connection: [go s.handleConn(conn)]. *)
Definition accept (s : server) : server :=
  mkServer (store s) (pushed s) (listening s) (serve s)
    (<[next s := Handshaking (length (pushed s)) []]> (conns s)) (S (next s)).

(** Accept failed: a closed listener is a clean end. *)
Definition accept_fails (e : error) (s : server) : server :=
  mkServer (store s) (pushed s) (listening s)
    (Some (if errors_Is e "net.ErrClosed" then None else Some (Errorf "accept: %w" [EErr e]))) (conns s) (next s).

(** A channel: only "session" is accepted, and [newCh.Accept] can fail. *)
Definition open_channel (ChannelType : string) (Accept : result unit) (sessions : nat) : nat :=
  if decide (ChannelType <> "session") then sessions
  else match Accept with Err _ => sessions | Ok _ => S sessions end.

Inductive step : server -> server -> Prop :=
| s_push ks s : step s (push ks s)
| s_accept s : listening s = true -> serve s = None -> step s (accept s)
| s_accept_fails e s : serve s = None ->
    (listening s = false -> errors_Is e "net.ErrClosed" = true) -> step s (accept_fails e s)
| s_close_listener s : step s (mkServer (store s) (pushed s) false (serve s) (conns s) (next s))
| s_offer c since answers key s : conns s !! c = Some (Handshaking since answers) ->
    key ∉ answers.*1 ->
    step s (set_conn c (Some (Handshaking since
      (answers ++ [(key, PublicKeyCallback FingerprintSHA256 Marshal (store s) key)]))) s)
| s_authenticated c since answers key p s : conns s !! c = Some (Handshaking since answers) ->
    (key, Ok p) ∈ answers -> step s (set_conn c (Some (Established since key p 0)) s)
| s_handshake_fails c since answers s : conns s !! c = Some (Handshaking since answers) ->
    step s (set_conn c None s)
| s_channel c since key p n ty r s : conns s !! c = Some (Established since key p n) ->
    step s (set_conn c (Some (Established since key p (open_channel ty r n))) s)
| s_disconnect c since key p n s : conns s !! c = Some (Established since key p n) ->
    step s (set_conn c None s).

Definition reachable (s : server) : Prop := rtc step started s.

(** ** What the store has seen *)

(** A set that was current at some instant after the [since]-th push. *)
Definition current_since (since : nat) (sets : list KeySet) (ks : KeySet) : Prop :=
  exists i, sets !! i = Some ks /\ since <= S i.

(** Key [key] is a line of [ks] with comment [name]. *)
Definition listed (ks : KeySet) (key : PubKey) (name : string) : Prop :=
  exists k pub, k ∈ Keys ks /\ ParseAuthorizedKey (PublicKey k) = Ok (pub, name) /\ Marshal pub = Marshal key.

Definition granted (since : nat) (sets : list KeySet) (key : PubKey) (p : perms) : Prop :=
  exists ks name, current_since since sets ks /\ listed ks key name /\ p !! "weft-key-name" = Some name.

Definition store_current (s : server) : Prop :=
  match last (pushed s) with
  | None => store s = NewAuthStore
  | Some ks => exists s0, store s = (Replace ParseAuthorizedKey FingerprintSHA256 s0 ks).1
  end.

Definition conn_ok (sets : list KeySet) (k : conn) : Prop :=
  match k with
  | Handshaking since answers =>
      since <= length sets /\ forall key p, (key, Ok p) ∈ answers -> granted since sets key p
  | Established since key p _ => since <= length sets /\ granted since sets key p
  end.

Definition inv (s : server) : Prop :=
  store_current s /\ forall c k, conns s !! c = Some k -> conn_ok (pushed s) k.

Lemma granted_app since sets ks key p : granted since sets key p -> granted since (sets ++ [ks]) key p.
Proof.
  intros (ks' & name & (i & Hi & Hs) & H). exists ks', name. split; [|done]. exists i. split; [|done].
  by apply lookup_app_l_Some.
Qed.

Lemma conn_ok_app sets ks k : conn_ok sets k -> conn_ok (sets ++ [ks]) k.
Proof. destruct k; simpl; rewrite length_app; simpl; intros [? ?]; (split; [lia|]); eauto using granted_app. Qed.

(** The callback's positive answers come from the current set. *)
Lemma callback_granted s key p since : store_current s -> since <= length (pushed s) ->
  PublicKeyCallback FingerprintSHA256 Marshal (store s) key = Ok p -> granted since (pushed s) key p.
Proof.
  unfold store_current, PublicKeyCallback. intros Hst Hle H.
  destruct (Authorize _ _ _ _) as [name [|]] eqn:Ha; [|done]. injection H as <-.
  destruct (last (pushed s)) as [ks|] eqn:Hl.
  - destruct Hst as [s0 Hst]. rewrite Hst, Authorize_Replace in Ha.
    destruct (last_with _ _ _) as [[pub c]|] eqn:Hw; [|done]. case_decide as Hm; [|done]. simplify_eq.
    apply (last_with_elem ParseAuthorizedKey) in Hw as [Hin _]. apply parsed_elem in Hin as (k & Hk & Hp).
    exists ks, name. split_and!.
    + rewrite last_lookup in Hl. exists (pred (length (pushed s))). split; [done|lia].
    + by exists k, pub.
    + by rewrite lookup_insert_eq.
  - rewrite Hst in Ha. unfold Authorize in Ha. simpl in Ha. by rewrite lookup_empty in Ha.
Qed.

Lemma inv_set_conn s c k : inv s -> (forall k', k = Some k' -> conn_ok (pushed s) k') -> inv (set_conn c k s).
Proof.
  intros [Hst Hc] Hk. split; [done|]. intros c' k'. simpl. destruct k as [k|].
  - rewrite lookup_insert. case_decide; [|apply Hc]. intros [= <-]. by apply Hk.
  - intros [_ H]%lookup_delete_Some. by apply (Hc c').
Qed.

Lemma server_inv_step s t : inv s -> step s t -> inv t.
Proof.
  intros Hi Hst. pose proof Hi as [Hs Hc].
  destruct Hst as [ks s|s _ _|e s _ _|s|c since answers key s Hk _|c since answers key p s Hk Hin|
    c since answers s Hk|c since key p n ty r s Hk|c since key p n s Hk]; try exact Hi;
    try (apply inv_set_conn; [done|]; intros k' [= <-]; specialize (Hc _ _ Hk)).
  - split; [unfold store_current; simpl; rewrite last_snoc; by eexists|]. intros c k Hk. by apply conn_ok_app, (Hc c).
  - split; [done|]. intros c k. simpl. rewrite lookup_insert. case_decide; [|apply Hc].
    intros [= <-]. split; [done|]. set_solver.
  - destruct Hc as [Hle Ha]. split; [done|]. intros key' p [H|H]%elem_of_app; [by apply Ha|].
    apply list_elem_of_singleton in H. injection H as -> H. by eapply callback_granted.
  - destruct Hc as [Hle Ha]. split; [done|]. by apply Ha.
  - done.
Qed.

Lemma started_inv : inv started.
Proof. split; [done|]. intros c k. simpl. by rewrite lookup_empty. Qed.

Lemma server_reachable s : reachable s -> inv s.
Proof. apply rtc_invariant; [apply server_inv_step|apply started_inv]. Qed.

(** Who can be connected: under every interleaving of key pushes with
    connections being accepted and authenticated, an established connection
    belongs to a key that was a line of a key set current at some instant after
    the connection was accepted, and it carries that line's name. *)
Theorem established_was_pushed s c since key p n :
  reachable s -> conns s !! c = Some (Established since key p n) ->
  since <= length (pushed s) /\ granted since (pushed s) key p.
Proof. intros Hr Hc. by apply (proj2 (server_reachable s Hr)) in Hc. Qed.

(** Revocation and the first boot: a key that is in no set from the one
    current when a connection is accepted on cannot establish that connection;
    in particular nobody can connect before the first push. *)
Theorem revoked_cannot_connect s c since key p n :
  reachable s -> (forall i ks name, pushed s !! i = Some ks -> since <= S i -> ~ listed ks key name) ->
  conns s !! c <> Some (Established since key p n).
Proof.
  intros Hr Hno Hc. apply (proj2 (server_reachable s Hr)) in Hc as [_ (ks & name & (i & Hi & Hle) & Hl & _)].
  by eapply Hno.
Qed.

End server.

(** ** A concrete run: keys are strings, one line per key *)

Definition parse_line (l : string) : result (string * string) := Ok (l, "alice").
Definition ident (k : string) : string := k.


Definition key_set (l : list string) : KeySet := {| Keys := (fun k => {| PublicKey := k |}) <$> l |}.

Definition alice_in : server :=
  let s1 := accept (push parse_line ident (key_set ["k1"]) started) in
  let s2 := set_conn 0 (Some (Handshaking 1 [("k1", PublicKeyCallback ident ident (store s1) "k1")])) s1 in
  set_conn 0 (Some (Established 1 "k1" (<["weft-key-name" := "alice"]> {["weft-key-fingerprint" := "k1"]}) 0)) s2.

Lemma alice_in_reachable : reachable parse_line ident ident alice_in.
Proof.
  eapply rtc_l; [apply (s_push _ _ _ (key_set ["k1"]))|]. eapply rtc_l; [by apply s_accept|].
  eapply rtc_l; [apply (s_offer _ _ _ 0 1 [] "k1"); [done|set_solver]|].
  apply rtc_once. apply (s_authenticated _ _ _ 0 1 [("k1", PublicKeyCallback ident ident
    (store (push parse_line ident (key_set ["k1"]) started)) "k1")] "k1"); [done|].
  by apply list_elem_of_singleton.
Qed.

Lemma established_was_pushed_witness :
  1 <= 1 /\ granted parse_line ident 1 [key_set ["k1"]] "k1" (<["weft-key-name" := "alice"]> {["weft-key-fingerprint" := "k1"]}).
Proof.
  apply (established_was_pushed parse_line ident ident alice_in 0 1 "k1" _ 0 alice_in_reachable). reflexivity.
Defined.

Lemma revoked_cannot_connect_witness :
  conns (started (PubKey := string)) !! 0 <> Some (Established 0 "k1" ∅ 0).
Proof.
  apply (revoked_cannot_connect parse_line ident ident started 0 0 "k1" ∅ 0).
  - apply rtc_refl.
  - intros i ks name Hi. simpl in Hi. by rewrite lookup_nil in Hi.
Defined.

(** Revocation does not end a connection: after an empty push the established
    one is still there although the store refuses its key. *)
Lemma revocation_keeps_connection :
  let s := push parse_line ident (key_set []) alice_in in
  reachable parse_line ident ident s /\
  (exists p, conns s !! 0 = Some (Established 1 "k1" p 0)) /\
  (Authorize ident ident (store s) "k1").2 = false.
Proof.
  split_and!; [|by eexists|by vm_compute].
  eapply rtc_r; [apply alice_in_reachable|apply s_push].
Qed.

End SshServer.
