(* ===== verification/Sshd.v ===== *)
(** * The SSH daemon as a whole (src/pkg/sshd/server.go: Serve, handleConn,
      handleSession)

    SshServer decides who gets a connection, SshSession what one session
    channel does with its requests.  Here they run together: every "session"
    channel of an established connection gets its own request loop
    ([go s.handleSession(ch, reqs)]), the loops interleave with each other, with
    key pushes and with connections coming and going, a loop may go on with the
    requests it has buffered after its connection is gone, and a panic in one
    loop ends the process and with it all the others. *)

From S2P Require Import Prelude GoLib SshWire SshKeys SshServer SshSession.
Import SshKeys.

Module Sshd.
Import SshServer.

Section sshd.
Context {PubKey : Type}.
Context (ParseAuthorizedKey : string -> result (PubKey * string)).
Context (FingerprintSHA256 : PubKey -> string) (Marshal : PubKey -> string).
Context (Shell : string) (environ : list string).

Abbreviation server := (@SshServer.server PubKey).
Abbreviation net_step := (SshServer.step ParseAuthorizedKey FingerprintSHA256 Marshal).
Abbreviation granted_in := (granted ParseAuthorizedKey Marshal).

Inductive status := Running (s : SshSession.state) | Ended | Panicked.

(** One session channel: the connection it was opened on, with the key and the
    permissions that connection has; what pty.StartWithSize answers in it; the
    requests its loop has taken and what the loop has done. *)
Record session := mkSession {
  on : nat;
  accepted : nat;
  owner : PubKey;
  permissions : gmap string string;
  pty_layer : SshSession.command -> result nat;
  received : list SshSession.request;
  events : list SshSession.event;
  loop : status
}.

Record sshd := mkSshd { net : server; sessions : list session; down : bool }.

Definition booted : sshd := mkSshd SshServer.started [] false.

(** One request taken by a running loop. *)
Definition take (x : session) (s : SshSession.state) (r : SshSession.request) : session :=
  let '(ev, c) := SshSession.handleRequest Shell environ (pty_layer x) s r in
  mkSession (on x) (accepted x) (owner x) (permissions x) (pty_layer x) (received x ++ [r])
    match c with
    | SshSession.Return => events x ++ ev ++ [SshSession.CloseChannel]
    | _ => events x ++ ev
    end
    match c with
    | SshSession.Continue s' => Running s'
    | SshSession.Return => Ended
    | SshSession.Crash => Panicked
    end.

(** The request channel was closed: the loop leaves and closes the channel. *)
Definition hang_up (x : session) : session :=
  mkSession (on x) (accepted x) (owner x) (permissions x) (pty_layer x) (received x)
    (events x ++ [SshSession.CloseChannel]) Ended.

Definition panicked (x : session) : bool := match loop x with Panicked => true | _ => false end.

(** No session channel is opened between [n] and [n']. *)
Definition same_channels (n n' : server) : Prop :=
  forall c since key p k, conns n' !! c = Some (Established since key p (S k)) ->
    conns n !! c = Some (Established since key p (S k)).

Inductive step : sshd -> sshd -> Prop :=
| d_net n n' l : net_step n n' -> same_channels n n' -> step (mkSshd n l false) (mkSshd n' l false)
| d_open n l c since key p k start : conns n !! c = Some (Established since key p k) ->
    step (mkSshd n l false)
      (mkSshd (set_conn c (Some (Established since key p (open_channel "session" (Ok tt) k))) n)
         (l ++ [mkSession c since key p start [] [] (Running SshSession.initial)]) false)
| d_request n l i x s r : l !! i = Some x -> loop x = Running s ->
    step (mkSshd n l false) (mkSshd n (<[i := take x s r]> l) (panicked (take x s r)))
| d_hang_up n l i x s : l !! i = Some x -> loop x = Running s ->
    step (mkSshd n l false) (mkSshd n (<[i := hang_up x]> l) false).

Definition reachable (d : sshd) : Prop := rtc step booted d.

(** ** What a session's events are *)

Abbreviation trace_of x := (SshSession.trace Shell environ (pty_layer x) (received x)).
Abbreviation crash_of x := (SshSession.crashes Shell environ (pty_layer x) (received x)).

(** A running loop stands where [handleSession] stands after the requests it
    has taken; a loop that ended did what [handleSession] does on them. *)
Definition on_track (x : session) : Prop :=
  match loop x with
  | Running s => forall rest,
      SshSession.handleSession Shell environ (pty_layer x) SshSession.initial (received x ++ rest) =
      (events x ++ (SshSession.handleSession Shell environ (pty_layer x) s rest).1,
       (SshSession.handleSession Shell environ (pty_layer x) s rest).2)
  | Ended => trace_of x = events x /\ crash_of x = false
  | Panicked => trace_of x = events x /\ crash_of x = true
  end.

Definition session_ok (sets : list KeySet) (x : session) : Prop :=
  granted_in (accepted x) sets (owner x) (permissions x) /\ on_track x.

Definition inv (d : sshd) : Prop :=
  SshServer.inv ParseAuthorizedKey FingerprintSHA256 Marshal (net d) /\
  Forall (session_ok (pushed (net d))) (sessions d) /\
  down d = existsb panicked (sessions d).

Lemma on_track_take x s r : on_track x -> loop x = Running s -> on_track (take x s r).
Proof.
  unfold on_track, take. intros H Hl. rewrite Hl in H. pose proof (H [r]) as H1.
  destruct (SshSession.handleRequest Shell environ (pty_layer x) s r) as [ev [s'| |]] eqn:Hr;
    simpl; unfold SshSession.trace, SshSession.crashes.
  - intros rest. rewrite <- app_assoc. simpl. rewrite H. cbn [SshSession.handleSession]. rewrite Hr.
    destruct (SshSession.handleSession _ _ _ s' rest). simpl. by rewrite app_assoc.
  - rewrite H1. cbn [SshSession.handleSession]. by rewrite Hr.
  - rewrite H1. cbn [SshSession.handleSession]. by rewrite Hr.
Qed.

Lemma on_track_hang_up x s : on_track x -> loop x = Running s -> on_track (hang_up x).
Proof.
  unfold on_track, hang_up, SshSession.trace, SshSession.crashes. intros H Hl. rewrite Hl in H.
  specialize (H []). rewrite app_nil_r in H. simpl. by rewrite H.
Qed.

Lemma session_ok_take sets x s r : session_ok sets x -> loop x = Running s -> session_ok sets (take x s r).
Proof.
  intros [Hg Ht] Hl. split; [|by apply on_track_take]. unfold take. by destruct (SshSession.handleRequest _ _ _ _ _).
Qed.

Lemma session_ok_hang_up sets x s : session_ok sets x -> loop x = Running s -> session_ok sets (hang_up x).
Proof. intros [Hg Ht] Hl. split; [done|]. by eapply on_track_hang_up. Qed.

(** Sets are only ever appended, so what was granted stays granted. *)
Lemma pushed_grows n n' : net_step n n' -> pushed n' = pushed n \/ exists ks, pushed n' = pushed n ++ [ks].
Proof. intros []; simpl; eauto. Qed.

Lemma session_ok_net n n' x : net_step n n' -> session_ok (pushed n) x -> session_ok (pushed n') x.
Proof.
  intros Hs [Hg Ht]. split; [|done].
  destruct (pushed_grows _ _ Hs) as [->|[ks ->]]; [done|by apply granted_app].
Qed.

(** [n'] is [n] with session [i], which had not panicked, replaced. *)
Lemma panicked_insert (l : list session) i x y : l !! i = Some x -> existsb panicked l = false ->
  existsb panicked (<[i := y]> l) = panicked y.
Proof.
  revert i. induction l as [|z l IH]; intros [|i] Hi H; simplify_eq/=; apply orb_false_iff in H as [H1 H2].
  - by rewrite H2, orb_false_r.
  - by rewrite H1, (IH i).
Qed.

Lemma sshd_inv_step d d' : inv d -> step d d' -> inv d'.
Proof.
  intros (Hn & Hl & Hd) Hs. destruct Hs as [n n' l Hs _|n l c since key p k start Hc|n l i x s r Hi Hx|n l i x s Hi Hx];
    simpl in *.
  - split; [by eapply server_inv_step|split; [|done]]. eapply Forall_impl; [done|]. intros y. by apply session_ok_net.
  - pose proof (proj2 Hn _ _ Hc) as [_ Hg]. split; [|split].
    + by eapply server_inv_step, s_channel.
    + apply Forall_app. split; [done|]. apply Forall_singleton. split; [done|]. intros rest. simpl.
      by destruct (SshSession.handleSession _ _ _ _ rest).
    + simpl. by rewrite existsb_app, <- Hd.
  - assert (session_ok (pushed n) x) as Hx' by by eapply Forall_lookup_1.
    split; [done|split; [apply Forall_insert; [done|by apply session_ok_take]|]]. simpl. by erewrite panicked_insert.
  - assert (session_ok (pushed n) x) as Hx' by by eapply Forall_lookup_1.
    split; [done|split; [apply Forall_insert; [done|by eapply session_ok_hang_up]|]]. simpl. by erewrite panicked_insert.
Qed.

Lemma sshd_reachable d : reachable d -> inv d.
Proof.
  apply rtc_invariant; [apply sshd_inv_step|]. split; [apply started_inv|split; [constructor|done]].
Qed.

Lemma on_track_trace x : on_track x ->
  (loop x = Panicked <-> crash_of x = true) /\ SshSession.spawns (events x) = SshSession.spawns (trace_of x).
Proof.
  unfold on_track, SshSession.trace, SshSession.crashes. destruct (loop x) as [s| |].
  - intros H. specialize (H []). rewrite app_nil_r in H. rewrite H. simpl.
    rewrite SshSession.spawns_app, app_nil_r. done.
  - intros [-> ->]. done.
  - intros [-> ->]. done.
Qed.

(** The process a session starts: the shell, with the command line of the one
    start request it came from and the pty-req and environment before it. *)
Definition asked_for (x : session) (c : SshSession.command) : Prop :=
  exists pre r post line, received x = pre ++ r :: post /\ SshSession.line_of r = Some line /\
    c = SshSession.shellCommand Shell environ (SshSession.last_pty None pre) (pre ≫= SshSession.env_of) line.

(** C2.  Who can run what over SSH, with everything running together: under
    every interleaving of key pushes, connections, authentications, channel
    openings and the request loops of all sessions, a process is started only in
    a session opened on a connection whose key was a line of a key set current
    at some instant after the connection was accepted; a session starts at most
    one process, the server's shell with the command line, window, TERM and
    environment that the session's own requests ask for, whatever the other
    sessions do; and the server goes down only when the requests of one
    session alone make the wire parser panic. *)
Theorem process_has_granted_owner d x :
  reachable d -> x ∈ sessions d ->
  granted_in (accepted x) (pushed (net d)) (owner x) (permissions x) /\
  length (SshSession.spawns (events x)) <= 1 /\
  (forall c, SshSession.Spawn c ∈ events x -> asked_for x c) /\
  (crash_of x = true -> down d = true) /\
  (down d = true -> exists y, y ∈ sessions d /\ crash_of y = true).
Proof.
  intros Hr Hx. destruct (sshd_reachable d Hr) as (_ & Hl & Hd).
  pose proof (proj1 (Forall_forall _ _) Hl) as Hok. destruct (Hok x Hx) as [Hg Ht].
  destruct (on_track_trace x Ht) as [Hc Hs]. split_and!; [done| | | |].
  - rewrite Hs. apply SshSession.handleSession_one_spawn.
  - intros c Hin. apply (SshSession.trace_spawn Shell environ (pty_layer x)). rewrite <- Hs. by apply SshSession.elem_of_spawns.
  - intros Hcr. rewrite Hd. apply existsb_exists. exists x. split; [by apply list_elem_of_In|].
    unfold panicked. by rewrite (proj2 Hc Hcr).
  - rewrite Hd. intros (y & Hy & Hp)%existsb_exists. apply list_elem_of_In in Hy. exists y. split; [done|].
    apply (on_track_trace y (proj2 (Hok y Hy))). unfold panicked in Hp. by destruct (loop y).
Qed.
End sshd.

(** ** A concrete run: alice connects, opens a session and runs a command *)

Definition alice_perms : gmap string string := <["weft-key-name" := "alice"]> {["weft-key-fingerprint" := "k1"]}.

Definition alice_session : session :=
  take "/bin/sh" ["PATH=/bin"]
    (mkSession 0 1 "k1" alice_perms (fun _ => Ok 3) [] [] (Running SshSession.initial))
    SshSession.initial SshSession.sample_exec.

Definition alice_runs : sshd :=
  mkSshd (set_conn 0 (Some (Established 1 "k1" alice_perms 1)) alice_in) [alice_session] false.

Lemma alice_runs_reachable : reachable parse_line ident ident "/bin/sh" ["PATH=/bin"] alice_runs.
Proof.
  assert (forall n n' : @SshServer.server string, map_Forall (fun _ (k : @conn string) => match k with Established _ _ _ (S _) => False | _ => True end)
    (conns n') -> same_channels n n') as Hsame.
  { intros n n' H c since key p k Hc. by specialize (H c _ Hc). }
  eapply rtc_l; [eapply d_net; [apply (s_push _ _ _ (key_set ["k1"]))|by apply Hsame]|].
  eapply rtc_l; [eapply d_net; [by apply s_accept|apply Hsame; by apply map_Forall_singleton]|].
  eapply rtc_l; [eapply d_net; [apply (s_offer _ _ _ 0 1 [] "k1"); [done|set_solver]|
    apply Hsame; repeat (apply map_Forall_insert_2; [done|]); apply map_Forall_empty]|].
  assert (PublicKeyCallback ident ident (store (push parse_line ident (key_set ["k1"]) SshServer.started)) "k1" =
    Ok alice_perms) as Hcb by (vm_compute; reflexivity).
  change (store (accept (push parse_line ident (key_set ["k1"]) SshServer.started))) with
    (store (push parse_line ident (key_set ["k1"]) SshServer.started)). rewrite Hcb.
  eapply rtc_l.
  { eapply d_net.
    - apply (s_authenticated _ _ _ 0 1 [("k1", Ok alice_perms)] "k1" alice_perms).
      + reflexivity.
      + by apply list_elem_of_singleton.
    - apply Hsame. repeat (apply map_Forall_insert_2; [done|]). apply map_Forall_empty. }
  eapply rtc_l; [by eapply (d_open _ _ _ _ _ _ _ 0 1 "k1" alice_perms 0 (fun _ => Ok 3))|].
  eapply rtc_l; [by eapply (d_request _ _ _ _ _ _ _ 0 _ SshSession.initial SshSession.sample_exec)|].
  match goal with |- rtc _ ?d _ => replace d with alice_runs by by vm_compute end. apply rtc_refl.
Qed.

Lemma process_has_granted_owner_witness :
  granted parse_line ident 1 [key_set ["k1"]] "k1" alice_perms /\
  events alice_session = [SshSession.Spawn {| SshSession.cmd_Path := "/bin/sh"; SshSession.cmd_Args := ["-c"; "uptime"];
    SshSession.cmd_Env := ["PATH=/bin"]; SshSession.cmd_Rows := 24; SshSession.cmd_Cols := 80 |}; SshSession.Reply true].
Proof.
  split; [|by vm_compute].
  apply (process_has_granted_owner parse_line ident ident "/bin/sh" ["PATH=/bin"] alice_runs alice_session
    alice_runs_reachable).
  by apply list_elem_of_singleton.
Defined.

End Sshd.
