(* ===== verification/HostKey.v ===== *)
(** * The SSH host key (src/pkg/sshd/hostkey.go), NewServer
    (src/pkg/sshd/server.go) and startSSHD (src/cmd/weft-microvm-agent)

    PEM, X.509 and the SSH signer constructor are parameters; key generation
    is an argument of each call, since its result differs from boot to boot. *)

From S2P Require Import Prelude GoLib FileSys GoPath FsLogic SshKeys.

Module HostKey.

Section hostkey.
Context {Priv Signer : Type}.
Context (pem_Decode : string -> option string) (pem_Encode : string -> string).
Context (ParsePKCS8 : string -> result Priv) (MarshalPKCS8 : Priv -> result string).
Context (NewSignerFromKey : Priv -> result Signer).
Local Open Scope os_scope.

Definition parseHostKey (pemBytes : string) : result Signer :=
  match pem_Decode pemBytes with
  | None => Err (errors_New "no PEM block")
  | Some block =>
      match ParsePKCS8 block with
      | Err e => Err e
      | Ok key => NewSignerFromKey key
      end
  end.

(** A pure result inside a sequence of system calls. *)
Definition lift {A : Type} (r : result A) : M A :=
  match r with Ok a => oret a | Err e => ofail e end.

(** The first-boot half of [LoadOrCreateHostKey]. *)
Definition createHostKey (path : string) (generated : result Priv) : M Signer :=
  let dir := Dir path in
  owrap (fun e => Errorf "mkdir %s: %w" [EStr dir; EErr e]) (os_MkdirAll dir) ;;;
  priv <- owrap (fun e => Errorf "generate ed25519: %w" [EErr e]) (lift generated) ;;
  blob <- owrap (fun e => Errorf "marshal ed25519: %w" [EErr e]) (lift (MarshalPKCS8 priv)) ;;
  let pemBytes := pem_Encode blob in
  let tmp := path +:+ ".tmp" in
  write_tmp_rename tmp path pemBytes
    (fun e => Errorf "write tmp %s: %w" [EStr tmp; EErr e])
    (fun e => Errorf "commit %s: %w" [EStr path; EErr e]) (oret tt) ;;;
  lift (parseHostKey pemBytes).

Definition LoadOrCreateHostKey (path : string) (generated : result Priv) : M Signer :=
  if decide (path = "") then ofail (errors_New "hostkey path is empty")
  else
    r <~ os_ReadFile path ;;
    match r with
    | Ok b => owrap (fun e => Errorf "parse host key %s: %w" [EStr path; EErr e]) (lift (parseHostKey b))
    | Err e =>
        if negb (IsNotExist e) then ofail (Errorf "read host key %s: %w" [EStr path; EErr e])
        else createHostKey path generated
    end.

(** ** NewServer and startSSHD *)

Record Server (Store : Type) := mkServer { AuthStore : Store; HostKey : Signer; Shell : string }.

(** [None] stands for a nil argument. *)
Definition NewServer {Store : Type} (store : option Store) (hostKey : option Signer) (shell : string)
    : result (Server Store) :=
  match store, hostKey with
  | None, _ => Err (errors_New "nil AuthStore")
  | _, None => Err (errors_New "nil HostKey")
  | Some st, Some hk => Ok {| AuthStore := st; HostKey := hk; Shell := if decide (shell = "") then "/bin/sh" else shell |}
  end.

(** [Listen] is net.Listen's answer for the address. *)
Definition startSSHD {Store : Type} (Listen : string -> gerr) (listen hostKeyPath shell : string)
    (store : Store) (generated : result Priv) : M (Server Store) :=
  signer <- owrap (fun e => Errorf "host key %s: %w" [EStr hostKeyPath; EErr e])
              (LoadOrCreateHostKey hostKeyPath generated) ;;
  srv <- lift (NewServer (Some store) (Some signer) shell) ;;
  match Listen listen with
  | Some e => ofail (Errorf "listen %s: %w" [EStr listen; EErr e])
  | None => oret srv
  end.

(** ** The key on disk *)

Section first_boot.
Context (p : string) (u l : bytes) (Hp : ends_in p u l) (base : fsys).
Context (Habsent : base !! path_of p = None).

(** A key file that loads as [s]. *)
Definition holds (fs : fsys) (s : Signer) : Prop :=
  exists pem, fs !! path_of p = Some (NFile pem) /\ parseHostKey pem = Ok s.

(** During creation: no key file, or the complete new one. *)
Definition creating (generated : result Priv) (fs : fsys) : Prop :=
  wf fs /\
  (fs !! path_of p = None \/
   exists priv blob, generated = Ok priv /\ MarshalPKCS8 priv = Ok blob /\
     fs !! path_of p = Some (NFile (pem_Encode blob))).

Lemma t_lift {A : Type} (ff : bool) (I P : fsys -> Prop) (r : result A) :
  triple ff I P (lift r) (fun r' fs => r' = r /\ P fs).
Proof. destruct r; [by apply t_ret|by apply t_fail]. Qed.

Lemma createHostKey_triple ff generated :
  triple ff (creating generated) (fun fs => fs = base) (createHostKey p generated)
    (fun r fs => forall s, r = Ok s -> holds fs s).
Proof.
  unfold createHostKey. cbv zeta.
  apply (t_bind _ _ _ (fun _ fs => fs !! path_of p = None)); [|intros []|done].
  { apply (t_wrap _ _ _ (fun _ fs => fs !! path_of p = None)); [|done|done].
    apply MkdirAll_spec; [by intros fs [? _]|]. intros r fs g _ -> Hw [Hg1 Hg2] _.
    assert (g !! path_of p = None) as Hn; [|split; [|done]; split; [done|by left]].
    destruct (decide (g !! path_of p = base !! path_of p)) as [->|Hne]; [done|].
    apply Hg2 in Hne as (_ & _ & Hpre).
    rewrite (SshKeys.target_dir p u l Hp) in Hpre. by apply SshKeys.not_prefix_target in Hpre. }
  apply (t_bind _ _ _ (fun r fs => (forall a, r = Ok a -> generated = Ok a) /\ fs !! path_of p = None));
    [|intros priv|naive_solver].
  { eapply t_wrap; [apply t_lift|naive_solver|naive_solver]. }
  apply (t_bind _ _ _ (fun r fs => (forall b, r = Ok b -> generated = Ok priv /\ MarshalPKCS8 priv = Ok b) /\
           fs !! path_of p = None)); [|intros blob|naive_solver].
  { eapply t_wrap; [apply t_lift|naive_solver|naive_solver]. }
  apply t_at. intros g [Hwg _] [Hgen Hn]. destruct (Hgen blob eq_refl) as [Hg Hm].
  apply (t_bind _ _ _ (fun r fs => r = Ok tt -> fs !! path_of p = Some (NFile (pem_Encode blob)))).
  - eapply t_conseq; [eapply (t_inv _ _ (replace_inv g (p +:+ ".tmp") p (pem_Encode blob)) (fun fs => fs = g));
      [apply atomic_replace; [apply harmless_ret|by eapply SshKeys.tmp_ne]|..]|done|].
    + intros fs (Hw & Ht & _). split; [done|]. rewrite Hn in Ht.
      destruct Ht as [Ht|Ht]; [by left|right; eauto].
    + intros fs _ ->. split; [|done]. split_and!; [done|by left|done].
    + intros r fs _ [_ Hr]. intros ->. by destruct Hr.
  - intros []. eapply t_conseq; [apply t_lift| |].
    + intros fs _ H. exact H.
    + cbv beta. intros r fs _ [-> Hf] s Hs. exists (pem_Encode blob). auto.
  - done.
Qed.
End first_boot.

(** The next system call, if it fails, does not fail with "not found": a
    read error is never mistaken for a first boot. *)
Definition honest (w : os) : Prop :=
  match faults w with Some (_, e) :: _ => IsNotExist e = false | _ => True end.

(** What a read of [p] returns when it is not faulted. *)
Definition stored (f : fsys) (p : string) : result string :=
  match lookup_path f (path_of p) with
  | Ok (NFile d) => Ok d
  | Ok NDir => Err EISDIR
  | Err e => Err e
  end.

Lemma ReadFile_run p w :
  (os_ReadFile p w).2 = mk_os (files w) (tail (faults w)) (history w ++ [files w]) /\
  ((os_ReadFile p w).1 = stored (files w) p \/
   exists n e fts, faults w = Some (n, e) :: fts /\ (os_ReadFile p w).1 = Err e).
Proof.
  unfold os_ReadFile, syscall, guarded. destruct (faults w) as [|[[n e]|] fts]; simpl; split; eauto 10.
Qed.

(** A stored key is loaded, never replaced. *)
Lemma Load_present p gen w pem :
  p <> "" -> honest w -> stored (files w) p = Ok pem ->
  let '(r, w') := LoadOrCreateHostKey p gen w in
  files w' = files w /\ history w' = history w ++ [files w] /\
  (forall s, r = Ok s -> parseHostKey pem = Ok s) /\
  (forall s, faults w = [] -> parseHostKey pem = Ok s -> r = Ok s).
Proof.
  intros Hp Hh Hs. unfold LoadOrCreateHostKey. rewrite decide_False by done. unfold ocatch at 1.
  destruct (ReadFile_run p w) as [H2 H1]. destruct (os_ReadFile p w) as [r w']. simpl in *. subst w'.
  destruct H1 as [->|(n & e & fts & Hf & ->)].
  - rewrite Hs. unfold owrap, ocatch, lift. destruct (parseHostKey pem) as [s|e]; simpl; naive_solver.
  - unfold honest in Hh. rewrite Hf in *. rewrite Hh. simpl. naive_solver.
Qed.

Lemma Load_missing p gen w e :
  p <> "" -> honest w -> stored (files w) p = Err e ->
  (exists e', LoadOrCreateHostKey p gen w =
     (Err e', mk_os (files w) (tail (faults w)) (history w ++ [files w]))) \/
  IsNotExist e = true /\ LoadOrCreateHostKey p gen w =
    createHostKey p gen (mk_os (files w) (tail (faults w)) (history w ++ [files w])).
Proof.
  intros Hp Hh Hs. unfold LoadOrCreateHostKey. rewrite decide_False by done. unfold ocatch.
  destruct (ReadFile_run p w) as [H2 H1]. destruct (os_ReadFile p w) as [r w']. simpl in *. subst w'.
  destruct H1 as [->|(n & e' & fts & Hf & ->)]; rewrite ?Hs.
  - destruct (IsNotExist e); simpl; eauto.
  - unfold honest in Hh. rewrite Hf in *. rewrite Hh. simpl. eauto.
Qed.

Lemma stored_absent f p e : wf f -> path_of p <> [] ->
  stored f p = Err e -> IsNotExist e = true -> f !! path_of p = None.
Proof.
  intros Hw Hne Hs He. unfold stored in Hs. destruct (f !! path_of p) as [n|] eqn:Hn; [|done].
  rewrite <- node_at_ne in Hn by done. apply (lookup_path_ok f _ _ Hw) in Hn. rewrite Hn in Hs.
  destruct n; simplify_eq.
Qed.

Lemma stored_lookup f p d : wf f -> path_of p <> [] ->
  stored f p = Ok d <-> f !! path_of p = Some (NFile d).
Proof.
  intros Hw Hne. unfold stored. rewrite <- (node_at_ne f (path_of p)) by done.
  rewrite <- (lookup_path_ok f (path_of p) (NFile d) Hw). destruct (lookup_path _ _) as [[d'|]|]; naive_solver.
Qed.

(** The call as a whole: whatever happens the file at [p] is the old one or,
    if there was none, the complete new key; a returned signer is the one on
    disk. *)
Lemma Load_run p u l gen w :
  ends_in p u l -> wf (files w) -> honest w ->
  let '(r, w') := LoadOrCreateHostKey p gen w in
  (exists h, history w' = history w ++ h /\
     Forall (fun fs => fs !! path_of p = files w !! path_of p \/
                       (files w !! path_of p = None /\ creating p gen fs)) h) /\
  wf (files w') /\ (forall s, r = Ok s -> holds p (files w') s).
Proof.
  intros Hp Hw Hh.
  assert (p <> "") as Hne by (intros ->; destruct Hp as [H _]; by destruct u).
  assert (path_of p <> []) as Hpp by (rewrite (path_of_ends_in _ _ _ Hp); by destruct (str <$> comps u)).
  destruct (stored (files w) p) as [pem|e] eqn:Hs.
  - pose proof (Load_present p gen w pem Hne Hh Hs) as H.
    destruct (LoadOrCreateHostKey p gen w) as [r w']. destruct H as (Hf & Hhist & Hr & _).
    split_and!; [exists [files w]; auto|by rewrite Hf|]. intros s ->. exists pem.
    rewrite Hf. split; [|by apply Hr]. by apply stored_lookup.
  - destruct (Load_missing p gen w e Hne Hh Hs) as [[e' ->]|[He ->]].
    { simpl. split_and!; [exists [files w]; auto|done|done]. }
    pose proof (stored_absent _ _ _ Hw Hpp Hs He) as Hn.
    set (w1 := mk_os (files w) (tail (faults w)) (history w ++ [files w])).
    destruct (triple_run _ _ _ _ w1 (createHostKey_triple p u l Hp (files w) Hn false gen))
      as ((h & Hhist & HF) & [Hw' _] & HQ); [split; auto|done|].
    destruct (createHostKey p gen w1) as [r w']. simpl in *. split_and!; try done.
    exists (files w :: h). rewrite Hhist, <- app_assoc. split; [done|]. constructor; [by left|].
    eapply Forall_impl; [exact HF|]. auto.
Qed.

(** C29.  The host key is generated once and then stays: if a boot's
    LoadOrCreateHostKey returns a signer, every later boot that starts from
    the file system it left returns that signer and no other, whatever fresh
    key the generator would produce and whatever faults occur (as long as a
    read error is not reported as "not found"), and the key file is not
    rewritten.  During the call the key file is, at every instant, what it
    was before or the complete new PEM. *)
Theorem hostkey_stable p u l gen w :
  ends_in p u l -> wf (files w) -> honest w ->
  let '(r, w') := LoadOrCreateHostKey p gen w in
  (exists h, history w' = history w ++ h /\
     Forall (fun fs => fs !! path_of p = files w !! path_of p \/
                       (files w !! path_of p = None /\ creating p gen fs)) h) /\
  forall s, r = Ok s -> forall gen2 w2, files w2 = files w' -> honest w2 ->
    let '(r2, w2') := LoadOrCreateHostKey p gen2 w2 in
    files w2' = files w2 /\ (forall s2, r2 = Ok s2 -> s2 = s) /\ (faults w2 = [] -> r2 = Ok s).
Proof.
  intros Hp Hw Hh. pose proof (Load_run p u l gen w Hp Hw Hh) as H.
  destruct (LoadOrCreateHostKey p gen w) as [r w']. destruct H as (Hhist & Hw' & Hr).
  split; [done|]. intros s Hs gen2 w2 Hf Hh2. destruct (Hr s Hs) as (pem & Hpem & Hparse).
  assert (p <> "") as Hne by (intros ->; destruct Hp as [E _]; by destruct u).
  assert (stored (files w2) p = Ok pem) as Hst.
  { apply stored_lookup; rewrite ?Hf; [done| |done].
    rewrite (path_of_ends_in _ _ _ Hp). by destruct (str <$> comps u). }
  pose proof (Load_present p gen2 w2 pem Hne Hh2 Hst) as H.
  destruct (LoadOrCreateHostKey p gen2 w2) as [r2 w2']. destruct H as (H1 & _ & H2 & H3).
  split_and!; [done| |auto]. intros s2 E. specialize (H2 s2 E). congruence.
Qed.
End hostkey.

(** A toy PEM and PKCS8 for the witness: keys are strings. *)
Definition toyPemDecode (s : string) : option string := CutPrefix s "PEM:".
Definition toyBoot (gen : string) : M string :=
  LoadOrCreateHostKey toyPemDecode (fun b => "PEM:" +:+ b) (@Ok string) (@Ok string) (@Ok string)
    "/var/lib/weft/hostkey" (Ok gen).

Lemma hostkey_stable_witness :
  (toyBoot "key1" (mk_os ∅ [] [])).1 = Ok "key1" /\
  (toyBoot "key2" (mk_os (files (toyBoot "key1" (mk_os ∅ [] [])).2) [] [])).1 = Ok "key1".
Proof.
  assert (ends_in "/var/lib/weft/hostkey" (chars "/var/lib/weft") (chars "hostkey")) as Hp.
  { unfold ends_in. apply (bool_decide_unpack _). vm_compute. exact I. }
  pose proof (hostkey_stable toyPemDecode (fun b => "PEM:" +:+ b) (@Ok string) (@Ok string) (@Ok string)
    "/var/lib/weft/hostkey" _ _ (Ok "key1") (mk_os ∅ [] []) Hp wf_empty I) as H.
  split; [vm_compute; reflexivity|]. fold (toyBoot "key1") in H.
  assert ((toyBoot "key1" (mk_os ∅ [] [])).1 = Ok "key1") as E by (vm_compute; reflexivity).
  destruct (toyBoot "key1" (mk_os ∅ [] [])) as [r w']. simpl in E. destruct H as [_ H].
  specialize (H "key1" E (Ok "key2") (mk_os (files w') [] []) eq_refl I).
  fold (toyBoot "key2") in H. destruct (toyBoot "key2" _) as [r2 w2]. destruct H as (_ & _ & H).
  exact (H eq_refl).
Defined.

End HostKey.
