(* ===== verification/AbsPath.v ===== *)
(** * Canonical absolute paths

    [abs q] is the path string that path/filepath's Clean and Join produce for
    the component list [q]; on good components (non-empty, not "." or "..",
    without slash) it is inverse to [path_of], so that string comparisons of
    cleaned paths are comparisons of component lists. *)

From S2P Require Import Prelude GoLib FileSys GoPath.

Definition good (c : string) : Prop := plain (chars c) /\ slash ∉ chars c.
#[export] Instance good_dec c : Decision (good c).
Proof. unfold good. apply _. Defined.

Abbreviation good_path := (Forall good).

Definition abs (q : path) : string := str (slash :: join_bytes [slash] (chars <$> q)).

Lemma fmap_chars_str (l : list bytes) : chars <$> (str <$> l) = l.
Proof. rewrite <- list_fmap_compose. rewrite <- (list_fmap_id l) at 2. apply list_fmap_ext. intros. apply chars_str. Qed.

Lemma fmap_str_chars (l : path) : str <$> (chars <$> l) = l.
Proof. rewrite <- list_fmap_compose. rewrite <- (list_fmap_id l) at 2. apply list_fmap_ext. intros. apply str_chars. Qed.

Lemma good_path_split q : good_path q ->
  Forall plain (chars <$> q) /\ Forall (fun x => slash ∉ x) (chars <$> q).
Proof. rewrite !Forall_fmap. unfold good. intros H. by apply Forall_and in H. Qed.

Lemma path_of_abs q : good_path q -> path_of (abs q) = q.
Proof.
  intros [H1 H2]%good_path_split. rewrite path_of_comps. unfold abs. rewrite chars_str.
  rewrite comps_join_rooted by done. apply fmap_str_chars.
Qed.

Lemma path_of_good s : good_path (path_of s).
Proof.
  rewrite path_of_comps, Forall_fmap. pose proof (comps_plain (chars s)) as H1.
  pose proof (comps_free (chars s)) as H2. unfold good. apply Forall_and. split.
  - eapply Forall_impl; [exact H1|]. intros x Hx. simpl. by rewrite chars_str.
  - eapply Forall_impl; [exact H2|]. intros x Hx. simpl. by rewrite chars_str.
Qed.

Lemma abs_inj q1 q2 : good_path q1 -> good_path q2 -> abs q1 = abs q2 -> q1 = q2.
Proof. intros H1 H2 H. by rewrite <- (path_of_abs q1), <- (path_of_abs q2), H. Qed.

Lemma Clean_rooted s : HasPrefix s "/" = true -> Clean s = abs (path_of s).
Proof.
  intros Hr. unfold HasPrefix in Hr. change (chars "/") with [slash] in Hr.
  unfold Clean, clean, abs. rewrite path_of_comps, fmap_chars_str. unfold comps.
  destruct (chars s) as [|a b]; [done|]. unfold is_rooted. by rewrite Hr.
Qed.

Lemma HasPrefix_app s t : HasPrefix s "/" = true -> HasPrefix (s +:+ t) "/" = true.
Proof.
  unfold HasPrefix. rewrite chars_app. change (chars "/") with [slash]. unfold has_prefix.
  intros H%bool_decide_eq_true. apply bool_decide_eq_true. destruct (chars s); [done|]. simpl in *. done.
Qed.

Lemma Join_abs root k : HasPrefix root "/" = true -> chars ".." ∉ GoLib.split slash (chars k) ->
  Join root k = abs (path_of root ++ key_comps k).
Proof.
  intros Hr Hk. assert (root <> "") as Hne by (by intros ->).
  rewrite <- path_of_Join by done. unfold Join. rewrite decide_False by done.
  rewrite path_of_Clean. apply Clean_rooted. by apply HasPrefix_app.
Qed.

Lemma good_key_comps x : good x -> key_comps x = [x] /\ chars ".." ∉ GoLib.split slash (chars x).
Proof.
  intros [Hp Hs]. unfold key_comps. rewrite split_free by done. split.
  - rewrite filter_cons_True by done. rewrite filter_nil. simpl. by rewrite str_chars.
  - rewrite list_elem_of_singleton. intros E. destruct Hp as [_ Hp]. by apply Hp.
Qed.

Lemma abs_rooted q : HasPrefix (abs q) "/" = true.
Proof. unfold HasPrefix, abs. rewrite chars_str. done. Qed.

Lemma Join_abs_name q x : good_path q -> good x -> Join (abs q) x = abs (q ++ [x]).
Proof.
  intros Hq Hx. destruct (good_key_comps x Hx) as [Hk Hd].
  rewrite Join_abs by (try done; apply abs_rooted). by rewrite path_of_abs, Hk.
Qed.

(** The bytes before the last component. *)
Definition upto (q : path) : bytes :=
  match q with [] => [] | _ => slash :: join_bytes [slash] (chars <$> q) end.

Lemma abs_snoc q x : chars (abs (q ++ [x])) = upto q ++ slash :: chars x.
Proof.
  unfold abs, upto. rewrite chars_str, fmap_app. destruct q as [|y q]; [done|].
  change (chars <$> [x]) with [chars x]. rewrite join_bytes_snoc by done. simpl. done.
Qed.

Lemma abs_ends_in q x : good_path (q ++ [x]) -> ends_in (abs (q ++ [x])) (upto q) (chars x).
Proof.
  intros [_ H]%Forall_app. inversion H as [|? ? [Hp Hs] _]. split_and!; [apply abs_snoc|done|apply Hp..].
Qed.

Lemma comps_upto q : good_path q -> comps (upto q) = chars <$> q.
Proof.
  intros [H1 H2]%good_path_split. destruct q as [|y q]; [done|]. by apply comps_join_rooted.
Qed.

Lemma path_of_Dir_abs q x : good_path (q ++ [x]) -> path_of (Dir (abs (q ++ [x]))) = q.
Proof.
  intros H. rewrite (path_of_Dir _ _ _ (abs_ends_in q x H)), comps_upto.
  - apply fmap_str_chars.
  - by apply Forall_app in H as [? _].
Qed.

Lemma abs_suffix q x t : abs (q ++ [x]) +:+ t = abs (q ++ [x +:+ t]).
Proof. apply (inj chars). rewrite chars_app, !abs_snoc, chars_app, <- app_assoc. done. Qed.

Lemma Ext_abs q x : slash ∉ chars x -> Ext (abs (q ++ [x])) = Ext x.
Proof.
  intros Hs. unfold Ext. rewrite abs_snoc, last_index_byte_app, (last_index_byte_free slash (chars x)) by done.
  replace (drop (S (length (upto q))) (upto q ++ slash :: chars x)) with (chars x); [done|].
  rewrite drop_app_ge by lia. replace (S (length (upto q)) - length (upto q)) with 1 by lia. done.
Qed.

(** Names the walker leaves alone. *)
Definition is_tmp (x : string) : bool := bool_decide (Ext x = ".tmp").

Lemma is_tmp_suffix x : slash ∉ chars x -> is_tmp (x +:+ ".tmp") = true.
Proof.
  intros Hs. unfold is_tmp. apply bool_decide_eq_true. unfold Ext. cbv zeta.
  rewrite (last_index_byte_free slash).
  - rewrite chars_app. change (chars ".tmp") with ("."%char :: chars "tmp").
    rewrite last_index_byte_app by (apply (bool_decide_unpack _); vm_compute; exact I).
    by rewrite drop_app_length.
  - rewrite chars_app, elem_of_app. intros [?|H]; [done|].
    revert H. apply (bool_decide_unpack _). vm_compute. exact I.
Qed.

Lemma good_suffix x : good x -> good (x +:+ ".tmp").
Proof.
  intros [Hp Hs]. split.
  - rewrite chars_app. apply last_plain_tmp; [done|simpl; lia].
  - rewrite chars_app, elem_of_app. intros [?|H]; [done|].
    revert H. apply (bool_decide_unpack _). vm_compute. exact I.
Qed.

Lemma key_comps_good k : good_path (key_comps k).
Proof.
  unfold key_comps, good. rewrite Forall_fmap. apply Forall_forall. intros x Hx. simpl.
  apply list_elem_of_filter in Hx as [Hp Hx]. rewrite chars_str. split; [done|].
  pose proof (split_pieces_free slash (chars k)) as H. rewrite Forall_forall in H. by apply H.
Qed.
