(* ===== verification/FsExec.v ===== *)
(** * Fault-free runs, exactly

    [exec c f r f']: from the file system [f], without faults, [c] returns [r]
    and leaves [f'].  Used where the theorem is about what the code achieves
    (rather than about what it keeps under faults). *)

From S2P Require Import Prelude GoLib FileSys GoPath FsLogic AbsPath.

Definition no_faults (w : os) : Prop := Forall (fun ft => ft = None) (faults w).

Definition exec {A : Type} (c : M A) (f : fsys) (r : result A) (f' : fsys) : Prop :=
  forall w, files w = f -> no_faults w ->
    (c w).1 = r /\ files (c w).2 = f' /\ no_faults (c w).2.

Lemma exec_ret {A : Type} (a : A) f : exec (oret a) f (Ok a) f.
Proof. intros w Hf Hn. simpl. auto. Qed.

Lemma exec_fail {A : Type} (e : error) f : exec (@ofail A e) f (Err e) f.
Proof. intros w Hf Hn. simpl. auto. Qed.

Lemma exec_catch {A B : Type} (c : M A) (k : result A -> M B) f r f1 r2 f2 :
  exec c f r f1 -> exec (k r) f1 r2 f2 -> exec (ocatch c k) f r2 f2.
Proof.
  intros Hc Hk w Hf Hn. destruct (Hc w Hf Hn) as (H1 & H2 & H3). unfold ocatch.
  destruct (c w) as [r' w']. simpl in *. subst r'. by apply Hk.
Qed.

Lemma exec_bind {A B : Type} (c : M A) (k : A -> M B) f a f1 r2 f2 :
  exec c f (Ok a) f1 -> exec (k a) f1 r2 f2 -> exec (obind c k) f r2 f2.
Proof. intros Hc Hk. unfold obind. eapply exec_catch; [done|]. done. Qed.

Lemma exec_wrap {A : Type} (wrap : error -> error) (c : M A) f a f1 :
  exec c f (Ok a) f1 -> exec (owrap wrap c) f (Ok a) f1.
Proof. intros Hc. unfold owrap. eapply exec_catch; [done|]. apply exec_ret. Qed.

Lemma exec_syscall {A : Type} (g : fault -> fsys -> result A * fsys) f : exec (syscall g) f (g None f).1 (g None f).2.
Proof.
  intros w <- Hn. unfold syscall, no_faults in *.
  assert (match faults w with [] => None | x :: _ => x end = None) as -> by (by destruct Hn).
  destruct (g None (files w)) as [r f']. simpl. split_and!; try done. by destruct Hn.
Qed.

Lemma exec_guarded {A : Type} (g : fsys -> result A * fsys) f : exec (syscall (guarded g)) f (g f).1 (g f).2.
Proof. exact (exec_syscall (guarded g) f). Qed.

Lemma exec_of_triple {A : Type} (c : M A) (P : result A -> fsys -> Prop) f :
  triple true wf (fun fs => fs = f) c P -> wf f ->
  (forall r1 f1 r2 f2, P r1 f1 -> P r2 f2 -> r1 = r2 /\ f1 = f2) ->
  forall r f', P r f' -> exec c f r f'.
Proof.
  intros Ht Hw Hu r f' HP w <- Hn. destruct (Ht w) as (Hn' & _ & _ & HQ); [by intros _|done|done|].
  destruct (Hu _ _ _ _ HQ HP) as [-> ->]. split_and!; try done. by apply Hn'.
Qed.

(** ** Directory listings *)

Lemma children_elem (f : fsys) (p : path) q n :
  (q, n) ∈ children f p <-> f !! q = Some n /\ exists c, q = p ++ [c].
Proof.
  unfold children. rewrite list_elem_of_filter, elem_of_map_to_list. unfold is_child.
  rewrite bool_decide_eq_true. simpl. split; intros [H1 H2]; split; try done.
  - destruct H1 as [H1 H3]. destruct (snoc_inv q H3) as (p' & c & ->). rewrite parent_app in H1. subst. eauto.
  - destruct H2 as [c ->]. rewrite parent_app. split; [done|]. by destruct p.
Qed.

Lemma entries_elem (f : fsys) (p : path) x b :
  (x, b) ∈ entries f p <-> exists n, f !! (p ++ [x]) = Some n /\ b = bool_decide (n = NDir).
Proof.
  unfold entries. rewrite merge_sort_Permutation, list_elem_of_fmap. split.
  - intros ([q n] & Heq & (Hq & c & ->)%children_elem). simpl in Heq. rewrite last_snoc in Heq.
    simplify_eq/=. eauto.
  - intros (n & Hn & ->). exists (p ++ [x], n). simpl. rewrite last_snoc. split; [done|].
    apply children_elem. eauto.
Qed.

Lemma ReadDir_exec (f : fsys) (p : string) : wf f -> node_at f (path_of p) = Some NDir ->
  exec (os_ReadDir p) f (Ok (entries f (path_of p))) f.
Proof.
  intros Hw Hn. unfold os_ReadDir.
  pose proof (exec_guarded (fun fs => (match lookup_path fs (path_of p) with
     | Ok NDir => Ok (entries fs (path_of p)) | Ok (NFile _) => Err ENOTDIR | Err e => Err e end, fs)) f) as H.
  simpl in H. by rewrite (proj2 (lookup_path_ok f _ NDir Hw) Hn) in H.
Qed.

Lemma ReadFile_exec (f : fsys) (p : string) :
  exec (os_ReadFile p) f (match lookup_path f (path_of p) with
    | Ok (NFile d) => Ok d | Ok NDir => Err EISDIR | Err e => Err e end) f.
Proof.
  exact (exec_guarded (fun fs => (match lookup_path fs (path_of p) with
    | Ok (NFile d) => Ok d | Ok NDir => Err EISDIR | Err e => Err e end, fs)) f).
Qed.

Lemma Stat_exec (f : fsys) (p : string) n : wf f -> node_at f (path_of p) = Some n ->
  exec (os_Stat p) f (Ok n) f.
Proof.
  intros Hw Hn. pose proof (exec_guarded (fun fs => (lookup_path fs (path_of p), fs)) f) as H.
  simpl in H. by rewrite (proj2 (lookup_path_ok f _ n Hw) Hn) in H.
Qed.

(** ** Exact effects of the mutating calls *)

Lemma Remove_exec (f : fsys) (p : string) d : wf f -> f !! path_of p = Some (NFile d) ->
  exec (os_Remove p) f (Ok tt) (delete (path_of p) f).
Proof.
  intros Hw Hd. pose proof (exec_guarded (remove_node (path_of p)) f) as H.
  replace (remove_node (path_of p) f) with (Ok tt, delete (path_of p) f) in H; [done|].
  unfold remove_node. destruct (path_of p) as [|x q] eqn:E; [by destruct Hw; congruence|].
  by rewrite (proj2 (lookup_path_ok f (x :: q) (NFile d) Hw)) by done.
Qed.

Lemma mkdirs_exec (f : fsys) (p : string) : wf f -> clear_way (path_of p) f ->
  exists g, exec (os_MkdirAll p) f (Ok tt) g /\ wf g /\ grown (path_of p) f g /\
            node_at g (path_of p) = Some NDir.
Proof.
  intros Hw Hc. pose proof (mkdirs_spec None f [] (path_of p) Hw eq_refl) as Hs.
  pose proof (mkdirs_ok f [] (path_of p) Hc) as Hok.
  destruct (mkdirs None f [] (path_of p)) as [r g] eqn:E. simpl in Hok. subst r.
  destruct Hs as (Hwg & Hg & Hn). exists g. split_and!; auto.
  intros w <- Hnf. unfold os_MkdirAll, syscall. unfold no_faults in *.
  assert (match faults w with [] => None | x :: _ => x end = None) as -> by (by destruct Hnf).
  rewrite E. simpl. split_and!; try done. by destruct Hnf.
Qed.

Lemma WriteFile_exec p data f : wf f -> path_of p <> [] -> node_at f (parent (path_of p)) = Some NDir ->
  f !! path_of p <> Some NDir -> exec (os_WriteFile p data) f (Ok tt) (<[path_of p := NFile data]> f).
Proof.
  intros Hw Hne Hp Hd. eapply exec_of_triple; [by apply WriteFile_ok|done|naive_solver|done].
Qed.

(** ** Bounds *)

Lemma height_le (f : fsys) q n : f !! q = Some n -> (length q <= height f)%nat.
Proof.
  intros H. apply elem_of_map_to_list in H. unfold height.
  induction (map_to_list f) as [|[q' n'] l IH]; [by apply not_elem_of_nil in H|].
  rewrite fmap_cons. cbn [foldr fst]. apply elem_of_cons in H as [H|H]; [simplify_eq; lia|].
  specialize (IH H). lia.
Qed.

Lemma under_prefix (p q : path) : under p q = true <-> p `prefix_of` q.
Proof.
  unfold under. rewrite bool_decide_eq_true. split.
  - intros <-. exists (drop (length p) q). by rewrite take_drop.
  - intros [r ->]. by rewrite take_app_length.
Qed.

Lemma depth_below_le (p : path) (f : fsys) q n : p `prefix_of` q -> f !! q = Some n -> (length q <= depth_below p f)%nat.
Proof.
  intros Hp Hq. apply (height_le _ q n). apply map_lookup_filter_Some. split; [done|]. by apply under_prefix.
Qed.

(** ** Missing files *)

Lemma walk_missing (f : fsys) (cur rest : path) x : wf f ->
  node_at f (cur ++ rest) = Some NDir -> f !! (cur ++ rest ++ [x]) = None ->
  walk f cur (rest ++ [x]) = Err ENOENT.
Proof.
  intros Hw. revert cur. induction rest as [|c rest IH]; intros cur Hn Hm.
  - rewrite app_nil_r in Hn. simpl. rewrite Hn.
    assert (node_at f (cur ++ [x]) = None) as -> by (by rewrite node_at_snoc). done.
  - assert (node_at f cur = Some NDir) as Hc.
    { destruct (cur ++ c :: rest) as [|y q] eqn:E; [by destruct cur|]. rewrite <- E in *.
      rewrite node_at_ne in Hn by (by rewrite E). by apply (wf_ancestor f cur (c :: rest) NDir). }
    simpl. rewrite Hc. apply IH; rewrite <- app_assoc; done.
Qed.

Lemma Remove_missing_exec (f : fsys) (p : string) q x : wf f -> path_of p = q ++ [x] ->
  node_at f q = Some NDir -> f !! (q ++ [x]) = None -> exec (os_Remove p) f (Err ENOENT) f.
Proof.
  intros Hw Hp Hq Hm. pose proof (exec_guarded (remove_node (path_of p)) f) as H.
  replace (remove_node (path_of p) f) with (@Err unit ENOENT, f) in H; [done|].
  rewrite Hp. unfold remove_node. destruct (q ++ [x]) as [|y l] eqn:E; [by destruct q|].
  rewrite <- E in *. unfold lookup_path. by rewrite (walk_missing f [] q x).
Qed.

(** [ofor] one element at a time. *)
Lemma exec_for_nil {A : Type} (body : A -> M unit) f : exec (ofor [] body) f (Ok tt) f.
Proof. apply exec_ret. Qed.

Lemma exec_for_cons {A : Type} (body : A -> M unit) x l f f1 f2 :
  exec (body x) f (Ok tt) f1 -> exec (ofor l body) f1 (Ok tt) f2 ->
  exec (ofor (x :: l) body) f (Ok tt) f2.
Proof. intros H1 H2. cbn [ofor]. by eapply exec_bind. Qed.

Lemma ofor_app {A : Type} (body : A -> M unit) l1 l2 w :
  ofor (l1 ++ l2) body w = obind (ofor l1 body) (fun _ => ofor l2 body) w.
Proof.
  revert w. induction l1 as [|x l1 IH]; intros w; cbn [app ofor]; [done|].
  unfold obind, ocatch in *. destruct (body x w) as [[[]|e] w1]; [apply IH|done].
Qed.

Lemma exec_for_app {A : Type} (body : A -> M unit) l1 l2 f f1 f2 :
  exec (ofor l1 body) f (Ok tt) f1 -> exec (ofor l2 body) f1 (Ok tt) f2 ->
  exec (ofor (l1 ++ l2) body) f (Ok tt) f2.
Proof. intros H1 H2 w Hw Hn. rewrite ofor_app. by apply (exec_bind _ _ _ _ _ _ _ H1 H2). Qed.

(** A measured computation. *)
Lemma exec_measured {A : Type} (bound : fsys -> nat) (c : nat -> M A) f r f' :
  exec (c (bound f)) f r f' -> exec (measured bound c) f r f'.
Proof. intros H w Hw Hn. unfold measured. rewrite Hw. by apply H. Qed.
