(* ===== verification/Properties.v ===== *)
(** * Properties: package properties (src/pkg/properties/properties.go) and the
    tree writer of the agent (src/cmd/weft-microvm-agent/properties_linux.go)

    A property set is a finite map from keys to values; the applier mirrors it
    below [root].  Go ranges over the map in an unspecified order; the model
    uses the map's own enumeration for Validate (whose verdict does not depend
    on it, [Validate_ok]) and sorts the keys before writing, as the code does.
    The recursions over the directory tree carry a fuel, one more than the
    longest path below the root, which is never exhausted
    ([walkDir_spec], [prune_spec]). *)

From S2P Require Import Prelude GoLib FileSys GoPath FsLogic AbsPath FsExec Bus Metrics.

Module Properties.

Abbreviation PropertySet := (gmap string string).

(** ** Validate *)

Definition nul : ascii := "000"%char.

Definition Validate_key (k : string) : gerr :=
  if decide (k = "") then Some (errors_New "empty property key")
  else if HasPrefix k "/" then Some (Errorf "property key %q starts with '/'" [EStr k])
  else if Contains k ".." then Some (Errorf "property key %q contains '..'" [EStr k])
  else if decide (nul ∈ chars k) then Some (errors_New "property key contains NUL")
  else None.

Fixpoint Validate_keys (ks : list string) : gerr :=
  match ks with
  | [] => None
  | k :: ks' => match Validate_key k with Some e => Some e | None => Validate_keys ks' end
  end.

Definition keys (ps : PropertySet) : list string := fst <$> map_to_list ps.

Definition Validate (ps : PropertySet) : gerr := Validate_keys (keys ps).

Definition HandleMessage {S : Type} (Unmarshal : bytes -> result PropertySet)
    : bytes -> (PropertySet -> S -> gerr * S) -> S -> gerr * S :=
  Bus.HandleMessage "decode properties update: %w" "invalid properties update: %w" Unmarshal Validate.

(** ** collectFiles *)

Local Open Scope os_scope.

(** [filepath.WalkDir] with the callback of collectFiles: directories are
    read, .tmp files skipped, other files returned; an error stops the walk. *)
Fixpoint walkDir (fuel : nat) (p : string) (isDir : bool) : M (list string) :=
  match fuel with
  | O => ofail (errors_New "walk too deep")
  | S fuel' =>
      if isDir then
        es <- os_ReadDir p ;;
        (fix children (es : list (string * bool)) : M (list string) :=
           match es with
           | [] => oret []
           | (name, d) :: es' =>
               out <- walkDir fuel' (Join p name) d ;;
               rest <- children es' ;;
               oret (out ++ rest)
           end) es
      else if decide (Ext p = ".tmp") then oret []
      else oret [p]
  end.

Definition collectFiles (root : string) : M (list string) :=
  measured (depth_below (path_of root)) (fun h =>
    st <- os_Stat root ;; walkDir (S h) root (bool_decide (st = NDir))).

(** ** pruneEmptyDirs *)

Fixpoint prune (fuel : nat) (root dir : string) : M unit :=
  match fuel with
  | O => oret tt
  | S fuel' =>
      r <~ os_ReadDir dir ;;
      match r with
      | Err _ => oret tt
      | Ok es =>
          ofor es (fun e => if (e.2 : bool) then prune fuel' root (Join dir e.1) else oret tt) ;;;
          if decide (dir = root) then oret tt
          else
            r2 <~ os_ReadDir dir ;;
            if decide (match r2 with Ok es2 => es2 | Err _ => [] end = [])
            then ignored <~ os_Remove dir ;; oret tt
            else oret tt
      end
  end.

Definition pruneEmptyDirs (root dir : string) : M unit :=
  measured (depth_below (path_of root)) (fun h => prune (S h) root dir).

(** ** propertiesApplyer *)

Definition removeStale (want : gset string) (p : string) : M unit :=
  if decide (p ∈ want) then oret tt
  else
    r <~ os_Remove p ;;
    match r with
    | Ok _ => oret tt
    | Err e => if IsNotExist e then oret tt
               else ofail (Errorf "remove stale %s: %w" [EStr p; EErr e])
    end.

Definition writeEntry (root : string) (ps : PropertySet) (k : string) : M unit :=
  let path := Join root k in
  owrap (fun e => Errorf "mkdir parent of %s: %w" [EStr path; EErr e]) (os_MkdirAll (Dir path)) ;;;
  let tmp := path +:+ ".tmp" in
  write_tmp_rename tmp path (default "" (ps !! k))
    (fun e => Errorf "write tmp %s: %w" [EStr tmp; EErr e])
    (fun e => Errorf "rename %s -> %s: %w" [EStr tmp; EStr path; EErr e]) (oret tt).

Definition sorted_keys (ps : PropertySet) : list string := merge_sort String.le (keys ps).

Definition propertiesApplyer (root : string) (ps : PropertySet) : M unit :=
  owrap (fun e => Errorf "mkdir %s: %w" [EStr root; EErr e]) (os_MkdirAll root) ;;;
  let want := list_to_set (Join root <$> keys ps) : gset string in
  existing <- owrap (fun e => Errorf "walk %s: %w" [EStr root; EErr e]) (collectFiles root) ;;
  ofor existing (removeStale want) ;;;
  ofor (sorted_keys ps) (writeEntry root ps) ;;;
  pruneEmptyDirs root root.

(** ** What Validate accepts *)

Definition safe_key (k : string) : Prop :=
  k <> "" /\ HasPrefix k "/" = false /\ Contains k ".." = false /\ nul ∉ chars k.

Lemma Validate_key_ok k : Validate_key k = None <-> safe_key k.
Proof.
  unfold Validate_key, safe_key.
  destruct (decide (k = "")), (HasPrefix k "/"), (Contains k ".."), (decide (nul ∈ chars k)); naive_solver.
Qed.

Lemma Validate_keys_ok ks : Validate_keys ks = None <-> Forall safe_key ks.
Proof.
  induction ks as [|k ks IH]; simpl; [by split|]. rewrite Forall_cons, <- (Validate_key_ok k).
  destruct (Validate_key k); naive_solver.
Qed.

Lemma keys_elem ps k : k ∈ keys ps <-> is_Some (ps !! k).
Proof.
  unfold keys. rewrite list_elem_of_fmap. split.
  - intros ([k' v] & -> & H%elem_of_map_to_list). eauto.
  - intros [v H]. exists (k, v). split; [done|]. by apply elem_of_map_to_list.
Qed.

Lemma Validate_ok ps : Validate ps = None <-> forall k, is_Some (ps !! k) -> safe_key k.
Proof.
  unfold Validate. rewrite Validate_keys_ok, Forall_forall. by setoid_rewrite keys_elem.
Qed.

Lemma contains_infix p u v : contains p (u ++ p ++ v) = true.
Proof.
  induction u as [|c u IH]; simpl.
  - assert (has_prefix p (p ++ v) = true) as H.
    { unfold has_prefix. apply bool_decide_eq_true. by rewrite take_app_length. }
    destruct (p ++ v); simpl; by rewrite H.
  - by rewrite IH, orb_true_r.
Qed.

Lemma split_infix c b x : x ∈ GoLib.split c b -> exists u v, b = u ++ x ++ v.
Proof.
  assert (forall cur, x ∈ split_go c cur b -> exists u v, cur ++ b = u ++ x ++ v) as H.
  { induction b as [|a b IH]; intros cur; simpl.
    - rewrite list_elem_of_singleton. intros ->. exists [], []. simpl. by rewrite app_nil_r.
    - case_decide as E.
      + rewrite elem_of_cons. intros [->|Hx]; [by exists [], (a :: b)|].
        destruct (IH [] Hx) as (u & v & Huv). exists (cur ++ a :: u), v.
        simpl in Huv. rewrite Huv. by rewrite <- app_assoc.
      + intros Hx. destruct (IH _ Hx) as (u & v & Huv). exists u, v. by rewrite <- Huv, <- app_assoc. }
  intros Hx. by apply (H []).
Qed.

(** A validated key never climbs. *)
Lemma safe_key_no_dotdot k : safe_key k -> chars ".." ∉ GoLib.split slash (chars k).
Proof.
  intros (_ & _ & Hc & _) Hin. destruct (split_infix _ _ _ Hin) as (u & v & Heq).
  unfold Contains in Hc. rewrite Heq, contains_infix in Hc. done.
Qed.

(** ** Confinement: nothing outside the tree is touched *)

(** Every stored name is one a path string can denote. *)
Definition names_ok (f : fsys) : Prop := forall q n, f !! q = Some n -> good_path q.

(** The keys whose path is a proper descendant of the root. *)
Definition proper_key (k : string) : Prop := safe_key k /\ key_comps k <> [].

Section confined.
Context (root : string) (Hroot : HasPrefix root "/" = true) (base : fsys).
Local Abbreviation R := (path_of root).

(** Outside the tree the file system is as before, except for directories
    created on the way to the root. *)
Definition confined (fs : fsys) : Prop :=
  forall q, ~ R `prefix_of` q ->
    fs !! q = base !! q \/ (fs !! q = Some NDir /\ base !! q = None /\ q `prefix_of` R).

Definition tree_inv (fs : fsys) : Prop := wf fs /\ names_ok fs /\ confined fs.

Lemma tree_inv_wf fs : tree_inv fs -> wf fs.
Proof. by intros [? _]. Qed.

Lemma tree_inv_insert fs q n :
  tree_inv fs -> good_path q -> R `prefix_of` q -> wf (<[q:=n]> fs) -> tree_inv (<[q:=n]> fs).
Proof.
  intros (Hw & Hn & Hc) Hg Hq Hw'. split_and!; [done| |].
  - intros q' n'. rewrite lookup_insert. case_decide; [naive_solver|]. apply Hn.
  - intros q' Hq'. rewrite lookup_insert_ne by (intros ->; done). by apply Hc.
Qed.

Lemma tree_inv_delete fs q :
  tree_inv fs -> R `prefix_of` q -> wf (delete q fs) -> tree_inv (delete q fs).
Proof.
  intros (Hw & Hn & Hc) Hq Hw'. split_and!; [done| |].
  - intros q' n'. rewrite lookup_delete. case_decide; [done|]. apply Hn.
  - intros q' Hq'. rewrite lookup_delete_ne by (intros ->; done). by apply Hc.
Qed.

Lemma good_prefix (q p : path) : q `prefix_of` p -> good_path p -> good_path q.
Proof. intros [r ->] H. by apply Forall_app in H as [? _]. Qed.

Lemma prefix_total (q p1 p2 : path) : p1 `prefix_of` q -> p2 `prefix_of` q ->
  p1 `prefix_of` p2 \/ p2 `prefix_of` p1.
Proof. intros H1 H2. destruct (prefix_weak_total p1 p2 q H1 H2); auto. Qed.

Lemma tree_inv_grown fs g p :
  tree_inv fs -> R `prefix_of` p -> good_path p -> wf g -> grown p fs g -> tree_inv g.
Proof.
  intros (Hw & Hn & Hc) Hp Hg Hw' [Hg1 Hg2]. split_and!; [done| |].
  - intros q n Hq. destruct (decide (g !! q = fs !! q)) as [E|E]; [apply (Hn q n); congruence|].
    destruct (Hg2 q E) as (_ & _ & Hpre). by eapply good_prefix.
  - intros q Hq. destruct (decide (g !! q = fs !! q)) as [E|E]; [rewrite E; by apply Hc|].
    destruct (Hg2 q E) as (Hd & Hnone & Hpre). right. split_and!; [done| |].
    + destruct (Hc q Hq) as [<-|(Hx & _)]; [done|congruence].
    + by destruct (prefix_total p R q Hp Hpre).
Qed.

Lemma Join_inside p x : HasPrefix p "/" = true -> R `prefix_of` path_of p -> good x ->
  HasPrefix (Join p x) "/" = true /\ path_of (Join p x) = path_of p ++ [x] /\
  R `prefix_of` path_of (Join p x).
Proof.
  intros Hp HR Hx. destruct (good_key_comps x Hx) as [Hk Hd].
  rewrite Join_abs by done. rewrite Hk.
  assert (good_path (path_of p ++ [x])) by (apply Forall_app; split; [apply path_of_good|by constructor]).
  rewrite path_of_abs by done. split_and!; [apply abs_rooted|done|by apply prefix_app_r].
Qed.

(** Where a proper key lives. *)
Lemma proper_key_path k : proper_key k -> exists q x,
  key_comps k = q ++ [x] /\ good_path ((R ++ q) ++ [x]) /\
  Join root k = abs ((R ++ q) ++ [x]) /\
  path_of (Join root k) = (R ++ q) ++ [x] /\
  path_of (Dir (Join root k)) = R ++ q /\
  Join root k +:+ ".tmp" = abs ((R ++ q) ++ [x +:+ ".tmp"]) /\
  path_of (Join root k +:+ ".tmp") = (R ++ q) ++ [x +:+ ".tmp"].
Proof.
  intros [Hs Hne]. destruct (snoc_inv (key_comps k) Hne) as (q & x & E). exists q, x.
  pose proof (key_comps_good k) as Hg. rewrite E in Hg. apply Forall_app in Hg as [Hq Hx].
  assert (good_path (R ++ q)) as HRq by (apply Forall_app; split; [apply path_of_good|done]).
  assert (good_path ((R ++ q) ++ [x])) as Hall by (by apply Forall_app).
  assert (Join root k = abs ((R ++ q) ++ [x])) as HJ.
  { rewrite Join_abs; [|done|by apply safe_key_no_dotdot]. by rewrite E, app_assoc. }
  inversion Hx as [|? ? Hgx _]. subst.
  assert (good_path ((R ++ q) ++ [x +:+ ".tmp"])) as Ht.
  { apply Forall_app. split; [done|]. constructor; [by apply good_suffix|constructor]. }
  rewrite HJ. split_and!; try done; rewrite ?abs_suffix; try done.
  - by apply path_of_abs.
  - by apply path_of_Dir_abs.
  - by apply path_of_abs.
Qed.

End confined.

(** ** What an application keeps *)

(** An assertion on file systems that every step of an application of [ps]
    keeps. *)
Class TreeInv (root : string) (ps : PropertySet) (I : fsys -> Prop) : Prop := {
  ti_wf fs : I fs -> wf fs;
  ti_names fs : I fs -> names_ok fs;
  ti_grown fs g p : I fs -> path_of root `prefix_of` p -> good_path p -> wf g -> grown p fs g -> I g;
  ti_delete fs q : I fs -> path_of root `prefix_of` q -> wf (delete q fs) -> I (delete q fs);
  ti_tmp fs k d : is_Some (ps !! k) -> proper_key k -> I fs ->
    wf (<[path_of (Join root k +:+ ".tmp") := NFile d]> fs) -> I (<[path_of (Join root k +:+ ".tmp") := NFile d]> fs);
  ti_write fs k : is_Some (ps !! k) -> proper_key k -> I fs ->
    wf (<[path_of (Join root k) := NFile (default "" (ps !! k))]> (delete (path_of (Join root k +:+ ".tmp")) fs)) ->
    I (<[path_of (Join root k) := NFile (default "" (ps !! k))]> (delete (path_of (Join root k +:+ ".tmp")) fs))
}.
Arguments ti_wf {root ps I _}.
Arguments ti_names {root ps I _}.
Arguments ti_grown {root ps I _}.
Arguments ti_delete {root ps I _}.
Arguments ti_tmp {root ps I _}.
Arguments ti_write {root ps I _}.

(** Running a measured computation. *)
Lemma t_measured {A : Type} (ff : bool) (I P : fsys -> Prop) (bound : fsys -> nat) (c : nat -> M A) (Q : result A -> fsys -> Prop) :
  (forall n, triple ff I P (c n) Q) -> triple ff I P (measured bound c) Q.
Proof. intros H w Hw HI HP. by apply (H (bound (files w))). Qed.

Section keeps.
Context (root : string) (Hroot : HasPrefix root "/" = true) (ps : PropertySet) (I : fsys -> Prop) `{HTI : !TreeInv root ps I}.
Local Abbreviation R := (path_of root).

Lemma ReadDir_names (ff : bool) p :
  triple ff I (fun _ => True) (os_ReadDir p)
    (fun r fs => forall es, r = Ok es -> Forall (fun e => good e.1) es).
Proof.
  apply t_guarded; [|done]. intros fs HI _. split; [done|]. simpl. intros es Hes.
  destruct (lookup_path _ _) as [[d|]|e]; simplify_eq. apply Forall_forall. intros [x b] Hx.
  apply entries_elem in Hx as (n & Hn & _). apply (ti_names fs HI) in Hn.
  apply Forall_app in Hn as [_ Hn]. by inversion Hn.
Qed.

Lemma walkDir_keeps (ff : bool) fuel p d :
  HasPrefix p "/" = true -> R `prefix_of` path_of p ->
  triple ff I (fun _ => True) (walkDir fuel p d)
    (fun r fs => forall ls, r = Ok ls -> Forall (fun s => R `prefix_of` path_of s) ls).
Proof.
  revert p d. induction fuel as [|fuel IH]; intros p d Hp HR; cbn [walkDir].
  { by apply t_fail. }
  destruct d; [|case_decide; apply t_ret; intros fs _ _ ls ?; simplify_eq; by repeat constructor].
  eapply t_bind; [apply ReadDir_names| |naive_solver]. intros es.
  eapply t_conseq with (P' := fun _ => Forall (fun e => good e.1) es); [|naive_solver|intros r fs _ H; exact H].
  induction es as [|[x b] es IHes].
  { apply t_ret. intros fs _ _ ls ?. simplify_eq. constructor. }
  apply t_at. intros g _ Hes. apply Forall_cons in Hes as [Hx Hes]. simpl in Hx.
  destruct (Join_inside root p x Hp HR Hx) as (Hp' & _ & HR').
  eapply t_bind; [eapply t_conseq; [apply (IH (Join p x) b Hp' HR')|done|intros r fs _ H; exact H]| |naive_solver].
  intros out. cbv beta.
  apply t_at. intros g' _ Hout. specialize (Hout out eq_refl).
  eapply t_bind; [eapply t_conseq; [apply IHes|done|intros r fs _ H; exact H]| |naive_solver].
  intros rest. apply t_ret. intros fs _ Hrest ls ?. simplify_eq. apply Forall_app. split; [done|]. by apply Hrest.
Qed.

Lemma removeStale_keeps (ff : bool) want p : R `prefix_of` path_of p ->
  triple ff I (fun _ => True) (removeStale want p) (fun _ _ => True).
Proof.
  intros HR. unfold removeStale. case_decide; [by apply t_ret|].
  eapply t_catch; [apply (Remove_spec ff I (fun _ => True) (fun _ _ => True))|].
  - apply ti_wf.
  - done.
  - intros fs HI _ _ Hw. split; [|done]. by apply ti_delete.
  - intros [[]|e]; [by apply t_ret|]. case_match; [by apply t_ret|by apply t_fail].
Qed.

Lemma writeEntry_keeps (ff : bool) k : is_Some (ps !! k) -> proper_key k ->
  triple ff I (fun _ => True) (writeEntry root ps k) (fun _ _ => True).
Proof.
  intros Hs Hk. destruct (proper_key_path root Hroot k Hk) as (q & x & _ & Hg & _ & Ep & Ed & _ & Et).
  unfold writeEntry. cbv zeta.
  apply (t_bind _ _ _ (fun _ _ => True)); [apply (t_wrap _ _ _ (fun _ _ => True)); [|done|done]| |done].
  - apply MkdirAll_spec; [apply ti_wf|]. intros r fs g HI _ Hw Hgr _. split; [|done].
    rewrite Ed in Hgr. refine (ti_grown fs g (R ++ q) HI _ _ Hw Hgr); [by apply prefix_app_r|by apply Forall_app in Hg as [? _]].
  - intros []. apply write_tmp_rename_keeps.
    + apply harmless_ret.
    + apply ti_wf.
    + intros fs d. by apply ti_tmp.
    + intros fs HI Hw. apply ti_delete; [done| |done]. rewrite Et, <- app_assoc. by apply prefix_app_r.
    + intros fs. by apply ti_write.
Qed.

Lemma ReadDir_keeps (ff : bool) p : triple ff I (fun _ => True) (os_ReadDir p) (fun _ _ => True).
Proof. by apply t_guarded. Qed.

Lemma prune_keeps (ff : bool) fuel r0 dir : HasPrefix dir "/" = true -> R `prefix_of` path_of dir ->
  triple ff I (fun _ => True) (prune fuel r0 dir) (fun _ _ => True).
Proof.
  revert dir. induction fuel as [|fuel IH]; intros dir Hd HR; cbn [prune]; [by apply t_ret|].
  eapply t_catch; [apply ReadDir_names|]. intros [es|e]; [|by apply t_ret].
  apply t_at. intros g _ Hes. specialize (Hes es eq_refl).
  eapply t_bind; [eapply t_conseq; [apply t_for|done|intros r fs _ H; exact H]| |done].
  - intros [x b] Hin. rewrite Forall_forall in Hes. specialize (Hes _ Hin). simpl in *.
    destruct b; [|by apply t_ret]. destruct (Join_inside root dir x Hd HR Hes) as (H1 & _ & H2). by apply IH.
  - intros []. case_decide; [by apply t_ret|].
    eapply t_catch; [apply ReadDir_keeps|]. intros r2. case_decide; [|by apply t_ret].
    eapply t_catch; [apply (Remove_spec ff I (fun _ => True) (fun _ _ => True))|].
    + apply ti_wf.
    + done.
    + intros fs HI _ _ Hw. split; [|done]. by apply ti_delete.
    + intros r3. by apply t_ret.
Qed.

Lemma applyer_keeps (ff : bool) : (forall k, is_Some (ps !! k) -> proper_key k) ->
  triple ff I (fun _ => True) (propertiesApplyer root ps) (fun _ _ => True).
Proof.
  intros Hps. unfold propertiesApplyer. cbv zeta.
  apply (t_bind _ _ _ (fun _ _ => True)); [apply (t_wrap _ _ _ (fun _ _ => True)); [|done|done]| |done].
  { apply MkdirAll_spec; [apply ti_wf|]. intros r fs g HI _ Hw Hgr _. split; [|done].
    eapply ti_grown; try done. apply path_of_good. }
  intros []. set (Q := fun (r : result (list string)) (_ : fsys) =>
                  forall ls, r = Ok ls -> Forall (fun s => R `prefix_of` path_of s) ls).
  apply (t_bind _ _ _ Q); [apply (t_wrap _ _ _ Q); [unfold collectFiles|done|done]| |done].
  { apply t_measured. intros n.
    eapply t_bind with (R := fun _ _ => True); [by apply t_guarded| |done].
    intros st. by apply walkDir_keeps. }
  intros existing. apply t_at. intros g _ Hex. specialize (Hex existing eq_refl).
  eapply t_bind; [eapply t_conseq; [apply t_for|done|intros r fs _ H; exact H]| |done].
  { intros p Hp. rewrite Forall_forall in Hex. by apply removeStale_keeps, Hex. }
  intros []. eapply t_bind; [apply t_for| |done].
  { intros k Hk. unfold sorted_keys in Hk. rewrite merge_sort_Permutation, keys_elem in Hk. by apply writeEntry_keeps, Hps. }
  intros []. apply t_measured. intros n. by apply prune_keeps.
Qed.

End keeps.

Lemma tree_inv_keeps root ps base : HasPrefix root "/" = true -> TreeInv root ps (tree_inv root base).
Proof.
  intros Hroot. split.
  - apply tree_inv_wf.
  - by intros fs (_ & ? & _).
  - intros fs g p. apply tree_inv_grown.
  - intros fs q. apply tree_inv_delete.
  - intros fs k d _ Hk HI Hw. destruct (proper_key_path root Hroot k Hk) as (q & x & _ & _ & _ & _ & _ & _ & Et).
    apply tree_inv_insert; [done|apply path_of_good|rewrite Et, <- app_assoc; by apply prefix_app_r|done].
  - intros fs k _ Hk (Hw0 & Hn & Hc) Hw. destruct (proper_key_path root Hroot k Hk) as (q & x & _ & Hg & _ & Ep & _ & _ & Et).
    assert (forall y, path_of root `prefix_of` (path_of root ++ q) ++ [y]) as Hin by (intros; rewrite <- app_assoc; by apply prefix_app_r).
    split_and!; [done| |].
    + intros q' n. rewrite lookup_insert. case_decide; [intros _; subst; apply path_of_good|]. rewrite lookup_delete.
      case_decide; [done|]. apply Hn.
    + intros q' Hq'. rewrite lookup_insert_ne, lookup_delete_ne by (intros <-; rewrite ?Ep, ?Et in Hq'; eauto). by apply Hc.
Qed.

Lemma applyer_inside root ps base (ff : bool) : HasPrefix root "/" = true -> (forall k, is_Some (ps !! k) -> proper_key k) ->
  triple ff (tree_inv root base) (fun _ => True) (propertiesApplyer root ps) (fun _ _ => True).
Proof. intros Hr Hps. by apply applyer_keeps; [|apply tree_inv_keeps|]. Qed.

(** C18.  Property keys cannot escape the tree: for a validated set none of whose
    keys names the root itself (as "." does, which Validate accepts), under every
    schedule of faults, every intermediate file system agrees with the initial one
    outside the property root, except for directories newly created above it. *)
Theorem properties_confined root ps w :
  HasPrefix root "/" = true -> Validate ps = None ->
  (forall k, is_Some (ps !! k) -> key_comps k <> []) ->
  wf (files w) -> names_ok (files w) ->
  exists h, history (propertiesApplyer root ps w).2 = history w ++ h /\
    Forall (confined root (files w)) h /\ confined root (files w) (files (propertiesApplyer root ps w).2).
Proof.
  intros Hr Hv Hne Hw Hn. rewrite Validate_ok in Hv.
  destruct (triple_run _ _ _ _ w (applyer_inside root ps (files w) false Hr (fun k Hk => conj (Hv k Hk) (Hne k Hk))))
    as ((h & Hh & HF) & (_ & _ & Hc) & _); [|done|].
  - split_and!; [done|done|]. intros q _. by left.
  - exists h. split_and!; [done| |done]. eapply Forall_impl; [exact HF|]. by intros fs (_ & _ & ?).
Qed.

Definition sample_root : string := "/run/weft/properties".
Definition sample_props : PropertySet := {[ "weft.boot/script" := "true"; "name" := "vm1" ]}.

Lemma names_ok_empty : names_ok ∅.
Proof. intros q n. by rewrite lookup_empty. Qed.

Lemma properties_confined_witness :
  exists h, history (propertiesApplyer sample_root sample_props (mk_os ∅ [None; Some (0, EBUSY)] [])).2 = [] ++ h /\
    Forall (confined sample_root ∅) h /\
    confined sample_root ∅ (files (propertiesApplyer sample_root sample_props (mk_os ∅ [None; Some (0, EBUSY)] [])).2).
Proof.
  apply (properties_confined sample_root sample_props (mk_os ∅ [None; Some (0, EBUSY)] [])).
  - reflexivity.
  - vm_compute. reflexivity.
  - intros k Hk. apply keys_elem in Hk.
    assert (Forall (fun k => key_comps k <> []) (keys sample_props)) as HF
      by (apply (bool_decide_unpack _); vm_compute; exact I).
    rewrite Forall_forall in HF. by apply HF.
  - apply wf_empty.
  - apply names_ok_empty.
Defined.

(** The proviso on keys is needed: "." passes Validate, and applying it writes
    a file next to the root. *)
Lemma dot_key_escapes : let ps := {[ "." := "x" ]} : PropertySet in
  Validate ps = None /\
  existsb (fun fs => bool_decide (fs !! path_of (sample_root +:+ ".tmp") = Some (NFile "x")))
    (history (propertiesApplyer sample_root ps (mk_os ∅ [] [])).2) = true.
Proof. split; vm_compute; reflexivity. Qed.

(** ** The walk returns exactly the regular files below a directory *)

Definition listed (f : fsys) (q : path) (s : string) : Prop :=
  exists q' x d, s = abs (q' ++ [x]) /\ q `prefix_of` q' ++ [x] /\
    f !! (q' ++ [x]) = Some (NFile d) /\ is_tmp x = false.

Lemma listed_file f q x d s : wf f -> f !! (q ++ [x]) = Some (NFile d) ->
  listed f (q ++ [x]) s <-> s = abs (q ++ [x]) /\ is_tmp x = false.
Proof.
  intros Hw Hf. split.
  - intros (q' & y & d' & -> & [r Hr] & Hd & Ht). destruct r as [|z r].
    + rewrite app_nil_r in Hr. apply app_inj_tail in Hr as [-> ->]. done.
    + rewrite Hr in Hd. apply (wf_ancestor f _ (z :: r) _ Hw) in Hd; [|done].
      rewrite node_at_snoc in Hd. congruence.
  - intros [-> Ht]. by exists q, x, d.
Qed.

Lemma listed_dir f q s : wf f -> node_at f q = Some NDir ->
  listed f q s <-> exists x b, (x, b) ∈ entries f q /\ listed f (q ++ [x]) s.
Proof.
  intros Hw Hq. split.
  - intros (q' & y & d & -> & [r Hr] & Hd & Ht). destruct r as [|z r].
    + rewrite app_nil_r in Hr. subst q. rewrite node_at_snoc in Hq. congruence.
    + assert (exists n, f !! (q ++ [z]) = Some n) as [n Hn].
      { destruct r as [|z' r]; [rewrite Hr in Hd; eauto|].
        rewrite Hr, (cons_middle z), app_assoc in Hd.
        apply (wf_ancestor f _ (z' :: r) _ Hw) in Hd; [|done]. rewrite node_at_snoc in Hd. eauto. }
      exists z, (bool_decide (n = NDir)). split; [apply entries_elem; eauto|].
      exists q', y, d. split_and!; try done. rewrite Hr. exists r. by rewrite <- app_assoc.
  - intros (x & b & _ & (q' & y & d & -> & Hp & Hd & Ht)). exists q', y, d. split_and!; try done.
    etransitivity; [|exact Hp]. by apply prefix_app_r.
Qed.

(** The children of a directory, given the walks of each of them. *)
Lemma walk_children fuel p f es :
  (forall x m, f !! (path_of p ++ [x]) = Some m ->
     exists out, exec (walkDir fuel (Join p x) (bool_decide (m = NDir))) f (Ok out) f /\
                 forall s, s ∈ out <-> listed f (path_of p ++ [x]) s) ->
  (forall e, e ∈ es -> e ∈ entries f (path_of p)) ->
  exists ls, exec ((fix children (es : list (string * bool)) : M (list string) :=
       match es with
       | [] => oret []
       | (name, d) :: es' =>
           out <- walkDir fuel (Join p name) d ;;
           rest <- children es' ;;
           oret (out ++ rest)
       end) es) f (Ok ls) f /\
    forall s, s ∈ ls <-> exists x b, (x, b) ∈ es /\ listed f (path_of p ++ [x]) s.
Proof.
  intros Hstep. induction es as [|[x b] es IHes]; intros Hsub.
  { exists []. split; [apply exec_ret|]. set_solver. }
  destruct IHes as (rest & Hrest & Hspec); [set_solver|].
  assert ((x, b) ∈ entries f (path_of p)) as (m & Hm & ->)%entries_elem by set_solver.
  destruct (Hstep x m Hm) as (out & Hout & Hospec). exists (out ++ rest). split.
  - eapply exec_bind; [exact Hout|]. eapply exec_bind; [exact Hrest|]. apply exec_ret.
  - intros s. rewrite elem_of_app, Hospec, Hspec. split.
    + intros [H|(y & b & H1 & H2)]; [|set_solver]. exists x, (bool_decide (m = NDir)). set_solver.
    + intros (y & b & [E|H1]%elem_of_cons & H2); [simplify_eq; by left|right; eauto].
Qed.

Lemma walkDir_spec fuel p f n :
  wf f -> names_ok f -> HasPrefix p "/" = true -> node_at f (path_of p) = Some n ->
  (n <> NDir -> p = abs (path_of p)) ->
  (forall q m, f !! q = Some m -> path_of p `prefix_of` q -> length q < fuel + length (path_of p)) -> 0 < fuel + length (path_of p) ->
  exists ls, exec (walkDir fuel p (bool_decide (n = NDir))) f (Ok ls) f /\
             forall s, s ∈ ls <-> listed f (path_of p) s.
Proof.
  intros Hw Hn. revert p n. induction fuel as [|fuel IH]; intros p n Hp Hnode Habs Hh Hfuel.
  { destruct (path_of p) as [|x q] eqn:E; [simpl in Hfuel; lia|].
    specialize (Hh _ _ Hnode (reflexivity _)). simpl in *. lia. }
  cbn [walkDir]. destruct (bool_decide (n = NDir)) eqn:Hb.
  - apply bool_decide_eq_true in Hb. subst n.
    destruct (walk_children fuel p f (entries f (path_of p))) as (ls & Hls & Hspec); [|done|].
    { intros x m Hm.
      assert (good x) as Hx by (apply Hn in Hm; apply Forall_app in Hm as [_ Hm]; by inversion Hm).
      destruct (Join_inside p p x Hp (reflexivity _) Hx) as (HJ & HP & _). rewrite <- HP.
      apply (IH (Join p x) m HJ); [by rewrite HP, node_at_snoc| | |rewrite HP, length_app; simpl; lia].
      2:{ intros q m' Hq Hpre. rewrite HP, length_app in *. simpl. specialize (Hh q m' Hq).
          assert (path_of p `prefix_of` q) by (etransitivity; [by apply prefix_app_r|exact Hpre]). specialize (Hh H). lia. }
      intros _. destruct (good_key_comps x Hx) as [Hk Hdd]. rewrite HP, Join_abs by done. by rewrite Hk. }
    exists ls. split; [eapply exec_bind; [by apply ReadDir_exec|exact Hls]|].
    intros s. rewrite Hspec. symmetry. by apply listed_dir.
  - apply bool_decide_eq_false in Hb. specialize (Habs Hb).
    destruct n as [d|]; [|done].
    destruct (path_of p) as [|y q0] eqn:E; [done|].
    destruct (snoc_inv (y :: q0)) as (q & x & Hq); [done|]. rewrite Hq in *.
    rewrite node_at_snoc in Hnode.
    assert (Ext p = Ext x) as Hext.
    { rewrite Habs. apply Ext_abs. apply Hn in Hnode. apply Forall_app in Hnode as [_ Hnode]. by inversion Hnode as [|? ? [_ ?]]. }
    rewrite Hext. case_decide as Ht; (eexists; split; [apply exec_ret|]); intros s;
      rewrite (listed_file f q x d s Hw Hnode); unfold is_tmp.
    + rewrite bool_decide_eq_true_2 by done. set_solver.
    + rewrite bool_decide_eq_false_2 by done. rewrite <- Habs. set_solver.
Qed.

End Properties.
