(* ===== verification/PropertiesSync.v ===== *)
(** * What an application of a property set achieves

    The fault-free behaviour of propertiesApplyer, step by step: the stale
    files are removed, the wanted ones written, the empty directories pruned;
    then the convergence theorem. *)

From S2P Require Import Prelude GoLib FileSys GoPath FsLogic AbsPath FsExec Properties.
Import Properties.

Module PropertiesSync.

(** ** Removing stale files *)

Section stale.
Context (want : gset string).

Definition stale (ls : list string) (q : path) : Prop :=
  exists s, s ∈ ls /\ s ∉ want /\ path_of s = q.

(** A listed path is a file, or was one. *)
Definition was_file (f : fsys) (s : string) : Prop :=
  exists q x, path_of s = q ++ [x] /\ node_at f q = Some NDir /\ f !! (q ++ [x]) <> Some NDir.

Lemma was_file_delete f s q d : wf f -> was_file f s -> f !! q = Some (NFile d) ->
  was_file (delete q f) s.
Proof.
  intros Hw (p & x & Hs & Hp & Hf) Hq. exists p, x. split_and!; [done| |].
  - destruct p as [|y p]; [done|]. rewrite node_at_ne in * by done.
    rewrite lookup_delete_ne; [done|]. congruence.
  - rewrite lookup_delete. by case_decide.
Qed.

Lemma stale_nil q : ~ stale [] q.
Proof. intros (s & Hs & _). by apply not_elem_of_nil in Hs. Qed.

Lemma stale_cons s ls q : stale (s :: ls) q <-> (s ∉ want /\ path_of s = q) \/ stale ls q.
Proof. unfold stale. set_solver. Qed.

(** The effect of the loop on one path. *)
Definition swept (ls : list string) (f f' : fsys) : Prop :=
  forall q, (f' !! q = f !! q /\ ~ stale ls q) \/ (f' !! q = None /\ stale ls q).

Lemma swept_skip s ls f f' : s ∈ want -> swept ls f f' -> swept (s :: ls) f f'.
Proof. intros Hs H q. rewrite stale_cons. destruct (H q); naive_solver. Qed.

Lemma swept_delete s ls f f' : s ∉ want -> swept ls (delete (path_of s) f) f' -> swept (s :: ls) f f'.
Proof.
  intros Hs H q. rewrite stale_cons. destruct (decide (path_of s = q)) as [<-|Hne].
  - right. split; [|by left]. destruct (H (path_of s)) as [[E _]|[E _]]; [by rewrite lookup_delete_eq in E|done].
  - destruct (H q) as [[E Hq]|[E Hq]]; rewrite ?lookup_delete_ne in E by done; naive_solver.
Qed.

Lemma removeStale_loop ls f : wf f -> Forall (was_file f) ls ->
  exists f', exec (ofor ls (removeStale want)) f (Ok tt) f' /\ wf f' /\ swept ls f f'.
Proof.
  revert f. induction ls as [|s ls IH]; intros f Hw Hls.
  { exists f. split_and!; [apply exec_for_nil|done|]. intros q. left. split; [done|apply stale_nil]. }
  apply Forall_cons in Hls as [Hs Hls]. pose proof Hs as (p & x & Hp & Hnode & Hnd).
  destruct (decide (s ∈ want)) as [Hin|Hout].
  { destruct (IH f Hw Hls) as (f' & He & Hw' & Hspec). exists f'. split_and!; [|done|by apply swept_skip].
    eapply exec_for_cons; [|exact He]. unfold removeStale. rewrite decide_True by done. apply exec_ret. }
  destruct (f !! (p ++ [x])) as [[d|]|] eqn:Hf; [|done|].
  - destruct (IH (delete (p ++ [x]) f)) as (f' & He & Hw' & Hspec).
    + apply wf_delete; [done|]. intros c. eapply wf_file_leaf; [done|done|]. by destruct p.
    + eapply Forall_impl; [exact Hls|]. intros s' Hs'. by eapply was_file_delete.
    + exists f'. rewrite <- Hp in *. split_and!; [|done|by apply swept_delete].
      eapply exec_for_cons; [|exact He]. unfold removeStale. rewrite decide_False by done.
      eapply exec_catch; [by eapply Remove_exec|apply exec_ret].
  - destruct (IH f Hw Hls) as (f' & He & Hw' & Hspec). exists f'. split_and!; [|done|].
    + eapply exec_for_cons; [|exact He]. unfold removeStale. rewrite decide_False by done.
      eapply exec_catch; [by eapply Remove_missing_exec|apply exec_ret].
    + apply swept_delete; [done|]. by rewrite Hp, delete_id.
Qed.
End stale.

(** ** Writing the wanted entries *)

(** Key sets that can live in one tree: every key names something below the
    root, no component looks like a temporary file, and no key is the
    directory of another. *)
Definition keys_ok (ps : PropertySet) : Prop :=
  (forall k, is_Some (ps !! k) ->
     proper_key k /\ Forall (fun c => is_tmp c = false) (key_comps k)) /\
  (forall k1 k2, is_Some (ps !! k1) -> is_Some (ps !! k2) ->
     key_comps k1 `prefix_of` key_comps k2 -> k1 = k2).

Section write.
Context (root : string) (Hroot : HasPrefix root "/" = true).
Context (ps : PropertySet) (Hps : keys_ok ps) (f0 : fsys).
Local Abbreviation R := (path_of root).

Definition kpath (k : string) : path := R ++ key_comps k.
Definition ktmp (k : string) : path := path_of (Join root k +:+ ".tmp").

Definition wanted (q : path) (v : string) : Prop := exists k, ps !! k = Some v /\ q = kpath k.

(** A temporary file that was there before. *)
Definition leftover (q : path) (d : string) : Prop :=
  f0 !! q = Some (NFile d) /\ exists q' x, q = q' ++ [x] /\ is_tmp x = true.

Definition ready (fs : fsys) : Prop :=
  wf fs /\
  (forall k, is_Some (ps !! k) -> fs !! kpath k <> Some NDir /\ fs !! ktmp k <> Some NDir /\
                                clear_way (parent (kpath k)) fs) /\
  (forall q d, fs !! q = Some (NFile d) -> R `prefix_of` q ->
     (exists k, is_Some (ps !! k) /\ q = kpath k) \/ leftover q d).

(** The shape of a key's three paths. *)
Lemma key_shape k : is_Some (ps !! k) -> exists q x,
  kpath k = (R ++ q) ++ [x] /\ ktmp k = (R ++ q) ++ [x +:+ ".tmp"] /\
  path_of (Join root k) = kpath k /\ path_of (Dir (Join root k)) = R ++ q /\
  key_comps k = q ++ [x] /\ is_tmp (x +:+ ".tmp") = true.
Proof.
  intros Hk. destruct (proj1 Hps k Hk) as [Hp _].
  destruct (proper_key_path root Hroot k Hp) as (q & x & E & Hg & _ & HJ & HD & _ & HT).
  exists q, x. unfold kpath, ktmp. rewrite HJ, HT, E, app_assoc. split_and!; try done.
  apply is_tmp_suffix. apply Forall_app in Hg as [_ Hg]. by inversion Hg as [|? ? [_ ?]].
Qed.

(** No component of a wanted path below the root looks temporary. *)
Lemma key_no_tmp k q x : is_Some (ps !! k) -> (R ++ q) ++ [x] `prefix_of` kpath k -> is_tmp x = false.
Proof.
  intros Hk Hpre. destruct (proj1 Hps k Hk) as [_ HF]. unfold kpath in Hpre.
  rewrite <- app_assoc in Hpre. apply prefix_app_inv in Hpre. destruct Hpre as [r Hr].
  rewrite Hr in HF. apply Forall_app in HF as [HF _]. apply Forall_app in HF as [_ HF]. by inversion HF.
Qed.

Lemma ktmp_not_prefix k k' : is_Some (ps !! k) -> is_Some (ps !! k') -> ~ ktmp k `prefix_of` kpath k'.
Proof.
  intros Hk Hk' Hpre. destruct (key_shape k Hk) as (q & x & _ & Et & _ & _ & _ & Htmp).
  rewrite Et in Hpre. rewrite (key_no_tmp k' q _ Hk' Hpre) in Htmp. done.
Qed.

Lemma kpath_prefix k k' : is_Some (ps !! k) -> is_Some (ps !! k') -> kpath k `prefix_of` kpath k' -> k = k'.
Proof. intros Hk Hk' Hpre. apply (proj2 Hps); try done. by apply prefix_app_inv in Hpre. Qed.

(** The file system after an entry was written over [g]. *)
Lemma ready_written k v fs g : is_Some (ps !! k) -> ready fs -> wf g ->
  grown (parent (kpath k)) fs g -> wf (<[kpath k:=NFile v]> (delete (ktmp k) g)) ->
  ready (<[kpath k:=NFile v]> (delete (ktmp k) g)) /\
  forall k', is_Some (ps !! k') -> k' <> k ->
    (<[kpath k:=NFile v]> (delete (ktmp k) g)) !! kpath k' = fs !! kpath k'.
Proof.
  intros Hk (Hw & Hr & Hf) Hwg [Hg1 Hg2] Hw'.
  destruct (key_shape k Hk) as (q & x & Ek & Et & _ & _ & _ & Htmp).
  assert (forall k1 k2, is_Some (ps !! k1) -> is_Some (ps !! k2) -> kpath k1 <> ktmp k2) as Hne1.
  { intros k1 k2 Hk1 Hk2 E. apply (ktmp_not_prefix k2 k1 Hk2 Hk1). by rewrite E. }
  assert (parent (kpath k) `prefix_of` kpath k) as Hpar.
  { rewrite Ek, parent_snoc. by apply prefix_app_r. }
  assert (forall k', is_Some (ps !! k') -> k' <> k -> g !! kpath k' = fs !! kpath k') as Hkeep.
  { intros k' Hk' Hkk. destruct (decide (g !! kpath k' = fs !! kpath k')) as [|E]; [done|].
    destruct (Hg2 _ E) as (_ & _ & Hpre). exfalso. apply Hkk. apply kpath_prefix; try done. by etransitivity. }
  split.
  - split_and!; [done| |].
    + intros k' Hk'. destruct (Hr k' Hk') as (H1 & H2 & H3). split_and!.
      * rewrite lookup_insert. case_decide as E; [done|]. rewrite lookup_delete_ne by (apply not_eq_sym; auto).
        rewrite Hkeep; [done|done|]. intros ->. done.
      * rewrite lookup_insert_ne by auto.
        rewrite lookup_delete. case_decide as E; [done|].
        destruct (decide (g !! ktmp k' = fs !! ktmp k')) as [->|Hd]; [done|].
        destruct (Hg2 _ Hd) as (_ & _ & Hpre). exfalso. apply (ktmp_not_prefix k' k); try done. by etransitivity.
      * intros q' d Hpre. rewrite lookup_insert. case_decide as E.
        { subst q'. exfalso. destruct (key_shape k' Hk') as (q2 & x2 & Ek2 & _).
          assert (kpath k `prefix_of` kpath k') as Hp2.
          { etransitivity; [exact Hpre|]. rewrite Ek2, parent_snoc. by apply prefix_app_r. }
          rewrite (kpath_prefix k k' Hk Hk' Hp2), Ek2, parent_snoc in Hpre.
          apply prefix_length in Hpre. rewrite length_app in Hpre. simpl in Hpre. lia. }
        rewrite lookup_delete. case_decide; [done|].
        destruct (decide (g !! q' = fs !! q')) as [->|Hd]; [by apply H3|].
        destruct (Hg2 _ Hd) as (-> & _). done.
    + intros q' d. rewrite lookup_insert. case_decide as E; [eauto|].
      rewrite lookup_delete. case_decide; [done|]. intros Hq'.
      destruct (decide (g !! q' = fs !! q')) as [E'|Hd]; [rewrite E' in Hq'; by apply Hf|].
      destruct (Hg2 _ Hd) as (Hd' & _). congruence.
  - intros k' Hk' Hkk. rewrite lookup_insert_ne, lookup_delete_ne; [by apply Hkeep|apply not_eq_sym; auto|].
    intros E. apply Hkk. symmetry. apply kpath_prefix; try done. by rewrite E.
Qed.

Lemma writeEntry_exec k v fs : ps !! k = Some v -> ready fs ->
  exists fs', exec (writeEntry root ps k) fs (Ok tt) fs' /\ ready fs' /\
    fs' !! kpath k = Some (NFile v) /\
    forall k', is_Some (ps !! k') -> k' <> k -> fs' !! kpath k' = fs !! kpath k'.
Proof.
  intros Hv Hready. assert (is_Some (ps !! k)) as Hk by eauto.
  destruct (key_shape k Hk) as (q & x & Ek & Et & Ej & Ed & _ & _).
  pose proof Hready as (Hw & Hr & _). destruct (Hr k Hk) as (H1 & H2 & H3).
  assert (parent (kpath k) = R ++ q) as Epar by (by rewrite Ek, parent_snoc).
  destruct (mkdirs_exec fs (Dir (Join root k))) as (g & Hg & Hwg & Hgr & Hgn); [done|by rewrite Ed, <- Epar|].
  rewrite Ed in Hgr, Hgn.
  assert (forall y, fs !! ((R ++ q) ++ [y]) <> Some NDir -> g !! ((R ++ q) ++ [y]) <> Some NDir) as Hnd.
  { intros y Hy Hgy. destruct Hgr as [_ Hg2]. destruct (Hg2 ((R ++ q) ++ [y])) as (_ & _ & Hpre); [congruence|].
    apply prefix_length in Hpre. rewrite (length_app (R ++ q)) in Hpre. simpl in Hpre. lia. }
  assert (triple true wf (fun f => f = g)
    (write_tmp_rename (Join root k +:+ ".tmp") (Join root k) v
      (fun e => Errorf "write tmp %s: %w" [EStr (Join root k +:+ ".tmp"); EErr e])
      (fun e => Errorf "rename %s -> %s: %w" [EStr (Join root k +:+ ".tmp"); EStr (Join root k); EErr e]) (oret tt))
    (fun r f => r = Ok tt /\ f = <[kpath k:=NFile v]> (delete (ktmp k) g))) as Htr.
  { rewrite <- Ej. unfold ktmp. apply write_tmp_rename_ok; fold (ktmp k); rewrite ?Ej.
    - apply harmless_ret.
    - done.
    - intros E. apply (ktmp_not_prefix k k Hk Hk). by rewrite E.
    - rewrite Et. by destruct (R ++ q).
    - by rewrite Et, parent_snoc.
    - rewrite Et in *. by apply Hnd.
    - rewrite Ek. by destruct (R ++ q).
    - by rewrite Epar.
    - rewrite Ek in *. by apply Hnd.
    - rewrite Epar, Et. intros E. apply (f_equal length) in E. rewrite (length_app (R ++ q)) in E.
      simpl in E. lia. }
  assert (wf (<[kpath k:=NFile v]> (delete (ktmp k) g))) as Hw'.
  { destruct (Htr (mk_os g [] [])) as (_ & _ & Hwf & _ & E); [by intros _|done|done|]. by rewrite <- E. }
  rewrite <- Epar in Hgr. destruct (ready_written k v fs g Hk Hready Hwg Hgr Hw') as [Hr' Hkeep].
  exists (<[kpath k:=NFile v]> (delete (ktmp k) g)). split_and!; [|done|by rewrite lookup_insert_eq|done].
  unfold writeEntry. cbv zeta. rewrite Hv. simpl default.
  eapply exec_bind; [by apply exec_wrap|].
  eapply exec_of_triple; [exact Htr|done|naive_solver|done].
Qed.

Lemma write_loop ks fs : (forall k, k ∈ ks -> is_Some (ps !! k)) -> ready fs ->
  exists fs', exec (ofor ks (writeEntry root ps)) fs (Ok tt) fs' /\ ready fs' /\
    (forall k v, k ∈ ks -> ps !! k = Some v -> fs' !! kpath k = Some (NFile v)) /\
    (forall k, k ∉ ks -> is_Some (ps !! k) -> fs' !! kpath k = fs !! kpath k).
Proof.
  revert fs. induction ks as [|k ks IH]; intros fs Hks Hready.
  { exists fs. split_and!; [apply exec_for_nil|done| |done]. intros k v Hk. by apply not_elem_of_nil in Hk. }
  destruct (Hks k) as [v Hv]; [by left|].
  destruct (writeEntry_exec k v fs Hv Hready) as (f1 & He1 & Hr1 & Hv1 & Hk1).
  destruct (IH f1) as (f2 & He2 & Hr2 & Hv2 & Hk2); [intros; apply Hks; by right|done|].
  exists f2. split_and!; [by eapply exec_for_cons|done| |].
  - intros k' v' Hin Hv'. destruct (decide (k' ∈ ks)) as [Hin'|Hout]; [by apply Hv2|].
    apply elem_of_cons in Hin as [->|?]; [|done]. rewrite Hk2 by (done || eauto). congruence.
  - intros k' Hnin Hs. apply not_elem_of_cons in Hnin as [Hne Hnin]. by rewrite Hk2, Hk1.
Qed.

End write.

(** ** Pruning *)

(** Only directories at or below [p] disappear. *)
Definition pruned (p : path) (f f' : fsys) : Prop :=
  forall q, f' !! q = f !! q \/ (f !! q = Some NDir /\ f' !! q = None /\ p `prefix_of` q).

(** No directory at or below [p], other than [R], is empty. *)
Definition full (R p : path) (f : fsys) : Prop :=
  forall q, p `prefix_of` q -> q <> R -> f !! q = Some NDir -> exists c n, f !! (q ++ [c]) = Some n.

Lemma not_prefix_snoc (q : path) x : ~ q ++ [x] `prefix_of` q.
Proof. intros H. apply prefix_length in H. rewrite length_app in H. simpl in H. lia. Qed.

Lemma pruned_refl p f : pruned p f f.
Proof. intros q. by left. Qed.

Lemma pruned_trans p f f1 f2 : pruned p f f1 -> pruned p f1 f2 -> pruned p f f2.
Proof.
  intros H1 H2 q. destruct (H1 q) as [E1|(E1 & E1' & Hp)], (H2 q) as [E2|(E2 & E2' & Hp')];
    rewrite ?E1, ?E2 in *; auto; congruence.
Qed.

Lemma pruned_weaken p p' f f' : p' `prefix_of` p -> pruned p f f' -> pruned p' f f'.
Proof. intros Hp H q. destruct (H q) as [?|(? & ? & ?)]; [by left|right]. split_and!; try done. by etransitivity. Qed.

Lemma pruned_names p f f' : names_ok f -> pruned p f f' -> names_ok f'.
Proof. intros Hn H q n Hq. destruct (H q) as [E|(_ & E & _)]; [apply (Hn q n); congruence|congruence]. Qed.

(** Pruning below [p ++ [y]] leaves what is below another child alone. *)
Lemma full_other R p x y f f' : x <> y -> pruned (p ++ [y]) f f' -> full R (p ++ [x]) f -> full R (p ++ [x]) f'.
Proof.
  intros Hxy Hpr Hf q Hq HR Hd.
  assert (forall r, p ++ [x] `prefix_of` r -> f' !! r = f !! r) as Hsame.
  { intros r [a Ha]. destruct (Hpr r) as [?|(_ & _ & [b Hb])]; [done|]. exfalso. apply Hxy.
    rewrite Ha, <- !app_assoc in Hb. apply app_inv_head in Hb. by simplify_eq/=. }
  rewrite Hsame in Hd by done. destruct (Hf q Hq HR Hd) as (c & n & Hc). exists c, n.
  rewrite Hsame; [done|]. by apply prefix_app_r.
Qed.

Lemma ReadDir_fails (f : fsys) (p : string) : wf f -> node_at f (path_of p) <> Some NDir ->
  exists e, exec (os_ReadDir p) f (Err e) f.
Proof.
  intros Hw Hn. unfold os_ReadDir.
  pose proof (exec_guarded (fun fs => (match lookup_path fs (path_of p) with
     | Ok NDir => Ok (entries fs (path_of p)) | Ok (NFile _) => Err ENOTDIR | Err e => Err e end, fs)) f) as H.
  simpl in H. destruct (lookup_path f (path_of p)) as [[d|]|e] eqn:E; eauto.
  apply lookup_path_ok in E; done.
Qed.

Lemma not_dir_full R p f : wf f -> node_at f p <> Some NDir -> full R p f.
Proof.
  intros Hw Hn q [r ->] _ Hd. exfalso. apply Hn. destruct r as [|y r].
  - rewrite app_nil_r in Hd. destruct p; [by destruct Hw; congruence|]. done.
  - by apply (wf_ancestor f p (y :: r) NDir).
Qed.

Lemma entries_nil f p : entries f p = [] <-> forall c, f !! (p ++ [c]) = None.
Proof.
  split.
  - intros E c. destruct (f !! (p ++ [c])) as [n|] eqn:H; [|done].
    assert ((c, bool_decide (n = NDir)) ∈ entries f p) as Hin by (apply entries_elem; eauto).
    rewrite E in Hin. by apply not_elem_of_nil in Hin.
  - intros H. destruct (entries f p) as [|[x b] l] eqn:E; [done|].
    assert ((x, b) ∈ entries f p) as (n & Hn & _)%entries_elem by (rewrite E; by left). by rewrite H in Hn.
Qed.

Lemma remove_dir_exec (f : fsys) (p : string) : wf f -> f !! path_of p = Some NDir ->
  (forall c, f !! (path_of p ++ [c]) = None) -> exec (os_Remove p) f (Ok tt) (delete (path_of p) f).
Proof.
  intros Hw Hd Hc. pose proof (exec_guarded (remove_node (path_of p)) f) as H.
  replace (remove_node (path_of p) f) with (@Ok unit tt, delete (path_of p) f) in H; [done|].
  unfold remove_node. destruct (path_of p) as [|x q] eqn:E; [by destruct Hw; congruence|].
  rewrite (proj2 (lookup_path_ok f (x :: q) NDir Hw)) by done. rewrite decide_True; [done|].
  destruct (children f (x :: q)) as [|[q' n] l] eqn:Ec; [done|].
  assert ((q', n) ∈ children f (x :: q)) as (Hq & c & ->)%children_elem by (rewrite Ec; by left).
  by rewrite Hc in Hq.
Qed.

Section prune.
Context (root : string).
Local Abbreviation R := (path_of root).

(** Specification of one call. *)
Definition prune_ok (fuel : nat) (dir : string) (f : fsys) : Prop :=
  exists f', exec (prune fuel root dir) f (Ok tt) f' /\ wf f' /\
    pruned (path_of dir) f f' /\ full R (path_of dir) f'.

Lemma prune_loop fuel dir f es :
  (forall f1 x, wf f1 -> names_ok f1 -> pruned (path_of dir) f f1 -> (x, true) ∈ es ->
     path_of (Join dir x) = path_of dir ++ [x] /\ prune_ok fuel (Join dir x) f1) ->
  wf f -> names_ok f ->
  exists f', exec (ofor es (fun e => if (e.2 : bool) then prune fuel root (Join dir e.1) else oret tt))
    f (Ok tt) f' /\ wf f' /\ pruned (path_of dir) f f' /\ f' !! path_of dir = f !! path_of dir /\
    forall x, (x, true) ∈ es -> full R (path_of dir ++ [x]) f'.
Proof.
  intros Hstep Hw Hn. induction es as [|[x b] es IH] using rev_ind.
  { exists f. split_and!; [apply exec_for_nil|done|apply pruned_refl|done|].
    intros x Hx. by apply not_elem_of_nil in Hx. }
  destruct IH as (f1 & He1 & Hw1 & Hp1 & Hs1 & Hf1).
  { intros f1 y H1 H2 H3 Hy. apply Hstep; try done. apply elem_of_app. by left. }
  destruct b.
  - destruct (Hstep f1 x) as (HJ & f2 & He2 & Hw2 & Hp2 & Hf2).
    { done. } { by eapply pruned_names. } { done. } { apply elem_of_app. right. by left. }
    rewrite HJ in *. exists f2. split_and!; [|done| | |].
    + eapply exec_for_app; [exact He1|]. eapply exec_for_cons; [exact He2|apply exec_for_nil].
    + eapply pruned_trans; [exact Hp1|]. eapply pruned_weaken; [|exact Hp2]. by apply prefix_app_r.
    + rewrite <- Hs1. destruct (Hp2 (path_of dir)) as [?|(_ & _ & Hpre)]; [done|].
      by apply not_prefix_snoc in Hpre.
    + intros y Hy. destruct (decide (y = x)) as [->|Hne]; [done|].
      apply elem_of_app in Hy as [Hy|Hy]; [|set_solver]. eapply full_other; eauto.
  - exists f1. split_and!; [|done|done|done|].
    + eapply exec_for_app; [exact He1|]. eapply exec_for_cons; [apply exec_ret|apply exec_for_nil].
    + intros y Hy. apply elem_of_app in Hy as [Hy|Hy]; [auto|set_solver].
Qed.

(** What the loop over the entries leaves below [p]. *)
Lemma full_below (p : path) f f1 : wf f1 -> pruned p f f1 ->
  (forall x, (x, true) ∈ entries f p -> full R (p ++ [x]) f1) ->
  forall q, p `prefix_of` q -> q <> p -> q <> R -> f1 !! q = Some NDir -> exists c n, f1 !! (q ++ [c]) = Some n.
Proof.
  intros Hw1 Hp1 Hf1 q [[|x r] ->] Hqp HqR Hq; [by rewrite app_nil_r in Hqp|].
  assert (p ++ x :: r = (p ++ [x]) ++ r) as Eq by (by rewrite <- app_assoc).
  assert (f1 !! (p ++ [x]) = Some NDir) as Hx.
  { rewrite Eq in Hq. destruct r as [|y r]; [by rewrite app_nil_r in Hq|].
    apply (wf_ancestor f1 _ (y :: r) NDir Hw1) in Hq; [|done]. by rewrite node_at_snoc in Hq. }
  apply (Hf1 x); [|rewrite Eq; by apply prefix_app_r|done|done].
  apply entries_elem. exists NDir. split; [|done]. destruct (Hp1 (p ++ [x])) as [E|(E & _)]; congruence.
Qed.

(** After the loop: an empty directory that is not the root is removed. *)
Lemma prune_after fuel dir f f1 : dir <> root -> path_of dir <> [] ->
  node_at f (path_of dir) = Some NDir -> wf f -> wf f1 ->
  exec (ofor (entries f (path_of dir)) (fun e => if (e.2 : bool) then prune fuel root (Join dir e.1) else oret tt))
    f (Ok tt) f1 ->
  pruned (path_of dir) f f1 -> f1 !! path_of dir = f !! path_of dir ->
  (forall x, (x, true) ∈ entries f (path_of dir) -> full R (path_of dir ++ [x]) f1) ->
  prune_ok (S fuel) dir f.
Proof.
  intros Hne Hpne Hdir Hw Hw1 He1 Hp1 Hs1 Hf1. unfold prune_ok. cbn [prune]. set (p := path_of dir) in *.
  pose proof (full_below p f f1 Hw1 Hp1 Hf1) as Hbelow.
  assert (f1 !! p = Some NDir) as Hfp1 by (rewrite Hs1; by rewrite node_at_ne in Hdir).
  assert (node_at f1 p = Some NDir) as Hdir1 by (by rewrite node_at_ne).
  destruct (decide (entries f1 p = [])) as [Hemp|Hful].
  - exists (delete p f1).
    assert (forall c, f1 !! (p ++ [c]) = None) as Hnone by (by apply entries_nil).
    assert (wf (delete p f1)) as Hw2 by (by apply wf_delete).
    assert (pruned p f (delete p f1)) as Hp2.
    { intros q. rewrite lookup_delete. case_decide as E; [|apply Hp1]. subst q. right.
      split_and!; [by rewrite node_at_ne in Hdir|done|done]. }
    split_and!; [|done|done|].
    + eapply exec_catch; [by apply ReadDir_exec|]. eapply exec_bind; [exact He1|]. rewrite decide_False by done.
      eapply exec_catch; [by apply ReadDir_exec|].
      rewrite decide_True by done. eapply exec_catch; [by apply remove_dir_exec|apply exec_ret].
    + apply not_dir_full; [done|]. rewrite node_at_ne by done. by rewrite lookup_delete_eq.
  - exists f1. split_and!; [|done|done|].
    + eapply exec_catch; [by apply ReadDir_exec|]. eapply exec_bind; [exact He1|]. rewrite decide_False by done.
      eapply exec_catch; [by apply ReadDir_exec|].
      rewrite decide_False by done. apply exec_ret.
    + intros q Hq HqR Hqd. destruct (decide (q = p)) as [->|]; [|by apply Hbelow].
      destruct (entries f1 p) as [|[c b] l] eqn:Ee; [done|].
      assert ((c, b) ∈ entries f1 p) as (n & Hn' & _)%entries_elem by (rewrite Ee; by left). eauto.
Qed.

Lemma prune_spec fuel dir f :
  wf f -> names_ok f -> HasPrefix dir "/" = true ->
  R `prefix_of` path_of dir -> (dir = root \/ path_of dir <> R) ->
  (forall q n, f !! q = Some n -> path_of dir `prefix_of` q -> length q < fuel + length (path_of dir)) -> 0 < fuel ->
  prune_ok fuel dir f.
Proof.
  revert dir f. induction fuel as [|fuel IH]; intros dir f Hw Hn Hd Hpre Hroot Hh Hfuel; [lia|].
  unfold prune_ok. cbn [prune]. set (p := path_of dir) in *.
  destruct (decide (node_at f p = Some NDir)) as [Hdir|Hdir].
  2:{ destruct (ReadDir_fails f dir Hw Hdir) as [e He]. exists f.
      split_and!; [|done|apply pruned_refl|by apply not_dir_full].
      eapply exec_catch; [exact He|apply exec_ret]. }
  destruct (prune_loop fuel dir f (entries f p)) as (f1 & He1 & Hw1 & Hp1 & Hs1 & Hf1); [|done|done|].
  { intros f1 x Hw1 Hn1 Hp1 (m & Hm & Hmd)%entries_elem. symmetry in Hmd. apply bool_decide_eq_true in Hmd. subst m.
    assert (good x) as Hx by (apply Hn in Hm; apply Forall_app in Hm as [_ Hm]; by inversion Hm).
    destruct (good_key_comps x Hx) as [Hk Hdd].
    assert (Join dir x = abs (p ++ [x])) as HJ by (rewrite Join_abs by done; by rewrite Hk).
    assert (path_of (Join dir x) = p ++ [x]) as HP by (rewrite HJ; apply path_of_abs; by apply Hn in Hm).
    split; [done|]. apply IH; try done.
    - rewrite HJ. apply abs_rooted.
    - rewrite HP. by apply prefix_app_r.
    - right. rewrite HP. intros E. rewrite <- E in Hpre. by apply not_prefix_snoc in Hpre.
    - intros q n Hq Hpq. rewrite HP, length_app in *. simpl. destruct (Hp1 q) as [E|(_ & E & _)]; [|congruence].
      rewrite E in Hq. apply Hh in Hq; [lia|]. etransitivity; [by apply prefix_app_r|exact Hpq].
    - specialize (Hh _ _ Hm (prefix_app_r _ _ _ (reflexivity p))). rewrite length_app in Hh. simpl in Hh. lia. }
  assert (dir = root \/ dir <> root) as [->|Hne] by (destruct (decide (dir = root)); auto).
  { exists f1. split_and!; [|done|done|].
    - eapply exec_catch; [by apply ReadDir_exec|]. eapply exec_bind; [exact He1|].
      rewrite decide_True by done. apply exec_ret.
    - intros q Hq HqR Hqd. exact (full_below p f f1 Hw1 Hp1 Hf1 q Hq HqR HqR Hqd). }
  destruct Hroot as [?|HpR]; [done|]. apply (prune_after fuel dir f f1); try done.
  intros E. unfold p in *. rewrite E in Hpre, HpR. destruct Hpre as [l El]. by destruct R.
Qed.
End prune.

(** ** The whole application *)

Section apply.
Context (root : string) (Hroot : HasPrefix root "/" = true).
Context (ps : PropertySet) (Hps : keys_ok ps).
Local Abbreviation R := (path_of root).
Local Abbreviation want := (list_to_set (Join root <$> keys ps) : gset string).

(** A tree the set can be applied to: no file above the root, and no
    directory where a wanted file or its temporary file goes. *)
Definition compatible (f : fsys) : Prop :=
  clear_way R f /\
  forall k, is_Some (ps !! k) -> f !! kpath root k <> Some NDir /\ f !! ktmp root k <> Some NDir.

Lemma want_abs q x : good_path ((R ++ q) ++ [x]) ->
  abs ((R ++ q) ++ [x]) ∈ want <-> exists k, is_Some (ps !! k) /\ (R ++ q) ++ [x] = kpath root k.
Proof.
  intros Hg. rewrite elem_of_list_to_set, list_elem_of_fmap. setoid_rewrite keys_elem. split.
  - intros (k & E & Hk). exists k. split; [done|].
    destruct (key_shape root Hroot ps Hps k Hk) as (_ & _ & _ & _ & Ej & _).
    rewrite <- Ej, <- E. by rewrite path_of_abs.
  - intros (k & Hk & E). exists k. split; [|done]. destruct (proj1 Hps k Hk) as [Hp _].
    destruct (proper_key_path root Hroot k Hp) as (q' & x' & _ & Hg' & EJ & EP & _).
    rewrite EJ. f_equal. rewrite E.
    destruct (key_shape root Hroot ps Hps k Hk) as (_ & _ & _ & _ & Ej & _). by rewrite <- Ej.
Qed.

Lemma was_file_listed g s : wf g -> names_ok g -> listed g R s -> was_file g s.
Proof.
  intros Hw Hn (q & x & d & -> & _ & Hd & _). exists q, x. split_and!.
  - apply path_of_abs. by apply Hn in Hd.
  - by apply (proj2 Hw q x _) in Hd.
  - congruence.
Qed.

(** Below the root every path splits as root, directory, name. *)
Lemma below_root f q n : wf f -> node_at f R = Some NDir -> R `prefix_of` q -> f !! q = Some n -> n <> NDir ->
  exists q' x, q = (R ++ q') ++ [x].
Proof.
  intros Hw HR [r ->] Hq Hn. destruct (decide (r = [])) as [->|Hne].
  - rewrite app_nil_r in Hq. destruct R as [|y l] eqn:E; [by destruct Hw; congruence|].
    rewrite node_at_ne in HR by done. congruence.
  - destruct (snoc_inv r Hne) as (q' & x & ->). exists q', x. by rewrite app_assoc.
Qed.

(** After the sweep the tree is ready to be written. *)
Lemma ready_swept f g ls f1 : names_ok g -> compatible f -> wf g -> grown R f g ->
  node_at g R = Some NDir -> (forall s, s ∈ ls <-> listed g R s) -> wf f1 -> swept want ls g f1 ->
  ready root ps f f1.
Proof.
  intros Hn [Hclear Hnd] Hw Hgr HgR Hls Hw1 Hsw.
  assert (forall q, f1 !! q = g !! q \/ f1 !! q = None) as Hmono.
  { intros q. destruct (Hsw q) as [[? _]|[? _]]; auto. }
  assert (forall q d, g !! q = Some (NFile d) -> f !! q = Some (NFile d)) as Hgf.
  { intros q d Hq. destruct Hgr as [_ Hg2]. destruct (decide (g !! q = f !! q)) as [<-|Hne]; [done|].
    destruct (Hg2 q Hne) as (? & _). congruence. }
  assert (forall q x d, f1 !! ((R ++ q) ++ [x]) = Some (NFile d) -> is_tmp x = false ->
            exists k, is_Some (ps !! k) /\ (R ++ q) ++ [x] = kpath root k) as Hkept.
  { intros q x d Hf Ht. assert (g !! ((R ++ q) ++ [x]) = Some (NFile d)) as Hg
      by (destruct (Hmono ((R ++ q) ++ [x])); congruence).
    assert (good_path ((R ++ q) ++ [x])) as Hgood by (by apply Hn in Hg).
    apply want_abs; [done|]. destruct (decide (abs ((R ++ q) ++ [x]) ∈ want)) as [|Hout]; [done|].
    exfalso. destruct (Hsw ((R ++ q) ++ [x])) as [[_ H]|[H _]]; [|congruence]. apply H.
    exists (abs ((R ++ q) ++ [x])). split_and!; [|done|by apply path_of_abs].
    apply Hls. exists (R ++ q), x, d. split_and!; try done. rewrite <- app_assoc. by apply prefix_app_r. }
  split_and!; [done| |].
  - intros k Hk. destruct (Hnd k Hk) as [H1 H2].
    destruct (key_shape root Hroot ps Hps k Hk) as (q & x & Ek & Et & _).
    assert (forall y, f !! ((R ++ q) ++ [y]) <> Some NDir -> f1 !! ((R ++ q) ++ [y]) <> Some NDir) as Hy.
    { intros y Hy E. assert (g !! ((R ++ q) ++ [y]) = Some NDir) as Hgy
        by (destruct (Hmono ((R ++ q) ++ [y])); congruence).
      destruct Hgr as [_ Hg2]. destruct (Hg2 ((R ++ q) ++ [y])) as (_ & _ & Hpre); [congruence|].
      apply prefix_length in Hpre. rewrite !length_app in Hpre. simpl in Hpre. lia. }
    split_and!; [rewrite Ek in *; by apply Hy|rewrite Et in *; by apply Hy|].
    intros q' d Hpre Hf. assert (g !! q' = Some (NFile d)) as Hg by (destruct (Hmono q'); congruence).
    assert (q' `prefix_of` kpath root k) as Hpk.
    { etransitivity; [exact Hpre|]. rewrite Ek, parent_snoc. by apply prefix_app_r. }
    destruct (prefix_total (kpath root k) R q') as [HRq|HqR]; [by apply prefix_app_r|done| |].
    + destruct (below_root g q' (NFile d) Hw HgR HRq Hg) as (q2 & x2 & ->); [done|].
      destruct (Hkept q2 x2 d Hf) as (k' & Hk' & E); [by eapply key_no_tmp|].
      rewrite E in Hpk. rewrite (kpath_prefix root ps Hps k' k Hk' Hk Hpk), Ek in E.
      rewrite Ek, parent_snoc, E in Hpre. by apply not_prefix_snoc in Hpre.
    + by apply (Hclear q' d HqR), Hgf.
  - intros q d Hf HRq. assert (g !! q = Some (NFile d)) as Hg by (destruct (Hmono q); congruence).
    destruct (below_root g q (NFile d) Hw HgR HRq Hg) as (q2 & x2 & ->); [done|].
    destruct (is_tmp x2) eqn:Ht; [right; split; [by apply Hgf|eauto]|left; by eapply Hkept].
Qed.

(** What a converged tree looks like. *)
Definition synced (f f' : fsys) : Prop :=
  (forall k v, ps !! k = Some v -> f' !! kpath root k = Some (NFile v)) /\
  (forall q d, f' !! q = Some (NFile d) -> R `prefix_of` q -> wanted root ps q d \/ leftover f q d) /\
  full R R f'.

Lemma names_grown f g : names_ok f -> grown R f g -> names_ok g.
Proof.
  intros Hn [_ Hg2] q n Hq. destruct (decide (g !! q = f !! q)) as [E|Hne]; [apply (Hn q n); congruence|].
  destruct (Hg2 q Hne) as (_ & _ & Hpre). eapply good_prefix; [done|apply path_of_good].
Qed.

(** No file at or above the root, from the first directory made to the last
    property written. *)
Lemma way_kept f g f1 f2 : compatible f -> grown R f g ->
  (forall q d, f1 !! q = Some (NFile d) -> g !! q = Some (NFile d)) -> ready root ps f f2 -> confined root f1 f2 ->
  clear_way R f2.
Proof using Hroot Hps.
  intros Hc Hgr Hf1 (_ & _ & Hf2) Hc2 q d Hq E2. destruct (decide (R `prefix_of` q)) as [HR|HR].
  - assert (q = R) as -> by (destruct HR as [l ->], Hq as [l' E']; rewrite <- app_assoc in E'; destruct l; [by rewrite app_nil_r|];
      apply (f_equal length) in E'; rewrite !length_app in E'; simpl in E'; lia).
    destruct (Hf2 R d E2 HR) as [(k & Hk & Ek)|[Hl _]]; [|by eapply (proj1 Hc)].
    destruct (key_shape root Hroot ps Hps k Hk) as (q & x & Es & _). rewrite <- Ek in Es. rewrite <- app_assoc in Es.
    apply (f_equal length) in Es. rewrite !length_app in Es. simpl in Es. lia.
  - destruct (Hc2 q HR) as [Eq|(Eq & _)]; [|congruence]. rewrite E2 in Eq. symmetry in Eq. apply Hf1 in Eq.
    destruct (decide (g !! q = f !! q)) as [Eg|Eg]; [rewrite Eq in Eg; by eapply (proj1 Hc)|].
    apply Hgr in Eg as (Eg & _). congruence.
Qed.

Lemma applyer_exec f : wf f -> names_ok f -> compatible f ->
  exists f', exec (propertiesApplyer root ps) f (Ok tt) f' /\ wf f' /\ clear_way R f' /\ synced f f'.
Proof.
  intros Hw Hn Hc.
  destruct (mkdirs_exec f root Hw (proj1 Hc)) as (g & Hg & Hwg & Hgr & HgR).
  assert (names_ok g) as Hng by (by eapply names_grown).
  destruct (walkDir_spec (S (depth_below R g)) root g NDir) as (ls & Hwalk & Hls); try done;
    [intros q n Hq Hpre; pose proof (depth_below_le R g q n Hpre Hq); lia|lia|].
  destruct (removeStale_loop want ls g Hwg) as (f1 & Hrm & Hw1 & Hsw).
  { apply Forall_forall. intros s Hs. apply was_file_listed; try done. by apply Hls. }
  assert (ready root ps f f1) as Hready by (eapply ready_swept; eauto).
  assert (forall k, k ∈ sorted_keys ps <-> is_Some (ps !! k)) as Hsk.
  { intros k. unfold sorted_keys. rewrite merge_sort_Permutation. apply keys_elem. }
  destruct (write_loop root Hroot ps Hps f (sorted_keys ps) f1) as (f2 & Hwr & Hr2 & Hv2 & _);
    [intros k; by apply Hsk|done|].
  assert (names_ok f1) as Hn1.
  { intros q n Hq. destruct (Hsw q) as [[E _]|[E _]]; [apply (Hng q n); congruence|congruence]. }
  assert (names_ok f2 /\ confined root f1 f2) as [Hn2 Hc2].
  { destruct (triple_run (tree_inv root f1) (fun _ => True) (ofor (sorted_keys ps) (writeEntry root ps))
      (fun _ _ => True) (mk_os f1 [] [])) as (_ & (_ & H & H') & _); [|split_and!; [done..|intros q _; by left]|done|].
    - pose proof (tree_inv_keeps root ps f1 Hroot). apply t_for. intros k Hk. apply writeEntry_keeps; [done|done|by apply Hsk|by apply Hps, Hsk].
    - destruct (Hwr (mk_os f1 [] [])) as (_ & E & _); [done|by constructor|]. by rewrite E in H, H'. }
  pose proof Hr2 as (Hw2 & _ & Hf2).
  destruct (prune_spec root (S (depth_below R f2)) root f2) as (f3 & Hpr & Hw3 & Hp3 & Hfull); try done; [by left| |lia|].
  { intros q n Hq Hpre. pose proof (depth_below_le R f2 q n Hpre Hq). lia. }
  exists f3. split; [|split; [done|split]].
  - unfold propertiesApplyer. cbv zeta. eapply exec_bind; [by apply exec_wrap|].
    eapply exec_bind; [apply exec_wrap|].
    { apply exec_measured.
      eapply exec_bind; [by apply Stat_exec|]. exact Hwalk. }
    eapply exec_bind; [exact Hrm|]. eapply exec_bind; [exact Hwr|].
    apply exec_measured. exact Hpr.
  - intros q d Hq E. assert (f2 !! q = Some (NFile d)) as E2 by (destruct (Hp3 q) as [H|(_ & H & _)]; congruence).
    revert E2. eapply (way_kept f g f1 f2); try done. intros q' d' Hq'. destruct (Hsw q') as [[E' _]|[E' _]]; congruence.
  - assert (forall q d, f3 !! q = Some (NFile d) <-> f2 !! q = Some (NFile d)) as Hsame.
    { intros q d. destruct (Hp3 q) as [->|(E1 & E2 & _)]; [done|]. rewrite E1, E2. done. }
    split_and!; [| |exact Hfull].
    + intros k v Hk. apply Hsame, Hv2; [apply Hsk; eauto|done].
    + intros q d Hq HRq. apply Hsame in Hq. destruct (Hf2 q d Hq HRq) as [(k & [v Hv] & ->)|H]; [|by right].
      left. exists k. split; [|done]. rewrite (Hv2 k v) in Hq; [congruence|apply Hsk; eauto|done].
Qed.
End apply.

(** C19.  The tree converges to the pushed set.  The keys name places below the
    root, none inside another and none ending in .tmp; there is no directory where a
    property or its temporary file goes, and no file above the root; and no system
    call fails.  Then propertiesApplyer returns nil; every property
    then has a file with exactly its value, every regular file below the root
    is a wanted property with that value (or a .tmp file that was there
    before), and no empty directory is left below the root.  The recursion
    bounds of the model are never hit. *)
Theorem properties_converge root ps w :
  HasPrefix root "/" = true -> keys_ok ps -> wf (files w) -> names_ok (files w) ->
  compatible root ps (files w) -> no_faults w ->
  let '(r, w') := propertiesApplyer root ps w in
  r = Ok tt /\
  (forall k v, ps !! k = Some v -> files w' !! kpath root k = Some (NFile v)) /\
  (forall q d, files w' !! q = Some (NFile d) -> path_of root `prefix_of` q ->
     wanted root ps q d \/ leftover (files w) q d) /\
  full (path_of root) (path_of root) (files w').
Proof.
  intros Hr Hk Hw Hn Hc Hnf. destruct (applyer_exec root Hr ps Hk (files w) Hw Hn Hc) as (f' & He & _ & _ & Hs).
  destruct (He w eq_refl Hnf) as (E1 & E2 & _). destruct (propertiesApplyer root ps w) as [r w'].
  simpl in *. subst. split; [done|exact Hs].
Qed.

Lemma sample_keys_ok : keys_ok sample_props.
Proof.
  assert (Forall (fun k => proper_key k /\ Forall (fun c => is_tmp c = false) (key_comps k)) (keys sample_props))
    as H1 by (unfold proper_key, safe_key; apply (bool_decide_unpack _); vm_compute; exact I).
  assert (Forall (fun k1 => Forall (fun k2 => key_comps k1 `prefix_of` key_comps k2 -> k1 = k2)
            (keys sample_props)) (keys sample_props))
    as H2 by (apply (bool_decide_unpack _); vm_compute; exact I).
  rewrite Forall_forall in H1, H2. split.
  - intros k Hk. apply H1. by apply keys_elem.
  - intros k1 k2 Hk1%keys_elem Hk2%keys_elem. specialize (H2 k1 Hk1). rewrite Forall_forall in H2. auto.
Qed.

Lemma properties_converge_witness :
  let '(r, w') := propertiesApplyer sample_root sample_props (mk_os ∅ [] []) in
  r = Ok tt /\ files w' !! kpath sample_root "name" = Some (NFile "vm1").
Proof.
  pose proof (properties_converge sample_root sample_props (mk_os ∅ [] []) eq_refl sample_keys_ok
    wf_empty names_ok_empty) as H.
  destruct (propertiesApplyer sample_root sample_props (mk_os ∅ [] [])) as [r w'].
  destruct H as (H1 & H2 & _).
  - split; [intros q d _; simpl; by rewrite lookup_empty|]. intros k _. simpl. by rewrite !lookup_empty.
  - constructor.
  - split; [exact H1|]. apply H2. reflexivity.
Defined.

(** A key cannot replace a former directory: after a set with "a/b", the
    set with "a" is refused (the empty directory left at "a" is only pruned at
    the end of a successful application), the refused application leaves the
    tree as it is from then on, so every later push of the set fails the same
    way. *)
Theorem properties_dir_to_file_stuck :
  let w1 := (propertiesApplyer sample_root {[ "a/b" := "1" ]} (mk_os ∅ [] [])).2 in
  let '(r2, w2) := propertiesApplyer sample_root {[ "a" := "2" ]} w1 in
  let '(r3, w3) := propertiesApplyer sample_root {[ "a" := "2" ]} w2 in
  is_Ok r2 = false /\ is_Ok r3 = false /\ files w3 = files w2 /\
  files w2 !! kpath sample_root "a" = Some NDir.
Proof.
  cbv zeta. set (w1 := (propertiesApplyer sample_root {[ "a/b" := "1" ]} (mk_os ∅ [] [])).2).
  set (p2 := propertiesApplyer sample_root {[ "a" := "2" ]} w1).
  set (p3 := propertiesApplyer sample_root {[ "a" := "2" ]} p2.2).
  assert (is_Ok p2.1 = false) as H1 by (vm_compute; reflexivity).
  assert (is_Ok p3.1 = false) as H2 by (vm_compute; reflexivity).
  assert (files p3.2 = files p2.2) as H3 by (apply (bool_decide_unpack _); vm_compute; exact I).
  assert (files p2.2 !! kpath sample_root "a" = Some NDir) as H4 by (vm_compute; reflexivity).
  unfold p3 in *. clearbody p2. destruct p2 as [r2 w2]. cbn [fst snd] in *.
  destruct (propertiesApplyer sample_root {[ "a" := "2" ]} w2) as [r3 w3]. split_and!; assumption.
Qed.

End PropertiesSync.
