(* ===== verification/Boot.v ===== *)
(** * First-boot provisioning (src/pkg/boot/boot.go,
    src/cmd/weft-microvm-agent/boot.go and watchAndRunBoot in main.go)

    [Boot.BM] runs system calls on the disk and records the provisioning
    actions (clone, pull, script) in a trace.  The shell interpreter, go-git
    and oras-go are parameters: actions on the disk that may fail. *)

From S2P Require Import Prelude GoLib FileSys GoPath FsLogic AbsPath FsExec Metrics Properties PropertiesSync.

Module Boot.

(** ** Config *)

Record Config := mkConfig {
  SourceKind : string;
  SourceURL : string;
  SourceRef : string;
  Script : string
}.

Definition emptyConfig : Config := mkConfig "" "" "" "".

Definition IsEmpty (c : Config) : bool :=
  bool_decide (SourceKind c = "") && bool_decide (TrimSpace (Script c) = "").

Local Open Scope os_scope.

Definition readOptionalFile (path : string) : M string :=
  r <~ os_ReadFile path ;;
  match r with
  | Ok b => oret b
  | Err e => if IsNotExist e then oret "" else ofail e
  end.

Definition newline : ascii := "010"%char.

Definition readKey (root key : string) : M string :=
  v <- readOptionalFile (Join root key) ;;
  oret (TrimRight v newline).

Definition ReadFromPropertiesDir (root : string) : M Config :=
  kind <- readKey root "weft.boot/source.kind" ;;
  url <- readKey root "weft.boot/source.url" ;;
  ref <- readKey root "weft.boot/source.ref" ;;
  script <- readKey root "weft.boot/script" ;;
  oret (mkConfig kind url ref script).

(** ** Actions with a trace *)

Inductive action :=
| GitClone (url ref dst : string)
| OciPull (url ref dst : string)
| RunScript (body cwd : string).

Record world := mkWorld {
  disk : os;
  trace : list (action * gerr);
  recorder : option Metrics.Recorder
}.

Definition BM (A : Type) : Type := world -> result A * world.

Definition sys {A : Type} (c : M A) : BM A :=
  fun w => let '(r, d) := c (disk w) in (r, mkWorld d (trace w) (recorder w)).

Definition to_gerr {A : Type} (r : result A) : gerr := match r with Ok _ => None | Err e => Some e end.

(** An action: performed, then recorded with its outcome. *)
Definition act (a : action) (c : M unit) : BM unit :=
  fun w => let '(r, d) := c (disk w) in (r, mkWorld d (trace w ++ [(a, to_gerr r)]) (recorder w)).

Definition bret {A : Type} (a : A) : BM A := fun w => (Ok a, w).
Definition bfail {A : Type} (e : error) : BM A := fun w => (Err e, w).
Definition bcatch {A B : Type} (c : BM A) (k : result A -> BM B) : BM B :=
  fun w => let '(r, w') := c w in k r w'.
Definition bbind {A B : Type} (c : BM A) (k : A -> BM B) : BM B :=
  bcatch c (fun r => match r with Ok a => k a | Err e => bfail e end).
Definition bwrap {A : Type} (wrap : error -> error) (c : BM A) : BM A :=
  bcatch c (fun r => match r with Ok a => bret a | Err e => bfail (wrap e) end).

(** ** Runner *)

Section runner.
(** [RunScript body cwd] of the interpreter library. *)
Context (run_script : string -> string -> M unit).

Record Runner := mkRunner {
  WorkDir : string;
  SentinelPath : string;
  Cloner : option (string -> string -> string -> M unit);
  Puller : option (string -> string -> string -> M unit)
}.

Definition touchSentinel (r : Runner) : M unit :=
  os_MkdirAll (Dir (SentinelPath r)) ;;;
  os_WriteFile (SentinelPath r) ("ok" +:+ str [newline]).

Definition payloadDir (r : Runner) : string := Join (WorkDir r) "payload".

Definition wrap1 (fmt : string) (e : error) : error := Errorf fmt [EErr e].

Definition pull (r : Runner) (cfg : Config) : BM unit :=
  if decide (SourceKind cfg = "" \/ SourceKind cfg = "none") then bret tt
  else if decide (SourceKind cfg = "git") then
    match Cloner r with
    | None => bfail (errors_New "git pull requested but no Cloner wired")
    | Some clone =>
        bwrap (wrap1 "git clone: %w")
          (act (GitClone (SourceURL cfg) (SourceRef cfg) (payloadDir r))
               (clone (SourceURL cfg) (SourceRef cfg) (payloadDir r)))
    end
  else if decide (SourceKind cfg = "oci") then
    match Puller r with
    | None => bfail (errors_New "oci pull requested but no Puller wired")
    | Some p =>
        bwrap (wrap1 "oci pull: %w")
          (act (OciPull (SourceURL cfg) (SourceRef cfg) (payloadDir r))
               (p (SourceURL cfg) (SourceRef cfg) (payloadDir r)))
    end
  else bfail (Errorf "unknown source kind %q" [EStr (SourceKind cfg)]).

Definition script (r : Runner) (cfg : Config) : BM unit :=
  if decide (TrimSpace (Script cfg) = "") then bret tt
  else bcatch (sys (os_Stat (payloadDir r))) (fun st =>
    let cwd := match st with Ok _ => payloadDir r | Err _ => WorkDir r end in
    bwrap (wrap1 "script: %w") (act (RunScript (Script cfg) cwd) (run_script (Script cfg) cwd))).

Definition Run (r : Runner) (cfg : Config) : BM unit :=
  if decide (SentinelPath r = "") then bfail (errors_New "SentinelPath is required")
  else bcatch (sys (os_Stat (SentinelPath r))) (fun st =>
    match st with
    | Ok _ => bret tt
    | Err _ =>
        if IsEmpty cfg then sys (touchSentinel r)
        else
          bbind (bwrap (wrap1 "mkdir workdir: %w") (sys (os_MkdirAll (WorkDir r)))) (fun _ =>
          bbind (pull r cfg) (fun _ =>
          bbind (script r cfg) (fun _ =>
          sys (touchSentinel r))))
    end).

(** ** watchAndRunBoot *)

(** One round of the polling loop, as the environment sees it: whether the
    shutdown context is already cancelled at the top of the loop, what other
    processes did to the disk before the round, the clock when the deadline is
    compared, the measured duration of a run, and whether the shutdown fires
    during the wait at the end of the round. *)
Record poll := mkPoll {
  shutdown_top : bool;
  interference : fsys -> fsys;
  now : Z;
  took : Z;
  shutdown_wait : bool
}.

Inductive outcome := Shutdown | SentinelPresent | Provisioned (err : gerr) | TimedOut (err : gerr) | Polling.

Definition interfere (g : fsys -> fsys) (w : world) : world :=
  mkWorld (mk_os (g (files (disk w))) (faults (disk w)) (history (disk w))) (trace w) (recorder w).

Definition record (err : gerr) (dur : Z) (w : world) : world :=
  mkWorld (disk w) (trace w) (Metrics.RecordApply "boot" err dur (recorder w)).

(** [deadline] is start + maxWait (nanoseconds). *)
Fixpoint watchAndRunBoot (propsDir : string) (r : Runner) (deadline : Z) (ps : list poll) (w : world)
    : outcome * world :=
  match ps with
  | [] => (Polling, w)
  | p :: ps' =>
      if shutdown_top p then (Shutdown, w)
      else
        let w := interfere (interference p) w in
        let '(st, w) := sys (os_Stat (SentinelPath r)) w in
        match st with
        | Ok _ => (SentinelPresent, w)
        | Err _ =>
            let '(c, w) := sys (ReadFromPropertiesDir propsDir) w in
            match c with
            | Err _ => if shutdown_wait p then (Shutdown, w) else watchAndRunBoot propsDir r deadline ps' w
            | Ok cfg =>
                if negb (IsEmpty cfg) then
                  let '(res, w) := Run r cfg w in
                  (Provisioned (to_gerr res), record (to_gerr res) (took p) w)
                else if (deadline <? now p)%Z then
                  let '(res, w) := Run r emptyConfig w in
                  (TimedOut (to_gerr res), record (to_gerr res) (took p) w)
                else if shutdown_wait p then (Shutdown, w)
                else watchAndRunBoot propsDir r deadline ps' w
            end
        end
  end.

End runner.

(** ** The production hooks (cmd/weft-microvm-agent/boot.go) *)

Section hooks.
Context {Repo Hash Store Remote : Type}.
(** go-git: clone into a directory, resolve a revision, open the worktree,
    check a commit out. *)
Context (PlainClone : string -> string -> M Repo).
Context (ResolveRevision : Repo -> string -> result Hash) (Worktree : Repo -> gerr).
Context (Checkout : Repo -> Hash -> M unit) (hash_string : Hash -> string).
(** oras-go: a file store, a repository reference, the copy. *)
Context (file_New : string -> result Store) (NewRepository : string -> result Remote).
Context (oras_Copy : Remote -> string -> Store -> M unit).

Definition gitClone (url ref dst : string) : M unit :=
  repo <- owrap (fun e => Errorf "clone %s: %w" [EStr url; EErr e]) (PlainClone url dst) ;;
  if decide (ref = "") then oret tt
  else
    match ResolveRevision repo ref with
    | Err e => ofail (Errorf "resolve %q: %w" [EStr ref; EErr e])
    | Ok hash =>
        match Worktree repo with
        | Some e => ofail e
        | None => owrap (fun e => Errorf "checkout %q (%s): %w" [EStr ref; EStr (hash_string hash); EErr e])
                        (Checkout repo hash)
        end
    end.

Definition strip_scheme (url : string) : string :=
  TrimPrefix (TrimPrefix (TrimPrefix url "oci://") "https://") "http://".

Definition ociPull (url ref dst : string) : M unit :=
  let ref := if decide (ref = "") then "latest" else ref in
  let url := strip_scheme url in
  owrap (fun e => Errorf "mkdir %s: %w" [EStr dst; EErr e]) (os_MkdirAll dst) ;;;
  match file_New dst with
  | Err e => ofail (Errorf "file store %s: %w" [EStr dst; EErr e])
  | Ok store =>
      match NewRepository url with
      | Err e => ofail (Errorf "repo %s: %w" [EStr url; EErr e])
      | Ok repo => owrap (fun e => Errorf "oras copy %s@%s: %w" [EStr url; EStr ref; EErr e])
                         (oras_Copy repo ref store)
      end
  end.

Definition bootRunner (workDir sentinelPath : string) : Runner :=
  mkRunner workDir sentinelPath (Some gitClone) (Some ociPull).
End hooks.

(** ** What a run does *)

Section effects.
Context (run_script : string -> string -> M unit).

(** The actions of a complete run. *)
Definition pull_plan (r : Runner) (cfg : Config) : list action :=
  if decide (SourceKind cfg = "git") then [GitClone (SourceURL cfg) (SourceRef cfg) (payloadDir r)]
  else if decide (SourceKind cfg = "oci") then [OciPull (SourceURL cfg) (SourceRef cfg) (payloadDir r)]
  else [].

Definition script_plan (cfg : Config) (cwd : string) : list action :=
  if decide (TrimSpace (Script cfg) = "") then [] else [RunScript (Script cfg) cwd].

Definition all_ok (l : list (action * gerr)) : Prop := Forall (fun a => a.2 = None) l.

(** What a phase adds to the trace: nothing, or its plan with the outcome it
    returns. *)
Definition phase (c : BM unit) (w : world) (plan : list action) : Prop :=
  exists l, trace (c w).2 = trace w ++ l /\
    ((fst <$> l = plan /\ ((c w).1 = Ok tt <-> all_ok l)) \/ (l = [] /\ is_Ok (c w).1 = false)).

Lemma sys_trace {A : Type} (c : M A) w : trace (sys c w).2 = trace w.
Proof. unfold sys. by destruct (c (disk w)). Qed.

Lemma bwrap_snd {A : Type} wrap (c : BM A) w : (bwrap wrap c w).2 = (c w).2.
Proof. unfold bwrap, bcatch. destruct (c w) as [[a|e] w']; done. Qed.

Lemma bwrap_ok {A : Type} wrap (c : BM A) w a : (bwrap wrap c w).1 = Ok a <-> (c w).1 = Ok a.
Proof. unfold bwrap, bcatch. destruct (c w) as [[b|e] w']; done. Qed.

Lemma bbind_run {A B : Type} (c : BM A) (k : A -> BM B) w :
  bbind c k w = match c w with (Ok a, w') => k a w' | (Err e, w') => (Err e, w') end.
Proof. unfold bbind, bcatch. by destruct (c w) as [[a|e] w']. Qed.

Lemma phase_act wrap a c w : phase (bwrap wrap (act a c)) w [a].
Proof.
  unfold phase. rewrite bwrap_snd. setoid_rewrite bwrap_ok. unfold act.
  destruct (c (disk w)) as [r d]. exists [(a, to_gerr r)]. simpl. split; [done|]. left. split; [done|].
  unfold all_ok. rewrite Forall_singleton. by destruct r as [[]|].
Qed.

Lemma phase_ret w : phase (bret tt) w [].
Proof. exists []. simpl. rewrite app_nil_r. split; [done|]. left. split; [done|]. split; [intros _; constructor|done]. Qed.

Lemma phase_fail e w plan : phase (bfail e) w plan.
Proof. exists []. simpl. rewrite app_nil_r. auto. Qed.

Lemma pull_phase r cfg w : phase (pull r cfg) w (pull_plan r cfg).
Proof.
  unfold pull, pull_plan. destruct (decide (SourceKind cfg = "" \/ SourceKind cfg = "none")) as [[E|E]|E].
  - rewrite E. apply phase_ret.
  - rewrite E. apply phase_ret.
  - destruct (decide (SourceKind cfg = "git")); [destruct (Cloner r); [apply phase_act|apply phase_fail]|].
    destruct (decide (SourceKind cfg = "oci")); [|apply phase_fail].
    destruct (Puller r); [apply phase_act|apply phase_fail].
Qed.

Lemma script_phase r cfg w : exists cwd, (cwd = payloadDir r \/ cwd = WorkDir r) /\
  phase (script run_script r cfg) w (script_plan cfg cwd).
Proof.
  unfold script, script_plan. destruct (decide (TrimSpace (Script cfg) = "")).
  - exists (WorkDir r). split; [auto|apply phase_ret].
  - unfold phase, bcatch. pose proof (sys_trace (os_Stat (payloadDir r)) w) as Ht.
    destruct (sys (os_Stat (payloadDir r)) w) as [st w1]. simpl in Ht.
    exists (match st with Ok _ => payloadDir r | Err _ => WorkDir r end). split; [destruct st; auto|].
    rewrite <- Ht. apply phase_act.
Qed.

(** What [Run] may add to the trace. *)
Definition run_trace (r : Runner) (cfg : Config) (l : list (action * gerr)) : Prop :=
  exists cwd l1 l2, (cwd = payloadDir r \/ cwd = WorkDir r) /\ l = l1 ++ l2 /\
    (fst <$> l1 = pull_plan r cfg \/ l1 = []) /\ (fst <$> l2 = script_plan cfg cwd \/ l2 = []) /\
    (l2 <> [] -> fst <$> l1 = pull_plan r cfg /\ all_ok l1).

Definition complete (r : Runner) (cfg : Config) (l : list (action * gerr)) : Prop :=
  exists cwd, fst <$> l = pull_plan r cfg ++ script_plan cfg cwd /\ all_ok l.

Lemma run_trace_nil r cfg : run_trace r cfg [].
Proof. exists (WorkDir r), [], []. split_and!; auto. done. Qed.

(** The provisioning proper, after the sentinel check. *)
Definition provision (r : Runner) (cfg : Config) : BM unit :=
  bbind (bwrap (wrap1 "mkdir workdir: %w") (sys (os_MkdirAll (WorkDir r)))) (fun _ =>
  bbind (pull r cfg) (fun _ =>
  bbind (script run_script r cfg) (fun _ =>
  sys (touchSentinel r)))).

Lemma provision_trace r cfg w : exists l,
  trace (provision r cfg w).2 = trace w ++ l /\ run_trace r cfg l /\
  ((provision r cfg w).1 = Ok tt -> complete r cfg l).
Proof.
  unfold provision. rewrite !bbind_run.
  pose proof (bwrap_snd (wrap1 "mkdir workdir: %w") (sys (os_MkdirAll (WorkDir r))) w) as Hm.
  pose proof (sys_trace (os_MkdirAll (WorkDir r)) w) as Htm.
  destruct (bwrap _ _ w) as [[[]|e1] w1]; simpl in Hm; rewrite <- Hm in Htm; rewrite <- Htm.
  2:{ exists []. simpl. rewrite app_nil_r. split_and!; [done|apply run_trace_nil|done]. }
  rewrite !bbind_run. destruct (pull_phase r cfg w1) as (l1 & Ht1 & Hp). destruct (pull r cfg w1) as [[[]|e2] w2]; simpl in *.
  2:{ exists l1. split_and!; [done| |done]. exists (WorkDir r), l1, [].
      rewrite app_nil_r. split_and!; auto; naive_solver. }
  destruct Hp as [[Hf1 Hok1]|[_ ?]]; [|done].
  rewrite !bbind_run. destruct (script_phase r cfg w2) as (cwd & Hcwd & l2 & Ht2 & Hs).
  destruct (script run_script r cfg w2) as [rs w3]. simpl in *.
  assert (run_trace r cfg (l1 ++ l2)) as Hrt.
  { exists cwd, l1, l2. split_and!; auto; [naive_solver|]. intros _. split; [done|]. by apply Hok1. }
  exists (l1 ++ l2). rewrite app_assoc, <- Ht1, <- Ht2. destruct rs as [[]|e3]; [|done].
  rewrite sys_trace. split_and!; [done|done|]. intros _. destruct Hs as [[Hf2 Hok2]|[_ ?]]; [|done].
  exists cwd. rewrite fmap_app, Hf1, Hf2. split; [done|]. apply Forall_app. split; [by apply Hok1|by apply Hok2].
Qed.

Lemma Run_trace r cfg w : exists l,
  trace (Run run_script r cfg w).2 = trace w ++ l /\ run_trace r cfg l /\
  ((Run run_script r cfg w).1 = Ok tt ->
     (is_Ok (os_Stat (SentinelPath r) (disk w)).1 = true /\ l = []) \/ complete r cfg l).
Proof.
  unfold Run. case_decide as Hs.
  { exists []. simpl. rewrite app_nil_r. split_and!; [done|apply run_trace_nil|done]. }
  unfold bcatch. pose proof (sys_trace (os_Stat (SentinelPath r)) w) as Ht.
  unfold sys in Ht |- *. destruct (os_Stat (SentinelPath r) (disk w)) as [[n|e] d1]; simpl in Ht.
  { exists []. simpl. rewrite app_nil_r. split_and!; [done|apply run_trace_nil|auto]. }
  destruct (IsEmpty cfg) eqn:He.
  - unfold IsEmpty in He. to_prop. exists []. rewrite app_nil_r. split_and!; [|apply run_trace_nil|].
    + destruct (touchSentinel r _); done.
    + intros _. right. exists (WorkDir r). unfold pull_plan, script_plan.
      destruct (decide (TrimSpace (Script cfg) = "")); [|done]. split; [|constructor].
      match goal with H : SourceKind cfg = "" |- _ => rewrite H end. done.
  - destruct (provision_trace r cfg (mkWorld d1 (trace w) (recorder w))) as (l & H1 & H2 & H3).
    exists l. split_and!; [exact H1|done|]. intros Hok. right. by apply H3.
Qed.

(** Effects of a provisioning run, whatever the hooks do and whatever
    fails: it performs at most the pull and then the script, the script only
    after the pull succeeded, in the payload or the work directory; and a run
    that returns nil either found the sentinel and did nothing, or carried out
    the whole plan with every action successful. *)
Theorem Run_effects r cfg w : exists l,
  trace (Run run_script r cfg w).2 = trace w ++ l /\ run_trace r cfg l /\
  ((Run run_script r cfg w).1 = Ok tt ->
     (is_Ok (os_Stat (SentinelPath r) (disk w)).1 = true /\ l = []) \/ complete r cfg l).
Proof. apply Run_trace. Qed.
End effects.

(** ** The sentinel *)

Definition ok_file : string := "ok" +:+ str [newline].

Lemma touchSentinel_triple (ff : bool) r :
  triple ff wf (fun _ => True) (touchSentinel r)
    (fun res fs => res = Ok tt -> fs !! path_of (SentinelPath r) = Some (NFile ok_file)).
Proof.
  unfold touchSentinel. apply (t_bind _ _ _ (fun _ _ => True)); [|intros []|done].
  - by apply MkdirAll_spec.
  - eapply t_conseq; [apply (WriteFile_spec ff wf (fun _ => True)); auto|done|naive_solver].
Qed.

Section sentinel.
Context (run_script : string -> string -> M unit) (r : Runner).

Lemma sys_eq {A : Type} (c : M A) w :
  sys c w = ((c (disk w)).1, mkWorld (c (disk w)).2 (trace w) (recorder w)).
Proof. unfold sys. by destruct (c (disk w)). Qed.

(** A predicate on the disk that a computation keeps. *)
Definition keeps {A : Type} (P : os -> Prop) (c : M A) : Prop := forall d, P d -> P (c d).2.

(** The provisioning steps before the sentinel is written keep every
    predicate that MkdirAll, Stat and the hooks keep. *)
Section steps.
Context (P : os -> Prop).
Context (Hmkdir : keeps P (os_MkdirAll (WorkDir r))) (Hstat : forall p, keeps P (os_Stat p)).
Context (Hclone : forall clone u v d, Cloner r = Some clone -> keeps P (clone u v d)).
Context (Hpull : forall pull u v d, Puller r = Some pull -> keeps P (pull u v d)).
Context (Hscript : forall b c, keeps P (run_script b c)).

Lemma sys_keeps {A : Type} (c : M A) w : keeps P c -> P (disk w) -> P (disk (sys c w).2).
Proof. intros Hc Hw. specialize (Hc _ Hw). unfold sys. by destruct (c (disk w)). Qed.

Lemma act_keeps a c w : keeps P c -> P (disk w) -> P (disk (act a c w).2).
Proof. intros Hc Hw. specialize (Hc _ Hw). unfold act. by destruct (c (disk w)). Qed.

Lemma pull_keeps cfg w : P (disk w) -> P (disk (pull r cfg w).2).
Proof.
  intros Hw. unfold pull. destruct (decide (SourceKind cfg = "" \/ SourceKind cfg = "none")); [done|].
  destruct (decide (SourceKind cfg = "git")).
  - destruct (Cloner r) eqn:E; [|done]. rewrite bwrap_snd. apply act_keeps; [by apply Hclone|done].
  - destruct (decide (SourceKind cfg = "oci")); [|done].
    destruct (Puller r) eqn:E; [|done]. rewrite bwrap_snd. apply act_keeps; [by apply Hpull|done].
Qed.

Lemma script_keeps cfg w : P (disk w) -> P (disk (script run_script r cfg w).2).
Proof.
  intros Hw. unfold script. case_decide; [done|]. unfold bcatch.
  pose proof (sys_keeps (os_Stat (payloadDir r)) w (Hstat _) Hw) as H1.
  destruct (sys (os_Stat (payloadDir r)) w) as [st w1]. rewrite bwrap_snd. by apply act_keeps.
Qed.

(** Where a run ends: in a state that satisfies [P] (it failed, or found the
    sentinel), or with the outcome of touchSentinel from such a state. *)
Lemma Run_ends cfg w : P (disk w) ->
  (P (disk (Run run_script r cfg w).2) /\
     ((Run run_script r cfg w).1 = Ok tt ->
      is_Ok (os_Stat (SentinelPath r) (disk w)).1 = true /\
      disk (Run run_script r cfg w).2 = (os_Stat (SentinelPath r) (disk w)).2)) \/
  exists d, P d /\ touchSentinel r d = ((Run run_script r cfg w).1, disk (Run run_script r cfg w).2).
Proof.
  intros Hw. unfold Run. case_decide as Hs; [by left|]. unfold bcatch.
  pose proof (Hstat (SentinelPath r) _ Hw) as H1. rewrite (sys_eq (os_Stat (SentinelPath r)) w).
  destruct (os_Stat (SentinelPath r) (disk w)) as [[n|e] d1]; simpl in H1 |- *; [by left|].
  set (w1 := mkWorld d1 (trace w) (recorder w)) in *.
  assert (P (disk w1)) as H2 by done. clearbody w1.
  assert (forall w2, P (disk w2) -> exists d, P d /\
     touchSentinel r d = ((sys (touchSentinel r) w2).1, disk (sys (touchSentinel r) w2).2)) as Htouch.
  { intros w2 Hw2. exists (disk w2). split; [done|]. unfold sys. by destruct (touchSentinel r (disk w2)). }
  destruct (IsEmpty cfg); [right; by apply Htouch|].
  rewrite !bbind_run.
  pose proof (bwrap_snd (wrap1 "mkdir workdir: %w") (sys (os_MkdirAll (WorkDir r))) w1) as Hm.
  pose proof (sys_keeps _ w1 Hmkdir H2) as H3. rewrite <- Hm in H3.
  destruct (bwrap _ _ w1) as [[[]|e1] w2]; simpl in H3; [|by left].
  rewrite !bbind_run. pose proof (pull_keeps cfg w2 H3) as H4.
  destruct (pull r cfg w2) as [[[]|e2] w3]; simpl in H4; [|by left].
  rewrite !bbind_run. pose proof (script_keeps cfg w3 H4) as H5.
  destruct (script run_script r cfg w3) as [[[]|e3] w4]; simpl in H5; [|by left].
  right. by apply Htouch.
Qed.
End steps.

Lemma Stat_run p d : (os_Stat p d).2 = mk_os (files d) (tail (faults d)) (history d ++ [files d]) /\
  (is_Ok (os_Stat p d).1 = true -> is_Ok (lookup_path (files d) (path_of p)) = true) /\
  (hd None (faults d) = None -> (os_Stat p d).1 = lookup_path (files d) (path_of p)).
Proof.
  unfold os_Stat, syscall, guarded. destruct (faults d) as [|[[n e]|] fts]; simpl; split_and!; done.
Qed.

Definition wf_disk (d : os) : Prop := wf (files d).

Lemma wf_Stat p : keeps wf_disk (os_Stat p).
Proof. intros d Hd. destruct (Stat_run p d) as [E _]. unfold wf_disk. by rewrite E. Qed.

Lemma wf_MkdirAll p : keeps wf_disk (os_MkdirAll p).
Proof.
  intros d Hd. destruct (triple_run wf (fun _ => True) (os_MkdirAll p) (fun _ _ => True) d) as (_ & H & _); try done.
  by apply MkdirAll_spec.
Qed.

(** The hooks are arbitrary programs that leave a well-formed file system. *)
Context (Hclone : forall clone u v d, Cloner r = Some clone -> keeps wf_disk (clone u v d)).
Context (Hpull : forall pull u v d, Puller r = Some pull -> keeps wf_disk (pull u v d)).
Context (Hscript : forall b c, keeps wf_disk (run_script b c)).

(** The sentinel is there after a successful run. *)
Lemma Run_stamps cfg w : wf_disk (disk w) -> (Run run_script r cfg w).1 = Ok tt ->
  is_Ok (lookup_path (files (disk (Run run_script r cfg w).2)) (path_of (SentinelPath r))) = true.
Proof.
  intros Hw Hok.
  destruct (Run_ends wf_disk (wf_MkdirAll _) wf_Stat Hclone Hpull Hscript cfg w Hw)
    as [[_ H]|(d & Hd & Ht)].
  - destruct (H Hok) as [H1 ->]. destruct (Stat_run (SentinelPath r) (disk w)) as (-> & H2 & _). by apply H2.
  - rewrite Hok in Ht.
    destruct (triple_run _ _ _ _ d (touchSentinel_triple false r)) as (_ & Hw' & Hs); [done|done|].
    rewrite Ht in Hw', Hs. simpl in Hw', Hs. specialize (Hs eq_refl).
    rewrite (proj2 (lookup_path_ok _ _ (NFile ok_file) Hw')); [done|].
    destruct (path_of (SentinelPath r)) eqn:E; [by destruct Hw'; congruence|done].
Qed.

(** C21.  Provisioning happens once: after a run that returned nil, a later
    boot that starts from the disk it left, and whose first system call, the stat
    of the sentinel, is not made to fail, returns nil without pulling, running or
    changing anything, whatever configuration it is given.  The first run may meet
    any faults, and hooks and scripts are arbitrary (they only have to leave a
    well-formed file system). *)
Theorem provision_once cfg cfg2 w w2 :
  wf_disk (disk w) -> (Run run_script r cfg w).1 = Ok tt ->
  files (disk w2) = files (disk (Run run_script r cfg w).2) -> hd None (faults (disk w2)) = None ->
  let '(res, w3) := Run run_script r cfg2 w2 in
  res = Ok tt /\ trace w3 = trace w2 /\ files (disk w3) = files (disk w2).
Proof.
  intros Hw Hok Hf Hn. pose proof (Run_stamps cfg w Hw Hok) as Hs. rewrite <- Hf in Hs.
  assert (SentinelPath r <> "") as Hne.
  { intros E. unfold Run in Hok. rewrite decide_True in Hok by done. done. }
  unfold Run. rewrite decide_False by done. unfold bcatch, sys.
  destruct (Stat_run (SentinelPath r) (disk w2)) as (H2 & _ & H1). specialize (H1 Hn).
  destruct (os_Stat (SentinelPath r) (disk w2)) as [st d]. simpl in H1, H2. rewrite <- H1 in Hs.
  destruct st; [|done]. subst d. done.
Qed.
End sentinel.

(** A runner for the witnesses: no hooks, a script that does nothing. *)
Definition noop : string -> string -> M unit := fun _ _ => oret tt.
Definition sample_runner : Runner := mkRunner "/var/lib/weft/boot" "/var/lib/weft/boot.done" None None.
Definition sample_config : Config := mkConfig "" "" "" "echo hello".
Definition fresh : world := mkWorld (mk_os ∅ [] []) [] None.

Lemma keeps_noop P b c : keeps P (noop b c).
Proof. by intros d Hd. Qed.

Lemma provision_once_witness :
  (Run noop sample_runner sample_config fresh).1 = Ok tt /\
  trace (Run noop sample_runner sample_config fresh).2 = [(RunScript "echo hello" "/var/lib/weft/boot", None)] /\
  let '(res, w3) := Run noop sample_runner sample_config
                      (mkWorld (mk_os (files (disk (Run noop sample_runner sample_config fresh).2)) [] []) [] None) in
  res = Ok tt /\ trace w3 = [] /\ files (disk w3) = files (disk (Run noop sample_runner sample_config fresh).2).
Proof.
  split_and!; [vm_compute; reflexivity|vm_compute; reflexivity|].
  apply (provision_once noop sample_runner ltac:(done) ltac:(done) (fun b c => keeps_noop wf_disk b c)
           sample_config sample_config fresh
           (mkWorld (mk_os (files (disk (Run noop sample_runner sample_config fresh).2)) [] []) [] None)).
  - apply wf_empty.
  - vm_compute. reflexivity.
  - reflexivity.
  - reflexivity.
Defined.

(** The proviso on the stat is needed: any error of it is taken for a missing
    sentinel, and the machine is provisioned again. *)
Theorem stat_error_reprovisions :
  let disk1 := files (disk (Run noop sample_runner sample_config fresh).2) in
  let '(res, w3) := Run noop sample_runner sample_config (mkWorld (mk_os disk1 [Some (0, Sentinel "EIO")] []) [] None) in
  lookup_path disk1 (path_of (SentinelPath sample_runner)) = Ok (NFile ok_file) /\
  res = Ok tt /\ trace w3 = [(RunScript "echo hello" "/var/lib/weft/boot", None)].
Proof. vm_compute. split_and!; reflexivity. Qed.

(** ** A failed run leaves no sentinel, as long as the disk does not fail *)

Section failure.
Context (run_script : string -> string -> M unit) (r : Runner).
Local Abbreviation S := (path_of (SentinelPath r)).

Definition unstamped (d : os) : Prop := no_faults d /\ wf (files d) /\ files d !! S = None.

Lemma unstamped_of_triple {A : Type} (c : M A) :
  triple true wf (fun fs => fs !! S = None) c (fun _ fs => fs !! S = None) -> keeps unstamped c.
Proof.
  intros Ht d (Hn & Hw & Hs). destruct (Ht d) as (Hn' & _ & Hw' & Hs'); [by intros _|done|done|].
  split_and!; [by apply Hn'|done|done].
Qed.

Lemma mkdir_unstamped (p : string) : ~ S `prefix_of` path_of p ->
  triple true wf (fun fs => fs !! S = None) (os_MkdirAll p) (fun _ fs => fs !! S = None).
Proof.
  intros Hp. apply MkdirAll_spec; [done|]. intros res fs g _ Hs Hw [_ Hg2] _. split; [done|].
  destruct (decide (g !! S = fs !! S)) as [->|Hne]; [done|]. by destruct (Hg2 _ Hne) as (_ & _ & ?).
Qed.

Lemma Stat_unstamped (p : string) :
  triple true wf (fun fs => fs !! S = None) (os_Stat p) (fun _ fs => fs !! S = None).
Proof. apply t_guarded; [|done]. intros fs Hw Hs. simpl. auto. Qed.

Lemma WriteFile_err (p data : string) (P : fsys -> Prop) :
  triple true wf P (os_WriteFile p data) (fun res fs => is_Ok res = false -> P fs).
Proof.
  unfold os_WriteFile. apply (t_bind _ _ _ (fun res fs => if is_Ok res then fs !! path_of p = Some (NFile "") /\
      path_of p <> [] /\ node_at fs (parent (path_of p)) = Some NDir else P fs)).
  - apply t_guarded; [|done]. intros fs Hw HP.
    destruct (open_trunc_spec fs (path_of p) Hw) as [[e ->]|(-> & Hw' & Hne & Hpar & _)]; simpl; [done|].
    split_and!; try done; [by rewrite lookup_insert_eq|by apply node_at_insert_parent].
  - intros []. apply t_syscall. intros ft fs Hft Hw (Hf & Hne & Hpar). rewrite Hft by done. simpl. split; [|done].
    apply wf_insert_file; try done. rewrite Hf. naive_solver.
  - naive_solver.
Qed.

Context (u l : bytes) (Hends : ends_in (SentinelPath r) u l).
Context (Hwork : ~ S `prefix_of` path_of (WorkDir r)).
Context (Hclone : forall clone a b c, Cloner r = Some clone -> keeps unstamped (clone a b c)).
Context (Hpull : forall pull a b c, Puller r = Some pull -> keeps unstamped (pull a b c)).
Context (Hscript : forall a b, keeps unstamped (run_script a b)).

Lemma touchSentinel_err d : unstamped d -> is_Ok (touchSentinel r d).1 = false ->
  files (touchSentinel r d).2 !! S = None.
Proof.
  intros (Hn & Hw & Hs) Herr.
  assert (triple true wf (fun fs => fs !! S = None) (touchSentinel r)
            (fun res fs => is_Ok res = false -> fs !! S = None)) as Ht.
  { unfold touchSentinel. apply (t_bind _ _ _ (fun _ fs => fs !! S = None)); [|intros []; apply WriteFile_err|auto].
    apply mkdir_unstamped. rewrite (path_of_Dir _ _ _ Hends), (path_of_ends_in _ _ _ Hends).
    apply PropertiesSync.not_prefix_snoc. }
  destruct (Ht d) as (_ & _ & _ & H); [by intros _|done|done|]. by apply H.
Qed.

(** Failure is retryable: when the disk works, a run that returns an error
    (an unknown source kind, a failed pull or script, an unwritable sentinel)
    leaves no sentinel behind, so the next attempt runs again; provided the
    hooks and the script do not create the sentinel themselves. *)
Theorem Run_failure_unstamped cfg w e :
  unstamped (disk w) -> (Run run_script r cfg w).1 = Err e ->
  files (disk (Run run_script r cfg w).2) !! S = None.
Proof.
  intros Hw Herr.
  destruct (Run_ends run_script r unstamped (unstamped_of_triple _ (mkdir_unstamped _ Hwork))
    (fun p => unstamped_of_triple _ (Stat_unstamped p)) Hclone Hpull Hscript cfg w Hw)
    as [[(_ & _ & H) _]|(d & Hd & Ht)]; [exact H|].
  pose proof (touchSentinel_err d Hd) as H. rewrite Ht in H. simpl in H. apply H. by rewrite Herr.
Qed.
End failure.

Definition bad_config : Config := mkConfig "svn" "https://example.org" "" "echo hello".

Lemma Run_failure_unstamped_witness :
  is_Ok (Run noop sample_runner bad_config fresh).1 = false /\
  files (disk (Run noop sample_runner bad_config fresh).2) !! path_of (SentinelPath sample_runner) = None.
Proof.
  assert (ends_in (SentinelPath sample_runner) (chars "/var/lib/weft") (chars "boot.done")) as He.
  { unfold ends_in. apply (bool_decide_unpack _). vm_compute. exact I. }
  assert (~ path_of (SentinelPath sample_runner) `prefix_of` path_of (WorkDir sample_runner)) as Hp.
  { apply (bool_decide_unpack _). vm_compute. exact I. }
  split; [vm_compute; reflexivity|].
  apply (Run_failure_unstamped noop sample_runner _ _ He Hp ltac:(done) ltac:(done)
           (fun a b => keeps_noop _ a b) bad_config fresh
           (Errorf "unknown source kind %q" [EStr "svn"])).
  - split_and!; [constructor|apply wf_empty|reflexivity].
  - vm_compute. reflexivity.
Defined.

(** When the sentinel write itself fails half-way, the file is there all the
    same and the next boot takes the machine for provisioned. *)
Lemma sentinel_left_by_failed_write :
  let w := mkWorld (mk_os ∅ [None; None; None; None; None; Some (0, EBUSY)] []) [] None in
  let '(res, w1) := Run noop sample_runner sample_config w in
  let '(res2, w2) := Run noop sample_runner sample_config (mkWorld (mk_os (files (disk w1)) [] []) [] None) in
  is_Ok res = false /\ res2 = Ok tt /\ trace w2 = [].
Proof. vm_compute. split_and!; reflexivity. Qed.

(** ** The watcher *)

Section watcher.
Context (run_script : string -> string -> M unit) (r : Runner) (propsDir : string).

Definition pollEvery : Z := 2 * 10 ^ 9.
Definition maxWait : Z := 5 * 60 * 10 ^ 9.

(** One reading of the configuration on a healthy disk. *)
Definition readable (f : fsys) : bool := is_Ok (ReadFromPropertiesDir propsDir (mk_os f [] [])).1.

(** Reads leave the files alone and depend only on them. *)
Definition reader {A : Type} (c : M A) : Prop :=
  forall f, exists res, exec c f res f.

Lemma reader_guarded {A : Type} (g : fsys -> result A) : reader (syscall (guarded (fun fs => (g fs, fs)))).
Proof. intros f. exists (g f). apply (exec_guarded (fun fs => (g fs, fs))). Qed.

Lemma reader_bind {A B : Type} (c : M A) (k : A -> M B) : reader c -> (forall a, reader (k a)) -> reader (obind c k).
Proof.
  intros Hc Hk f. destruct (Hc f) as [[a|e] H].
  - destruct (Hk a f) as [res H2]. exists res. by eapply exec_bind.
  - exists (Err e). eapply exec_catch; [exact H|]. intros w Hw Hn. simpl. auto.
Qed.

Lemma reader_key root key : reader (readKey root key).
Proof.
  apply reader_bind.
  - intros f. destruct (reader_guarded (fun fs => match lookup_path fs (path_of (Join root key)) with
       | Ok (NFile d) => Ok d | Ok NDir => Err EISDIR | Err e => Err e end) f) as [[b|e] H].
    + exists (Ok b). eapply exec_catch; [exact H|apply exec_ret].
    + exists (if IsNotExist e then Ok "" else Err e). eapply exec_catch; [exact H|].
      intros w Hw Hn. cbv beta iota. destruct (IsNotExist e); simpl; auto.
  - intros v f. exists (Ok (TrimRight v newline)). apply exec_ret.
Qed.

Lemma reader_config : reader (ReadFromPropertiesDir propsDir).
Proof.
  unfold ReadFromPropertiesDir. repeat (apply reader_bind; [apply reader_key|intros ?]).
  intros f. eexists. apply exec_ret.
Qed.

Lemma sys_reader {A : Type} (c : M A) w : reader c -> no_faults (disk w) ->
  exists res, sys c w = (res, mkWorld (c (disk w)).2 (trace w) (recorder w)) /\
    files (c (disk w)).2 = files (disk w) /\ no_faults (c (disk w)).2 /\
    res = (c (mk_os (files (disk w)) [] [])).1.
Proof.
  intros Hc Hn. destruct (Hc (files (disk w))) as [res H]. exists res.
  destruct (H (disk w) eq_refl Hn) as (H1 & H2 & H3).
  destruct (H (mk_os (files (disk w)) [] []) eq_refl) as (H4 & _); [constructor|].
  rewrite sys_eq, H1. auto.
Qed.

(** As soon as a round with a readable configuration is past the deadline, the
    watcher is gone. *)
Lemma watch_late deadline ps w :
  no_faults (disk w) -> (forall p f, p ∈ ps -> readable (interference p f) = true) ->
  (exists p, p ∈ ps /\ (deadline < now p)%Z) ->
  (watchAndRunBoot run_script propsDir r deadline ps w).1 <> Polling.
Proof.
  revert w. induction ps as [|p ps IH]; intros w Hn Hread (q & Hq & Hlate); [by apply not_elem_of_nil in Hq|].
  cbn [watchAndRunBoot]. destruct (shutdown_top p); [done|].
  set (w1 := interfere (interference p) w). assert (no_faults (disk w1)) as Hn1 by exact Hn.
  destruct (sys_reader (os_Stat (SentinelPath r)) w1 (reader_guarded _) Hn1) as (st & E & Hf & Hn2 & _). rewrite E.
  destruct st as [nd|e]; [done|].
  set (w2 := mkWorld _ (trace w1) (recorder w1)). assert (no_faults (disk w2)) as Hn2' by exact Hn2.
  destruct (sys_reader _ w2 reader_config Hn2') as (c & E2 & _ & Hn3 & Hc). rewrite E2.
  assert (is_Ok c = true) as Hcok.
  { rewrite Hc. change (files (disk w2)) with (files (os_Stat (SentinelPath r) (disk w1)).2). rewrite Hf. apply (Hread p). by left. }
  destruct c as [cfg|]; [|done]. destruct (negb (IsEmpty cfg)); [by destruct (Run _ _ _ _)|].
  destruct (deadline <? now p)%Z eqn:Hd; [by destruct (Run _ _ _ _)|].
  destruct (shutdown_wait p); [done|].
  apply IH; [done|intros; apply Hread; by right|].
  apply elem_of_cons in Hq as [->|Hq]; [to_prop; lia|eauto].
Qed.

(** C40.  The watcher terminates: on a healthy disk with a readable property
    tree, with rounds at least pollEvery apart, at most 152 rounds pass before
    it returns (shutdown, sentinel found, provisioned, or timed out after
    maxWait). *)
Theorem watch_terminates start ps w :
  no_faults (disk w) -> (forall p f, p ∈ ps -> readable (interference p f) = true) ->
  (forall i p, ps !! i = Some p -> (start + Z.of_nat i * pollEvery <= now p)%Z) ->
  (152 <= length ps)%nat ->
  (watchAndRunBoot run_script propsDir r (start + maxWait) ps w).1 <> Polling.
Proof.
  intros Hn Hread Hclock Hlen. apply watch_late; [done|done|].
  destruct (lookup_lt_is_Some_2 ps 151) as [p Hp]; [lia|]. exists p.
  split; [by eapply list_elem_of_lookup_2|]. specialize (Hclock 151 p Hp).
  unfold pollEvery, maxWait in *. lia.
Qed.

(** One watcher provisions at most once: over any sequence of rounds,
    whatever other processes do to the disk in between, all the actions it
    performs belong to a single run for a single configuration. *)
Theorem watch_runs_once deadline ps w : exists cfg l,
  trace (watchAndRunBoot run_script propsDir r deadline ps w).2 = trace w ++ l /\ run_trace r cfg l.
Proof.
  revert w. induction ps as [|p ps IH]; intros w; cbn [watchAndRunBoot].
  { exists emptyConfig, []. rewrite app_nil_r. split; [done|apply run_trace_nil]. }
  assert (forall w1, trace w1 = trace w -> exists cfg l, trace w1 = trace w ++ l /\ run_trace r cfg l) as Hstop.
  { intros w1 E. exists emptyConfig, []. rewrite app_nil_r. split; [done|apply run_trace_nil]. }
  destruct (shutdown_top p); [by apply Hstop|].
  assert (trace (sys (os_Stat (SentinelPath r)) (interfere (interference p) w)).2 = trace w) as H1
    by (rewrite sys_trace; done).
  destruct (sys (os_Stat (SentinelPath r)) (interfere (interference p) w)) as [[nd|e] w1]; simpl in H1;
    [by apply Hstop|].
  pose proof (sys_trace (ReadFromPropertiesDir propsDir) w1) as H2.
  destruct (sys (ReadFromPropertiesDir propsDir) w1) as [[cfg|e2] w2]; simpl in H2.
  - destruct (negb (IsEmpty cfg)).
    { destruct (Run_trace run_script r cfg w2) as (l & Hl & Ht & _).
      destruct (Run run_script r cfg w2) as [res w3]. exists cfg, l. simpl in *. split; [congruence|done]. }
    destruct (deadline <? now p)%Z.
    { destruct (Run_trace run_script r emptyConfig w2) as (l & Hl & Ht & _).
      destruct (Run run_script r emptyConfig w2) as [res w3]. exists emptyConfig, l. simpl in *. split; [congruence|done]. }
    destruct (shutdown_wait p); [apply (Hstop w2); congruence|].
    destruct (IH w2) as (cfg' & l & Hl & Ht). exists cfg', l. split; [congruence|done].
  - destruct (shutdown_wait p); [apply (Hstop w2); congruence|].
    destruct (IH w2) as (cfg' & l & Hl & Ht). exists cfg', l. split; [congruence|done].
Qed.
End watcher.

(** ** Concrete watchers *)

Definition quiet_polls (n : nat) : list poll :=
  (fun i => mkPoll false (fun _ => ∅) (Z.of_nat i * pollEvery) 0 false) <$> seq 0 n.

Lemma watch_terminates_witness :
  (watchAndRunBoot noop Properties.sample_root sample_runner (0 + maxWait) (quiet_polls 152) fresh).1 <> Polling.
Proof.
  apply (watch_terminates noop sample_runner Properties.sample_root 0 (quiet_polls 152) fresh).
  - constructor.
  - intros p f Hp. unfold quiet_polls in Hp. apply list_elem_of_fmap in Hp as (i & -> & _).
    vm_compute. reflexivity.
  - intros i p Hp. unfold quiet_polls in Hp. rewrite list_lookup_fmap in Hp.
    destruct (seq 0 152 !! i) as [j|] eqn:E; [|discriminate Hp].
    apply lookup_seq in E as [-> _]. injection Hp as <-. simpl. lia.
  - unfold quiet_polls. rewrite length_fmap, length_seq. lia.
Defined.

(** A tree where weft.boot is a file: reading below it fails with ENOTDIR. *)
Definition broken_tree : fsys :=
  <[ path_of (Join Properties.sample_root "weft.boot") := NFile "x" ]>
  (<[ path_of Properties.sample_root := NDir ]>
  (<[ ["run"; "weft"] := NDir ]> (<[ ["run"] := NDir ]> ∅))).

Lemma exec_Stat_any f p : exec (os_Stat p) f (lookup_path f (path_of p)) f.
Proof. apply (exec_guarded (fun fs => (lookup_path fs (path_of p), fs))). Qed.

Lemma broken_read : exec (ReadFromPropertiesDir Properties.sample_root) broken_tree (Err ENOTDIR) broken_tree.
Proof.
  destruct (reader_config Properties.sample_root broken_tree) as [res H].
  assert (res = Err ENOTDIR) as ->; [|exact H].
  destruct (H (mk_os broken_tree [] []) eq_refl) as [<- _]; [constructor|]. vm_compute. reflexivity.
Qed.

(** Read errors keep the watcher alive past its deadline: on a tree where
    weft.boot is not a directory, for every number n of rounds there is a run
    of n rounds, all of them after the deadline, in which the watcher neither
    provisions nor times out nor returns. *)
Theorem watch_read_error_no_deadline n : exists ps,
  length ps = n /\ Forall (fun p => (maxWait < now p)%Z) ps /\
  (watchAndRunBoot noop Properties.sample_root sample_runner maxWait ps
     (mkWorld (mk_os broken_tree [] []) [] None)).1 = Polling.
Proof.
  exists (replicate n (mkPoll false id (maxWait + 1) 0 false)). split_and!.
  - apply length_replicate.
  - apply Forall_replicate. simpl. lia.
  - assert (forall w, files (disk w) = broken_tree -> no_faults (disk w) ->
      (watchAndRunBoot noop Properties.sample_root sample_runner maxWait
         (replicate n (mkPoll false id (maxWait + 1) 0 false)) w).1 = Polling) as H.
    { induction n as [|n IH]; intros w Hf Hn; [done|]. cbn [replicate watchAndRunBoot].
      cbn [shutdown_top interference shutdown_wait].
      set (w1 := interfere id w). assert (files (disk w1) = broken_tree) as Hf1 by exact Hf.
      assert (no_faults (disk w1)) as Hn1 by exact Hn.
      destruct (exec_Stat_any broken_tree (SentinelPath sample_runner) (disk w1) Hf1 Hn1) as (E1 & E2 & E3).
      rewrite sys_eq, E1. assert (lookup_path broken_tree (path_of (SentinelPath sample_runner)) = Err ENOENT)
        as -> by (vm_compute; reflexivity).
      set (w2 := mkWorld _ (trace w1) (recorder w1)).
      destruct (broken_read (disk w2) E2 E3) as (E4 & E5 & E6). rewrite sys_eq, E4.
      by apply IH. }
    apply H; [done|constructor].
Qed.

(** A boot request for a git payload and a script, as the host publishes it. *)
Definition git_props : Properties.PropertySet :=
  {[ "weft.boot/source.kind" := "git"; "weft.boot/source.url" := "https://example.org/payload.git";
     "weft.boot/script" := "sh install.sh" ]}.

(** The watcher can act on half a request: properties are written one file
    at a time in key order, script before source.kind, and between the two
    there is a moment at which the watcher reads a request without a source,
    runs the script without cloning the payload, and stamps the sentinel; the
    complete request (kind git) is what the same application ends with, and it
    is never carried out. *)
Theorem watch_acts_on_partial_request : exists fs,
  fs ∈ history (Properties.propertiesApplyer Properties.sample_root git_props (mk_os ∅ [] [])).2 /\
  let '(o, w1) := watchAndRunBoot noop Properties.sample_root sample_runner maxWait
                    [mkPoll false (fun _ => fs) 0 0 false] fresh in
  o = Provisioned None /\
  trace w1 = [(RunScript "sh install.sh" "/var/lib/weft/boot", None)] /\
  files (disk w1) !! path_of (SentinelPath sample_runner) = Some (NFile ok_file) /\
  match (ReadFromPropertiesDir Properties.sample_root
          (mk_os (files (Properties.propertiesApplyer Properties.sample_root git_props (mk_os ∅ [] [])).2) [] [])).1 with
  | Ok cfg => SourceKind cfg = "git"
  | Err _ => False
  end.
Proof.
  set (h := history (Properties.propertiesApplyer Properties.sample_root git_props (mk_os ∅ [] [])).2).
  exists (default ∅ (h !! 7)). split.
  - apply (list_elem_of_lookup_2 _ 7). destruct (h !! 7) as [fs|] eqn:E; [done|].
    exfalso. apply (f_equal (fun o : option fsys => bool_decide (is_Some o))) in E. vm_compute in E. discriminate E.
  - vm_compute. split_and!; reflexivity.
Qed.

(** ** RunScript

    Parsing and interpreting the script are the shell library's ([Parse],
    [NewInterp], [RunFile]); its standard input is always at its end. *)

Definition emptyReader_Read (p : nat) : nat * gerr := (0, Some (Sentinel "EOF")).

Section script.
Context {File Interp : Type} (Parse : string -> string -> result File).
Context (NewInterp : string -> (nat -> nat * gerr) -> result Interp) (RunFile : Interp -> File -> M unit).

Definition runScript (body cwd : string) : M unit :=
  match Parse body "weft.boot/script" with
  | Err e => ofail (wrap1 "parse: %w" e)
  | Ok file =>
      match NewInterp cwd emptyReader_Read with
      | Err e => ofail (wrap1 "new interp: %w" e)
      | Ok runner => RunFile runner file
      end
  end.

(** What every script keeps, RunScript keeps: a script that does not parse
    touches nothing. *)
Lemma runScript_keeps (P : os -> Prop) body cwd :
  (forall i f, Parse body "weft.boot/script" = Ok f -> keeps P (RunFile i f)) -> keeps P (runScript body cwd).
Proof.
  intros Hk d Hd. unfold runScript. destruct (Parse body _) as [f|e] eqn:Hp; [|done].
  destruct (NewInterp cwd _) as [i|e]; [|done]. by apply (Hk i f).
Qed.
End script.

End Boot.
