(* ===== verification/Containers.v ===== *)
(** * The container reconciler (src/pkg/containers/containers.go,
    runtime_stub.go)

    [Runtime] is the interface the reconciler drives; [RuntimeLaws] states what
    it promises when a call returns nil, through the set of containers that are
    alive.  The reconciler's theorems are proved against the laws, and the
    stub runtime is shown to satisfy them.  Go ranges over the map of desired
    containers in an unspecified order; the model uses the map's own
    enumeration for the drops, the starts are sorted by name as in the code. *)

From S2P Require Import Prelude Pod Bus.
Import Pod.
Local Open Scope Z_scope.

Module Containers.

(** ** The runtime interface *)

Class Runtime (S : Type) := {
  rt_Pull : string -> S -> gerr * S;
  rt_Start : WorkloadContainer -> S -> gerr * S;
  rt_Stop : string -> S -> gerr * S;
  rt_Running : S -> result (list string) * S
}.

(** The contract: what a nil result means for the containers alive, and that
    Running lists them. *)
Class RuntimeLaws (S : Type) `{Runtime S} := {
  alive : S -> gmap string WorkloadContainer;
  Pull_law : forall image s, (rt_Pull image s).1 = None -> alive (rt_Pull image s).2 = alive s;
  Start_law : forall c s, (rt_Start c s).1 = None ->
    alive (rt_Start c s).2 = <[wc_Name c := c]> (alive s);
  Stop_law : forall n s, (rt_Stop n s).1 = None -> alive (rt_Stop n s).2 = delete n (alive s);
  Running_law : forall s ns, (rt_Running s).1 = Ok ns -> forall n, n ∈ ns <-> is_Some (alive s !! n)
}.

(** ** containerEqual *)

Fixpoint stringSliceEq (a b : list string) : bool :=
  match a, b with
  | [], [] => true
  | x :: a', y :: b' => bool_decide (x = y) && stringSliceEq a' b'
  | _, _ => false
  end.

Fixpoint mountsEq (a b : list ContainerMount) : bool :=
  match a, b with
  | [], [] => true
  | x :: a', y :: b' => bool_decide (x = y) && mountsEq a' b'
  | _, _ => false
  end.

(** [b.Env[k]] of a missing key is the empty string. *)
Definition envEq (a b : gmap string string) : bool :=
  bool_decide (size a = size b) &&
  forallb (fun kv => bool_decide (default "" (b !! kv.1) = kv.2)) (map_to_list a).

Definition containerEqual (a b : WorkloadContainer) : bool :=
  bool_decide (wc_Image a = wc_Image b) && bool_decide (wc_WorkingDir a = wc_WorkingDir b) &&
  bool_decide (wc_Net a = wc_Net b) &&
  stringSliceEq (wc_Command a) (wc_Command b) && stringSliceEq (wc_Args a) (wc_Args b) &&
  envEq (wc_Env a) (wc_Env b) && mountsEq (wc_Mounts a) (wc_Mounts b).

(** ** Reconciler *)

Abbreviation desired_set := (gmap string WorkloadContainer).

Section reconciler.
Context {S : Type} `{Runtime S}.

(** [record]: the first error is kept. *)
Definition keep_first (firstErr err : gerr) : gerr :=
  match firstErr with Some e => Some e | None => err end.

Definition next_of (l : list WorkloadContainer) : desired_set :=
  foldl (fun m c => <[wc_Name c := c]> m) ∅ l.

Definition drop_one (next : desired_set) (acc : gerr * S) (name : string) : gerr * S :=
  match next !! name with
  | Some _ => acc
  | None => let '(err, s) := rt_Stop name acc.2 in (keep_first acc.1 err, s)
  end.

(** Pull, then start. *)
Definition launch (want : WorkloadContainer) (acc : gerr * S) : gerr * S :=
  let '(err, s) := rt_Pull (wc_Image want) acc.2 in
  match err with
  | Some e => (keep_first acc.1 (Some (Errorf "pull %s: %w" [EStr (wc_Image want); EErr e])), s)
  | None => let '(err, s) := rt_Start want s in (keep_first acc.1 err, s)
  end.

Definition start_one (desired next : desired_set) (acc : gerr * S) (name : string) : gerr * S :=
  match next !! name with
  | None => acc
  | Some want =>
      match desired !! name with
      | Some prev =>
          if containerEqual prev want then acc
          else launch want (let '(err, s) := rt_Stop name acc.2 in (keep_first acc.1 err, s))
      | None => launch want acc
      end
  end.

Definition keys_of (m : desired_set) : list string := fst <$> map_to_list m.

Definition Apply (set : ContainerSet) (desired : desired_set) (s : S) : gerr * (desired_set * S) :=
  match ContainerSet_Validate set with
  | (_, Some e) => (Some (Errorf "containers: invalid set: %w" [EErr e]), (desired, s))
  | (set, None) =>
      let next := next_of (cs_Containers set) in
      let acc := foldl (drop_one next) (None, s) (keys_of desired) in
      let names := merge_sort String.le (keys_of next) in
      let acc := foldl (start_one desired next) acc names in
      (acc.1, (next, acc.2))
  end.

Definition HandleMessage (Unmarshal : bytes -> result ContainerSet) (data : bytes)
    (st : desired_set * S) : gerr * (desired_set * S) :=
  match Unmarshal data with
  | Err e => (Some (Errorf "decode container set: %w" [EErr e]), st)
  | Ok set => Apply set st.1 st.2
  end.

(** [NewReconciler]: nothing is desired yet, whatever the runtime runs. *)
Definition NewReconciler (runtime : S) : desired_set * S := (∅, runtime).

(** [NewSubscriber]: the VM's id and a reconciler of its own. *)
Record Subscriber := mkSubscriber { sub_vmID : string; sub_rec : desired_set * S }.
Definition NewSubscriber (vmID : string) (runtime : S) : Subscriber := mkSubscriber vmID (NewReconciler runtime).

(** The subscription callback: the log line, whether the message was
    acknowledged, and the subscriber afterwards. *)
Definition onMessage (Unmarshal : bytes -> result ContainerSet) (data : bytes) (sub : Subscriber)
    : option error * bool * Subscriber :=
  let '(err, rec) := HandleMessage Unmarshal data (sub_rec sub) in
  ((fun e => Errorf "containers: apply error: %v" [EErr e]) <$> err, true, mkSubscriber (sub_vmID sub) rec).

(** A restarted reconciler does not know what an earlier one started: told to run
    nothing, it reports success and stops nothing. *)
Lemma restart_stops_nothing runtime version : (version <= ContainerSetVersion)%Z ->
  Apply {| cs_Version := version; cs_Containers := [] |} (NewReconciler runtime).1 runtime = (None, (∅, runtime)).
Proof.
  intros Hv. unfold Apply, ContainerSet_Validate. simpl.
  assert ((ContainerSetVersion <? cs_Version (if (version =? 0)%Z then {| cs_Version := ContainerSetVersion; cs_Containers := [] |}
    else {| cs_Version := version; cs_Containers := [] |}))%Z = false) as ->.
  { apply Z.ltb_ge. destruct (version =? 0)%Z; simpl; lia. }
  by destruct (version =? 0)%Z.
Qed.
End reconciler.
Arguments Subscriber : clear implicits.

(** ** StubRuntime *)

Record StubRuntime := mkStub {
  Pulled : gset string;
  Started : gmap string WorkloadContainer
}.

Definition NewStubRuntime : StubRuntime := mkStub ∅ ∅.
Definition Stub_Pull (image : string) (r : StubRuntime) : gerr * StubRuntime :=
  (None, mkStub ({[image]} ∪ Pulled r) (Started r)).
Definition Stub_Start (c : WorkloadContainer) (r : StubRuntime) : gerr * StubRuntime :=
  (None, mkStub (Pulled r) (<[wc_Name c := c]> (Started r))).
Definition Stub_Stop (name : string) (r : StubRuntime) : gerr * StubRuntime :=
  (None, mkStub (Pulled r) (delete name (Started r))).
Definition Stub_Running (r : StubRuntime) : result (list string) * StubRuntime :=
  (Ok (fst <$> map_to_list (Started r)), r).

#[export] Instance StubRuntime_runtime : Runtime StubRuntime := {
  rt_Pull := Stub_Pull; rt_Start := Stub_Start; rt_Stop := Stub_Stop; rt_Running := Stub_Running
}.

Lemma keys_of_elem (m : gmap string WorkloadContainer) n : n ∈ keys_of m <-> is_Some (m !! n).
Proof.
  unfold keys_of. rewrite list_elem_of_fmap. split.
  - intros ([k c] & -> & Hk%elem_of_map_to_list). eauto.
  - intros [c Hc]. exists (n, c). split; [done|]. by apply elem_of_map_to_list.
Qed.

#[export] Instance StubRuntime_laws : RuntimeLaws StubRuntime.
Proof.
  refine {| alive := Started |}; [done|done|done|].
  intros s ns [= <-] n. apply keys_of_elem.
Defined.

(** ** containerEqual decides "same specification" *)

(** Equal in everything but the name, the restart policy and annotations. *)
Definition same_spec (a b : WorkloadContainer) : Prop :=
  wc_Image a = wc_Image b /\ wc_WorkingDir a = wc_WorkingDir b /\ wc_Net a = wc_Net b /\
  wc_Command a = wc_Command b /\ wc_Args a = wc_Args b /\ wc_Env a = wc_Env b /\ wc_Mounts a = wc_Mounts b.

#[export] Instance same_spec_equiv : Equivalence same_spec.
Proof. unfold same_spec. split; repeat intro; naive_solver congruence. Qed.

Definition no_empty_values (c : WorkloadContainer) : Prop := map_Forall (fun _ v => v <> "") (wc_Env c).

Lemma stringSliceEq_ok a b : stringSliceEq a b = true <-> a = b.
Proof.
  revert b. induction a as [|x a IH]; intros [|y b]; simpl; try done.
  rewrite andb_true_iff, bool_decide_eq_true, IH. naive_solver.
Qed.

Lemma mountsEq_ok a b : mountsEq a b = true <-> a = b.
Proof.
  revert b. induction a as [|x a IH]; intros [|y b]; simpl; try done.
  rewrite andb_true_iff, bool_decide_eq_true, IH. naive_solver.
Qed.

Lemma envEq_refl e : envEq e e = true.
Proof.
  unfold envEq. rewrite bool_decide_eq_true_2 by done. apply forallb_forall. intros [k v] Hk.
  apply bool_decide_eq_true. apply list_elem_of_In, elem_of_map_to_list in Hk. simpl. by rewrite Hk.
Qed.

Lemma envEq_ok a b : map_Forall (fun _ v => v <> "") a -> envEq a b = true <-> a = b.
Proof.
  intros Hv. split; [|intros ->; apply envEq_refl]. unfold envEq. rewrite andb_true_iff, bool_decide_eq_true, forallb_forall.
  intros [Hs Hf]. apply map_subseteq_size_eq; [|lia]. apply map_subseteq_spec. intros k v Hk.
  pose proof (Hv k v Hk) as Hne. apply elem_of_map_to_list, list_elem_of_In in Hk.
  specialize (Hf _ Hk). apply bool_decide_eq_true in Hf. simpl in Hf. destruct (b !! k); simpl in Hf; congruence.
Qed.

Lemma containerEqual_refl c : containerEqual c c = true.
Proof.
  unfold containerEqual. rewrite !bool_decide_eq_true_2 by done. rewrite envEq_refl. simpl.
  by rewrite (proj2 (stringSliceEq_ok _ _) eq_refl), (proj2 (stringSliceEq_ok _ _) eq_refl),
    (proj2 (mountsEq_ok _ _) eq_refl).
Qed.

Lemma containerEqual_ok a b : no_empty_values a -> containerEqual a b = true <-> same_spec a b.
Proof.
  intros Hv. unfold containerEqual, same_spec. rewrite !andb_true_iff, !bool_decide_eq_true,
    !stringSliceEq_ok, mountsEq_ok, envEq_ok by done. tauto.
Qed.

(** containerEqual compares specifications: two containers compare equal
    exactly when image, command, arguments, environment, mounts, working
    directory and network agree, provided the old container's environment has
    no empty value. *)
Theorem containerEqual_correct a b :
  no_empty_values a -> containerEqual a b = true <-> same_spec a b.
Proof. apply containerEqual_ok. Qed.

Definition sample_container : WorkloadContainer := {|
  wc_Name := "web"; wc_Image := "nginx:1"; wc_Command := ["nginx"]; wc_Args := [];
  wc_Env := {[ "PORT" := "80" ]}; wc_Mounts := []; wc_WorkingDir := ""; wc_Net := "host";
  wc_Restart := "always"; wc_Annotations := ∅ |}.

Definition with_env (e : gmap string string) (c : WorkloadContainer) : WorkloadContainer := {|
  wc_Name := wc_Name c; wc_Image := wc_Image c; wc_Command := wc_Command c; wc_Args := wc_Args c;
  wc_Env := e; wc_Mounts := wc_Mounts c; wc_WorkingDir := wc_WorkingDir c; wc_Net := wc_Net c;
  wc_Restart := wc_Restart c; wc_Annotations := wc_Annotations c |}.

Lemma sample_no_empty : no_empty_values sample_container.
Proof. intros k v Hk. simpl in Hk. apply lookup_singleton_Some in Hk as [_ <-]. discriminate. Qed.

Lemma containerEqual_correct_witness :
  containerEqual sample_container (with_env {[ "PORT" := "81" ]} sample_container) = true <->
  same_spec sample_container (with_env {[ "PORT" := "81" ]} sample_container).
Proof. apply (containerEqual_correct _ _ sample_no_empty). Defined.

(** Without the proviso: DEBUG="" replaced by SECRET="x" goes unnoticed. *)
Lemma containerEqual_env_unsound : exists a b,
  containerEqual a b = true /\ ~ same_spec a b.
Proof.
  exists (with_env {[ "DEBUG" := "" ]} sample_container), (with_env {[ "SECRET" := "x" ]} sample_container).
  split; [vm_compute; reflexivity|]. intros (_ & _ & _ & _ & _ & He & _). simpl in He.
  apply (f_equal (lookup "SECRET")) in He. vm_compute in He. discriminate He.
Qed.

(** ** Convergence *)

Section convergence.
Context {S : Type} `{!Runtime S} `{!RuntimeLaws S}.

(** The runtime runs what was last desired, up to restart policy and
    annotations. *)
Definition agrees (d : desired_set) (s : S) : Prop :=
  forall n, option_Forall2 same_spec (d !! n) (alive s !! n).

Lemma keep_first_None a b : keep_first a b = None <-> a = None /\ b = None.
Proof. destruct a; simpl; naive_solver. Qed.

(** Once an error is recorded it stays. *)
Lemma drop_one_err next (acc : gerr * S) n : acc.1 <> None -> (drop_one next acc n).1 <> None.
Proof.
  unfold drop_one. intros Ha. destruct (next !! n); [done|]. destruct (rt_Stop n acc.2). simpl.
  rewrite keep_first_None. tauto.
Qed.

Lemma start_one_err desired next (acc : gerr * S) n : acc.1 <> None -> (start_one desired next acc n).1 <> None.
Proof.
  unfold start_one. intros Ha. destruct (next !! n) as [want|]; [|done].
  assert (forall a : gerr * S, a.1 <> None -> (launch want a).1 <> None) as Hl.
  { intros a Ha'. unfold launch. destruct (rt_Pull (wc_Image want) a.2) as [[e|] s1]; simpl.
    - rewrite keep_first_None. tauto.
    - destruct (rt_Start want s1). simpl. rewrite keep_first_None. tauto. }
  destruct (desired !! n); [destruct (containerEqual _ _); [done|]|]; apply Hl; [|done].
  destruct (rt_Stop n acc.2). simpl. rewrite keep_first_None. tauto.
Qed.

Lemma foldl_err {A : Type} (f : gerr * S -> A -> gerr * S) l (acc : gerr * S) :
  (forall (acc : gerr * S) x, acc.1 <> None -> (f acc x).1 <> None) -> (foldl f acc l).1 = None -> acc.1 = None.
Proof.
  intros Hf. revert acc. induction l as [|x l IH]; intros acc; simpl; [done|].
  intros H%IH. destruct acc.1 eqn:E; [|done]. exfalso. apply (Hf acc x); [congruence|done].
Qed.

(** The drops, when none fails. *)
Lemma drops_ok next ks (acc : gerr * S) :
  (foldl (drop_one next) acc ks).1 = None ->
  forall n, alive (foldl (drop_one next) acc ks).2 !! n =
            if decide (n ∈ ks /\ next !! n = None) then None else alive acc.2 !! n.
Proof.
  revert acc. induction ks as [|k ks IH]; intros acc Hok n; simpl in *.
  { done. }
  rewrite IH by done. apply foldl_err in Hok; [|apply drop_one_err]. unfold drop_one in Hok |- *.
  destruct (next !! k) as [c|] eqn:Hk.
  - destruct (decide (n ∈ ks /\ next !! n = None)), (decide (n ∈ k :: ks /\ next !! n = None)); set_solver.
  - pose proof (Stop_law k acc.2) as Hlaw. destruct (rt_Stop k acc.2) as [err s]. simpl in *.
    apply keep_first_None in Hok as [_ ->]. rewrite (Hlaw eq_refl).
    destruct (decide (n = k)) as [->|Hne].
    + rewrite lookup_delete_eq. rewrite (decide_True (P := k ∈ k :: ks /\ _)) by (split; [by left|done]).
      by case_decide.
    + rewrite lookup_delete_ne by done.
      destruct (decide (n ∈ ks /\ next !! n = None)), (decide (n ∈ k :: ks /\ next !! n = None)); set_solver.
Qed.

(** One start, when it reports no error. *)
Lemma start_one_ok desired next (acc : gerr * S) n want :
  next !! n = Some want -> wc_Name want = n ->
  (forall c, desired !! n = Some c -> no_empty_values c) ->
  option_Forall2 same_spec (desired !! n) (alive acc.2 !! n) ->
  (start_one desired next acc n).1 = None ->
  (forall m, m <> n -> alive (start_one desired next acc n).2 !! m = alive acc.2 !! m) /\
  exists c, alive (start_one desired next acc n).2 !! n = Some c /\ same_spec want c.
Proof.
  intros Hnext Hname Hne Hag. unfold start_one. rewrite Hnext.
  assert (forall a : gerr * S, (launch want a).1 = None ->
            a.1 = None /\ alive (launch want a).2 = <[n := want]> (alive a.2)) as Hl.
  { intros a. unfold launch. pose proof (Pull_law (wc_Image want) a.2) as HP.
    destruct (rt_Pull (wc_Image want) a.2) as [[e|] s1]; simpl in *; [rewrite keep_first_None; by intros [_ ?]|].
    pose proof (Start_law want s1) as HS. destruct (rt_Start want s1) as [err s2]. simpl in *.
    rewrite keep_first_None. intros [? ->]. split; [done|]. by rewrite HS, HP, Hname. }
  destruct (desired !! n) as [prev|] eqn:Hd.
  - destruct (containerEqual prev want) eqn:He.
    + intros Hok. split; [done|]. apply containerEqual_ok in He; [|by apply Hne].
      inversion Hag as [? c Hs Ha Hb|]; subst. exists c. split; [done|]. by etransitivity; [symmetry|].
    + pose proof (Stop_law n acc.2) as Hlaw. destruct (rt_Stop n acc.2) as [err s]. simpl in Hlaw.
      intros Hok. destruct (Hl _ Hok) as [Herr ->]. simpl in Herr. apply keep_first_None in Herr as [_ ->].
      cbn [snd]. rewrite (Hlaw eq_refl). split; [|exists want; rewrite lookup_insert_eq; by split].
      intros m Hm. by rewrite lookup_insert_ne, lookup_delete_ne.
  - intros Hok. destruct (Hl _ Hok) as [_ ->]. split; [|exists want; rewrite lookup_insert_eq; by split].
    intros m Hm. by rewrite lookup_insert_ne.
Qed.

(** The starts, when none fails. *)
Lemma starts_ok desired next ns (acc : gerr * S) :
  NoDup ns -> (forall n, n ∈ ns -> exists want, next !! n = Some want /\ wc_Name want = n) ->
  (forall n c, desired !! n = Some c -> no_empty_values c) ->
  (forall n, n ∈ ns -> option_Forall2 same_spec (desired !! n) (alive acc.2 !! n)) ->
  (foldl (start_one desired next) acc ns).1 = None ->
  (forall m, m ∉ ns -> alive (foldl (start_one desired next) acc ns).2 !! m = alive acc.2 !! m) /\
  (forall n, n ∈ ns -> option_Forall2 same_spec (next !! n) (alive (foldl (start_one desired next) acc ns).2 !! n)).
Proof.
  intros Hnd Hns Hne. revert acc. induction Hnd as [|n ns Hnot Hnd IH]; intros acc Hag Hok; simpl in *.
  { split; [done|]. intros n Hn. by apply not_elem_of_nil in Hn. }
  destruct (Hns n) as (want & Hwant & Hname); [by left|].
  assert ((start_one desired next acc n).1 = None) as Hok1 by (eapply foldl_err; [apply start_one_err|done]).
  destruct (start_one_ok desired next acc n want Hwant Hname (Hne n) (Hag n ltac:(by left)) Hok1) as [Hother (c & Hc & Hsame)].
  destruct (IH ltac:(intros; apply Hns; by right) (start_one desired next acc n)) as [H1 H2]; [|done|].
  { intros m Hm. rewrite Hother; [apply Hag; by right|]. intros ->. done. }
  split.
  - intros m Hm. apply not_elem_of_cons in Hm as [Hm1 Hm2]. rewrite H1 by done. by apply Hother.
  - intros m [->|Hm]%elem_of_cons; [|by apply H2]. rewrite H1, Hwant, Hc by done. by constructor.
Qed.

Lemma next_of_lookup l n c : NoDup (wc_Name <$> l) ->
  next_of l !! n = Some c <-> c ∈ l /\ wc_Name c = n.
Proof.
  unfold next_of. intros Hnd.
  assert (forall m, (foldl (fun m c => <[wc_Name c := c]> m) m l : desired_set) !! n = Some c <->
     (c ∈ l /\ wc_Name c = n) \/ (n ∉ (wc_Name <$> l) /\ m !! n = Some c)) as H.
  { induction l as [|x l IH]; intros m; simpl; [set_solver|].
    simpl in Hnd. apply NoDup_cons in Hnd as [Hx Hnd]. rewrite IH by done. rewrite lookup_insert.
    rewrite elem_of_cons, not_elem_of_cons. case_decide as E; [subst n|]; naive_solver. }
  rewrite (H ∅). rewrite lookup_empty. naive_solver.
Qed.

Lemma Apply_agrees set desired s :
  agrees desired s -> (forall n c, desired !! n = Some c -> no_empty_values c) ->
  (Apply set desired s).1 = None ->
  agrees (Apply set desired s).2.1 (Apply set desired s).2.2 /\
  forall n c, (Apply set desired s).2.1 !! n = Some c <-> c ∈ cs_Containers set /\ wc_Name c = n.
Proof.
  intros Hag Hne. unfold Apply. destruct (ContainerSet_Validate set) as [set' [e|]] eqn:Hv; [done|].
  apply ContainerSet_Validate_ok in Hv as (Heq & _ & _ & Hnd). rewrite Heq.
  set (next := next_of (cs_Containers set)). set (ns := merge_sort String.le (keys_of next)). simpl.
  intros Hok.
  assert (forall n c, next !! n = Some c <-> c ∈ cs_Containers set /\ wc_Name c = n) as Hnext
    by (intros; by apply next_of_lookup).
  assert (forall n, n ∈ ns <-> is_Some (next !! n)) as Hns
    by (intros n; unfold ns; rewrite merge_sort_Permutation; apply keys_of_elem).
  set (acc := foldl (drop_one next) (None, s) (keys_of desired)) in *.
  assert (acc.1 = None) as Hacc by (eapply foldl_err; [apply start_one_err|exact Hok]).
  pose proof (drops_ok next (keys_of desired) (None, s) Hacc) as Hdrop. fold acc in Hdrop. simpl in Hdrop.
  destruct (starts_ok desired next ns acc) as [H1 H2].
  - unfold ns. rewrite merge_sort_Permutation. apply NoDup_fst_map_to_list.
  - intros n [c Hc]%Hns. exists c. split; [done|]. by apply Hnext in Hc as [_ ?].
  - done.
  - intros n Hn%Hns. rewrite Hdrop, decide_False; [apply Hag|]. intros [_ E]. rewrite E in Hn. by destruct Hn.
  - done.
  - split; [|done]. intros n. destruct (next !! n) as [c|] eqn:Hn.
    + rewrite <- Hn. apply H2, Hns. eauto.
    + assert (n ∉ ns) as Hnot by (intros E%Hns; rewrite Hn in E; by destruct E).
      rewrite H1, Hdrop by done. case_decide as Hd; [constructor|].
      specialize (Hag n). destruct (desired !! n) as [c|] eqn:E.
      * exfalso. apply Hd. split; [|done]. apply keys_of_elem. eauto.
      * inversion Hag. constructor.
Qed.

(** C22.  Reconciliation is correct against any runtime that keeps its contract:
    if the runtime runs what the reconciler's record says (not so after an Apply
    that failed, or when the agent was restarted with containers running), no
    container of the record has an empty environment value, and Apply returns nil,
    then the runtime runs exactly the containers of the new set, each with its new
    specification (restart policy and annotations aside), and the record is the
    new set again. *)
Theorem Apply_converges set desired s :
  agrees desired s -> (forall n c, desired !! n = Some c -> no_empty_values c) ->
  (Apply set desired s).1 = None ->
  let '(desired', s') := (Apply set desired s).2 in
  agrees desired' s' /\
  (forall n c, desired' !! n = Some c <-> c ∈ cs_Containers set /\ wc_Name c = n).
Proof.
  intros H1 H2 H3. pose proof (Apply_agrees set desired s H1 H2 H3) as H.
  by destruct ((Apply set desired s).2).
Qed.

Lemma start_skip next (acc : gerr * S) n : (start_one next next acc n) = acc.
Proof.
  unfold start_one. destruct (next !! n) as [c|] eqn:E; [|done]. rewrite containerEqual_refl. done.
Qed.

Lemma drop_skip next (acc : gerr * S) n : is_Some (next !! n) -> drop_one next acc n = acc.
Proof. intros [c Hc]. unfold drop_one. by rewrite Hc. Qed.

(** Publishing the same set again does nothing: whatever the runtime did
    the first time, a second Apply of a valid set makes no runtime call and
    returns nil.  It makes Apply idempotent; it also means that a container
    whose pull, start or stop failed is not retried by a re-publication. *)
Theorem Apply_twice_noop set desired s :
  (ContainerSet_Validate set).2 = None ->
  let '(_, (desired1, s1)) := Apply set desired s in
  Apply set desired1 s1 = (None, (desired1, s1)).
Proof.
  intros Hv. unfold Apply. destruct (ContainerSet_Validate set) as [set' [e|]] eqn:Hval; [done|].
  set (next := next_of (cs_Containers set')). simpl.
  assert (forall ks acc, (forall k, k ∈ ks -> is_Some (next !! k)) -> foldl (drop_one next) acc ks = acc) as Hd.
  { induction ks as [|k ks IH]; intros acc Hks; simpl; [done|].
    rewrite drop_skip by (apply Hks; by left). apply IH. intros; apply Hks; by right. }
  assert (forall ks acc, foldl (start_one next next) acc ks = acc) as Hs.
  { induction ks as [|k ks IH]; intros acc; simpl; [done|]. by rewrite start_skip, IH. }
  rewrite Hd, Hs by (intros k; apply keys_of_elem). done.
Qed.
End convergence.

(** ** The stub runtime: Apply always succeeds on valid sets *)

Definition sample_set : ContainerSet := {| cs_Version := 1; cs_Containers := [sample_container] |}.

Lemma agrees_empty : agrees (S := StubRuntime) ∅ NewStubRuntime.
Proof. intros n. rewrite lookup_empty. simpl. rewrite lookup_empty. constructor. Qed.

(** "web" runs; the new set changes its environment and adds "db". *)
Definition next_set : ContainerSet := {| cs_Version := 1; cs_Containers :=
  [with_env {[ "PORT" := "81" ]} sample_container;
   {| wc_Name := "db"; wc_Image := "pg:16"; wc_Command := []; wc_Args := []; wc_Env := ∅; wc_Mounts := []; wc_WorkingDir := "";
      wc_Net := ""; wc_Restart := ""; wc_Annotations := ∅ |}] |}.

Definition web_up : desired_set * StubRuntime := (Apply sample_set ∅ NewStubRuntime).2.

Lemma web_up_record n c : web_up.1 !! n = Some c -> c = sample_container.
Proof.
  change web_up.1 with ({["web" := sample_container]} : desired_set). intros Hc. by apply lookup_singleton_Some in Hc as [_ <-].
Qed.

Lemma web_up_agrees : agrees web_up.1 web_up.2.
Proof.
  change web_up.1 with ({["web" := sample_container]} : desired_set).
  intros n. change (alive web_up.2) with ({["web" := sample_container]} : desired_set).
  destruct (_ !! n); constructor. reflexivity.
Qed.

Lemma Apply_converges_witness :
  (Apply next_set web_up.1 web_up.2).1 = None /\
  wc_Env <$> Started (Apply next_set web_up.1 web_up.2).2.2 !! "web" = Some {[ "PORT" := "81" ]} /\
  let '(desired', s') := (Apply next_set web_up.1 web_up.2).2 in
  agrees desired' s' /\
  (forall n c, desired' !! n = Some c <-> c ∈ cs_Containers next_set /\ wc_Name c = n).
Proof.
  split; [vm_compute; reflexivity|]. split; [vm_compute; reflexivity|].
  apply (Apply_converges next_set web_up.1 web_up.2 web_up_agrees).
  - intros n c Hc. rewrite (web_up_record n c Hc). apply sample_no_empty.
  - vm_compute. reflexivity.
Defined.

Lemma Apply_twice_noop_witness :
  let '(_, (desired1, s1)) := Apply sample_set ∅ NewStubRuntime in
  Apply sample_set desired1 s1 = (None, (desired1, s1)).
Proof. apply (Apply_twice_noop sample_set ∅ NewStubRuntime). vm_compute. reflexivity. Defined.

(** A runtime that cannot pull. *)
Definition OfflineRuntime : Runtime StubRuntime := {|
  rt_Pull := fun image r => (Some (Sentinel "no route to host"), r);
  rt_Start := Stub_Start; rt_Stop := Stub_Stop; rt_Running := Stub_Running |}.

(** A failed start is reported once and then forgotten: with a registry
    that is down, the first Apply reports the error and starts nothing; the
    re-publication of the same set returns nil although the container is
    still not running. *)
Theorem failed_pull_forgotten :
  let '(err1, (d1, s1)) := Apply (H := OfflineRuntime) sample_set ∅ NewStubRuntime in
  let '(err2, (d2, s2)) := Apply (H := StubRuntime_runtime) sample_set d1 s1 in
  err1 <> None /\ err2 = None /\ Started s2 !! "web" = None.
Proof. vm_compute. split_and!; [discriminate|reflexivity|reflexivity]. Qed.

(** A restarted agent orphans containers: the set without "web" is acknowledged
    and "web" keeps running. *)
Theorem restart_orphans_container :
  let s1 := (Apply sample_set ∅ NewStubRuntime).2.2 in
  let '(err, (_, s2)) := Apply {| cs_Version := 1; cs_Containers := [] |} (NewReconciler s1).1 s1 in
  is_Some (Started s1 !! "web") /\ err = None /\ is_Some (Started s2 !! "web").
Proof. vm_compute. eauto. Qed.

End Containers.
