(* ===== verification/Crun.v ===== *)
(** * The crun runtime (src/pkg/containers/runtime_crun.go)

    Commands (ncl, crun) are run through parameters: [run_cmd argv] performs a
    command on the disk and may fail, [cmd_output] returns its output,
    [LookPath] answers whether a binary is on PATH.  The OCI specification is a
    record; [oci_json] is the nested map the code builds of it, and config.json
    its indented JSON text.  The container's environment is a Go map, ranged over in an unspecified
    order; the model uses the map's enumeration. *)

From S2P Require Import Prelude GoLib Json Reflect FileSys GoPath FsLogic AbsPath FsExec Pod Properties Containers.
Import Pod.

Module Crun.

(** ** The OCI specification *)

(** [options = None]: the key is absent from the JSON object. *)
Record oci_mount := mkMount {
  destination : string; mtype : string; source : string; options : option (list string)
}.

Record oci_caps := mkCaps { bounding : list string; effective : list string; permitted : list string }.

Record oci_process := mkProcess {
  terminal : bool; uid : Z; gid : Z;
  args : list string; env_ : list string; cwd_ : string;
  capabilities : oci_caps; noNewPrivileges : bool
}.

Record oci_spec := mkSpec {
  ociVersion : string;
  process : oci_process;
  root_path : string; root_readonly : bool;
  hostname : string;
  mounts : list oci_mount;
  namespaces : list string
}.

Definition argv (c : WorkloadContainer) : list string :=
  match wc_Command c with
  | [] => ["/bin/sh"; "-c"; "while true; do sleep 3600; done"]
  | _ => wc_Command c ++ wc_Args c
  end.

Definition env (c : WorkloadContainer) : list string :=
  ["PATH=/usr/local/sbin:/usr/local/bin:/usr/sbin:/usr/bin:/sbin:/bin"; "HOME=/root"; "TERM=xterm"] ++
  ((fun kv => kv.1 +:+ "=" +:+ kv.2) <$> map_to_list (wc_Env c)).

Definition cwd (c : WorkloadContainer) : string :=
  if decide (wc_WorkingDir c <> "") then wc_WorkingDir c else "/workspace".

Definition linuxNamespaces (c : WorkloadContainer) : list string :=
  ["pid"; "mount"; "ipc"; "uts"] ++ (if decide (wc_Net c <> "host") then ["network"] else []).

Definition base_mounts : list oci_mount := [
  mkMount "/proc" "proc" "proc" None;
  mkMount "/sys" "sysfs" "sysfs" (Some ["nosuid"; "noexec"; "nodev"; "ro"]);
  mkMount "/dev" "tmpfs" "tmpfs" (Some ["nosuid"; "strictatime"; "mode=755"; "size=65536k"]);
  mkMount "/dev/pts" "devpts" "devpts" (Some ["nosuid"; "noexec"; "newinstance"; "ptmxmode=0666"; "mode=0620"])].

Definition user_mount (m : ContainerMount) : oci_mount :=
  mkMount (cm_MountPath m) "bind" (cm_HostPath m)
    (Some (["bind"; "rprivate"] ++ [if cm_Readonly m then "ro" else "rw"])).

Definition caps : list string := ["CAP_AUDIT_WRITE"; "CAP_KILL"; "CAP_NET_BIND_SERVICE"].

Definition spec_of (c : WorkloadContainer) (src : string) : oci_spec := {|
  ociVersion := "1.0.2";
  process := {| terminal := false; uid := 0; gid := 0;
                args := argv c; env_ := env c; cwd_ := cwd c;
                capabilities := mkCaps caps caps caps; noNewPrivileges := true |};
  root_path := src; root_readonly := false;
  hostname := wc_Name c;
  mounts := base_mounts ++ (user_mount <$> wc_Mounts c);
  namespaces := linuxNamespaces c |}.

(** The [map[string]any] of Start: json.MarshalIndent writes a map's keys in
    order, a slice element by element. *)
Definition jstr (s : string) : Json.json := Json.JStr (chars s).
Definition jstrs (l : list string) : Json.json := Json.JArr (jstr <$> l).
Definition jint (z : Z) : Json.json := Json.JNum (chars (Itoa z)).
Definition jmap (l : list (string * Json.json)) : Json.json :=
  Json.JObj (Reflect.sort_keys ((fun kv => (chars kv.1, kv.2)) <$> l)).

Definition mount_json (m : oci_mount) : Json.json :=
  jmap ([("destination", jstr (destination m)); ("type", jstr (mtype m)); ("source", jstr (source m))] ++
    match options m with Some o => [("options", jstrs o)] | None => [] end).

Definition oci_json (s : oci_spec) : Json.json :=
  let p := process s in
  jmap [
    ("ociVersion", jstr (ociVersion s));
    ("process", jmap [
      ("terminal", Json.JBool (terminal p));
      ("user", jmap [("uid", jint (uid p)); ("gid", jint (gid p))]);
      ("args", jstrs (args p));
      ("env", jstrs (env_ p));
      ("cwd", jstr (cwd_ p));
      ("capabilities", jmap [
        ("bounding", jstrs (bounding (capabilities p)));
        ("effective", jstrs (effective (capabilities p)));
        ("permitted", jstrs (permitted (capabilities p)))]);
      ("noNewPrivileges", Json.JBool (noNewPrivileges p))]);
    ("root", jmap [("path", jstr (root_path s)); ("readonly", Json.JBool (root_readonly s))]);
    ("hostname", jstr (hostname s));
    ("mounts", Json.JArr (mount_json <$> mounts s));
    ("linux", jmap [("namespaces", Json.JArr ((fun t => jmap [("type", jstr t)]) <$> namespaces s))])].

(** [json.MarshalIndent(spec, "", "  ")]: no value of this shape is refused. *)
Definition Marshal (s : oci_spec) : result string := Ok (str (Json.indented (oci_json s))).

Definition refSafe (image : string) : string :=
  replace_bytes ["/"%char; ":"%char; "@"%char] "-"%char image.

(** ** CrunRuntime *)

Section crun.
Context (run_cmd : list string -> M unit) (cmd_output : list string -> M string).
Context (LookPath : string -> gerr).
Context (BundleRoot NCLImagePath : string).
Local Open Scope os_scope.

Definition Pull (image : string) : M unit :=
  match LookPath "ncl" with
  | Some _ => oret tt
  | None => run_cmd ["ncl"; "pull"; "--cache"; NCLImagePath; image]
  end.

Definition bundle_of (name : string) : string := Join BundleRoot name.

Definition Start (c : WorkloadContainer) : M unit :=
  let bundle := bundle_of (wc_Name c) in
  owrap (fun e => Errorf "mkdir bundle %s: %w" [EStr bundle; EErr e]) (os_MkdirAll (Join bundle "rootfs")) ;;;
  let staged := Join (Join NCLImagePath (refSafe (wc_Image c))) "rootfs" in
  info <~ os_Stat staged ;;
  let src := match info with Ok NDir => staged | _ => "/" end in
  match Marshal (spec_of c src) with
  | Err e => ofail (Errorf "marshal config.json: %w" [EErr e])
  | Ok configBytes =>
      owrap (fun e => Errorf "write config.json: %w" [EErr e])
        (os_WriteFile (Join bundle "config.json") configBytes) ;;;
      owrap (fun e => Errorf "crun run %s: %w" [EStr (wc_Name c); EErr e])
        (run_cmd ["crun"; "run"; "--detach"; "--bundle"; bundle; wc_Name c])
  end.

Definition Stop (name : string) : M unit :=
  ignored <~ run_cmd ["crun"; "kill"; name; "SIGTERM"] ;;
  ignored <~ run_cmd ["crun"; "delete"; "-f"; name] ;;
  ignored <~ os_RemoveAll (bundle_of name) ;;
  oret tt.

(** The scanner of [Running]: byte [i] of [out], the start of the current
    line, the names found so far. *)
Definition newline : ascii := "010"%char.

Fixpoint scan (out rest : bytes) (i start : nat) (names : list string) : list string :=
  match rest with
  | [] => if decide (start < length out) then names ++ [str (drop start out)] else names
  | b :: rest' =>
      if decide (b = newline) then
        scan out rest' (S i) (S i)
          (if decide (start < i) then names ++ [str (take (i - start) (drop start out))] else names)
      else scan out rest' (S i) start names
  end.

Definition lines (out : bytes) : list string := scan out out 0 0 [].

Definition Running : M (list string) :=
  out <- cmd_output ["crun"; "list"; "-q"] ;;
  oret (lines (chars out)).

(** As a [Runtime] over the disk. *)
Definition to_gerr {A : Type} (r : result A) : gerr := match r with Ok _ => None | Err e => Some e end.
Definition as_call {A : Type} (c : M A) (d : os) : gerr * os := let '(r, d') := c d in (to_gerr r, d').

Definition CrunRuntime : Containers.Runtime os := {|
  Containers.rt_Pull := fun image => as_call (Pull image);
  Containers.rt_Start := fun c => as_call (Start c);
  Containers.rt_Stop := fun name => as_call (Stop name);
  Containers.rt_Running := Running |}.

(** ** The scanner *)

Lemma split_go_lines cur rest :
  filter (fun b => b <> []) (split_go newline cur rest) =
  match rest with
  | [] => if decide (cur = []) then [] else [cur]
  | b :: rest' =>
      if decide (b = newline)
      then (if decide (cur = []) then [] else [cur]) ++ filter (fun b => b <> []) (split_go newline [] rest')
      else filter (fun b => b <> []) (split_go newline (cur ++ [b]) rest')
  end.
Proof.
  destruct rest as [|b rest]; cbn [split_go].
  - rewrite filter_cons, filter_nil. destruct (decide (cur = [])), (decide (cur <> [])); done.
  - case_decide; [|done]. rewrite filter_cons. destruct (decide (cur = [])), (decide (cur <> [])); done.
Qed.

Lemma scan_spec pre cur rest names :
  newline ∉ cur ->
  scan (pre ++ cur ++ rest) rest (length pre + length cur) (length pre) names =
  names ++ (str <$> filter (fun b => b <> []) (split_go newline cur rest)).
Proof.
  revert pre cur names. induction rest as [|b rest IH]; intros pre cur names Hc; rewrite split_go_lines; cbn [scan].
  - rewrite app_nil_r, length_app. destruct cur as [|x cur]; simpl.
    + rewrite decide_False by lia. by rewrite app_nil_r.
    + rewrite decide_True by lia. by rewrite drop_app_length.
  - case_decide as E.
    + subst b. replace (S (length pre + length cur)) with (length (pre ++ cur ++ [newline]))
        by (rewrite !length_app; simpl; lia).
      replace (pre ++ cur ++ newline :: rest) with ((pre ++ cur ++ [newline]) ++ [] ++ rest)
        by (simpl; by rewrite <- !app_assoc).
      specialize (IH (pre ++ cur ++ [newline]) []). simpl in IH. rewrite Nat.add_0_r in IH.
      simpl. rewrite IH by set_solver. destruct (decide (cur = [])) as [->|Hne].
      * simpl. rewrite decide_False by lia. done.
      * assert (0 < length cur) by (destruct cur; simpl; [done|lia]).
        rewrite decide_True by lia. cbn [app fmap list_fmap]. rewrite <- (app_assoc names). simpl.
        replace (length pre + length cur - length pre) with (length cur) by lia.
        rewrite <- !app_assoc, drop_app_length, take_app_length. done.
    + replace (pre ++ cur ++ b :: rest) with (pre ++ (cur ++ [b]) ++ rest) by (by rewrite <- app_assoc).
      replace (S (length pre + length cur)) with (length pre + length (cur ++ [b]))
        by (rewrite length_app; simpl; lia).
      apply IH. rewrite elem_of_app, list_elem_of_singleton. naive_solver.
Qed.

(** Running lists the non-empty lines of crun's output, in order: the
    index scanner of the code equals splitting at newlines and dropping empty
    lines, with or without a final newline. *)
Theorem Running_lines out :
  lines out = str <$> filter (fun b => b <> []) (GoLib.split newline out).
Proof.
  unfold lines. pose proof (scan_spec [] [] out []) as H. simpl in H. apply H. set_solver.
Qed.

(** ** Confinement to the bundle directory *)

Section confinement.
Context (name : string) (base : fsys).
Context (Hroot : HasPrefix BundleRoot "/" = true) (Hname : good name).
Local Abbreviation inv := (Properties.tree_inv (bundle_of name) base).

(** What the external commands may do: the theorems are about the agent's own
    calls, so the commands are taken to respect the same boundary. *)
Context (ff : bool)
  (Hcmd : forall a, triple ff inv (fun _ => True) (run_cmd a) (fun _ _ => True)).

Lemma bundle_abs : bundle_of name = abs (path_of BundleRoot ++ [name]) /\
  path_of (bundle_of name) = path_of BundleRoot ++ [name].
Proof.
  destruct (good_key_comps name Hname) as [Hk Hd]. unfold bundle_of.
  rewrite Join_abs by done. rewrite Hk. split; [done|]. apply path_of_abs.
  apply Forall_app. split; [apply path_of_good|by constructor].
Qed.

Lemma in_bundle x : good x ->
  path_of (Join (bundle_of name) x) = path_of (bundle_of name) ++ [x] /\
  good_path (path_of (bundle_of name) ++ [x]).
Proof.
  intros Hx. destruct bundle_abs as [Hb Hp].
  assert (HasPrefix (bundle_of name) "/" = true) as Hr by (rewrite Hb; apply abs_rooted).
  destruct (Properties.Join_inside (bundle_of name) (bundle_of name) x Hr (reflexivity _) Hx) as (_ & -> & _).
  split; [done|]. apply Forall_app. split; [apply path_of_good|by constructor].
Qed.

Lemma RemoveAll_inside p : path_of (bundle_of name) `prefix_of` path_of p ->
  triple ff inv (fun _ => True) (os_RemoveAll p) (fun _ _ => True).
Proof.
  intros Hpre. apply t_guarded; [|done]. intros fs (Hw & Hn & Hc) _. split; [|done]. simpl.
  assert (forall q n, (filter (fun qn : path * node => under (path_of p) qn.1 = false) fs) !! q = Some n <->
            fs !! q = Some n /\ under (path_of p) q = false) as Hlk.
  { intros q n. by rewrite map_lookup_filter_Some. }
  split_and!.
  - destruct Hw as [Hw1 Hw2]. split.
    + apply eq_None_not_Some. intros [n [Hq _]%Hlk]. congruence.
    + intros q c n [Hq Hu]%Hlk. pose proof (Hw2 _ _ _ Hq) as Hd.
      destruct q as [|x q]; [done|]. simpl in *. apply Hlk. split; [done|].
      unfold under in *. rewrite bool_decide_eq_false in *. intros Heq. apply Hu.
      rewrite app_comm_cons, take_app_le; [done|].
      apply (f_equal length) in Heq. rewrite length_take in Heq. lia.
  - intros q n [Hq _]%Hlk. by apply (Hn q n).
  - intros q Hq. assert (under (path_of p) q = false) as Hu.
    { unfold under. apply bool_decide_eq_false. intros E. apply Hq. etransitivity; [exact Hpre|].
      rewrite <- E. apply prefix_take. }
    rewrite map_lookup_filter. specialize (Hc q Hq).
    destruct (fs !! q) as [n|] eqn:E; simpl.
    + rewrite option_guard_True by done. done.
    + exact Hc.
Qed.

Lemma Stop_inside : triple ff inv (fun _ => True) (Stop name) (fun r _ => r = Ok tt).
Proof using Hcmd.
  do 2 (eapply t_catch; [apply Hcmd|]; intros ?).
  eapply t_catch; [by apply RemoveAll_inside|]. intros ?. by apply t_ret.
Qed.

Lemma Start_inside c : wc_Name c = name ->
  triple ff inv (fun _ => True) (Start c) (fun _ _ => True).
Proof.
  intros E. unfold Start. rewrite E. cbv zeta.
  assert (good "rootfs" /\ good "config.json") as [Hg1 Hg2].
  { split; apply (bool_decide_unpack _); vm_compute; exact Logic.I. }
  destruct (in_bundle "rootfs" Hg1) as [Ep1 Gp1]. destruct (in_bundle "config.json" Hg2) as [Ep2 Gp2].
  apply (t_bind _ _ _ (fun _ _ => True)); [apply (t_wrap _ _ _ (fun _ _ => True)); [|done|done]| |done].
  { apply MkdirAll_spec; [apply Properties.tree_inv_wf|]. intros r fs g HI _ Hw Hgr _. split; [|done].
    rewrite Ep1 in Hgr. refine (Properties.tree_inv_grown _ _ fs g _ HI _ Gp1 Hw Hgr). by apply prefix_app_r. }
  intros []. apply (t_catch _ _ _ (fun _ _ => True)); [by apply t_guarded|]. intros info.
  destruct (Marshal _); [|by apply t_fail].
  apply (t_bind _ _ _ (fun _ _ => True)); [apply (t_wrap _ _ _ (fun _ _ => True)); [|done|done]| |done].
  { eapply t_conseq; [apply (WriteFile_spec ff inv (fun _ => True))|done|done];
      [apply Properties.tree_inv_wf| |done].
    intros fs d HI Hw. rewrite Ep2 in *. apply Properties.tree_inv_insert; try done. by apply prefix_app_r. }
  intros []. apply (t_wrap _ _ _ (fun _ _ => True)); [|done|done].
  eapply t_conseq; [apply Hcmd|done|done].
Qed.

End confinement.

End crun.

(** Starting and stopping a container whose name is a plain path component
    touches, under every schedule of faults, nothing outside its own bundle
    directory (directories created on the way to it excepted), as long as the
    external commands do not; and Stop never reports an error. *)
Theorem crun_confined run_cmd BundleRoot NCLImagePath c w :
  HasPrefix BundleRoot "/" = true -> good (wc_Name c) ->
  (forall a, triple false (Properties.tree_inv (bundle_of BundleRoot (wc_Name c)) (files w)) (fun _ => True)
     (run_cmd a) (fun _ _ => True)) ->
  wf (files w) -> Properties.names_ok (files w) ->
  let inside := Properties.confined (bundle_of BundleRoot (wc_Name c)) (files w) in
  (exists h, history (Start run_cmd BundleRoot NCLImagePath c w).2 = history w ++ h /\ Forall inside h) /\
  (exists h, history (Stop run_cmd BundleRoot (wc_Name c) w).2 = history w ++ h /\ Forall inside h) /\
  (Stop run_cmd BundleRoot (wc_Name c) w).1 = Ok tt.
Proof.
  intros Hr Hg Hcmd Hw Hn inside.
  assert (Properties.tree_inv (bundle_of BundleRoot (wc_Name c)) (files w) (files w)) as HI.
  { split_and!; [done|done|]. intros q _. by left. }
  assert (forall h, Forall (Properties.tree_inv (bundle_of BundleRoot (wc_Name c)) (files w)) h -> Forall inside h) as Hin.
  { intros h HF. eapply Forall_impl; [exact HF|]. by intros fs (_ & _ & ?). }
  assert (triple false (Properties.tree_inv (bundle_of BundleRoot (wc_Name c)) (files w)) (fun _ => True)
            (Start run_cmd BundleRoot NCLImagePath c) (fun _ _ => True)) as H1 by (by eapply Start_inside).
  assert (triple false (Properties.tree_inv (bundle_of BundleRoot (wc_Name c)) (files w)) (fun _ => True)
            (Stop run_cmd BundleRoot (wc_Name c)) (fun r _ => r = Ok tt)) as H2 by (by apply Stop_inside).
  destruct (triple_run _ _ _ _ w H1 HI Logic.I) as ((h1 & Hh1 & HF1) & _ & _).
  destruct (triple_run _ _ _ _ w H2 HI Logic.I) as ((h2 & Hh2 & HF2) & _ & Hok).
  split_and!; eauto.
Qed.

Definition sample_container (name : string) : WorkloadContainer :=
  {| wc_Name := name; wc_Image := "docker.io/library/alpine:3"; wc_Command := []; wc_Args := []; wc_Env := ∅;
     wc_Mounts := []; wc_Net := ""; wc_WorkingDir := ""; wc_Restart := ""; wc_Annotations := ∅ |}.

Lemma crun_confined_witness :
  let inside := Properties.confined "/run/weft/containers/web" ∅ in
  exists h, history (Stop (fun _ => oret tt) "/run/weft/containers" "web" (mk_os ∅ [] [])).2 = [] ++ h /\ Forall inside h.
Proof.
  apply (crun_confined (fun _ => oret tt) "/run/weft/containers" "/run/weft/images"
           (sample_container "web") (mk_os ∅ [] [])).
  - reflexivity.
  - apply (bool_decide_unpack _). vm_compute. exact Logic.I.
  - intros a. by apply t_ret.
  - apply wf_empty.
  - apply Properties.names_ok_empty.
Defined.

(** The proviso on the name is needed: the name ".." passes Validate, and
    stopping that container removes the parent of the bundle root with all it
    holds. *)
Theorem Stop_dotdot_escapes :
  let set := {| cs_Version := 1; cs_Containers := [sample_container ".."] |} in
  let disk := {[ ["run"] := NDir; ["run"; "weft"] := NDir; ["run"; "weft"; "keys"] := NFile "secret" ]} : fsys in
  ContainerSet_Validate set = (set, None) /\
  files (Stop (fun _ => oret tt) "/run/weft/containers" ".." (mk_os disk [] [])).2 !! ["run"; "weft"; "keys"] = None.
Proof. split; vm_compute; reflexivity. Qed.


End Crun.
