(* ===== verification/ExecSession.v ===== *)
(** * Exec sessions: requests, the registry and its goroutines
      (src/pkg/execsession/execsession.go, subscriber_linux.go)

    A session's context is a number drawn from a counter; calling its cancel
    function puts the number into [cancelled].  The registry maps a session ID
    to the context registered under it.  The subscriber is a step relation:
    the NATS callback (decode, then Open and the start of the goroutine), the
    goroutines (each ends with the deferred Close of the request's ID), and the
    stop function (Unsubscribe, then CloseAll), in any interleaving; the mutex
    makes Open, Close and CloseAll single steps. *)

From S2P Require Import Prelude GoLib.

Module ExecSession.

(** ** Requests *)

Record ExecTarget := {
  Kind : string; Container : string; Command : list string; Args : list string;
  Env : gmap string string; WorkDir : string
}.

Record ExecRequest := {
  ID : string; Target : ExecTarget; InitialCols : Z; InitialRows : Z
}.

#[export] Instance ExecTarget_eq_dec : EqDecision ExecTarget.
Proof. solve_decision. Defined.
#[export] Instance ExecRequest_eq_dec : EqDecision ExecRequest.
Proof. solve_decision. Defined.

Definition Validate (r : ExecRequest) : gerr :=
  if decide (ID r = "") then Some (errors_New "exec: ID required")
  else if decide (Kind (Target r) = "shell") then None
  else if decide (Kind (Target r) = "exec") then
    if decide (Container (Target r) = "") then Some (errors_New "exec: container required when kind=exec")
    else if decide (Command (Target r) = []) then Some (errors_New "exec: command required when kind=exec")
    else None
  else Some (Errorf "exec: invalid kind %q (shell|exec)" [EStr (Kind (Target r))]).

(** For any decoder; GuestPlane uses it with the one of Messages. *)
Definition DecodeRequest (Unmarshal : bytes -> result ExecRequest) (data : bytes) : result ExecRequest :=
  match Unmarshal data with
  | Err e => Err (Errorf "decode exec request: %w" [EErr e])
  | Ok r => match Validate r with Some e => Err e | None => Ok r end
  end.

(** ** The registry *)

Abbreviation context := nat.

Record registry := mkRegistry {
  live : gmap string context;
  cancelled : gset context
}.

Definition NewSessions : registry := mkRegistry ∅ ∅.

Definition cancel (c : context) (s : registry) : registry :=
  mkRegistry (live s) ({[c]} ∪ cancelled s).

Definition Open (id : string) (c : context) (s : registry) : registry :=
  let s' := match live s !! id with Some existing => cancel existing s | None => s end in
  mkRegistry (<[id:=c]> (live s')) (cancelled s').

Definition Close (id : string) (s : registry) : registry :=
  match live s !! id with
  | Some existing => let s' := cancel existing s in mkRegistry (delete id (live s')) (cancelled s')
  | None => s
  end.

Definition CloseAll (s : registry) : registry :=
  mkRegistry ∅ (list_to_set (map_to_list (live s)).*2 ∪ cancelled s).

(** ** The subscriber *)

Record subscriber := mkSub {
  sessions : registry;
  next : context;                     (* the next fresh context *)
  running : gmap context string;      (* pump goroutines, by context: the request's ID *)
  subscribed : bool;
  inflight : option ExecRequest;      (* a callback past DecodeRequest *)
  stopped : bool                      (* the stop function has returned *)
}.

Definition NewSubscriber : subscriber := mkSub NewSessions 0 ∅ true None false.

Section subscriber.
Context (Unmarshal : bytes -> result ExecRequest).

(** The callback's second half: WithCancel, Open, go. *)
Definition open_session (req : ExecRequest) (s : subscriber) : subscriber :=
  mkSub (Open (ID req) (next s) (sessions s)) (S (next s)) (<[next s := ID req]> (running s))
    (subscribed s) None (stopped s).

(** A goroutine returns from Run and its deferred Close runs. *)
Definition pump_returns (c : context) (id : string) (s : subscriber) : subscriber :=
  mkSub (Close id (sessions s)) (next s) (delete c (running s)) (subscribed s) (inflight s) (stopped s).

Definition decoded (req : ExecRequest) (s : subscriber) : subscriber :=
  mkSub (sessions s) (next s) (running s) (subscribed s) (Some req) (stopped s).

Definition unsubscribe (s : subscriber) : subscriber :=
  mkSub (sessions s) (next s) (running s) false (inflight s) (stopped s).

Definition close_all (s : subscriber) : subscriber :=
  mkSub (CloseAll (sessions s)) (next s) (running s) (subscribed s) (inflight s) true.

(** Callbacks of one subscription run one at a time; Unsubscribe does not wait
    for the one in progress. *)
Inductive step : subscriber -> subscriber -> Prop :=
| s_bad data s e : subscribed s = true -> inflight s = None ->
    DecodeRequest Unmarshal data = Err e -> step s s
| s_decode data s req : subscribed s = true -> inflight s = None ->
    DecodeRequest Unmarshal data = Ok req -> step s (decoded req s)
| s_open s req : inflight s = Some req -> step s (open_session req s)
| s_return s c id : running s !! c = Some id -> step s (pump_returns c id s)
| s_unsubscribe s : step s (unsubscribe s)
| s_close_all s : subscribed s = false -> step s (close_all s).

Definition reachable (s : subscriber) : Prop := rtc step NewSubscriber s.

(** ** Requests: lemmas *)

(** A request the subscriber acts on. *)
Definition acceptable (r : ExecRequest) : Prop :=
  ID r <> "" /\
  (Kind (Target r) = "shell" \/
   (Kind (Target r) = "exec" /\ Container (Target r) <> "" /\ Command (Target r) <> [])).

Lemma acceptable_ok r : Validate r = None <-> acceptable r.
Proof. unfold Validate, acceptable. repeat case_decide; naive_solver. Qed.

(** ** The registry invariant *)

Definition tracked (s : subscriber) : Prop :=
  (forall id c, live (sessions s) !! id = Some c ->
     running s !! c = Some id /\ c ∉ cancelled (sessions s)) /\
  (forall c id, running s !! c = Some id ->
     live (sessions s) !! id = Some c \/ c ∈ cancelled (sessions s)) /\
  (forall c, is_Some (running s !! c) \/ c ∈ cancelled (sessions s) -> c < next s).

Lemma Open_cancelled id c s x : x ∈ cancelled (Open id c s) <-> live s !! id = Some x \/ x ∈ cancelled s.
Proof. unfold Open. case_match; simpl; set_solver. Qed.

Lemma Open_live id c s : live (Open id c s) = <[id:=c]> (live s).
Proof. unfold Open. by case_match. Qed.

Lemma Close_cancelled id s x : x ∈ cancelled (Close id s) <-> live s !! id = Some x \/ x ∈ cancelled s.
Proof. unfold Close. case_match; simpl; set_solver. Qed.

Lemma Close_live id s : live (Close id s) = delete id (live s).
Proof. unfold Close. case_match; simpl; [done|]. by rewrite delete_id. Qed.

Lemma CloseAll_cancelled s x :
  x ∈ cancelled (CloseAll s) <-> (exists id, live s !! id = Some x) \/ x ∈ cancelled s.
Proof.
  simpl. rewrite elem_of_union, elem_of_list_to_set, list_elem_of_fmap. split; intros [H|H]; auto; left.
  - destruct H as ([id c] & -> & H%elem_of_map_to_list). eauto.
  - destruct H as [id H]. exists (id, x). by rewrite elem_of_map_to_list.
Qed.

Lemma tracked_open s req : tracked s -> tracked (open_session req s).
Proof.
  intros (Hl & Hr & Hn). split_and!; cbn [sessions running next open_session].
  - intros id c. rewrite Open_live, lookup_insert. case_decide as E.
    + intros [= <-]. subst id. rewrite lookup_insert_eq. split; [done|]. rewrite Open_cancelled.
      intros [H|H]; [apply Hl in H as [H _]; assert (next s < next s) by (apply Hn; eauto)|
                     assert (next s < next s) by (apply Hn; eauto)]; lia.
    + intros H. pose proof (Hl _ _ H) as [H1 H2].
      assert (c < next s) by (apply Hn; eauto). rewrite lookup_insert_ne by lia. split; [done|].
      rewrite Open_cancelled. intros [H3|H3]; [|done]. apply Hl in H3 as [H3 _]. congruence.
  - intros c id. rewrite Open_live, Open_cancelled, lookup_insert. case_decide as E.
    + intros [= <-]. subst c. rewrite lookup_insert_eq. by left.
    + intros H. destruct (Hr _ _ H) as [H1|H1]; [|by right; right].
      destruct (decide (ID req = id)) as [->|]; [by right; left|]. rewrite lookup_insert_ne by done. by left.
  - intros c. rewrite Open_cancelled, lookup_insert. case_decide as E; [subst; lia|].
    intros [H|[H|H]]; [| |]; assert (c < next s); try lia; apply Hn; auto.
    apply Hl in H as [H _]. eauto.
Qed.

Lemma tracked_return s c id : running s !! c = Some id -> tracked s -> tracked (pump_returns c id s).
Proof.
  intros Hc (Hl & Hr & Hn). split_and!; cbn [sessions running next pump_returns].
  - intros id' x. rewrite Close_live, Close_cancelled. intros [Hne H]%lookup_delete_Some.
    pose proof (Hl _ _ H) as [H1 H2]. rewrite lookup_delete_ne by congruence. split; [done|].
    intros [H3|H3]; [|done]. apply Hl in H3 as [H3 _]. congruence.
  - intros x id' [Hne H]%lookup_delete_Some. rewrite Close_live, Close_cancelled.
    destruct (Hr _ _ H) as [H1|H1]; [|by right; right].
    destruct (decide (id = id')) as [->|]; [by right; left|]. rewrite lookup_delete_ne by done. by left.
  - intros x. rewrite Close_cancelled. intros [[id' [_ H]%lookup_delete_Some]|[H|H]]; apply Hn; eauto.
    apply Hl in H as [H _]. eauto.
Qed.

Lemma tracked_step s t : step s t -> tracked s -> tracked t.
Proof.
  intros Hst Ht. destruct Hst; try exact Ht; [by apply tracked_open|by apply tracked_return|].
  destruct Ht as (Hl & Hr & Hn). split_and!; cbn [sessions close_all running next].
  - intros id c. simpl. by rewrite lookup_empty.
  - intros c id Hc. right. apply CloseAll_cancelled. destruct (Hr _ _ Hc); eauto.
  - intros c. rewrite CloseAll_cancelled. intros [Hc|[[id Hc]|Hc]]; apply Hn; eauto.
    apply Hl in Hc as [Hc _]. eauto.
Qed.

Lemma tracked_init : tracked NewSubscriber.
Proof. split_and!; simpl; intros *; rewrite ?lookup_empty; [done|done|]. intros [[? ?]|?]; [done|set_solver]. Qed.

Lemma reachable_tracked s : reachable s -> tracked s.
Proof. intros H. eapply (rtc_invariant step tracked); [|apply tracked_init|exact H]. intros a b Ha Hab. by eapply tracked_step. Qed.

(** Once stopped with no callback in progress, nothing is opened any more. *)
Definition quiesced (s : subscriber) : Prop :=
  subscribed s = false /\ inflight s = None /\
  forall c id, running s !! c = Some id -> c ∈ cancelled (sessions s).

Lemma quiesced_step s t : quiesced s -> step s t -> quiesced t.
Proof.
  intros (Hs & Hi & Hr) Hst. destruct Hst; try congruence.
  - split_and!; [done|done|]. intros x y. cbn [running sessions pump_returns].
    intros [_ Hx]%lookup_delete_Some. apply Close_cancelled. eauto.
  - done.
  - split_and!; [done|done|]. intros x y Hx. apply CloseAll_cancelled. eauto.
Qed.

(** No session is lost track of: in every reachable state of the
    subscriber, a pump goroutine is either the one registered under its ID, with
    its context still open, or its context has been cancelled; and every
    registered context belongs to a goroutine that still runs. *)
Theorem sessions_tracked s : reachable s ->
  (forall c id, running s !! c = Some id ->
     (live (sessions s) !! id = Some c /\ c ∉ cancelled (sessions s)) \/
     (live (sessions s) !! id <> Some c /\ c ∈ cancelled (sessions s))) /\
  (forall id c, live (sessions s) !! id = Some c -> running s !! c = Some id).
Proof.
  intros (Hl & Hr & _)%reachable_tracked. split; [|intros id c H; by apply Hl in H as [? _]].
  intros c id Hc. destruct (decide (live (sessions s) !! id = Some c)) as [E|E].
  - left. split; [done|]. by apply Hl in E as [_ ?].
  - right. split; [done|]. by destruct (Hr _ _ Hc).
Qed.

(** Shutdown tears every session down: when the stop function runs with no
    callback in progress, every pump goroutine's context is cancelled, then and
    in all later states, and no session is opened again. *)
Theorem stop_cancels_every_session s t :
  reachable s -> subscribed s = false -> inflight s = None -> rtc step (close_all s) t ->
  (forall c id, running t !! c = Some id -> c ∈ cancelled (sessions t)) /\ inflight t = None.
Proof.
  intros (_ & Hr & _)%reachable_tracked Hs Hi Hrtc.
  assert (quiesced t) as (_ & ? & ?); [|done].
  eapply (rtc_invariant step quiesced); [apply quiesced_step| |exact Hrtc].
  split_and!; [done|done|]. intros c id Hc. apply CloseAll_cancelled. destruct (Hr _ _ Hc); eauto.
Qed.

(** Opening an ID whose earlier pump has not returned yet replaces the
    session and cancels the earlier one; but when that pump then returns, its
    deferred Close closes the ID, which cancels the new session although its
    process runs. *)
Theorem reopen_cancels_new_session s req c1 :
  reachable s -> inflight s = Some req -> running s !! c1 = Some (ID req) ->
  let s1 := open_session req s in
  let s2 := pump_returns c1 (ID req) s1 in
  step s s1 /\ live (sessions s1) !! ID req = Some (next s) /\ c1 ∈ cancelled (sessions s1) /\
  next s ∉ cancelled (sessions s1) /\
  step s1 s2 /\ running s2 !! next s = Some (ID req) /\ next s ∈ cancelled (sessions s2).
Proof.
  intros Ht%reachable_tracked Hi Hc. pose proof (tracked_open s req Ht) as (Hl' & Hr' & _).
  destruct Ht as (Hl & Hr & Hn). cbv zeta.
  assert (c1 < next s) by (apply Hn; eauto).
  assert (live (sessions (open_session req s)) !! ID req = Some (next s)) as Hlive.
  { cbn [sessions open_session]. by rewrite Open_live, lookup_insert_eq. }
  assert (running (open_session req s) !! c1 = Some (ID req)) as Hrun.
  { cbn [running open_session]. rewrite lookup_insert_ne by lia. done. }
  split_and!; try done.
  - by constructor.
  - destruct (Hr' _ _ Hrun) as [E|E]; [|done]. rewrite Hlive in E. injection E. lia.
  - by apply (Hl' (ID req)).
  - by constructor.
  - cbn [running pump_returns]. rewrite lookup_delete_ne by lia. cbn [running open_session]. by rewrite lookup_insert_eq.
  - cbn [sessions pump_returns]. apply Close_cancelled. by left.
Qed.

End subscriber.

(** ** A concrete run *)

Definition sample_request (id : string) : ExecRequest :=
  {| ID := id; Target := {| Kind := "shell"; Container := ""; Command := []; Args := []; Env := ∅; WorkDir := "" |};
     InitialCols := 80; InitialRows := 24 |}.

(** A decoder that reads the data as the session ID of a shell request. *)
Definition sample_Unmarshal (data : bytes) : result ExecRequest := Ok (sample_request (str data)).

Lemma sample_decodes id s : id <> "" -> subscribed s = true -> inflight s = None ->
  step sample_Unmarshal s (decoded (sample_request id) s).
Proof.
  intros Hid Hs Hi. apply (s_decode _ (chars id)); [done|done|].
  unfold DecodeRequest, sample_Unmarshal. rewrite str_chars.
  replace (Validate (sample_request id)) with (@None error); [done|].
  symmetry. apply acceptable_ok. split; [done|]. by left.
Qed.

(** Session "a" is open and a second request for "a" is being handled. *)
Definition reopening : subscriber :=
  decoded (sample_request "a") (open_session (sample_request "a") (decoded (sample_request "a") NewSubscriber)).

Lemma reopening_reachable : reachable sample_Unmarshal reopening.
Proof.
  eapply rtc_l; [by apply (sample_decodes "a")|]. eapply rtc_l; [by apply s_open|].
  apply rtc_once. by apply sample_decodes.
Qed.

Lemma sessions_tracked_witness :
  live (sessions reopening) !! "a" = Some 0 /\ running reopening !! 0 = Some "a".
Proof.
  split; [reflexivity|].
  apply (sessions_tracked sample_Unmarshal reopening reopening_reachable). reflexivity.
Defined.

Lemma reopen_cancels_new_session_witness :
  1 ∈ cancelled (sessions (pump_returns 0 "a" (open_session (sample_request "a") reopening))).
Proof.
  apply (reopen_cancels_new_session sample_Unmarshal reopening (sample_request "a") 0 reopening_reachable).
  - reflexivity.
  - reflexivity.
Defined.

(** One open session, then Unsubscribe. *)
Definition stopping : subscriber :=
  unsubscribe (open_session (sample_request "a") (decoded (sample_request "a") NewSubscriber)).

Lemma stopping_reachable : reachable sample_Unmarshal stopping.
Proof.
  eapply rtc_l; [by apply (sample_decodes "a")|]. eapply rtc_l; [by apply s_open|].
  apply rtc_once. by apply s_unsubscribe.
Qed.

Lemma stop_cancels_every_session_witness :
  (forall c id, running (close_all stopping) !! c = Some id -> c ∈ cancelled (sessions (close_all stopping))) /\
  inflight (close_all stopping) = None.
Proof.
  apply (stop_cancels_every_session sample_Unmarshal stopping (close_all stopping) stopping_reachable).
  - reflexivity.
  - reflexivity.
  - apply rtc_refl.
Defined.

(** The proviso on callbacks in progress is needed: a request decoded before
    Unsubscribe can be opened after CloseAll, and is then not cancelled. *)
Lemma stop_misses_callback_in_progress :
  let s := open_session (sample_request "a") (close_all (unsubscribe (decoded (sample_request "a") NewSubscriber))) in
  reachable sample_Unmarshal s /\ stopped s = true /\ running s !! 0 = Some "a" /\ 0 ∉ cancelled (sessions s).
Proof.
  split_and!; [|done|done|apply (bool_decide_unpack _); vm_compute; exact Logic.I].
  eapply rtc_l; [by apply (sample_decodes "a")|]. eapply rtc_l; [by apply s_unsubscribe|].
  eapply rtc_l; [by apply s_close_all|]. apply rtc_once. by apply s_open.
Qed.

End ExecSession.
