(* ===== verification/Messages.v ===== *)
(** * The messages of the event bus as JSON

    For every struct the agent decodes or encodes: its reflected type (the
    fields with their tags), the view of a decoded value as the record the
    components work on, and the value a record is marshalled from.  The view
    forgets what the record does not have: nil or empty, the order of a map,
    spare cells.  [MessageLaws] is what the components need of it; from the
    laws come the round trip and the typing of every message at once. *)

From S2P Require Import Prelude GoLib Strconv Json Reflect Pod SshKeys Properties ExecSession.

Local Open Scope Z_scope.
Local Open Scope go_scope.

Module Messages.

Import Json Reflect.

(** ** Views of a value *)

Definition as_string (v : goval) : string := match v with GString s => str s | _ => "" end.
Definition as_bool (v : goval) : bool := match v with GBool b => b | _ => false end.
Definition as_int (v : goval) : Z := match v with GInt z => z | _ => 0 end.
Definition as_list {A} (f : goval -> A) (v : goval) : list A := match v with GSlice vis _ => f <$> vis | _ => [] end.
Definition as_map {A} (f : goval -> A) (v : goval) : gmap string A :=
  match v with GMap l => list_to_map ((fun kv => (str kv.1, f kv.2)) <$> l) | _ => ∅ end.
Definition as_ptr {A} (f : goval -> A) (v : goval) : option A := match v with GPtr v' => Some (f v') | _ => None end.
Definition fld (i : nat) (v : goval) : goval := default GNil (fields v !! i).

(** ** Values of records: empty slices and maps are nil *)

Definition of_string (s : string) : goval := GString (chars s).
Definition of_list {A} (f : A -> goval) (l : list A) : goval := match l with [] => GNil | _ => GSlice (f <$> l) [] end.
Definition of_map {A} (f : A -> goval) (m : gmap string A) : goval :=
  match map_to_list m with [] => GNil | l => GMap ((fun kv => (chars kv.1, f kv.2)) <$> l) end.
Definition of_ptr {A} (f : A -> goval) (o : option A) : goval := match o with Some a => GPtr (f a) | None => GNil end.

Definition any : bytes -> bool := fun _ => true.

Class Message (A : Type) := { go_type : gotype; of_go : goval -> A; to_go : A -> goval }.
Arguments go_type A {_}.
#[global] Hint Mode Message ! : typeclass_instances.

Definition Unmarshal {A} `{Message A} (data : bytes) : result A := v <-? Reflect.Unmarshal data (go_type A) ; Ok (of_go v).
Definition Marshal {A} `{Message A} (a : A) : result bytes := Ok (Reflect.Marshal (go_type A) (to_go a)).
Definition MarshalIndent {A} `{Message A} (a : A) : result bytes := Ok (Reflect.MarshalIndent (go_type A) (to_go a)).

Arguments Unmarshal : simpl never.
Arguments Marshal : simpl never.
Arguments MarshalIndent : simpl never.

(** A view does not see what marshalling loses. *)
Definition norm_field (omit : bool) (t : gotype) (v : goval) : goval := if omit && isEmpty v then zero t else norm t v.

Definition respects {A} (t : gotype) (f : goval -> A) : Prop :=
  forall v omit, has_type any t v = true -> f (norm_field omit t v) = f v.

Class MessageLaws (A : Type) `{Message A} : Prop := {
  go_type_wf : wf_type (go_type A) && (type_depth (go_type A) <=? maxNestingDepth) = true;
  of_go_respects : respects (go_type A) (of_go (A := A));
  of_to : forall a : A, of_go (to_go a) = a
}.

(** What can be marshalled without loss: strings of valid UTF-8, integers of
    their width. *)
Definition valid {A} `{Message A} (a : A) : Prop := has_type Valid (go_type A) (to_go a) = true.

(** ** Views respect *)

Lemma has_type_any ok t v : has_type ok t v = true -> has_type any t v = true.
Proof.
  revert v. induction t as [| |b|b|t IH|t IH|t IH|fs IH] using gotype_ind; intros v; destruct v; try done; simpl; auto.
  - rewrite !forallb_forall. auto.
  - rewrite !andb_true_iff, !forallb_forall. intros [H ?]. split; [|done]. intros kv Hin.
    specialize (H kv Hin). apply andb_true_iff in H as [_ H]. auto.
  - rewrite !all2_Forall2. intros H. induction H as [|f v fs vs Hf _ IHv]; [constructor|].
    apply Forall_cons in IH as [IHf IH]. constructor; auto.
Qed.

Lemma string_respects : respects TString as_string.
Proof. intros v omit Hv. destruct v; try done. unfold norm_field. simpl. destruct (omit && _) eqn:E; [|done].
  apply andb_true_iff in E as [_ E]. to_prop. by subst. Qed.
Lemma bool_respects : respects TBool as_bool.
Proof. intros v omit Hv. destruct v as [|[]| | | | | |], omit; done. Qed.
Lemma int_respects b : respects (TInt b) as_int.
Proof. intros v omit Hv. destruct v; try done. unfold norm_field. simpl. destruct (omit && _) eqn:E; [|done].
  apply andb_true_iff in E as [_ E]. to_prop. by subst. Qed.
Lemma uint_respects b : respects (TUint b) as_int.
Proof. intros v omit Hv. destruct v; try done. unfold norm_field. simpl. destruct (omit && _) eqn:E; [|done].
  apply andb_true_iff in E as [_ E]. to_prop. by subst. Qed.

Lemma respects_norm {A} t (f : goval -> A) v : respects t f -> has_type any t v = true -> f (norm t v) = f v.
Proof. intros Hf Hv. exact (Hf v false Hv). Qed.

Lemma list_respects {A} t (f : goval -> A) : respects t f -> respects (TSlice t) (as_list f).
Proof.
  intros Hf v omit Hv. destruct v as [| | | |vis spare| | |]; try done; [by destruct omit|].
  assert (as_list f (norm (TSlice t) (GSlice vis spare)) = f <$> vis) as Hn.
  { simpl in *. apply forallb_app_iff in Hv as [Hv _]. rewrite forallb_forall in Hv.
    change (map (norm t) vis) with (norm t <$> vis). rewrite <- list_fmap_compose. apply list_fmap_ext. intros i x Hx. simpl.
    apply respects_norm; [done|]. apply Hv, list_elem_of_In. by eapply list_elem_of_lookup_2. }
  unfold norm_field. destruct (omit && _) eqn:E; [|done]. apply andb_true_iff in E as [_ E]. simpl in E. to_prop. by subst.
Qed.

Lemma list_to_map_keys {A} (l m : list (bytes * A)) : l ≡ₚ m -> NoDup l.*1 ->
  (list_to_map ((fun kv => (str kv.1, kv.2)) <$> l) : gmap string A) = list_to_map ((fun kv => (str kv.1, kv.2)) <$> m).
Proof.
  intros Hp Hnd. apply list_to_map_proper; [|by rewrite Hp]. rewrite <- list_fmap_compose.
  change (NoDup ((str ∘ fst) <$> l)). rewrite list_fmap_compose. by apply NoDup_fmap; [apply _|].
Qed.

Lemma map_respects {A} t (f : goval -> A) : respects t f -> respects (TMap t) (as_map f).
Proof.
  intros Hf v omit Hv. destruct v as [| | | | |l| |]; try done; [by destruct omit|].
  assert (as_map f (norm (TMap t) (GMap l)) = as_map f (GMap l)) as Hn.
  { simpl in *. apply andb_true_iff in Hv as [Hv Hnd]. to_prop.
    change (map (fun kv => (kv.1, norm t kv.2)) (sort_keys l)) with ((fun kv => (kv.1, norm t kv.2)) <$> sort_keys l).
    rewrite <- list_fmap_compose.
    assert (forall m, m ≡ₚ l -> (list_to_map ((fun kv => (str kv.1, f kv.2)) <$> m) : gmap string A) =
      list_to_map ((fun kv => (str kv.1, f kv.2)) <$> l)) as Hp.
    { intros m Hm. pose proof (list_to_map_keys (prod_map id f <$> m) (prod_map id f <$> l)) as H.
      rewrite <- !list_fmap_compose in H. apply H; [by rewrite Hm|]. change (NoDup (fst <$> m)). by rewrite Hm. }
    rewrite <- (Hp (sort_keys l) (sort_keys_perm l)). f_equal. apply list_fmap_ext. intros i [k x] Hx. simpl.
    f_equal. apply respects_norm; [done|]. rewrite <- (forallb_perm _ _ _ (sort_keys_perm l)), forallb_forall in Hv.
    specialize (Hv (k, x) (proj1 (list_elem_of_In _ _) (list_elem_of_lookup_2 _ _ _ Hx))). exact Hv. }
  unfold norm_field. destruct (omit && _) eqn:E; [|done]. apply andb_true_iff in E as [_ E]. simpl in E. by destruct l.
Qed.

Lemma ptr_respects {A} t (f : goval -> A) : respects t f -> respects (TPtr t) (as_ptr f).
Proof.
  intros Hf v omit Hv. destruct v; try done; [by destruct omit|]. unfold norm_field. rewrite andb_false_r. simpl.
  f_equal. by apply respects_norm.
Qed.

(** A field of a struct. *)
Lemma fld_respects {A} fs i f t (g : goval -> A) v : fs !! i = Some (f, t) -> respects t g ->
  has_type any (TStruct fs) v = true -> g (fld i (norm (TStruct fs) v)) = g (fld i v).
Proof.
  intros Hi Hg Hv. destruct v as [| | | | | | |vs]; try done. unfold fld. cbn [norm fields has_type] in *.
  apply all2_Forall2 in Hv. revert i Hi. induction Hv as [|[f' t'] v fs vs Hv _ IH]; intros i Hi; [done|].
  destruct i as [|i]; simpl in *; [|by apply IH]. simplify_eq. exact (Hg v (f_omitempty f) Hv).
Qed.

Lemma struct_norm fs v omit : has_type any (TStruct fs) v = true -> norm_field omit (TStruct fs) v = norm (TStruct fs) v.
Proof. intros Hv. destruct v; try done. unfold norm_field. by rewrite andb_false_r. Qed.

Create HintDb message.
#[export] Hint Resolve string_respects bool_respects int_respects uint_respects list_respects map_respects ptr_respects : message.

(** The view of a struct is the constructor applied to views of its fields. *)
Ltac struct_respects := intros ?v ?omit ?Hv; rewrite struct_norm by done; cbv beta;
  f_equal; (eapply fld_respects; [reflexivity|eauto with message|done]).

Lemma string_of_to s : as_string (of_string s) = s.
Proof. apply str_chars. Qed.

Lemma list_of_to {A} (f : goval -> A) g l : (forall a, f (g a) = a) -> as_list f (of_list g l) = l.
Proof.
  intros Hfg. destruct l as [|x l]; [done|]. unfold of_list, as_list. rewrite <- list_fmap_compose.
  rewrite <- (list_fmap_id (x :: l)) at 2. apply list_fmap_ext. intros. apply Hfg.
Qed.

Lemma map_of_to {A} (f : goval -> A) g (m : gmap string A) : (forall a, f (g a) = a) -> as_map f (of_map g m) = m.
Proof.
  intros Hfg. rewrite <- (list_to_map_to_list m) at 2. unfold of_map. destruct (map_to_list m) as [|kv l]; [done|].
  unfold as_map. rewrite <- list_fmap_compose. f_equal. rewrite <- (list_fmap_id (kv :: l)) at 2. apply list_fmap_ext.
  intros i [k x] _. simpl. by rewrite str_chars, Hfg.
Qed.

Lemma ptr_of_to {A} (f : goval -> A) g o : (forall a, f (g a) = a) -> as_ptr f (of_ptr g o) = o.
Proof. intros Hfg. destruct o; simpl; [by rewrite Hfg|done]. Qed.

#[export] Hint Resolve string_of_to list_of_to map_of_to ptr_of_to : message.

Ltac struct_of_to := cbn; rewrite ?str_chars, ?string_of_to; f_equal; eauto with message.

(** ** The structs *)

Definition req (name : string) (t : gotype) : field * gotype := ({| f_name := name; f_omitempty := false |}, t).
Definition opt (name : string) (t : gotype) : field * gotype := ({| f_name := name; f_omitempty := true |}, t).

(** sshkeys.Key *)
Definition Key_type : gotype := TStruct [
  req "public_key" TString].
Definition Key_of (v : goval) : SshKeys.Key := {|
  SshKeys.PublicKey := as_string (fld 0 v) |}.
Definition Key_to (x : SshKeys.Key) : goval := GStruct [
  of_string (SshKeys.PublicKey x)].
Lemma Key_respects : respects Key_type Key_of.
Proof. unfold Key_type, Key_of. struct_respects. Qed.
Lemma Key_of_to x : Key_of (Key_to x) = x.
Proof. destruct x. unfold Key_of, Key_to, fld. struct_of_to. Qed.
#[export] Hint Resolve Key_respects Key_of_to : message.

(** sshkeys.KeySet *)
Definition KeySet_type : gotype := TStruct [
  req "keys" (TSlice Key_type)].
Definition KeySet_of (v : goval) : SshKeys.KeySet := {|
  SshKeys.Keys := as_list Key_of (fld 0 v) |}.
Definition KeySet_to (x : SshKeys.KeySet) : goval := GStruct [
  of_list Key_to (SshKeys.Keys x)].
Lemma KeySet_respects : respects KeySet_type KeySet_of.
Proof. unfold KeySet_type, KeySet_of. struct_respects. Qed.
Lemma KeySet_of_to x : KeySet_of (KeySet_to x) = x.
Proof. destruct x. unfold KeySet_of, KeySet_to, fld. struct_of_to. Qed.
#[export] Hint Resolve KeySet_respects KeySet_of_to : message.
#[export] Instance KeySet_message : Message SshKeys.KeySet := {| go_type := KeySet_type; of_go := KeySet_of; to_go := KeySet_to |}.
#[export] Instance KeySet_laws : MessageLaws SshKeys.KeySet.
Proof. split; [reflexivity|apply KeySet_respects|apply KeySet_of_to]. Qed.

(** properties.PropertySet: the record is the map itself. *)
Definition PropertySet_type : gotype := TStruct [req "properties" (TMap TString)].
Definition PropertySet_of (v : goval) : Properties.PropertySet := as_map as_string (fld 0 v).
Definition PropertySet_to (ps : Properties.PropertySet) : goval := GStruct [of_map of_string ps].
#[export] Instance PropertySet_message : Message Properties.PropertySet :=
  {| go_type := PropertySet_type; of_go := PropertySet_of; to_go := PropertySet_to |}.
#[export] Instance PropertySet_laws : MessageLaws Properties.PropertySet.
Proof.
  split; [reflexivity| |intros m; cbn; apply map_of_to, string_of_to].
  intros v omit Hv. cbn -[norm_field] in *. unfold PropertySet_of, PropertySet_type in *. rewrite struct_norm by done.
  eapply fld_respects; [reflexivity|eauto with message|done].
Qed.

(** pod.WGPeer (spec.go) *)
Definition WGPeer_type : gotype := TStruct [
  req "public_key" TString;
  opt "endpoint" TString;
  req "allowed_ips" (TSlice TString);
  opt "persistent_keepalive" (TUint 16)].
Definition WGPeer_of (v : goval) : Pod.WGPeer := {|
  Pod.wp_PublicKey := as_string (fld 0 v);
  Pod.wp_Endpoint := as_string (fld 1 v);
  Pod.wp_AllowedIPs := as_list as_string (fld 2 v);
  Pod.wp_PersistentKeepalive := as_int (fld 3 v) |}.
Definition WGPeer_to (x : Pod.WGPeer) : goval := GStruct [
  of_string (Pod.wp_PublicKey x); of_string (Pod.wp_Endpoint x); of_list of_string (Pod.wp_AllowedIPs x); GInt (Pod.wp_PersistentKeepalive x)].
Lemma WGPeer_respects : respects WGPeer_type WGPeer_of.
Proof. unfold WGPeer_type, WGPeer_of. struct_respects. Qed.
Lemma WGPeer_of_to x : WGPeer_of (WGPeer_to x) = x.
Proof. destruct x. unfold WGPeer_of, WGPeer_to, fld. struct_of_to. Qed.
#[export] Hint Resolve WGPeer_respects WGPeer_of_to : message.

(** pod.WireGuard (spec.go) *)
Definition WireGuard_type : gotype := TStruct [
  opt "interface" TString;
  req "private_key" TString;
  opt "listen_port" (TUint 16);
  req "address" TString;
  opt "peers" (TSlice WGPeer_type)].
Definition WireGuard_of (v : goval) : Pod.WireGuard := {|
  Pod.wg_Interface := as_string (fld 0 v);
  Pod.wg_PrivateKey := as_string (fld 1 v);
  Pod.wg_ListenPort := as_int (fld 2 v);
  Pod.wg_Address := as_string (fld 3 v);
  Pod.wg_Peers := as_list WGPeer_of (fld 4 v) |}.
Definition WireGuard_to (x : Pod.WireGuard) : goval := GStruct [
  of_string (Pod.wg_Interface x); of_string (Pod.wg_PrivateKey x); GInt (Pod.wg_ListenPort x); of_string (Pod.wg_Address x); of_list WGPeer_to (Pod.wg_Peers x)].
Lemma WireGuard_respects : respects WireGuard_type WireGuard_of.
Proof. unfold WireGuard_type, WireGuard_of. struct_respects. Qed.
Lemma WireGuard_of_to x : WireGuard_of (WireGuard_to x) = x.
Proof. destruct x. unfold WireGuard_of, WireGuard_to, fld. struct_of_to. Qed.
#[export] Hint Resolve WireGuard_respects WireGuard_of_to : message.
#[export] Instance WireGuard_message : Message Pod.WireGuard := {| go_type := WireGuard_type; of_go := WireGuard_of; to_go := WireGuard_to |}.
#[export] Instance WireGuard_laws : MessageLaws Pod.WireGuard.
Proof. split; [reflexivity|apply WireGuard_respects|apply WireGuard_of_to]. Qed.

(** pod.FirewallRule (firewall.go) *)
Definition FirewallRule_type : gotype := TStruct [
  req "direction" TString;
  opt "protocol" TString;
  opt "port_min" (TUint 16);
  opt "port_max" (TUint 16);
  opt "remote_cidr" TString].
Definition FirewallRule_of (v : goval) : Pod.FirewallRule := {|
  Pod.fr_Direction := as_string (fld 0 v);
  Pod.fr_Protocol := as_string (fld 1 v);
  Pod.fr_PortMin := as_int (fld 2 v);
  Pod.fr_PortMax := as_int (fld 3 v);
  Pod.fr_RemoteCIDR := as_string (fld 4 v) |}.
Definition FirewallRule_to (x : Pod.FirewallRule) : goval := GStruct [
  of_string (Pod.fr_Direction x); of_string (Pod.fr_Protocol x); GInt (Pod.fr_PortMin x); GInt (Pod.fr_PortMax x); of_string (Pod.fr_RemoteCIDR x)].
Lemma FirewallRule_respects : respects FirewallRule_type FirewallRule_of.
Proof. unfold FirewallRule_type, FirewallRule_of. struct_respects. Qed.
Lemma FirewallRule_of_to x : FirewallRule_of (FirewallRule_to x) = x.
Proof. destruct x. unfold FirewallRule_of, FirewallRule_to, fld. struct_of_to. Qed.
#[export] Hint Resolve FirewallRule_respects FirewallRule_of_to : message.

(** pod.Firewall (firewall.go) *)
Definition Firewall_type : gotype := TStruct [
  req "rules" (TSlice FirewallRule_type)].
Definition Firewall_of (v : goval) : Pod.Firewall := {|
  Pod.fw_Rules := as_list FirewallRule_of (fld 0 v) |}.
Definition Firewall_to (x : Pod.Firewall) : goval := GStruct [
  of_list FirewallRule_to (Pod.fw_Rules x)].
Lemma Firewall_respects : respects Firewall_type Firewall_of.
Proof. unfold Firewall_type, Firewall_of. struct_respects. Qed.
Lemma Firewall_of_to x : Firewall_of (Firewall_to x) = x.
Proof. destruct x. unfold Firewall_of, Firewall_to, fld. struct_of_to. Qed.
#[export] Hint Resolve Firewall_respects Firewall_of_to : message.
#[export] Instance Firewall_message : Message Pod.Firewall := {| go_type := Firewall_type; of_go := Firewall_of; to_go := Firewall_to |}.
#[export] Instance Firewall_laws : MessageLaws Pod.Firewall.
Proof. split; [reflexivity|apply Firewall_respects|apply Firewall_of_to]. Qed.

(** pod.CubeFSMount (share.go) *)
Definition CubeFSMount_type : gotype := TStruct [
  req "volume" TString;
  req "masters" (TSlice TString);
  req "owner" TString;
  opt "access_key" TString;
  opt "secret_key" TString;
  opt "subdir" TString].
Definition CubeFSMount_of (v : goval) : Pod.CubeFSMount := {|
  Pod.cf_Volume := as_string (fld 0 v);
  Pod.cf_Masters := as_list as_string (fld 1 v);
  Pod.cf_Owner := as_string (fld 2 v);
  Pod.cf_AccessKey := as_string (fld 3 v);
  Pod.cf_SecretKey := as_string (fld 4 v);
  Pod.cf_SubDir := as_string (fld 5 v) |}.
Definition CubeFSMount_to (x : Pod.CubeFSMount) : goval := GStruct [
  of_string (Pod.cf_Volume x); of_list of_string (Pod.cf_Masters x); of_string (Pod.cf_Owner x); of_string (Pod.cf_AccessKey x); of_string (Pod.cf_SecretKey x); of_string (Pod.cf_SubDir x)].
Lemma CubeFSMount_respects : respects CubeFSMount_type CubeFSMount_of.
Proof. unfold CubeFSMount_type, CubeFSMount_of. struct_respects. Qed.
Lemma CubeFSMount_of_to x : CubeFSMount_of (CubeFSMount_to x) = x.
Proof. destruct x. unfold CubeFSMount_of, CubeFSMount_to, fld. struct_of_to. Qed.
#[export] Hint Resolve CubeFSMount_respects CubeFSMount_of_to : message.

(** pod.ShareMount (share.go) *)
Definition ShareMount_type : gotype := TStruct [
  req "id" TString;
  opt "action" TString;
  opt "backend" TString;
  req "mount_point" TString;
  opt "readonly" TBool;
  opt "cubefs" (TPtr CubeFSMount_type)].
Definition ShareMount_of (v : goval) : Pod.ShareMount := {|
  Pod.sm_ID := as_string (fld 0 v);
  Pod.sm_Action := as_string (fld 1 v);
  Pod.sm_Backend := as_string (fld 2 v);
  Pod.sm_MountPoint := as_string (fld 3 v);
  Pod.sm_Readonly := as_bool (fld 4 v);
  Pod.sm_CubeFS := as_ptr CubeFSMount_of (fld 5 v) |}.
Definition ShareMount_to (x : Pod.ShareMount) : goval := GStruct [
  of_string (Pod.sm_ID x); of_string (Pod.sm_Action x); of_string (Pod.sm_Backend x); of_string (Pod.sm_MountPoint x); GBool (Pod.sm_Readonly x); of_ptr CubeFSMount_to (Pod.sm_CubeFS x)].
Lemma ShareMount_respects : respects ShareMount_type ShareMount_of.
Proof. unfold ShareMount_type, ShareMount_of. struct_respects. Qed.
Lemma ShareMount_of_to x : ShareMount_of (ShareMount_to x) = x.
Proof. destruct x. unfold ShareMount_of, ShareMount_to, fld. struct_of_to. Qed.
#[export] Hint Resolve ShareMount_respects ShareMount_of_to : message.
#[export] Instance ShareMount_message : Message Pod.ShareMount := {| go_type := ShareMount_type; of_go := ShareMount_of; to_go := ShareMount_to |}.
#[export] Instance ShareMount_laws : MessageLaws Pod.ShareMount.
Proof. split; [reflexivity|apply ShareMount_respects|apply ShareMount_of_to]. Qed.

(** The boot-time list of shares is a JSON array. *)
#[export] Instance ShareMounts_message : Message (list Pod.ShareMount) :=
  {| go_type := TSlice ShareMount_type; of_go := as_list ShareMount_of; to_go := of_list ShareMount_to |}.
#[export] Instance ShareMounts_laws : MessageLaws (list Pod.ShareMount).
Proof. split; [reflexivity|apply list_respects, ShareMount_respects|intros l; apply list_of_to, ShareMount_of_to]. Qed.

(** pod.ContainerMount (containers.go) *)
Definition ContainerMount_type : gotype := TStruct [
  req "host_path" TString;
  req "mount_path" TString;
  opt "readonly" TBool].
Definition ContainerMount_of (v : goval) : Pod.ContainerMount := {|
  Pod.cm_HostPath := as_string (fld 0 v);
  Pod.cm_MountPath := as_string (fld 1 v);
  Pod.cm_Readonly := as_bool (fld 2 v) |}.
Definition ContainerMount_to (x : Pod.ContainerMount) : goval := GStruct [
  of_string (Pod.cm_HostPath x); of_string (Pod.cm_MountPath x); GBool (Pod.cm_Readonly x)].
Lemma ContainerMount_respects : respects ContainerMount_type ContainerMount_of.
Proof. unfold ContainerMount_type, ContainerMount_of. struct_respects. Qed.
Lemma ContainerMount_of_to x : ContainerMount_of (ContainerMount_to x) = x.
Proof. destruct x. unfold ContainerMount_of, ContainerMount_to, fld. struct_of_to. Qed.
#[export] Hint Resolve ContainerMount_respects ContainerMount_of_to : message.

(** pod.WorkloadContainer (containers.go) *)
Definition WorkloadContainer_type : gotype := TStruct [
  req "name" TString;
  req "image" TString;
  opt "command" (TSlice TString);
  opt "args" (TSlice TString);
  opt "env" (TMap TString);
  opt "mounts" (TSlice ContainerMount_type);
  opt "working_dir" TString;
  opt "net" TString;
  opt "restart" TString;
  opt "annotations" (TMap TString)].
Definition WorkloadContainer_of (v : goval) : Pod.WorkloadContainer := {|
  Pod.wc_Name := as_string (fld 0 v);
  Pod.wc_Image := as_string (fld 1 v);
  Pod.wc_Command := as_list as_string (fld 2 v);
  Pod.wc_Args := as_list as_string (fld 3 v);
  Pod.wc_Env := as_map as_string (fld 4 v);
  Pod.wc_Mounts := as_list ContainerMount_of (fld 5 v);
  Pod.wc_WorkingDir := as_string (fld 6 v);
  Pod.wc_Net := as_string (fld 7 v);
  Pod.wc_Restart := as_string (fld 8 v);
  Pod.wc_Annotations := as_map as_string (fld 9 v) |}.
Definition WorkloadContainer_to (x : Pod.WorkloadContainer) : goval := GStruct [
  of_string (Pod.wc_Name x); of_string (Pod.wc_Image x); of_list of_string (Pod.wc_Command x); of_list of_string (Pod.wc_Args x); of_map of_string (Pod.wc_Env x); of_list ContainerMount_to (Pod.wc_Mounts x); of_string (Pod.wc_WorkingDir x); of_string (Pod.wc_Net x); of_string (Pod.wc_Restart x); of_map of_string (Pod.wc_Annotations x)].
Lemma WorkloadContainer_respects : respects WorkloadContainer_type WorkloadContainer_of.
Proof. unfold WorkloadContainer_type, WorkloadContainer_of. struct_respects. Qed.
Lemma WorkloadContainer_of_to x : WorkloadContainer_of (WorkloadContainer_to x) = x.
Proof. destruct x. unfold WorkloadContainer_of, WorkloadContainer_to, fld. struct_of_to. Qed.
#[export] Hint Resolve WorkloadContainer_respects WorkloadContainer_of_to : message.

(** pod.ContainerSet (containers.go) *)
Definition ContainerSet_type : gotype := TStruct [
  req "version" (TInt 64);
  req "containers" (TSlice WorkloadContainer_type)].
Definition ContainerSet_of (v : goval) : Pod.ContainerSet := {|
  Pod.cs_Version := as_int (fld 0 v);
  Pod.cs_Containers := as_list WorkloadContainer_of (fld 1 v) |}.
Definition ContainerSet_to (x : Pod.ContainerSet) : goval := GStruct [
  GInt (Pod.cs_Version x); of_list WorkloadContainer_to (Pod.cs_Containers x)].
Lemma ContainerSet_respects : respects ContainerSet_type ContainerSet_of.
Proof. unfold ContainerSet_type, ContainerSet_of. struct_respects. Qed.
Lemma ContainerSet_of_to x : ContainerSet_of (ContainerSet_to x) = x.
Proof. destruct x. unfold ContainerSet_of, ContainerSet_to, fld. struct_of_to. Qed.
#[export] Hint Resolve ContainerSet_respects ContainerSet_of_to : message.
#[export] Instance ContainerSet_message : Message Pod.ContainerSet := {| go_type := ContainerSet_type; of_go := ContainerSet_of; to_go := ContainerSet_to |}.
#[export] Instance ContainerSet_laws : MessageLaws Pod.ContainerSet.
Proof. split; [reflexivity|apply ContainerSet_respects|apply ContainerSet_of_to]. Qed.

(** pod.FirewallStatus (firewallstatus.go) *)
Definition FirewallStatus_type : gotype := TStruct [
  req "Overall" TString;
  req "TableInstalled" TBool;
  req "RulesInstalled" (TInt 64);
  opt "LastError" TString;
  req "PublishedAtUnix" (TInt 64);
  opt "DropsPackets" (TUint 64);
  opt "DropsBytes" (TUint 64)].
Definition FirewallStatus_of (v : goval) : Pod.FirewallStatus := {|
  Pod.fs_Overall := as_string (fld 0 v);
  Pod.fs_TableInstalled := as_bool (fld 1 v);
  Pod.fs_RulesInstalled := as_int (fld 2 v);
  Pod.fs_LastError := as_string (fld 3 v);
  Pod.fs_PublishedAtUnix := as_int (fld 4 v);
  Pod.fs_DropsPackets := as_int (fld 5 v);
  Pod.fs_DropsBytes := as_int (fld 6 v) |}.
Definition FirewallStatus_to (x : Pod.FirewallStatus) : goval := GStruct [
  of_string (Pod.fs_Overall x); GBool (Pod.fs_TableInstalled x); GInt (Pod.fs_RulesInstalled x); of_string (Pod.fs_LastError x); GInt (Pod.fs_PublishedAtUnix x); GInt (Pod.fs_DropsPackets x); GInt (Pod.fs_DropsBytes x)].
Lemma FirewallStatus_respects : respects FirewallStatus_type FirewallStatus_of.
Proof. unfold FirewallStatus_type, FirewallStatus_of. struct_respects. Qed.
Lemma FirewallStatus_of_to x : FirewallStatus_of (FirewallStatus_to x) = x.
Proof. destruct x. unfold FirewallStatus_of, FirewallStatus_to, fld. struct_of_to. Qed.
#[export] Hint Resolve FirewallStatus_respects FirewallStatus_of_to : message.
#[export] Instance FirewallStatus_message : Message Pod.FirewallStatus := {| go_type := FirewallStatus_type; of_go := FirewallStatus_of; to_go := FirewallStatus_to |}.
#[export] Instance FirewallStatus_laws : MessageLaws Pod.FirewallStatus.
Proof. split; [reflexivity|apply FirewallStatus_respects|apply FirewallStatus_of_to]. Qed.

(** execsession.ExecTarget *)
Definition ExecTarget_type : gotype := TStruct [
  req "kind" TString;
  opt "container" TString;
  opt "command" (TSlice TString);
  opt "args" (TSlice TString);
  opt "env" (TMap TString);
  opt "work_dir" TString].
Definition ExecTarget_of (v : goval) : ExecSession.ExecTarget := {|
  ExecSession.Kind := as_string (fld 0 v);
  ExecSession.Container := as_string (fld 1 v);
  ExecSession.Command := as_list as_string (fld 2 v);
  ExecSession.Args := as_list as_string (fld 3 v);
  ExecSession.Env := as_map as_string (fld 4 v);
  ExecSession.WorkDir := as_string (fld 5 v) |}.
Definition ExecTarget_to (x : ExecSession.ExecTarget) : goval := GStruct [
  of_string (ExecSession.Kind x); of_string (ExecSession.Container x); of_list of_string (ExecSession.Command x); of_list of_string (ExecSession.Args x); of_map of_string (ExecSession.Env x); of_string (ExecSession.WorkDir x)].
Lemma ExecTarget_respects : respects ExecTarget_type ExecTarget_of.
Proof. unfold ExecTarget_type, ExecTarget_of. struct_respects. Qed.
Lemma ExecTarget_of_to x : ExecTarget_of (ExecTarget_to x) = x.
Proof. destruct x. unfold ExecTarget_of, ExecTarget_to, fld. struct_of_to. Qed.
#[export] Hint Resolve ExecTarget_respects ExecTarget_of_to : message.

(** execsession.ExecRequest *)
Definition ExecRequest_type : gotype := TStruct [
  req "id" TString;
  req "target" ExecTarget_type;
  opt "cols" (TUint 16);
  opt "rows" (TUint 16)].
Definition ExecRequest_of (v : goval) : ExecSession.ExecRequest := {|
  ExecSession.ID := as_string (fld 0 v);
  ExecSession.Target := ExecTarget_of (fld 1 v);
  ExecSession.InitialCols := as_int (fld 2 v);
  ExecSession.InitialRows := as_int (fld 3 v) |}.
Definition ExecRequest_to (x : ExecSession.ExecRequest) : goval := GStruct [
  of_string (ExecSession.ID x); ExecTarget_to (ExecSession.Target x); GInt (ExecSession.InitialCols x); GInt (ExecSession.InitialRows x)].
Lemma ExecRequest_respects : respects ExecRequest_type ExecRequest_of.
Proof. unfold ExecRequest_type, ExecRequest_of. struct_respects. Qed.
Lemma ExecRequest_of_to x : ExecRequest_of (ExecRequest_to x) = x.
Proof. destruct x. unfold ExecRequest_of, ExecRequest_to, fld. struct_of_to. Qed.
#[export] Hint Resolve ExecRequest_respects ExecRequest_of_to : message.
#[export] Instance ExecRequest_message : Message ExecSession.ExecRequest := {| go_type := ExecRequest_type; of_go := ExecRequest_of; to_go := ExecRequest_to |}.
#[export] Instance ExecRequest_laws : MessageLaws ExecSession.ExecRequest.
Proof. split; [reflexivity|apply ExecRequest_respects|apply ExecRequest_of_to]. Qed.

(** ** Every message *)

Section messages.
Context {A : Type} `{MessageLaws A}.

Lemma go_type_ok : wf_type (go_type A) = true /\ type_depth (go_type A) <= maxNestingDepth.
Proof. pose proof (go_type_wf (A := A)) as Hw. apply andb_true_iff in Hw as [Hw Hd]. by apply Z.leb_le in Hd. Qed.

(** Whatever value of the Go type the sender marshals, in whatever layout, the
    receiver sees the same message. *)
Lemma roundtrip_value nl sp v : (forall k, blank (nl k)) -> blank sp -> has_type Valid (go_type A) v = true ->
  Unmarshal (A := A) (print nl sp 0 (encode (go_type A) v)) = Ok (of_go v).
Proof.
  intros Hnl Hsp Hv. destruct go_type_ok as [Hw Hd]. unfold Unmarshal. rewrite Unmarshal_print by done. cbn [result_bind].
  f_equal. apply (respects_norm (go_type A)); [apply of_go_respects|by eapply has_type_any].
Qed.

Lemma Unmarshal_own (a : A) : valid a -> Unmarshal (Reflect.Marshal (go_type A) (to_go a)) = Ok a.
Proof.
  intros Hv. etransitivity; [apply roundtrip_value; [constructor|constructor|done]|]. f_equal. apply of_to.
Qed.

Lemma roundtrip (a : A) : valid a -> exists b, Marshal a = Ok b /\ Unmarshal b = Ok a.
Proof. intros Hv. eexists. split; [done|]. by apply Unmarshal_own. Qed.

Lemma roundtrip_indent (a : A) : valid a -> exists b, MarshalIndent a = Ok b /\ Unmarshal b = Ok a.
Proof.
  intros Hv. eexists. split; [done|].
  etransitivity; [apply roundtrip_value; [apply newline_blank|repeat constructor|done]|]. f_equal. apply of_to.
Qed.

Lemma Marshal_inj (a b : A) : valid a -> valid b -> Marshal a = Marshal b -> a = b.
Proof.
  intros (x & Ha & Hx)%roundtrip (y & Hb & Hy)%roundtrip He. apply (inj Ok). congruence.
Qed.

(** What is accepted was a value of the Go type, with UTF-8 strings. *)
Lemma decoded data (a : A) : Unmarshal data = Ok a -> exists v, has_type Valid (go_type A) v = true /\ a = of_go v.
Proof.
  destruct go_type_ok as [Hw _]. unfold Unmarshal. destruct (Reflect.Unmarshal data (go_type A)) as [v|e] eqn:E; [|done].
  intros [= <-]. exists v. split; [|done]. by eapply Unmarshal_typed.
Qed.
End messages.

(** ** Values that survive *)

Lemma of_list_typed {B} ok t (g : B -> goval) l : Forall (fun x => has_type ok t (g x) = true) l ->
  has_type ok (TSlice t) (of_list g l) = true.
Proof.
  intros Hl. destruct l as [|x l]; [done|]. unfold of_list. cbn [has_type]. rewrite app_nil_r. apply forallb_forall.
  intros v Hv. apply list_elem_of_In, list_elem_of_fmap in Hv as (y & -> & Hy). rewrite Forall_forall in Hl. auto.
Qed.

Lemma of_map_typed {B} ok t (g : B -> goval) (m : gmap string B) :
  map_Forall (fun k x => ok (chars k) = true /\ has_type ok t (g x) = true) m -> has_type ok (TMap t) (of_map g m) = true.
Proof.
  intros Hm. unfold of_map. destruct (map_to_list m) as [|kv l] eqn:E; [done|]. cbn [has_type]. rewrite <- E.
  apply andb_true_iff. split.
  - apply forallb_forall. intros v Hv. apply list_elem_of_In, list_elem_of_fmap in Hv as ([k x] & -> & Hx).
    apply elem_of_map_to_list, Hm in Hx as [Hk Hx]. cbn [fst snd]. by rewrite Hk, Hx.
  - apply bool_decide_eq_true. rewrite <- list_fmap_compose. change (NoDup ((chars ∘ fst) <$> map_to_list m)).
    rewrite list_fmap_compose. apply NoDup_fmap; [apply _|apply NoDup_fst_map_to_list].
Qed.

Lemma struct_typed ok fs vs : Forall2 (fun f v => has_type ok f.2 v = true) fs vs ->
  has_type ok (TStruct fs) (GStruct vs) = true.
Proof. apply all2_Forall2. Qed.

Definition utf8 (s : string) : Prop := Valid (chars s) = true.
#[export] Instance utf8_dec s : Decision (utf8 s).
Proof. unfold utf8. apply _. Defined.
Definition utf8_list (l : list string) : Prop := Forall utf8 l.
Definition utf8_map (m : gmap string string) : Prop := map_Forall (fun k v => utf8 k /\ utf8 v) m.

Lemma utf8_list_typed l : utf8_list l -> has_type Valid (TSlice TString) (of_list of_string l) = true.
Proof. intros Hl. apply of_list_typed. exact Hl. Qed.

Lemma utf8_map_typed m : utf8_map m -> has_type Valid (TMap TString) (of_map of_string m) = true.
Proof. intros Hm. apply of_map_typed. exact Hm. Qed.

Lemma ascii_Valid b : Forall (fun c => byte_val c < 128) b -> Valid b = true.
Proof.
  unfold Valid, runes. induction 1 as [|c b Hc _ IH]; [done|]. cbn [runes_go].
  assert (DecodeRune (c :: b) = (byte_val c, 1%nat)) as -> by (unfold DecodeRune; by rewrite (proj2 (Z.ltb_lt _ _))).
  cbn [forallb fst snd pred]. rewrite IH, andb_true_r. apply negb_true_iff, andb_false_iff. left. apply Z.eqb_neq. unfold RuneError. lia.
Qed.

Lemma digit_ascii c : is_Some (digit c) -> byte_val c < 128.
Proof. unfold digit. destruct (_ && _) eqn:E; [|by intros []]. apply andb_true_iff in E as [_ E]. to_prop. lia. Qed.

Lemma Itoa_ascii z : Forall (fun c => byte_val c < 128) (chars (Itoa z)).
Proof.
  assert (forall n, 0 <= n -> Forall (fun c => byte_val c < 128) (chars (Itoa n))) as Hn.
  { intros n Hn. destruct (Itoa_digits n Hn) as [_ H]. eapply Forall_impl; [exact H|]. apply digit_ascii. }
  destruct z as [|p|p]; [by apply Hn|by apply Hn|]. rewrite Itoa_neg. constructor; [done|by apply Hn].
Qed.

(** The fields of a struct value one by one. *)
Ltac typed_fields := apply struct_typed; repeat (apply Forall2_cons; split); [..|constructor]; cbn [snd];
  try (reflexivity || eauto using utf8_list_typed, utf8_map_typed || by apply of_list_typed).

(** ** What decoded messages satisfy: integers in range, strings UTF-8 *)

Lemma fld_typed ok fs v i f t : has_type ok (TStruct fs) v = true -> fs !! i = Some (f, t) -> has_type ok t (fld i v) = true.
Proof.
  intros Hv Hi. destruct v as [| | | | | | |vs]; try done. cbn [has_type] in Hv. apply all2_Forall2 in Hv. unfold fld, fields.
  destruct (Forall2_lookup_l _ _ _ _ _ Hv Hi) as (x & Hx & Ht). by rewrite Hx.
Qed.

Lemma as_list_typed {B} ok t (f : goval -> B) (P : B -> Prop) v : has_type ok (TSlice t) v = true ->
  (forall x, has_type ok t x = true -> P (f x)) -> Forall P (as_list f v).
Proof.
  intros Hv Hf. destruct v as [| | | |vis spare| | |]; simpl; try constructor. simpl in Hv. apply forallb_app_iff in Hv as [Hv _].
  rewrite forallb_forall in Hv. apply Forall_fmap, Forall_forall. intros x Hx. apply Hf, Hv. by apply list_elem_of_In.
Qed.

Lemma uint_typed ok b v : has_type ok (TUint b) v = true -> 0 <= as_int v < 2 ^ b.
Proof. destruct v; try done. simpl. intros [H1 H2]%andb_true_iff. to_prop. lia. Qed.

Lemma int_typed ok b v : has_type ok (TInt b) v = true -> - 2 ^ (b - 1) <= as_int v < 2 ^ (b - 1).
Proof. destruct v; try done. simpl. intros [H1 H2]%andb_true_iff. to_prop. lia. Qed.

Lemma Firewall_decoded data (fw : Pod.Firewall) : Unmarshal data = Ok fw ->
  Forall (fun r => 0 <= Pod.fr_PortMin r < 2 ^ 16 /\ 0 <= Pod.fr_PortMax r < 2 ^ 16) (Pod.fw_Rules fw).
Proof.
  intros (v & Hv & ->)%decoded. cbn [of_go Firewall_message]. unfold Firewall_of. cbn [Pod.fw_Rules].
  apply (as_list_typed Valid FirewallRule_type); [exact (fld_typed Valid _ _ 0 _ _ Hv eq_refl)|].
  intros x Hx. unfold FirewallRule_of. cbn [Pod.fr_PortMin Pod.fr_PortMax].
  split; apply (uint_typed Valid); [exact (fld_typed Valid _ _ 2 _ _ Hx eq_refl)|exact (fld_typed Valid _ _ 3 _ _ Hx eq_refl)].
Qed.

Lemma WireGuard_decoded data (wg : Pod.WireGuard) : Unmarshal data = Ok wg -> 0 <= Pod.wg_ListenPort wg < 2 ^ 16 /\
  Forall (fun p => 0 <= Pod.wp_PersistentKeepalive p < 2 ^ 16) (Pod.wg_Peers wg).
Proof.
  intros (v & Hv & ->)%decoded. cbn [of_go WireGuard_message]. unfold WireGuard_of. cbn [Pod.wg_ListenPort Pod.wg_Peers].
  split; [apply (uint_typed Valid); exact (fld_typed Valid _ _ 2 _ _ Hv eq_refl)|].
  apply (as_list_typed Valid WGPeer_type); [exact (fld_typed Valid _ _ 4 _ _ Hv eq_refl)|].
  intros x Hx. apply (uint_typed Valid). exact (fld_typed Valid _ _ 3 _ _ Hx eq_refl).
Qed.

Lemma ExecRequest_decoded data (r : ExecSession.ExecRequest) : Unmarshal data = Ok r ->
  0 <= ExecSession.InitialCols r < 2 ^ 16 /\ 0 <= ExecSession.InitialRows r < 2 ^ 16.
Proof.
  intros (v & Hv & ->)%decoded.
  split; apply (uint_typed Valid); [exact (fld_typed Valid _ _ 2 _ _ Hv eq_refl)|exact (fld_typed Valid _ _ 3 _ _ Hv eq_refl)].
Qed.

Lemma string_typed v : has_type Valid TString v = true -> utf8 (as_string v).
Proof. destruct v as [| |s| | | | |]; try done. unfold utf8. simpl. by rewrite chars_str. Qed.

Lemma strings_typed v : has_type Valid (TSlice TString) v = true -> utf8_list (as_list as_string v).
Proof. intros Hv. apply (as_list_typed Valid TString); [done|]. apply string_typed. Qed.

Lemma env_typed v : has_type Valid (TMap TString) v = true -> utf8_map (as_map as_string v).
Proof.
  destruct v as [| | | | |l| |]; try (intros _; apply map_Forall_empty). simpl. intros [Hl _]%andb_true_iff.
  intros k x Hk. apply elem_of_list_to_map_2, list_elem_of_fmap in Hk as ([b y] & [= -> ->] & Hin).
  rewrite forallb_forall in Hl. apply list_elem_of_In, Hl, andb_true_iff in Hin as [Hb Hy]. simpl in *.
  split; [unfold utf8; by rewrite chars_str|by apply string_typed].
Qed.

(** JSON text with apostrophes for quotation marks, for examples. *)
Definition text (s : string) : bytes := (fun c => if decide (c = "'"%char) then dquote else c) <$> chars s.

(** ** The messages of the bus *)

Section claims.
Context {A : Type} `{MessageLaws A}.

(** C12.  Encoding is faithful: for every message of the bus (key sets,
    properties, WireGuard and firewall configurations, share mounts, container sets,
    firewall status, exec requests) with UTF-8 strings and integers in range, the
    JSON text json.Marshal writes, and the one json.MarshalIndent writes, decodes
    to the same message. *)
Theorem message_roundtrip (a : A) : valid a ->
  exists b c, Marshal a = Ok b /\ MarshalIndent a = Ok c /\ Unmarshal b = Ok a /\ Unmarshal c = Ok a.
Proof.
  intros Hv. destruct (roundtrip a Hv) as (b & Hb & Hb'), (roundtrip_indent a Hv) as (c & Hc & Hc'). by exists b, c.
Qed.

(** C13.  Whatever bytes arrive, what is accepted is a message: a payload
    json.Unmarshal accepts, with whatever escapes, invalid bytes, repeated, unknown
    or differently cased keys, denotes a value of the message's Go type, its
    integers in their widths and its strings UTF-8; and encoding that value and
    decoding it again gives the same message. *)
Theorem accepted_payload data (a : A) : Unmarshal data = Ok a ->
  exists v, has_type Valid (go_type A) v = true /\ a = of_go v /\
    Unmarshal (Reflect.Marshal (go_type A) v) = Ok a /\ Unmarshal (Reflect.MarshalIndent (go_type A) v) = Ok a.
Proof.
  intros (v & Hv & ->)%decoded. exists v. split_and!; [done|done| |].
  - apply roundtrip_value; [constructor|constructor|done].
  - apply roundtrip_value; [apply newline_blank|repeat constructor|done].
Qed.

End claims.

Definition sample_set : Pod.ContainerSet := {| Pod.cs_Version := 1; Pod.cs_Containers := [
  {| Pod.wc_Name := "web"; Pod.wc_Image := "nginx:1"; Pod.wc_Command := ["nginx"; "-g"]; Pod.wc_Args := [];
     Pod.wc_Env := {[ "PORT" := "80" ]}; Pod.wc_Mounts := [{| Pod.cm_HostPath := "/data"; Pod.cm_MountPath := "/srv"; Pod.cm_Readonly := true |}];
     Pod.wc_WorkingDir := ""; Pod.wc_Net := "host"; Pod.wc_Restart := "always"; Pod.wc_Annotations := ∅ |}] |}.

Lemma message_roundtrip_witness : exists b c,
  Marshal sample_set = Ok b /\ MarshalIndent sample_set = Ok c /\ Unmarshal b = Ok sample_set /\ Unmarshal c = Ok sample_set.
Proof. apply (message_roundtrip sample_set). vm_compute. reflexivity. Defined.

(** An escaped surrogate half, a repeated key and one in capitals. *)
Definition odd_payload : bytes := text "{'KEYS': [{'public_key': 'a\ud800', 'x': 1}], 'other': null}".

Lemma accepted_payload_witness : exists v (a : SshKeys.KeySet), Unmarshal odd_payload = Ok a /\
  has_type Valid KeySet_type v = true /\ Unmarshal (Reflect.Marshal KeySet_type v) = Ok a.
Proof.
  destruct (Unmarshal (A := SshKeys.KeySet) odd_payload) as [a|e] eqn:E; [|exfalso; by vm_compute in E].
  destruct (accepted_payload odd_payload a E) as (v & Hv & _ & Hm & _). exists v, a. split; [done|]. split; [exact Hv|exact Hm].
Defined.

End Messages.
