(* ===== verification/CrunConfig.v ===== *)
(** * What crun is given (src/pkg/containers/runtime_crun.go: Start)

    The config.json that Start leaves in the bundle before it runs crun: a JSON
    document whose value is exactly the specification the code built, for every
    container whose strings are UTF-8 (which those decoded from a published set
    are). *)

From S2P Require Import Prelude GoLib Json Reflect FileSys GoPath FsLogic AbsPath FsExec Pod Properties Containers Crun Messages.
Import Pod Crun.

Module CrunConfig.

Import Messages.

(** ** The document *)

Definition utf8_mount (m : ContainerMount) : Prop := utf8 (cm_MountPath m) /\ utf8 (cm_HostPath m).

Definition utf8_container (c : WorkloadContainer) : Prop :=
  utf8 (wc_Name c) /\ utf8_list (wc_Command c) /\ utf8_list (wc_Args c) /\ utf8_map (wc_Env c) /\
  Forall utf8_mount (wc_Mounts c) /\ utf8 (wc_WorkingDir c).

(** Every container of a decoded set has UTF-8 strings. *)
Lemma decoded_utf8 data set : Unmarshal data = Ok set -> Forall utf8_container (cs_Containers set).
Proof.
  intros (v & Hv & ->)%decoded. cbn [of_go ContainerSet_message]. unfold ContainerSet_of. cbn [cs_Containers].
  apply (as_list_typed Json.Valid WorkloadContainer_type); [exact (fld_typed Json.Valid _ _ 1 _ _ Hv eq_refl)|].
  intros x Hx. assert (forall i f t, _ !! i = Some (f, t) -> _) as Hf by exact (fun i f t => fld_typed Json.Valid _ _ i f t Hx).
  split_and!; [apply string_typed|apply strings_typed|apply strings_typed|apply env_typed| |apply string_typed];
    try (eapply Hf; reflexivity).
  apply (as_list_typed Json.Valid ContainerMount_type); [eapply Hf; reflexivity|]. intros m Hm.
  split; apply string_typed; eapply fld_typed; done.
Qed.

(** Well-formed and at most [n] deep. *)
Definition fits (n : Z) (j : Json.json) : Prop := Json.wf j = true /\ (Json.depth j <= n)%Z.

Local Open Scope Z_scope.

Lemma fits_str n s : 0 <= n -> utf8 s -> fits n (jstr s).
Proof. done. Qed.

Lemma fits_bool n b : 0 <= n -> fits n (Json.JBool b).
Proof. done. Qed.

Lemma fits_int n z : 0 <= n -> fits n (jint z).
Proof. split; [apply Reflect.Itoa_number|done]. Qed.

Lemma array_fits n l : 0 <= n -> Forall (fits n) l -> fits (1 + n) (Json.JArr l).
Proof.
  intros Hn H. split; simpl.
  - apply forallb_forall. intros x Hx%list_elem_of_In. by apply (proj1 (Forall_forall _ _) H).
  - apply Z.add_le_mono_l, Reflect.max_bound; [done|]. apply Forall_map. eapply Forall_impl; [exact H|]. by intros x [_ ?].
Qed.

Lemma fits_strs n l : 1 <= n -> utf8_list l -> fits n (jstrs l).
Proof.
  intros Hn H. replace n with (1 + (n - 1)) by lia. apply array_fits; [lia|]. apply Forall_fmap.
  eapply Forall_impl; [exact H|]. intros s Hs. apply fits_str; [lia|done].
Qed.

Lemma object_fits n l : 0 <= n -> Forall (fun kv => utf8 kv.1 /\ fits n kv.2) l -> fits (1 + n) (jmap l).
Proof.
  intros Hn H. unfold jmap, fits. cbn [Json.wf Json.depth].
  pose proof (Reflect.sort_keys_perm ((fun kv : string * Json.json => (chars kv.1, kv.2)) <$> l)) as Hp. split.
  - rewrite (Reflect.forallb_perm _ _ _ Hp). apply forallb_forall. intros x Hx%list_elem_of_In.
    apply list_elem_of_fmap in Hx as (kv & -> & Hkv). apply (proj1 (Forall_forall _ _) H) in Hkv as [Hk [Hv _]].
    simpl. by rewrite Hk, Hv.
  - apply Z.add_le_mono_l, Reflect.max_bound; [done|]. apply Forall_map. rewrite Hp. apply Forall_fmap.
    eapply Forall_impl; [exact H|]. by intros x [_ [_ ?]].
Qed.

Lemma utf8_app a b : utf8 a -> utf8 b -> utf8 (a +:+ b).
Proof. unfold utf8. rewrite chars_app. apply Json.Valid_app. Qed.

Ltac fits_fields := apply object_fits; [lia|]; repeat (apply Forall_cons; split); try apply Forall_nil_2; (split; [by vm_compute|]);
  cbn [snd]; try (apply fits_str; [lia|]); try (apply fits_strs; [lia|]); try (apply fits_bool; lia); try (apply fits_int; lia).

Lemma fits_mount m n : 2 <= n -> utf8 (destination m) -> utf8 (mtype m) -> utf8 (source m) ->
  (forall o, options m = Some o -> utf8_list o) -> fits n (mount_json m).
Proof.
  intros Hn Hd Ht Hs Ho. replace n with (1 + (n - 1)) by lia. unfold mount_json.
  destruct (options m) as [o|]; fits_fields; try done. by apply Ho.
Qed.

Lemma utf8_argv c : utf8_container c -> utf8_list (argv c).
Proof.
  intros (_ & Hc & Ha & _). unfold argv. destruct (wc_Command c) as [|x l]; [apply (bool_decide_unpack _); by vm_compute|].
  by apply Forall_app.
Qed.

Lemma utf8_env c : utf8_container c -> utf8_list (env c).
Proof.
  intros (_ & _ & _ & He & _). apply Forall_app. split; [apply (bool_decide_unpack _); by vm_compute|].
  apply Forall_fmap, Forall_forall. intros [k v] Hkv%elem_of_map_to_list. destruct (He k v Hkv) as [Hk Hv].
  apply utf8_app; [done|]. by apply utf8_app.
Qed.

Lemma utf8_cwd c : utf8_container c -> utf8 (cwd c).
Proof. intros (_ & _ & _ & _ & _ & Hw). unfold cwd. by case_decide. Qed.

Lemma fits_mounts c : utf8_container c -> Forall (fun m => fits 2 (mount_json m)) (mounts (spec_of c "")).
Proof.
  intros (_ & _ & _ & _ & Hm & _). apply Forall_app. split.
  - repeat constructor; by vm_compute.
  - apply Forall_fmap. eapply Forall_impl; [exact Hm|]. intros m [H1 H2]. apply fits_mount; [lia|done|by vm_compute|done|].
    simpl. intros o [= <-]. destruct (cm_Readonly m); apply (bool_decide_unpack _); by vm_compute.
Qed.

(** The specification is a document the encoder writes back exactly. *)
Lemma fits_spec c src : utf8_container c -> utf8 src -> fits 4 (oci_json (spec_of c src)).
Proof.
  intros Hc Hsrc. change 4 with (1 + 3). unfold oci_json. cbv zeta. fits_fields; try done.
  - change 3 with (1 + 2). fits_fields; try done; [by apply utf8_argv|by apply utf8_env|by apply utf8_cwd].
  - change 3 with (1 + 2). fits_fields. done.
  - by destruct Hc.
  - change 3 with (1 + 2). apply array_fits; [lia|]. apply Forall_fmap. by apply (fits_mounts c).
  - change 3 with (1 + 2). fits_fields. change 2 with (1 + 1). apply array_fits; [lia|]. apply Forall_fmap. simpl.
    unfold linuxNamespaces. case_decide; repeat constructor; by vm_compute.
Qed.

Lemma config_read_back c src : utf8_container c -> utf8 src ->
  Json.parse (Json.indented (oci_json (spec_of c src))) = Ok (oci_json (spec_of c src)).
Proof.
  intros Hc Hs. destruct (fits_spec c src Hc Hs) as [Hw Hd]. apply Json.parse_indented; [done|].
  unfold Json.maxNestingDepth. lia.
Qed.

(** ** Start, up to the call of crun *)

Definition staged (NCLImagePath : string) (c : WorkloadContainer) : string :=
  Join (Join NCLImagePath (refSafe (wc_Image c))) "rootfs".

Lemma catch_exec {A} (m : M A) f r f' w : exec m f r f' -> files w = f -> no_faults w ->
  exists w', (forall B (k : result A -> M B), ocatch m k w = k r w') /\ files w' = f' /\ no_faults w'.
Proof.
  intros Hm Hf Hn. destruct (Hm w Hf Hn) as (H1 & H2 & H3). exists (m w).2. split; [|done]. intros B k.
  unfold ocatch. destruct (m w) as [r' w']. simpl in *. by subst r'.
Qed.

Section start.
Context (run_cmd : list string -> M unit) (BundleRoot NCLImagePath : string) (c : WorkloadContainer).
Context (Hroot : HasPrefix BundleRoot "/" = true) (Hname : good (wc_Name c)).
Context (Hsrc : utf8 (staged NCLImagePath c)).
Local Abbreviation bundle := (bundle_of BundleRoot (wc_Name c)).
Local Abbreviation config := (path_of bundle ++ ["config.json"]).

(** The root file system crun is given: the staged image, or the agent's own. *)
Definition rootfs (f : fsys) : string :=
  if decide (node_at f (path_of (staged NCLImagePath c)) = Some NDir) then staged NCLImagePath c else "/".

Lemma staged_snoc : exists q, path_of (staged NCLImagePath c) = q ++ ["rootfs"].
Proof.
  assert (good "rootfs") as Hg by (apply (bool_decide_unpack _); by vm_compute).
  destruct (good_key_comps "rootfs" Hg) as [Hk Hd]. unfold staged. set (r := Join NCLImagePath (refSafe (wc_Image c))).
  destruct (decide (r = "")) as [->|Hr]; [by exists []|]. eexists. by rewrite path_of_Join, Hk.
Qed.

Lemma bundle_paths : path_of (Join bundle "rootfs") = path_of bundle ++ ["rootfs"] /\
  path_of (Join bundle "config.json") = config.
Proof using Hroot Hname.
  split; apply (in_bundle BundleRoot (wc_Name c) Hroot Hname); apply (bool_decide_unpack _); by vm_compute.
Qed.

Lemma Start_reaches_crun w : wf (files w) -> no_faults w ->
  clear_way (path_of bundle ++ ["rootfs"]) (files w) -> files w !! config <> Some NDir ->
  exists w1, Start run_cmd BundleRoot NCLImagePath c w =
      owrap (fun e => Errorf "crun run %s: %w" [EStr (wc_Name c); EErr e])
        (run_cmd ["crun"; "run"; "--detach"; "--bundle"; bundle; wc_Name c]) w1 /\ no_faults w1 /\
    files w1 !! config = Some (NFile (str (Json.indented (oci_json (spec_of c (rootfs (files w1))))))).
Proof using Hroot Hname.
  intros Hw Hn Hway Hc. destruct bundle_paths as [Er Ec]. rewrite <- Er in Hway.
  destruct (mkdirs_exec (files w) (Join bundle "rootfs") Hw Hway) as (g & Hmk & Hwg & [Hold Hnew] & Hdir).
  destruct (catch_exec _ _ _ _ w (exec_wrap (fun e => Errorf "mkdir bundle %s: %w" [EStr bundle; EErr e]) _ _ tt g Hmk)
    eq_refl Hn) as (w2 & E2 & Hf2 & Hn2).
  destruct (catch_exec (os_Stat (staged NCLImagePath c)) g _ _ w2 (exec_guarded _ g) Hf2 Hn2) as (w3 & E3 & Hf3 & Hn3).
  unfold Start, obind. cbv zeta. rewrite E2. unfold staged in E3. rewrite E3. cbn [fst snd]. fold (staged NCLImagePath c).
  set (src := match lookup_path g (path_of (staged NCLImagePath c)) with Ok NDir => staged NCLImagePath c | _ => "/" end).
  assert (exec (os_WriteFile (Join bundle "config.json") (str (Json.indented (oci_json (spec_of c src))))) g (Ok tt)
    (<[config := NFile (str (Json.indented (oci_json (spec_of c src))))]> g)) as Hwr.
  { rewrite <- Ec. apply WriteFile_exec; rewrite ?Ec; [done|by destruct (path_of bundle)| |].
    - rewrite parent_snoc. rewrite Er in Hdir. rewrite node_at_ne in Hdir by (by destruct (path_of bundle)). by apply (wf_ancestor g _ ["rootfs"] NDir).
    - intros Hd. destruct (decide (g !! config = files w !! config)) as [E|E]; [congruence|].
      destruct (Hnew _ E) as (_ & _ & Hpre). rewrite Er in Hpre. apply prefix_app_inv in Hpre. by apply prefix_cons_inv_1 in Hpre. }
  destruct (catch_exec _ _ _ _ w3 (exec_wrap (fun e => Errorf "write config.json: %w" [EErr e]) _ _ tt _ Hwr) Hf3 Hn3)
    as (w4 & E4 & Hf4 & Hn4).
  unfold Crun.Marshal. rewrite E4.
  exists w4. split_and!; [done|done|]. rewrite Hf4, lookup_insert_eq.
  replace (rootfs (<[config:=_]> g)) with src; [done|]. unfold rootfs. destruct staged_snoc as [q Eq].
  rewrite Eq, node_at_snoc, lookup_insert_ne by (intros [_ [=]]%app_inj_2; done). rewrite <- node_at_snoc, <- Eq.
  unfold src. case_decide as Hd; [by rewrite (proj2 (lookup_path_ok g _ NDir Hwg) Hd)|].
  destruct (lookup_path g _) as [[d|]|] eqn:E; try done. by apply lookup_path_ok in E.
Qed.

Lemma rootfs_utf8 f : utf8 (rootfs f).
Proof using Hsrc. unfold rootfs. by case_decide. Qed.
End start.

(** C8.  What crun is given: for a container of a published set with a plain
    name, on a disk with room for its bundle and without I/O faults, Start gets as
    far as running crun on the bundle, and at that moment the bundle's
    config.json is a JSON text whose value is exactly the specification built for
    the container: its argv, environment and working directory, the three
    capabilities and noNewPrivileges, its mounts after the four of the system, its
    namespaces, over the staged image if there is one and over the agent's own
    root otherwise. *)
Theorem crun_reads_spec run_cmd BundleRoot NCLImagePath data set c w :
  Unmarshal data = Ok set -> c ∈ cs_Containers set ->
  HasPrefix BundleRoot "/" = true -> good (wc_Name c) -> utf8 (staged NCLImagePath c) ->
  wf (files w) -> no_faults w ->
  let bundle := bundle_of BundleRoot (wc_Name c) in
  clear_way (path_of bundle ++ ["rootfs"]) (files w) -> files w !! (path_of bundle ++ ["config.json"]) <> Some NDir ->
  exists w1 doc, Start run_cmd BundleRoot NCLImagePath c w =
      owrap (fun e => Errorf "crun run %s: %w" [EStr (wc_Name c); EErr e])
        (run_cmd ["crun"; "run"; "--detach"; "--bundle"; bundle; wc_Name c]) w1 /\
    files w1 !! (path_of bundle ++ ["config.json"]) = Some (NFile doc) /\
    Json.parse (chars doc) = Ok (oci_json (spec_of c (rootfs NCLImagePath c (files w1)))).
Proof.
  intros Hd Hin Hr Hg Hs Hw Hn bundle Hway Hc.
  pose proof (proj1 (Forall_forall _ _) (decoded_utf8 data set Hd) c Hin) as Hu.
  destruct (Start_reaches_crun run_cmd BundleRoot NCLImagePath c Hr Hg w Hw Hn Hway Hc) as (w1 & E & _ & Hf).
  eexists w1, _. split_and!; [exact E|exact Hf|]. rewrite chars_str. apply config_read_back; [done|by apply rootfs_utf8].
Qed.

Definition web_payload : bytes := text "{'version': 1, 'containers': [{'name': 'web', 'image': 'docker.io/library/alpine:3'}]}".

Lemma crun_reads_spec_witness :
  exists w1 doc, Start (fun _ => oret tt) "/run/c" "/run/i" (sample_container "web") (mk_os ∅ [] []) =
      owrap (fun e => Errorf "crun run %s: %w" [EStr "web"; EErr e])
        (oret tt) w1 /\
    files w1 !! ["run"; "c"; "web"; "config.json"] = Some (NFile doc) /\
    Json.parse (chars doc) = Ok (oci_json (spec_of (sample_container "web") (rootfs "/run/i" (sample_container "web") (files w1)))).
Proof.
  apply (crun_reads_spec (fun _ => oret tt) "/run/c" "/run/i" web_payload
    {| cs_Version := 1; cs_Containers := [sample_container "web"] |} (sample_container "web") (mk_os ∅ [] [])).
  - vm_compute. reflexivity.
  - by apply list_elem_of_singleton.
  - reflexivity.
  - apply (bool_decide_unpack _). vm_compute. exact Logic.I.
  - reflexivity.
  - apply wf_empty.
  - constructor.
  - intros q d _. cbn [files]. by rewrite lookup_empty.
  - cbn [files]. by rewrite lookup_empty.
Defined.

End CrunConfig.
