(* ===== verification/Provision.v ===== *)
(** * A boot request, from the bus to the provisioning run

    The host stamps weft.boot/* properties on the properties subject
    (src/pkg/properties); propertiesApplyer mirrors them as files
    (properties_linux.go); the watcher of src/cmd/weft-microvm-agent/main.go polls
    these files with ReadFromPropertiesDir (src/pkg/boot) and runs what they
    say.  Here the four are put together: what is run is what was published. *)

From S2P Require Import Prelude GoLib FileSys GoPath FsLogic AbsPath FsExec Bus Metrics Properties PropertiesSync Boot Messages.
Import (hints) Messages.

Module Provision.

Import Properties PropertiesSync Boot.

Definition boot_keys : list string :=
  ["weft.boot/source.kind"; "weft.boot/source.url"; "weft.boot/source.ref"; "weft.boot/script"].

(** The request a property set makes: trailing newlines do not count. *)
Definition requested (ps : PropertySet) : Config :=
  let get k := TrimRight (default "" (ps !! k)) newline in
  mkConfig (get "weft.boot/source.kind") (get "weft.boot/source.url") (get "weft.boot/source.ref") (get "weft.boot/script").

(** No other property takes the place of a boot key that is not set, as a file
    on the way to it or as a directory in its stead. *)
Definition unobstructed (ps : PropertySet) : Prop :=
  Forall (fun k => ps !! k = None -> Forall (fun k' =>
    ~ key_comps k' `prefix_of` key_comps k /\ ~ key_comps k `prefix_of` key_comps k') (keys ps)) boot_keys.

(** No temporary files below the root. *)
Definition no_tmp (root : string) (f : fsys) : Prop :=
  forall q x d, f !! (q ++ [x]) = Some (NFile d) -> path_of root `prefix_of` q ++ [x] -> is_tmp x = false.

(** A path with no file at or above it and nothing there does not exist. *)
Lemma walk_clear (g : fsys) cur rest : clear_way (cur ++ rest) g -> node_at g (cur ++ rest) = None ->
  walk g cur rest = Err ENOENT.
Proof.
  revert cur. induction rest as [|c rest IH]; intros cur Hc Hn.
  - rewrite app_nil_r in Hn. simpl. by rewrite Hn.
  - simpl. destruct (node_at g cur) as [[d|]|] eqn:E; [|apply IH; by rewrite <- app_assoc|done].
    exfalso. destruct cur as [|y cur]; [done|]. apply (Hc (y :: cur) d); [by apply prefix_app_r|done].
Qed.

Lemma boot_key_path root k : HasPrefix root "/" = true -> k ∈ boot_keys ->
  path_of (Join root k) = kpath root k /\ kpath root k <> [] /\ kpath root k <> path_of root.
Proof.
  intros Hroot Hk. assert (Forall (fun k => chars ".." ∉ split slash (chars k) /\ key_comps k <> []) boot_keys) as Hb
    by (apply (bool_decide_unpack _); by vm_compute).
  rewrite Forall_forall in Hb. destruct (Hb k Hk) as [H1 H2]. split; [apply path_of_Join; [by intros ->|done]|].
  unfold kpath. split; [by intros [_ ?]%app_eq_nil|].
  intros E. apply (f_equal length) in E. rewrite length_app in E. destruct (key_comps k); [done|simpl in E; lia].
Qed.

Section config.
Context (root : string) (Hroot : HasPrefix root "/" = true) (ps : PropertySet) (f f' : fsys).
Context (Hwf : wf f') (Hway : clear_way (path_of root) f') (Hsync : synced root ps f f') (Htmp : no_tmp root f).
Local Abbreviation R := (path_of root).

Lemma file_wanted q d : R `prefix_of` q -> f' !! q = Some (NFile d) -> exists k, ps !! k = Some d /\ q = kpath root k.
Proof.
  intros HR Hq. destruct Hsync as (_ & Hf & _). destruct (Hf q d Hq HR) as [Hw|(Hl & q' & x & -> & Hx)]; [done|].
  by rewrite (Htmp q' x d Hl HR) in Hx.
Qed.

(** A directory that is left below the root holds a wanted file. *)
Lemma dir_holds_file q : R `prefix_of` q -> q <> R -> f' !! q = Some NDir ->
  exists k, is_Some (ps !! k) /\ q `prefix_of` kpath root k.
Proof.
  remember (height f' - length q) as n eqn:Hn. revert q Hn.
  induction (lt_wf n) as [n _ IH]. intros q -> HR Hne Hq. pose proof Hsync as (_ & _ & Hfull).
  destruct (Hfull q HR Hne Hq) as (c & [d|] & Hc).
  - destruct (file_wanted (q ++ [c]) d) as (k & Hk & Ek); [by apply prefix_app_r|done|].
    exists k. split; [eauto|]. rewrite <- Ek. by apply prefix_app_r.
  - pose proof (height_le _ _ _ Hc) as Hh. rewrite length_app in Hh. simpl in Hh.
    destruct (IH (height f' - length (q ++ [c]))) with (q := q ++ [c]) as (k & Hk & Hp); try done.
    + rewrite length_app. simpl. lia.
    + by apply prefix_app_r.
    + intros E. rewrite <- E in HR. by apply not_prefix_snoc in HR.
    + exists k. split; [done|]. etransitivity; [|exact Hp]. by apply prefix_app_r.
Qed.

Context (Hun : unobstructed ps).

Lemma unset_free k k' : k ∈ boot_keys -> ps !! k = None -> is_Some (ps !! k') ->
  ~ kpath root k' `prefix_of` kpath root k /\ ~ kpath root k `prefix_of` kpath root k'.
Proof.
  intros Hk Hn Hk'. unfold unobstructed in Hun. rewrite Forall_forall in Hun. specialize (Hun k Hk Hn).
  rewrite Forall_forall in Hun. destruct (Hun k') as [H1 H2]; [by apply keys_elem|].
  unfold kpath. split; intros Hp%prefix_app_inv; done.
Qed.

Lemma unset_missing k : k ∈ boot_keys -> ps !! k = None -> lookup_path f' (kpath root k) = Err ENOENT.
Proof.
  intros Hk Hn. destruct (boot_key_path root k Hroot Hk) as (_ & Hne & HR). apply walk_clear; simpl.
  - intros q d Hq E. destruct (decide (R `prefix_of` q)) as [Hr|Hr].
    + destruct (file_wanted q d Hr E) as (k' & Hk' & ->). by destruct (unset_free k k' Hk Hn ltac:(eauto)).
    + apply (Hway q d); [|done]. destruct (prefix_weak_total q R (kpath root k) Hq); [by apply prefix_app_r|done|done].
  - rewrite node_at_ne by done. destruct (f' !! kpath root k) as [[d|]|] eqn:E; [| |done]; exfalso.
    + destruct (file_wanted (kpath root k) d) as (k' & Hk' & Ek); [by apply prefix_app_r|done|].
      destruct (unset_free k k' Hk Hn ltac:(eauto)) as [_ H]. apply H. by rewrite Ek.
    + destruct (dir_holds_file (kpath root k)) as (k' & Hk' & Hp); [by apply prefix_app_r|done|done|].
      by destruct (unset_free k k' Hk Hn Hk').
Qed.

Lemma exec_readKey k : k ∈ boot_keys -> exec (readKey root k) f' (Ok (TrimRight (default "" (ps !! k)) newline)) f'.
Proof.
  intros Hk. destruct (boot_key_path root k Hroot Hk) as (Hp & Hne & _). pose proof (ReadFile_exec f' (Join root k)) as Hr. rewrite Hp in Hr.
  eapply exec_bind; [|apply exec_ret]. destruct (ps !! k) as [v|] eqn:E.
  - assert (lookup_path f' (kpath root k) = Ok (NFile v)) as Hl.
    { apply lookup_path_ok; [done|]. rewrite node_at_ne by done. by apply Hsync. }
    rewrite Hl in Hr. eapply exec_catch; [exact Hr|]. apply exec_ret.
  - rewrite unset_missing in Hr by done. eapply exec_catch; [exact Hr|]. apply exec_ret.
Qed.

Lemma exec_config : exec (ReadFromPropertiesDir root) f' (Ok (requested ps)) f'.
Proof.
  unfold ReadFromPropertiesDir. do 4 (eapply exec_bind; [apply exec_readKey; set_solver|]). apply exec_ret.
Qed.
End config.

(** A fault-free system call inside the boot monad. *)
Lemma exec_sys {A : Type} (c : M A) w res g : exec c (files (disk w)) res g -> no_faults (disk w) ->
  exists d, sys c w = (res, mkWorld d (trace w) (recorder w)) /\ files d = g /\ no_faults d.
Proof.
  intros He Hn. destruct (He (disk w) eq_refl Hn) as (E1 & E2 & E3). unfold sys.
  destruct (c (disk w)) as [r d]. simpl in *. subst. by exists d.
Qed.

(** ** End to end *)

(** The applier of startProperties, as HandleMessage calls it. *)
Definition apply_properties (root : string) (ps : PropertySet) (o : os) : gerr * os :=
  let '(r, o') := propertiesApplyer root ps o in (to_gerr r, o').

(** C5.  What was published is what is provisioned.  A JSON payload on the
    properties subject, handled without faults on a tree it is compatible with,
    is acknowledged; and in the next round of the watcher, if the sentinel is
    not there yet, the runner is started with exactly the boot request of the
    payload: kind, URL, reference and script, missing properties empty,
    trailing newlines cut. *)
Theorem published_request_provisioned run_script root data ps o r deadline p rounds tr rec :
  HasPrefix root "/" = true -> Messages.Unmarshal data = Ok ps -> keys_ok ps -> unobstructed ps ->
  wf (files o) -> names_ok (files o) -> compatible root ps (files o) -> no_tmp root (files o) -> no_faults o ->
  let '(err, o') := HandleMessage Messages.Unmarshal data (apply_properties root) o in
  err = None /\
  (shutdown_top p = false -> (forall g, interference p g = g) ->
   is_Ok (lookup_path (files o') (path_of (SentinelPath r))) = false -> IsEmpty (requested ps) = false ->
   exists w1, files (disk w1) = files o' /\ trace w1 = tr /\
     let '(res, w2) := Run run_script r (requested ps) w1 in
     watchAndRunBoot run_script root r deadline (p :: rounds) (mkWorld o' tr rec) =
       (Provisioned (to_gerr res), record (to_gerr res) (took p) w2)).
Proof.
  intros Hroot Hu Hk Hun Hw Hn Hc Ht Hf. unfold HandleMessage, Bus.HandleMessage. rewrite Hu.
  assert (Validate ps = None) as -> by (apply Validate_ok; intros k Hs; by destruct (proj1 Hk k Hs) as [[] _]).
  destruct (applyer_exec root Hroot ps Hk (files o) Hw Hn Hc) as (f' & He & Hwf' & Hway & Hsync).
  destruct (He o eq_refl Hf) as (E1 & E2 & E3). unfold apply_properties.
  destruct (propertiesApplyer root ps o) as [res o']. simpl in E1, E2, E3. subst res. split; [done|].
  intros Htop Hint Hsent Hreq. cbn [watchAndRunBoot]. rewrite Htop. subst f'.
  destruct (exec_sys (os_Stat (SentinelPath r)) (interfere (interference p) (mkWorld o' tr rec)) _ _
    (exec_guarded (fun fs => (lookup_path fs (path_of (SentinelPath r)), fs)) _)) as (d1 & -> & Hd1 & Hn1); [done|].
  simpl in Hd1. rewrite Hint in Hd1. cbn [interfere disk files fst]. rewrite Hint.
  destruct (lookup_path (files o') (path_of (SentinelPath r))) as [nd|e]; [done|].
  destruct (exec_sys (ReadFromPropertiesDir root) (mkWorld d1 tr rec) (Ok (requested ps)) (files o')) as (d2 & E & Hd2 & _).
  { cbn [disk]. rewrite Hd1. by eapply exec_config. }
  { done. }
  cbn [trace recorder] in E. change (trace (interfere (interference p) (mkWorld o' tr rec))) with tr.
  change (recorder (interfere (interference p) (mkWorld o' tr rec))) with rec.
  rewrite E, Hreq. cbn [negb]. exists (mkWorld d2 tr rec). split_and!; [done|done|].
  by destruct (Run run_script r (requested ps) (mkWorld d2 tr rec)).
Qed.

(** ** At concrete values *)

Definition boot_payload : bytes := Messages.text "{'properties':{'weft.boot/script':'echo hi\n','name':'vm1'}}".
Definition boot_props : PropertySet := <["weft.boot/script" := "echo hi" +:+ str [newline]]> {["name" := "vm1"]}.

Lemma boot_props_ok : keys_ok boot_props.
Proof.
  assert (Forall (fun k => proper_key k /\ Forall (fun c => is_tmp c = false) (key_comps k)) (keys boot_props))
    as H1 by (unfold proper_key, safe_key; apply (bool_decide_unpack _); vm_compute; exact I).
  assert (Forall (fun k1 => Forall (fun k2 => key_comps k1 `prefix_of` key_comps k2 -> k1 = k2)
            (keys boot_props)) (keys boot_props))
    as H2 by (apply (bool_decide_unpack _); vm_compute; exact I).
  rewrite Forall_forall in H1, H2. split.
  - intros k Hk. apply H1. by apply keys_elem.
  - intros k1 k2 Hk1%keys_elem Hk2%keys_elem. specialize (H2 k1 Hk1). rewrite Forall_forall in H2. auto.
Qed.

Definition round0 : poll := mkPoll false id 0 0 false.

Lemma published_request_provisioned_witness :
  requested boot_props = mkConfig "" "" "" "echo hi" /\
  let '(err, o') := HandleMessage Messages.Unmarshal boot_payload (apply_properties sample_root) (mk_os ∅ [] []) in
  err = None /\ exists e, (watchAndRunBoot noop sample_root sample_runner 0 [round0] (mkWorld o' [] None)).1 = Provisioned e.
Proof.
  split; [vm_compute; reflexivity|].
  assert (is_Ok (lookup_path (files (HandleMessage Messages.Unmarshal boot_payload (apply_properties sample_root) (mk_os ∅ [] [])).2)
    (path_of (SentinelPath sample_runner))) = false) as Hs by (vm_compute; reflexivity).
  pose proof (published_request_provisioned noop sample_root boot_payload boot_props (mk_os ∅ [] []) sample_runner 0 round0 [] [] None
    eq_refl ltac:(apply (inj Ok); vm_compute; reflexivity) boot_props_ok) as H.
  destruct (HandleMessage Messages.Unmarshal boot_payload (apply_properties sample_root) (mk_os ∅ [] [])) as [err o'].
  destruct H as [-> H].
  - unfold unobstructed. apply (bool_decide_unpack _). by vm_compute.
  - apply wf_empty.
  - apply names_ok_empty.
  - split; [intros q d _; cbn [files]; by rewrite lookup_empty|]. intros k _. cbn [files]. by rewrite !lookup_empty.
  - intros q x d Hq. simpl in Hq. by rewrite lookup_empty in Hq.
  - constructor.
  - split; [reflexivity|]. destruct H as (w1 & _ & _ & E); [reflexivity|reflexivity|exact Hs|vm_compute; reflexivity|].
    destruct (Run _ _ _ _) as [res w2]. rewrite E. by eexists.
Defined.

End Provision.
