(* ===== verification/ExecPump.v ===== *)
(** * The PTY pump of an exec session (src/pkg/execsession/pty_linux.go)

    First the command a request asks for and the one-byte-prefix frames, then
    Run itself as the step relation of its goroutines (the PTY reader, the NATS
    callback, the main goroutine) with the child and the cancelled context. *)

From S2P Require Import Prelude GoLib FileSys FsLogic SshWire ExecSession.
Import SshWire ExecSession.

Module ExecPump.

Local Open Scope Z_scope.

(** ** The command *)

(** The fields of exec.Cmd the pump sets: [Path] stands for the name given to
    exec.Command, which the exec package resolves when the child starts. *)
Record Cmd := mkCmd { Path : string; CArgs : list string; CEnv : list string; CDir : string }.

Definition mergeEnv (extra : gmap string string) : list string :=
  ["PATH=/usr/local/sbin:/usr/local/bin:/usr/sbin:/usr/bin:/sbin:/bin";
   "TERM=xterm-256color"; "COLORTERM=truecolor"; "HOME=/root"; "LANG=C.UTF-8"] ++
  ((fun kv => kv.1 +:+ "=" +:+ kv.2) <$> map_to_list extra).

Local Open Scope os_scope.

Fixpoint first_dir (candidates : list string) : M string :=
  match candidates with
  | [] => oret "/"
  | candidate :: rest =>
      if decide (candidate = "") then first_dir rest
      else info <~ os_Stat candidate ;;
           match info with Ok NDir => oret candidate | _ => first_dir rest end
  end.

Definition workDir (d : string) : M string := first_dir [d; "/workspace"; "/tmp"; "/"].

Fixpoint first_file (candidates : list string) : M string :=
  match candidates with
  | [] => oret "/bin/sh"
  | candidate :: rest =>
      info <~ os_Stat candidate ;;
      match info with Ok _ => oret candidate | Err _ => first_file rest end
  end.

Definition pickShell (command : list string) : M string :=
  match command with
  | c :: _ => oret c
  | [] => first_file ["/bin/bash"; "/bin/ash"; "/bin/sh"]
  end.

Definition buildCommand (t : ExecTarget) : M Cmd :=
  if decide (Kind t = "shell") then
    shell <- pickShell (Command t) ;;
    let args := if decide (1 < length (Command t))%nat then tail (Command t) ++ Args t else Args t in
    dir <- workDir (WorkDir t) ;;
    oret (mkCmd shell args (mergeEnv (Env t)) dir)
  else if decide (Kind t = "exec") then
    dir <- workDir (WorkDir t) ;;
    oret (mkCmd "crun" (["exec"; Container t] ++ Command t ++ Args t) (mergeEnv (Env t)) dir)
  else ofail (Errorf "buildCommand: unknown kind %q" [EStr (Kind t)]).

(** ** Frames *)

Inductive action :=
| Stdin (b : bytes)
| Resize (cols rows : Z)
| Eof
| Ignore.

(** [binary.BigEndian.Uint16]. *)
Definition beUint16 (b : bytes) : panics Z :=
  match b with
  | b0 :: b1 :: _ => Value (Z.lor (byte_val b1) (u16 (Z.shiftl (byte_val b0) 8)))
  | _ => Panic
  end.

Local Open Scope go_scope.

(** The callback of the in subject, up to its effect on the PTY. *)
Definition in_frame (data : bytes) : panics action :=
  match data with
  | [] => Value Ignore
  | c :: rest =>
      if decide (c = "i"%char) then Value (Stdin rest)
      else if decide (c = "r"%char) then
        if 5 <=? len data then
          cols <-! (h <-! slice data 1 3; beUint16 h);
          rows <-! (h <-! slice data 3 5; beUint16 h);
          Value (Resize cols rows)
        else Value Ignore
      else if decide (c = "x"%char) then Value Eof
      else Value Ignore
  end.

Definition out_frame (chunk : bytes) : bytes := "o"%char :: chunk.

(** [exitFrame] with [uint32(ExitCode())] put at [exitFrame[1:]]. *)
Definition exit_frame (code : Z) : bytes :=
  let exitCode := u32 code in
  "e"%char :: [byte_of (Z.shiftr exitCode 24); byte_of (Z.shiftr exitCode 16);
               byte_of (Z.shiftr exitCode 8); byte_of exitCode].

(** ** The pump *)

(** Where the main goroutine of Run is: before Subscribe, in the select, after
    the Kill of the cancelled branch, after the exit frame, returned, returned
    with the Subscribe error. *)
Inductive pc := Subscribing | Selecting | Reaping | Published | Finished | Failed.

#[export] Instance pc_eq_dec : EqDecision pc.
Proof. solve_decision. Defined.

(** [out] lists the calls of Publish in order.  Their errors are dropped and
    change nothing in Run, so what the bus carries is [carried ok (out s)] where
    [ok] says which of the calls succeeded. *)
Record pump := mkPump {
  child : option Z;        (* its exit code once it has exited *)
  killed : bool;           (* Kill has been sent *)
  ptyBuf : bytes;          (* written to the PTY, not yet read *)
  produced : bytes;        (* everything written to the PTY by its programs *)
  stdin : bytes;           (* written to the PTY by the in callback *)
  size : option (Z * Z);   (* the last Setsize *)
  ptyOpen : bool;
  reader : bool;           (* the reading goroutine runs *)
  out : list bytes;        (* the frames handed to Publish on the out subject *)
  ctxDone : bool;
  main : pc
}.

Fixpoint carried (ok : list bool) (l : list bytes) : list bytes :=
  match ok, l with
  | b :: ok, f :: l => if b then f :: carried ok l else carried ok l
  | _, _ => []
  end.

(** After pty.Start, with the initial size when the request gives one. *)
Definition started (req : ExecRequest) : pump :=
  mkPump None false [] [] []
    (if (0 <? InitialCols req) && (0 <? InitialRows req)
     then Some (InitialCols req, InitialRows req) else None)
    true true [] false Subscribing.

Definition set_main (p : pc) (s : pump) : pump :=
  mkPump (child s) (killed s) (ptyBuf s) (produced s) (stdin s) (size s) (ptyOpen s) (reader s) (out s) (ctxDone s) p.
Definition kill (s : pump) : pump :=
  mkPump (child s) true (ptyBuf s) (produced s) (stdin s) (size s) (ptyOpen s) (reader s) (out s) (ctxDone s) (main s).
Definition close_pty (s : pump) : pump :=
  mkPump (child s) (killed s) (ptyBuf s) (produced s) (stdin s) (size s) false (reader s) (out s) (ctxDone s) (main s).
Definition publish (f : bytes) (s : pump) : pump :=
  mkPump (child s) (killed s) (ptyBuf s) (produced s) (stdin s) (size s) (ptyOpen s) (reader s) (out s ++ [f])
    (ctxDone s) (main s).

(** What the in callback does with a frame; errors of Write, Setsize and Kill
    are dropped, so on a closed PTY nothing happens. *)
Definition act (a : action) (s : pump) : pump :=
  match a with
  | Stdin b => if ptyOpen s
      then mkPump (child s) (killed s) (ptyBuf s) (produced s) (stdin s ++ b) (size s) (ptyOpen s) (reader s) (out s)
             (ctxDone s) (main s)
      else s
  | Resize cols rows => if ptyOpen s
      then mkPump (child s) (killed s) (ptyBuf s) (produced s) (stdin s) (Some (cols, rows)) (ptyOpen s) (reader s)
             (out s) (ctxDone s) (main s)
      else s
  | Eof => kill s
  | Ignore => s
  end.

(** The in subscription exists between Subscribe and the return of Run. *)
Definition in_subscribed (p : pc) : bool :=
  bool_decide (p = Selecting \/ p = Reaping \/ p = Published).

Definition child_exits (code : Z) (s : pump) : pump :=
  mkPump (Some code) (killed s) (ptyBuf s) (produced s) (stdin s) (size s) (ptyOpen s) (reader s) (out s) (ctxDone s) (main s).

Definition ctx_cancelled (s : pump) : pump :=
  mkPump (child s) (killed s) (ptyBuf s) (produced s) (stdin s) (size s) (ptyOpen s) (reader s) (out s) true (main s).

Inductive actor := Program | Client | Context_ | Agent.

Inductive step : actor -> pump -> pump -> Prop :=
| p_write c s : ptyOpen s = true ->
    step Program s (mkPump (child s) (killed s) (ptyBuf s ++ c) (produced s ++ c) (stdin s) (size s) (ptyOpen s)
                      (reader s) (out s) (ctxDone s) (main s))
| p_exit code s : child s = None -> -1 <= code <= 255 -> step Program s (child_exits code s)
| c_cancel s : step Context_ s (ctx_cancelled s)
| c_frame data a s : in_subscribed (main s) = true -> in_frame data = Value a -> step Client s (act a s)
(* the reading goroutine *)
| r_read c rest s : reader s = true -> ptyOpen s = true -> ptyBuf s = c ++ rest ->
    c <> [] -> (length c <= 4096)%nat ->
    step Agent s (mkPump (child s) (killed s) rest (produced s) (stdin s) (size s) (ptyOpen s) (reader s)
                    (out s ++ [out_frame c]) (ctxDone s) (main s))
| r_end s : reader s = true -> ptyOpen s = false \/ (is_Some (child s) /\ ptyBuf s = []) ->
    step Agent s (mkPump (child s) (killed s) (ptyBuf s) (produced s) (stdin s) (size s) (ptyOpen s) false (out s)
                    (ctxDone s) (main s))
(* the main goroutine *)
| m_subscribe s : main s = Subscribing -> step Agent s (set_main Selecting s)
| m_subscribe_fails s : main s = Subscribing -> step Agent s (set_main Failed (close_pty (kill s)))
| m_cancelled s : main s = Selecting -> ctxDone s = true -> step Agent s (set_main Reaping (kill s))
| m_exited s code : main s = Selecting \/ main s = Reaping -> child s = Some code ->
    step Agent s (set_main Published (publish (exit_frame code) s))
| m_close s : main s = Published -> step Agent s (set_main Finished (close_pty s)).

Definition any_step (s t : pump) : Prop := exists a, step a s t.
Definition reachable (req : ExecRequest) (s : pump) : Prop := rtc any_step (started req) s.

(** ** Lemmas on the command *)

(** A computation that only reads: it returns a value with [P], whatever
    faults occur, and leaves the files alone. *)
Definition reads {A : Type} (c : M A) (P : A -> Prop) : Prop :=
  forall w, exists a, (c w).1 = Ok a /\ P a /\ files (c w).2 = files w.

Lemma reads_ret {A : Type} (a : A) (P : A -> Prop) : P a -> reads (oret a) P.
Proof. intros H w. by exists a. Qed.

Lemma reads_bind {A B : Type} (c : M A) (k : A -> M B) (P : A -> Prop) (Q : B -> Prop) :
  reads c P -> (forall a, P a -> reads (k a) Q) -> reads (obind c k) Q.
Proof.
  intros Hc Hk w. destruct (Hc w) as (a & Ha & HP & Hf). unfold obind, ocatch.
  destruct (c w) as [r w']. simpl in *. subst r. destruct (Hk a HP w') as (b & ? & ? & ?).
  exists b. split_and!; [done|done|congruence].
Qed.

Lemma reads_Stat {B : Type} (p : string) (k : result node -> M B) (Q : B -> Prop) :
  (forall r, reads (k r) Q) -> reads (ocatch (os_Stat p) k) Q.
Proof.
  intros Hk w. unfold ocatch.
  assert (files (os_Stat p w).2 = files w) as Hf by (unfold os_Stat, syscall, guarded; by destruct (faults w) as [|[[]|] ?]).
  destruct (os_Stat p w) as [r w']. simpl in Hf. destruct (Hk r w') as (b & ? & ? & ?).
  exists b. split_and!; [done|done|congruence].
Qed.

Lemma first_dir_reads l : reads (first_dir l) (fun d => d <> "" /\ d ∈ l ++ ["/"]).
Proof.
  induction l as [|d l IH]; cbn [first_dir]; [apply reads_ret; set_solver|].
  assert (reads (first_dir l) (fun d' => d' <> "" /\ d' ∈ (d :: l) ++ ["/"])) as Hrest.
  { intros w. destruct (IH w) as (a & ? & [? ?] & ?). exists a. set_solver. }
  case_decide; [done|]. apply reads_Stat. intros [[]|]; try done. apply reads_ret. set_solver.
Qed.

Definition shells : list string := ["/bin/bash"; "/bin/ash"; "/bin/sh"].

Lemma first_file_reads l : reads (first_file l) (fun p => p ∈ l ++ ["/bin/sh"]).
Proof.
  induction l as [|d l IH]; cbn [first_file]; [apply reads_ret; set_solver|].
  apply reads_Stat. intros [n|e]; [apply reads_ret; set_solver|].
  intros w. destruct (IH w) as (a & ? & ? & ?). exists a. set_solver.
Qed.

Lemma pickShell_reads command : reads (pickShell command)
  (fun p => match command with c :: _ => p = c | [] => p ∈ shells end).
Proof.
  unfold pickShell. destruct command as [|c l]; [|by apply reads_ret].
  intros w. destruct (first_file_reads shells w) as (a & H1 & H2 & H3). exists a.
  split_and!; [done| |done]. set_solver.
Qed.

(** The argument vector a request asks for. *)
Definition argv_spec (t : ExecTarget) (v : list string) : Prop :=
  if decide (Kind t = "exec") then v = ["crun"; "exec"; Container t] ++ Command t ++ Args t
  else match Command t with
       | [] => exists sh, sh ∈ shells /\ v = sh :: Args t
       | _ => v = Command t ++ Args t
       end.

(** Every request that passes Validate has a command: whatever the state of
    the disk, buildCommand returns one whose argument vector is the request's
    (crun exec in the container, or the given program, or one of the known
    shells), with a non-empty working directory taken from the candidates; it
    changes no file. *)
Theorem buildCommand_ok req w : Validate req = None ->
  exists cmd, (buildCommand (Target req) w).1 = Ok cmd /\
    argv_spec (Target req) (Path cmd :: CArgs cmd) /\
    CDir cmd <> "" /\ CDir cmd ∈ [WorkDir (Target req); "/workspace"; "/tmp"; "/"] /\
    files (buildCommand (Target req) w).2 = files w.
Proof.
  intros [_ Hk]%acceptable_ok. set (t := Target req) in *.
  assert (reads (buildCommand t) (fun cmd => argv_spec t (Path cmd :: CArgs cmd) /\
            CDir cmd <> "" /\ CDir cmd ∈ [WorkDir t; "/workspace"; "/tmp"; "/"])) as H.
  { unfold buildCommand. destruct Hk as [E|(E & _)]; rewrite E.
    - rewrite (decide_True (P := "shell" = "shell")) by done.
      eapply reads_bind; [apply pickShell_reads|]. intros sh Hsh.
      eapply reads_bind; [apply first_dir_reads|]. intros d [Hd1 Hd2]. apply reads_ret. simpl.
      split_and!; [|done|set_solver]. unfold argv_spec. rewrite E, decide_False by done.
      destruct (Command t) as [|c [|c' l]]; simpl; [eauto|by subst|by subst].
    - rewrite (decide_False (P := "exec" = "shell")), (decide_True (P := "exec" = "exec")) by done.
      eapply reads_bind; [apply first_dir_reads|]. intros d [Hd1 Hd2]. apply reads_ret. simpl.
      split_and!; [|done|set_solver]. unfold argv_spec. by rewrite E, decide_True. }
  destruct (H w) as (cmd & H1 & (H2 & H3 & H4) & H5). eauto 10.
Qed.

Lemma buildCommand_ok_witness :
  exists cmd, (buildCommand (Target (sample_request "a")) (mk_os ∅ [] [])).1 = Ok cmd /\
    argv_spec (Target (sample_request "a")) (Path cmd :: CArgs cmd) /\ CDir cmd <> "" /\
    CDir cmd ∈ [""; "/workspace"; "/tmp"; "/"] /\
    files (buildCommand (Target (sample_request "a")) (mk_os ∅ [] [])).2 = ∅.
Proof. apply (buildCommand_ok (sample_request "a") (mk_os ∅ [] [])). vm_compute. reflexivity. Defined.

(** ** Frames *)

Definition put_u16 (n : Z) : bytes := [byte_of (n / 2 ^ 8); byte_of n].

Lemma beUint16_value b0 b1 : beUint16 [b0; b1] = Value (byte_val b0 * 2 ^ 8 + byte_val b1).
Proof.
  simpl. f_equal. pose proof (byte_val_range b0). pose proof (byte_val_range b1).
  rewrite u16_small by (rewrite Z.shiftl_mul_pow2; lia).
  by rewrite Z.lor_comm, lor_shiftl_add by lia.
Qed.

Lemma put_u16_value n : 0 <= n < 2 ^ 16 -> beUint16 (put_u16 n) = Value n.
Proof.
  intros Hn. unfold put_u16. rewrite beUint16_value, !byte_val_of. unfold u8. f_equal.
  rewrite (Z.mod_small (n / 2 ^ 8)) by (split; [apply Z.div_pos; lia|apply Z.div_lt_upper_bound; lia]).
  pose proof (Z.div_mod n (2 ^ 8)). lia.
Qed.

(** The frames of the protocol, as the package documentation lists them. *)
Inductive in_msg := MStdin (b : bytes) | MResize (cols rows : Z) | MEof.

Definition encode (m : in_msg) : bytes :=
  match m with
  | MStdin b => "i"%char :: b
  | MResize cols rows => "r"%char :: put_u16 cols ++ put_u16 rows
  | MEof => ["x"%char]
  end.

Definition meaning (m : in_msg) : action :=
  match m with MStdin b => Stdin b | MResize cols rows => Resize cols rows | MEof => Eof end.

Definition msg_ok (m : in_msg) : Prop :=
  match m with MResize cols rows => 0 <= cols < 2 ^ 16 /\ 0 <= rows < 2 ^ 16 | _ => True end.

(** The in callback decodes every frame of the protocol to its meaning, with
    the window size exact to 16 bits. *)
Theorem in_frame_roundtrip m : msg_ok m -> in_frame (encode m) = Value (meaning m).
Proof.
  destruct m as [b|cols rows|]; [done| |done]. intros [Hc Hr].
  unfold in_frame. cbn [encode]. rewrite decide_False, decide_True by done. change (5 <=? _) with true.
  cbv iota.
  change (slice _ 1 3) with (Value (put_u16 cols)). cbn [panics_bind]. rewrite (put_u16_value cols Hc).
  cbn [panics_bind]. change (slice _ 3 5) with (Value (put_u16 rows)). cbn [panics_bind].
  by rewrite (put_u16_value rows Hr).
Qed.

Lemma in_frame_roundtrip_witness : in_frame (encode (MResize 65535 24)) = Value (Resize 65535 24).
Proof. apply (in_frame_roundtrip (MResize 65535 24)). simpl. lia. Defined.

(** No frame, whatever its bytes, panics the callback: a short resize, an
    empty message or an unknown prefix is ignored. *)
Theorem in_frame_total data : exists a, in_frame data = Value a /\
  (a <> Ignore -> exists m rest, msg_ok m /\ a = meaning m /\ data = encode m ++ rest).
Proof.
  unfold in_frame. destruct data as [|c rest]; [by eexists|].
  case_decide as E1; [subst; eexists; split; [done|]; intros _; exists (MStdin rest), []; by rewrite app_nil_r|].
  case_decide as E2.
  - subst c. destruct (5 <=? len ("r"%char :: rest)) eqn:E; [|by eexists].
    apply Z.leb_le in E. unfold len in E.
    destruct rest as [|b0 [|b1 [|b2 [|b3 rest]]]]; simpl in E; try lia.
    rewrite !slice_total by (unfold len; simpl; lia). simpl take. cbn [panics_bind].
    rewrite beUint16_value. cbn [panics_bind]. rewrite beUint16_value. cbn [panics_bind].
    pose proof (byte_val_range b0). pose proof (byte_val_range b1).
    pose proof (byte_val_range b2). pose proof (byte_val_range b3).
    eexists. split; [done|]. intros _. eexists (MResize _ _), rest.
    split_and!; [|done|]; simpl; [lia|]. rewrite !(Z.div_add_l _ (2 ^ 8)) by lia.
    rewrite !(Z.div_small _ 256) by lia. rewrite !Z.add_0_r, !byte_of_val.
    by rewrite (byte_of_low _ (byte_val b0) b1), (byte_of_low _ (byte_val b2) b3).
  - case_decide as E3; [subst|by eexists]. eexists. split; [done|]. intros _. by exists MEof, rest.
Qed.

(** The exit frame carries the exit code as an unsigned 32-bit number; a child
    ended by a signal (exit code -1) is reported as 4294967295. *)
Lemma exit_frame_value code : beUint32 (tail (exit_frame code)) = Value (u32 code).
Proof.
  pose proof (u32_range code) as Hr. unfold exit_frame. cbn [tail].
  rewrite !Z.shiftr_div_pow2 by lia. exact (beUint32_put (u32 code) [] Hr).
Qed.

(** ** The pump: invariant *)

Definition is_exit (f : bytes) : bool := match f with c :: _ => bool_decide (c = "e"%char) | [] => false end.
Definition exits (l : list bytes) : list bytes := filter (fun f => is_exit f = true) l.

(** The bytes the 'o' frames carry. *)
Definition payload (f : bytes) : bytes := if is_exit f then [] else tail f.
Definition delivered (l : list bytes) : bytes := l ≫= payload.

Definition frame_ok (f : bytes) : Prop :=
  (exists code, f = exit_frame code) \/
  (exists c, f = out_frame c /\ c <> [] /\ (length c <= 4096)%nat).

Definition inv (s : pump) : Prop :=
  Forall frame_ok (out s) /\
  delivered (out s) `prefix_of` produced s /\
  (reader s = true -> produced s = delivered (out s) ++ ptyBuf s) /\
  match main s with
  | Published | Finished => exists code, child s = Some code /\ exits (out s) = [exit_frame code]
  | _ => exits (out s) = []
  end /\
  (main s = Reaping \/ main s = Failed -> killed s = true \/ is_Some (child s)) /\
  ptyOpen s = negb (bool_decide (main s = Finished \/ main s = Failed)).

Lemma delivered_app l1 l2 : delivered (l1 ++ l2) = delivered l1 ++ delivered l2.
Proof. unfold delivered. by rewrite bind_app. Qed.

Lemma exits_app l1 l2 : exits (l1 ++ l2) = exits l1 ++ exits l2.
Proof. unfold exits. by rewrite filter_app. Qed.

Lemma delivered_out l c : delivered (l ++ [out_frame c]) = delivered l ++ c.
Proof. rewrite delivered_app. unfold delivered. simpl. by rewrite app_nil_r. Qed.

Lemma delivered_exit l code : delivered (l ++ [exit_frame code]) = delivered l.
Proof. rewrite delivered_app. unfold delivered. simpl. by rewrite app_nil_r. Qed.

Lemma exits_out l c : exits (l ++ [out_frame c]) = exits l.
Proof. rewrite exits_app. unfold exits at 2. rewrite filter_cons. simpl. by rewrite app_nil_r. Qed.

Lemma exits_exit l code : exits (l ++ [exit_frame code]) = exits l ++ [exit_frame code].
Proof. by rewrite exits_app. Qed.

Lemma inv_started req : inv (started req).
Proof. unfold inv. simpl. split_and!; try done. by intros [?|?]. Qed.

Lemma inv_act a s : inv s -> inv (act a s).
Proof.
  intros H. destruct a; simpl; try (destruct (ptyOpen s) eqn:E; [|done]); try done;
    unfold inv in *; simpl; rewrite ?E in H; intuition.
Qed.

Lemma pump_inv_step a s t : inv s -> step a s t -> inv t.
Proof.
  intros Hi Hst. destruct Hst as [c s Hop|code s Hc Hcode|s|data a s Hin Ha|c rest s Hr Hop Hb Hne Hlen|
    s Hr He|s Hm|s Hm|s Hm Hd|s code Hm Hc|s Hm]; try exact Hi; [| |by apply inv_act|..];
    destruct Hi as (H1 & H2 & H3 & H4 & H5 & H6); unfold inv; simpl.
  - split_and!; try done; [by apply prefix_app_r|]. intros Hr. rewrite H3 by done. by rewrite app_assoc.
  - split_and!; try done; [destruct (main s); naive_solver|]. intros _. by right.
  - specialize (H3 Hr). rewrite delivered_out, exits_out. rewrite Hb, app_assoc in H3. split_and!; try done.
    + apply Forall_app. split; [done|]. constructor; [|done]. right. eauto.
    + rewrite H3. by apply prefix_app_r.
  - by split_and!.
  - rewrite Hm in *. split_and!; naive_solver.
  - rewrite Hm in *. split_and!; naive_solver.
  - rewrite Hm in *. split_and!; naive_solver.
  - rewrite delivered_exit, exits_exit. split_and!; try done.
    + apply Forall_app. split; [done|]. constructor; [|done]. left. eauto.
    + exists code. split; [done|]. assert (exits (out s) = []) as ->; [|done]. by destruct Hm as [E|E]; rewrite E in H4.
    + by intros [?|?].
    + rewrite H6. by destruct Hm as [E|E]; rewrite E.
  - rewrite Hm in *. split_and!; naive_solver.
Qed.

Lemma pump_reachable req s : reachable req s -> inv s.
Proof.
  intros H. eapply (rtc_invariant any_step inv); [|apply inv_started|exact H].
  intros a b Ha [x Hx]. by eapply pump_inv_step.
Qed.

(** Once Run has returned, nothing is published any more. *)
Lemma finished_frozen s t : inv s -> main s = Finished \/ main s = Failed -> any_step s t ->
  inv t /\ main t = main s /\ out t = out s.
Proof.
  intros Hi Hm [a Hst]. split; [by eapply pump_inv_step|].
  assert (ptyOpen s = false) as Hop.
  { destruct Hi as (_ & _ & _ & _ & _ & ->). by rewrite bool_decide_eq_true_2. }
  destruct Hst as [c s _|code s _ _|s|data a s Hin Ha|c rest s _ Hop' _ _ _|s _ _|s E|s E|s E _|s code E _|s E];
    simpl; try done; try (exfalso; naive_solver congruence).
  unfold in_subscribed in Hin. apply bool_decide_eq_true in Hin. exfalso. naive_solver congruence.
Qed.

Lemma frozen_forever s t : inv s -> main s = Finished \/ main s = Failed -> rtc any_step s t ->
  inv t /\ main t = main s /\ out t = out s.
Proof.
  intros Hi Hm Hr. revert Hi Hm. induction Hr as [s|s u t Hsu Hut IH]; intros Hi Hm; [done|].
  destruct (finished_frozen s u Hi Hm Hsu) as (Hi' & E1 & E2).
  destruct IH as (? & E3 & E4); [done|by rewrite E1|]. split_and!; [done| |]; congruence.
Qed.

(** The out subject of a session: in every reachable state of Run, under
    every interleaving, each frame is an exit frame or an 'o' frame of 1 to 4096
    bytes, the 'o' frames carry a prefix of what was written to the PTY, there is
    no exit frame before the child has been reaped and exactly one, with its exit
    code, once Run has returned; after a failed Subscribe there is none, and
    after the return nothing is published. *)
Theorem pump_frames req s : reachable req s ->
  Forall frame_ok (out s) /\ delivered (out s) `prefix_of` produced s /\
  (child s = None -> exits (out s) = []) /\
  (main s = Finished -> exists code, child s = Some code /\ exits (out s) = [exit_frame code]) /\
  (main s = Failed -> exits (out s) = []) /\
  (main s = Finished \/ main s = Failed -> forall t, rtc any_step s t -> out t = out s).
Proof.
  intros Hi%pump_reachable. pose proof Hi as (H1 & H2 & _ & H4 & _). split_and!; try done.
  - intros Hc. destruct (main s); naive_solver congruence.
  - intros Hm. by rewrite Hm in H4.
  - intros Hm. by rewrite Hm in H4.
  - intros Hm t Ht. by destruct (frozen_forever s t Hi Hm Ht) as (_ & _ & ?).
Qed.

Lemma carried_sublist ok l : carried ok l `sublist_of` l.
Proof.
  revert ok. induction l as [|f l IH]; intros [|[] ok]; simpl; try apply sublist_nil_l.
  - by apply sublist_skip.
  - by apply sublist_cons.
Qed.

Lemma delivered_sublist l1 l2 : l1 `sublist_of` l2 -> delivered l1 `sublist_of` delivered l2.
Proof.
  induction 1 as [|f l1 l2 _ IH|f l1 l2 _ IH]; [done| |]; unfold delivered in *; simpl.
  - by apply sublist_app.
  - by apply sublist_inserts_l.
Qed.

Lemma frames_sublist l1 l2 : l1 `sublist_of` l2 -> Forall frame_ok l2 -> Forall frame_ok l1.
Proof. induction 1; [done| |]; intros [? ?]%Forall_cons; auto. Qed.

Lemma exits_sublist l1 l2 : l1 `sublist_of` l2 -> exits l1 `sublist_of` exits l2.
Proof.
  unfold exits. induction 1 as [|f l1 l2 _ IH|f l1 l2 _ IH]; [done| |]; rewrite ?filter_cons;
    case_decide; try done; by constructor.
Qed.

(** What the bus carries when some calls of Publish fail: well-formed frames
    in order, the output with whole chunks missing, and at most one exit frame,
    which is the child's. *)
Theorem pump_carried req s ok : reachable req s ->
  Forall frame_ok (carried ok (out s)) /\
  delivered (carried ok (out s)) `sublist_of` produced s /\
  (exits (carried ok (out s)) = [] \/
   exists code, child s = Some code /\ exits (carried ok (out s)) = [exit_frame code]).
Proof.
  intros (H1 & H2 & _ & H4 & _)%pump_reachable. pose proof (carried_sublist ok (out s)) as Hs.
  pose proof (delivered_sublist _ _ Hs) as Hd. pose proof (exits_sublist _ _ Hs) as He.
  split_and!.
  - by eapply frames_sublist.
  - etrans; [exact Hd|]. destruct H2 as [k ->]. by apply sublist_inserts_r.
  - assert (exits (out s) = [] \/ exists code, child s = Some code /\ exits (out s) = [exit_frame code]) as [E|(code & Hc & E)]
      by (destruct (main s); naive_solver).
    + left. rewrite E in He. by inversion He.
    + rewrite E in He. apply sublist_cons_r in He as [He|(l & -> & He)]; inversion He; subst; [by left|right; eauto].
Qed.

(** Steps that need neither a client nor the good will of the programs: the
    agent's own, and the exit of a child that has been killed. *)
Definition settle (s t : pump) : Prop :=
  step Agent s t \/
  exists code, killed s = true /\ child s = None /\ -1 <= code <= 255 /\ t = child_exits code s.

Lemma settle_step s t : settle s t -> exists a, a <> Context_ /\ step a s t.
Proof. intros [H|(code & _ & Hc & Hr & ->)]; [by exists Agent|exists Program]. split; [done|by apply p_exit]. Qed.

(** How many such steps, and the news of the cancellation, a pump can take:
    one for each byte still to be read, and a few for the goroutines. *)
Definition cost (s : pump) : nat :=
  length (ptyBuf s) + (if reader s then 1 else 0) + (if child s then 0 else 1) + (if ctxDone s then 0 else 1)
  + match main s with Subscribing => 4 | Selecting => 3 | Reaping => 2 | Published => 1 | Finished | Failed => 0 end.

Lemma settle_cost s t : settle s t -> (cost t < cost s)%nat.
Proof.
  unfold cost. intros [Hs|(code & _ & Hc & _ & ->)]; [|simpl; rewrite Hc; lia].
  inversion Hs as [| | | |c rest ? Hr _ Hb Hne|? Hr _|? Hm|? Hm|? Hm _|? code Hm _|? Hm]; subst; simpl; rewrite ?Hr, ?Hm.
  - rewrite Hb, length_app. destruct c; [done|]. simpl. lia.
  - lia.
  - lia.
  - lia.
  - lia.
  - destruct Hm as [-> | ->]; lia.
  - lia.
Qed.

Lemma cancel_cost s : ctxDone s = false -> (cost (ctx_cancelled s) < cost s)%nat.
Proof. unfold cost. simpl. intros ->. lia. Qed.

Definition returned (s : pump) : Prop := main s = Finished \/ main s = Failed.

(** A cancelled pump is never stuck before Run has returned and the child, if
    one was started, has exited: cancellation leads to the Kill, the Kill to the
    exit, the exit to the return. *)
Lemma settle_progress s : inv s -> ctxDone s = true \/ returned s ->
  (returned s /\ is_Some (child s)) \/ exists t, settle s t.
Proof.
  intros (_ & _ & _ & H4 & H5 & _) Hd.
  assert (killed s = true -> is_Some (child s) \/ exists t, settle s t) as Hk.
  { intros Hk. destruct (child s) eqn:Hc; [by left; eexists|]. right. exists (child_exits (-1) s).
    right. exists (-1). split_and!; [done|done|lia|lia|done]. }
  unfold returned in *. destruct (main s) eqn:Hm.
  - right. eexists. left. by apply m_subscribe.
  - right. destruct Hd as [Hd|[?|?]]; [|done..]. eexists. left. by apply m_cancelled.
  - right. destruct (H5 (or_introl eq_refl)) as [Hkl|Hc]; [destruct (Hk Hkl) as [Hc|?]; [|done]|];
      destruct Hc as [code Hc]; eexists; left; by apply (m_exited s code); [right|].
  - right. eexists. left. by apply m_close.
  - left. split; [by left|]. destruct H4 as (code & -> & _). done.
  - destruct (H5 (or_intror eq_refl)) as [Hkl|Hc]; [destruct (Hk Hkl) as [Hc|?]; [|by right]|]; left; auto.
Qed.

(** A cancelled session ends: from every reachable state whose context is done,
    the agent's goroutines and the exit of the child they kill can take only
    finitely many steps, at most [cost s], and as long as Run has not returned or
    the child lives there is one to take. *)
Theorem pump_finishes req s : reachable req s -> ctxDone s = true ->
  (forall n t, nsteps settle n s t -> (n <= cost s)%nat) /\
  (forall t, rtc settle s t -> (returned t /\ is_Some (child t)) \/ exists u, settle t u).
Proof.
  intros Hi%pump_reachable Hd. split.
  - intros n t Hn. clear Hi Hd. induction Hn as [|n x y z Hxy _ IH]; [lia|]. apply settle_cost in Hxy. lia.
  - intros t Ht. revert Hi Hd. induction Ht as [x|x y z Hxy _ IH]; intros Hi Hd; [apply settle_progress; auto|].
    destruct (settle_step _ _ Hxy) as (a & Ha & Hst). apply IH; [by eapply pump_inv_step|].
    destruct Hst; try done; unfold act; repeat case_match; done.
Qed.

(** ** Concrete runs *)

Definition bye : bytes := chars "bye".
Definition req0 : ExecRequest := sample_request "a".

(** The child prints and exits; the main goroutine reaps it before the reader
    has read. *)
Definition printed : pump := mkPump None false bye bye [] (Some (80, 24)) true true [] false Selecting.
Definition reaped : pump := set_main Published (publish (exit_frame 0) (child_exits 0 printed)).

Lemma printed_reachable : reachable req0 printed.
Proof.
  eapply rtc_l; [exists Agent; by apply m_subscribe|].
  apply rtc_once. exists Program. by apply (p_write bye (set_main Selecting (started req0))).
Qed.

Lemma reaped_reachable : reachable req0 reaped.
Proof.
  eapply rtc_r; [eapply rtc_r; [apply printed_reachable|]|].
  - exists Program. apply (p_exit 0); [done|lia].
  - exists Agent. apply m_exited; [by left|done].
Qed.

(** The exit frame can overtake the output, and output can be lost: there
    are runs in which the last 'o' frame follows the exit frame, and runs in
    which Run returns, closing the PTY, before what the child wrote has been
    read, so that it is never published. *)
Theorem pump_exit_overtakes_output :
  (exists s, reachable req0 s /\ out s = [exit_frame 0; out_frame bye]) /\
  (exists s, reachable req0 s /\ main s = Finished /\ produced s = bye /\
     forall t, rtc any_step s t -> out t = [exit_frame 0]).
Proof.
  split.
  - eexists. split.
    + eapply rtc_r; [apply reaped_reachable|]. exists Agent. apply (r_read bye []); try done. simpl. lia.
    + done.
  - exists (set_main Finished (close_pty reaped)).
    assert (reachable req0 (set_main Finished (close_pty reaped))) as Hr.
    { eapply rtc_r; [apply reaped_reachable|]. exists Agent. by apply m_close. }
    split_and!; [done|done|done|]. intros t Ht.
    destruct (frozen_forever _ t (pump_reachable _ _ Hr) (or_introl eq_refl) Ht) as (_ & _ & ->). done.
Qed.

Lemma pump_frames_witness : (child reaped = None -> exits (out reaped) = []) /\ delivered (out reaped) `prefix_of` bye.
Proof. split; apply (pump_frames req0 reaped reaped_reachable). Defined.

Lemma cancelled_reachable : reachable req0 (ctx_cancelled printed).
Proof. eapply rtc_r; [apply printed_reachable|]. exists Context_. by apply c_cancel. Qed.

Lemma pump_finishes_witness :
  (forall n t, nsteps settle n (ctx_cancelled printed) t -> (n <= 8)%nat) /\
  (forall t, rtc settle (ctx_cancelled printed) t -> (returned t /\ is_Some (child t)) \/ exists u, settle t u).
Proof.
  apply (pump_finishes req0 (ctx_cancelled printed) cancelled_reachable). reflexivity.
Defined.

End ExecPump.
