(* ===== verification/ExecDaemon.v ===== *)
(** * Exec sessions as a whole (src/pkg/execsession: Start, Run)

    ExecSession is the registry and the goroutines that use it, ExecPump what
    one goroutine does with its child.  Here they run together: a JSON request on
    the open subject is decoded and opened, every opened session has a pump, the
    pumps interleave with each other and with the callbacks, a pump learns of its
    context only from the registry, and a goroutine calls the deferred Close only
    after its Run has returned. *)

From S2P Require Import Prelude GoLib SshWire ExecSession ExecPump Messages.
Import (hints) Messages ExecPump.
Import ExecSession.

Module ExecDaemon.

Abbreviation pump := ExecPump.pump.
Abbreviation decoder := (Messages.Unmarshal (A := ExecRequest)).

Record daemon := mkDaemon { sub : subscriber; pumps : gmap context (ExecRequest * pump) }.

Definition booted : daemon := mkDaemon NewSubscriber ∅.

(** Building the command or starting the PTY failed: Run has returned and
    nothing was started. *)
Definition not_started : pump :=
  ExecPump.mkPump (Some (-1)%Z) false [] [] [] None false false [] false ExecPump.Failed.

Abbreviation returned := ExecPump.returned.

(** The steps that need neither a request, nor a client, nor a program that ends
    by itself: the agent's goroutines, the exit of a child that has been killed, and
    a context being seen as cancelled. *)
Inductive own_step : daemon -> daemon -> Prop :=
| o_pump s ps c req p p' : ps !! c = Some (req, p) -> ExecPump.settle p p' ->
    own_step (mkDaemon s ps) (mkDaemon s (<[c := (req, p')]> ps))
| o_cancel s ps c req p : ps !! c = Some (req, p) -> c ∈ cancelled (sessions s) ->
    ExecPump.ctxDone p = false ->
    own_step (mkDaemon s ps) (mkDaemon s (<[c := (req, ExecPump.ctx_cancelled p)]> ps))
| o_return s ps c id req p : running s !! c = Some id -> ps !! c = Some (req, p) -> returned p ->
    own_step (mkDaemon s ps) (mkDaemon (pump_returns c id s) ps).

Inductive step : daemon -> daemon -> Prop :=
| x_own d d' : own_step d d' -> step d d'
(* a request is decoded or refused; Unsubscribe; CloseAll *)
| x_sub s s' ps : ExecSession.step decoder s s' -> running s' = running s -> step (mkDaemon s ps) (mkDaemon s' ps)
(* WithCancel, Open, go Run *)
| x_open s ps req p : inflight s = Some req -> p = ExecPump.started req \/ p = not_started ->
    step (mkDaemon s ps) (mkDaemon (open_session req s) (<[next s := (req, p)]> ps))
(* the programs on the PTY write, the client sends frames *)
| x_pump s ps c req p p' a : ps !! c = Some (req, p) -> ExecPump.step a p p' -> a <> ExecPump.Context_ ->
    step (mkDaemon s ps) (mkDaemon s (<[c := (req, p')]> ps)).

Definition reachable (d : daemon) : Prop := rtc step booted d.

(** ** Invariant *)

(** One pump against the registry. *)
Record pump_ok (s : subscriber) (c : context) (req : ExecRequest) (p : pump) : Prop := {
  ok_fresh : c < next s;
  ok_request : acceptable req;
  ok_frames : ExecPump.inv p;
  ok_done : ExecPump.ctxDone p = true -> c ∈ cancelled (sessions s);
  ok_reaping : ExecPump.main p = ExecPump.Reaping -> ExecPump.ctxDone p = true;
  ok_runs : running s !! c = None -> returned p;
  ok_id : forall id, running s !! c = Some id -> id = ID req
}.

Definition inv (d : daemon) : Prop :=
  tracked (sub d) /\ (forall req, inflight (sub d) = Some req -> acceptable req) /\
  (forall c, is_Some (running (sub d) !! c) -> is_Some (pumps d !! c)) /\
  (forall c req p, pumps d !! c = Some (req, p) -> pump_ok (sub d) c req p).

Lemma inv_not_started : ExecPump.inv not_started.
Proof. unfold ExecPump.inv. simpl. split_and!; try done. by right. Qed.

(** What a step of a pump keeps. *)
Lemma pump_step_ok s c req p p' a : ExecPump.step a p p' -> a <> ExecPump.Context_ -> pump_ok s c req p -> pump_ok s c req p'.
Proof.
  intros Hst Ha [H1 H2 H3 H4 H5 H6 H7].
  assert (ExecPump.ctxDone p' = ExecPump.ctxDone p) as Ed
    by (destruct Hst; try done; unfold ExecPump.act; repeat case_match; done).
  split; try done.
  - by eapply ExecPump.pump_inv_step.
  - by rewrite Ed.
  - intros Hm. rewrite Ed. destruct Hst; simpl in *; try done; auto.
    match goal with H : context [ExecPump.act ?x _] |- _ => destruct x; simpl in H; repeat case_match; auto end.
  - intros Hr. specialize (H6 Hr). unfold ExecPump.returned in *.
    destruct (ExecPump.finished_frozen p p' H3 H6) as (_ & -> & _); [by exists a|done].
Qed.

Lemma cancel_ok s c req p : c ∈ cancelled (sessions s) -> pump_ok s c req p -> pump_ok s c req (ExecPump.ctx_cancelled p).
Proof. intros Hc [H1 H2 H3 H4 H5 H6 H7]. by split. Qed.

(** The registry changes under a pump that it still runs, or no longer does. *)
Lemma registry_ok s s' c req p : pump_ok s c req p -> next s <= next s' ->
  (forall x, x ∈ cancelled (sessions s) -> x ∈ cancelled (sessions s')) ->
  (running s' !! c = running s !! c \/ (running s' !! c = None /\ returned p)) -> pump_ok s' c req p.
Proof.
  intros [H1 H2 H3 H4 H5 H6 H7] Hn Hc Hr. split; try done; auto; [lia| |].
  - destruct Hr as [->|[_ ?]]; auto.
  - destruct Hr as [->|[-> _]]; [auto|done].
Qed.

Lemma sub_grows s s' : ExecSession.step decoder s s' -> next s <= next s' /\
  (forall x, x ∈ cancelled (sessions s) -> x ∈ cancelled (sessions s')).
Proof.
  intros []; (split; [simpl; lia|]); intros x Hx; cbn [sessions open_session pump_returns close_all decoded unsubscribe];
    try done.
  - apply Open_cancelled. by right.
  - apply Close_cancelled. by right.
  - apply CloseAll_cancelled. by right.
Qed.

Lemma set_pump_inv s ps c req p p' : inv (mkDaemon s ps) -> ps !! c = Some (req, p) -> pump_ok s c req p' ->
  inv (mkDaemon s (<[c := (req, p')]> ps)).
Proof.
  intros (Ht & Hi & Hr & Hp) Hc Hok. split_and!; simpl in *; [done|done| |].
  - intros x Hx. destruct (decide (x = c)) as [->|]; [by rewrite lookup_insert_eq|]. rewrite lookup_insert_ne by done. auto.
  - intros x req' q. rewrite lookup_insert. case_decide; [intros [= <- <-]; by subst|]. apply Hp.
Qed.

Lemma own_inv_step d d' : inv d -> own_step d d' -> inv d'.
Proof.
  intros Hi Hst. pose proof Hi as (Ht & Hf & Hr & Hp).
  destruct Hst as [s ps c req p p' Hc Hset|s ps c req p Hc Hcan _|s ps c id req p Hrun Hc Hret]; simpl in *.
  - eapply set_pump_inv; [done|done|]. specialize (Hp _ _ _ Hc).
    destruct (ExecPump.settle_step _ _ Hset) as (a & Ha & Hst). by eapply pump_step_ok.
  - eapply set_pump_inv; [done|done|]. by apply cancel_ok, Hp.
  - split_and!; simpl; [by apply tracked_return|done| |].
    + intros x [_ Hx]%lookup_delete_is_Some. auto.
    + intros x req' q Hx. eapply registry_ok; [by apply Hp|done|intros y Hy; apply Close_cancelled; by right|].
      simpl. destruct (decide (x = c)) as [->|]; [|left; by rewrite lookup_delete_ne].
      right. rewrite lookup_delete_eq. split; [done|]. congruence.
Qed.

Lemma decoded_acceptable data req : DecodeRequest decoder data = Ok req -> acceptable req.
Proof.
  unfold DecodeRequest. destruct (decoder data) as [r|]; [|done]. destruct (Validate r) eqn:Hv; [done|].
  intros [= <-]. by apply acceptable_ok.
Qed.

Lemma sub_inv s s' ps : inv (mkDaemon s ps) -> ExecSession.step decoder s s' -> running s' = running s ->
  inv (mkDaemon s' ps).
Proof.
  intros (Ht & Hf & Hr & Hp) Hst Heq. destruct (sub_grows s s' Hst) as [Hn Hc]. simpl in *. split_and!; simpl.
  - by eapply tracked_step.
  - destruct Hst as [| |s req0 _| |s|s _]; simpl; try done. intros ? [= <-]. by eapply decoded_acceptable.
  - intros c. rewrite Heq. apply Hr.
  - intros c req p Hc'. eapply registry_ok; [by apply Hp|done|done|]. left. by rewrite Heq.
Qed.

Lemma open_inv s ps req p : inv (mkDaemon s ps) -> inflight s = Some req -> p = ExecPump.started req \/ p = not_started ->
  inv (mkDaemon (open_session req s) (<[next s := (req, p)]> ps)).
Proof.
  intros (Ht & Hf & Hr & Hp) Hi Hstart. simpl in *. pose proof (tracked_open s req Ht) as Ht'.
  split_and!; [done|done| |]; cbn [sub pumps].
  - intros c. cbn [running open_session]. rewrite !lookup_insert. case_decide; [done|apply Hr].
  - intros c req' q. rewrite lookup_insert. case_decide as Ec.
    + intros [= <- <-]. subst c.
      assert (ExecPump.inv p /\ ExecPump.ctxDone p = false /\ ExecPump.main p <> ExecPump.Reaping) as (H1 & H2 & H3)
        by (destruct Hstart as [-> | ->]; (split; [apply ExecPump.inv_started || apply inv_not_started|done])).
      split; [simpl; lia|by apply Hf|done|congruence|done| |]; cbn [running open_session]; rewrite lookup_insert_eq; congruence.
    + intros Hc. pose proof (Hp _ _ _ Hc) as Hok. eapply registry_ok; [done|simpl; lia| |].
      * intros x Hx. apply Open_cancelled. by right.
      * left. cbn [running open_session]. by rewrite lookup_insert_ne.
Qed.

Lemma daemon_inv_step d d' : inv d -> step d d' -> inv d'.
Proof.
  intros Hi Hst. destruct Hst as [d d' Hst|s s' ps Hst Heq|s ps req p Hf Hstart|s ps c req p p' a Hc Hst Ha].
  - by eapply own_inv_step.
  - by eapply sub_inv.
  - by eapply open_inv.
  - eapply set_pump_inv; [done|done|]. eapply pump_step_ok; [done|done|]. by apply Hi.
Qed.

Lemma daemon_reachable d : reachable d -> inv d.
Proof.
  apply rtc_invariant; [apply daemon_inv_step|]. split_and!; simpl; [apply tracked_init|done| |].
  - intros c [x Hx]. by rewrite lookup_empty in Hx.
  - intros c req p Hc. by rewrite lookup_empty in Hc.
Qed.

(** ** Stopping *)











(** C24.  Exec sessions, all running together: under every interleaving of
    requests, callbacks, pumps, children and clients, every pump runs a request
    that was decoded and accepted; its frames are well formed, carry a prefix of
    what its own programs wrote, and include exactly one exit frame once its Run
    has returned, none before the child is reaped; the agent ends a child only
    if that session was closed, replaced or stopped; a session that runs is either
    the registered one of its ID or cancelled; and a goroutine is gone only once its
    Run has returned. *)
Theorem exec_sessions d c req p :
  reachable d -> pumps d !! c = Some (req, p) ->
  acceptable req /\
  Forall ExecPump.frame_ok (ExecPump.out p) /\ ExecPump.delivered (ExecPump.out p) `prefix_of` ExecPump.produced p /\
  (ExecPump.child p = None -> ExecPump.exits (ExecPump.out p) = []) /\
  (ExecPump.main p = ExecPump.Finished ->
     exists code, ExecPump.child p = Some code /\ ExecPump.exits (ExecPump.out p) = [ExecPump.exit_frame code]) /\
  (ExecPump.main p = ExecPump.Reaping -> c ∈ cancelled (sessions (sub d))) /\
  match running (sub d) !! c with
  | Some id => id = ID req /\ (live (sessions (sub d)) !! id = Some c \/ c ∈ cancelled (sessions (sub d)))
  | None => returned p
  end.
Proof.
  intros (Ht & _ & _ & Hp)%daemon_reachable Hc. destruct (Hp _ _ _ Hc) as [H1 H2 (F1 & F2 & _ & F4 & _) H4 H5 H6 H7].
  split_and!; [done|done|done| | |by auto|].
  - intros Hn. destruct (ExecPump.main p); naive_solver congruence.
  - intros Hm. by rewrite Hm in F4.
  - destruct (running (sub d) !! c) as [id|] eqn:Er; [|auto]. split; [auto|]. by apply Ht.
Qed.


(** ** A concrete run: a shell request arrives and is opened, then the agent
    stops *)

Definition shell_payload : bytes := Messages.text "{'id': 'a', 'target': {'kind': 'shell'}, 'cols': 80, 'rows': 24}".

Definition opened : daemon :=
  mkDaemon (open_session (sample_request "a") (decoded (sample_request "a") NewSubscriber))
    {[ 0 := (sample_request "a", ExecPump.started (sample_request "a")) ]}.

Lemma opened_reachable : reachable opened.
Proof.
  eapply rtc_l.
  { apply (x_sub _ (decoded (sample_request "a") NewSubscriber)); [|done].
    apply (s_decode _ shell_payload); [done|done|]. vm_compute. reflexivity. }
  apply rtc_once. apply (x_open (decoded (sample_request "a") NewSubscriber) ∅ _ (ExecPump.started (sample_request "a")));
    [done|by left].
Qed.

Lemma exec_sessions_witness :
  acceptable (sample_request "a") /\ running (sub opened) !! 0 = Some "a" /\ live (sessions (sub opened)) !! "a" = Some 0.
Proof.
  destruct (exec_sessions opened 0 (sample_request "a") (ExecPump.started (sample_request "a")) opened_reachable) as (H & _);
    [reflexivity|]. split; [exact H|]. split; reflexivity.
Defined.







End ExecDaemon.
