(* ===== verification/GuestPlane.v ===== *)
(** * The GuestPodPlane client (src/pkg/guestplane/client.go, and
      newGuestplaneDispatcher of src/cmd/weft-microvm-agent/main.go)

    The handshake is a function of what the transport answers; the attached
    session is the step relation of its goroutines (heartbeat, receive loop,
    main select), with [stream.Send] split into its beginning and its end; the
    reconnect loop is a function of the results of its iterations.  gRPC and the
    vsock transport are parameters; payloads are the JSON text itself.  A response's Error
    string is represented by the error whose text it is, [None] for "".
    Durations are nanoseconds. *)

From S2P Require Import Prelude GoLib Strconv Json Reflect Pod Bus Containers ExecSession Messages.
Import Pod.
Import (hints) Containers ExecSession Messages.

Module GuestPlane.

Local Open Scope Z_scope.

(** ** Frames *)

Record ExecInContainer := { e_ContainerId : string; e_Command : list string; e_Env : gmap string string }.
Record UpdateContainer := { u_ContainerId : string; u_Command : list string; u_Env : gmap string string }.

Inductive control_op :=
| OpStopPod (GraceSeconds : Z)
| OpKill (ContainerId Signal : string)
| OpExec (e : ExecInContainer)
| OpUpdate (u : UpdateContainer)
| OpOther (T : string).      (* no op, or a variant this agent does not know *)

Record ControlRequest := mkReq { CallId : Z; Op : control_op }.
Record ControlResponse := mkResp { r_CallId : Z; r_Error : gerr }.

Inductive frame :=
| FHello (PodId InitVersion Kernel : string) (ReportedCid : Z)
| FHelloAck
| FPodStatus (PodId : string) (UptimeMs : Z)
| FControlReq (cr : ControlRequest)
| FControlResp (r : ControlResponse)
| FOther (T : string).

(** ** Config *)

Record Config := mkConfig {
  HostCID : Z; Port : Z; PodID : string; KernelInfo : string; InitVersion : string;
  HeartbeatTick : Z; ReconnectGap : Z; DialAttempts : Z; DialDelay : Z
}.

Definition second : Z := 1000000000.
Definition VsockCIDHost : Z := 2.
Definition DefaultPort : Z := 7777.
Definition DefaultDialAttempts : Z := 60.
Definition DefaultDialDelay : Z := 1 * second.
Definition DefaultHeartbeatTick : Z := 10 * second.
Definition DefaultReconnectGap : Z := 5 * second.

Definition or_default (v d : Z) : Z := if v =? 0 then d else v.

(** The defaults Run fills in. *)
Definition with_defaults (c : Config) : Config := {|
  HostCID := or_default (HostCID c) VsockCIDHost;
  Port := or_default (Port c) DefaultPort;
  PodID := PodID c; KernelInfo := KernelInfo c; InitVersion := InitVersion c;
  HeartbeatTick := or_default (HeartbeatTick c) DefaultHeartbeatTick;
  ReconnectGap := or_default (ReconnectGap c) DefaultReconnectGap;
  DialAttempts := or_default (DialAttempts c) DefaultDialAttempts;
  DialDelay := or_default (DialDelay c) DefaultDialDelay |}.

(** ** Dispatch *)

Section dispatch.
Context {W : Type}.      (* what the callbacks act on *)

Record Dispatcher := {
  StopPod : option (Z -> W -> gerr * W);
  Kill : option (string -> string -> W -> gerr * W);
  Exec : option (ExecInContainer -> W -> gerr * W);
  Update : option (UpdateContainer -> W -> gerr * W)
}.

Definition unwired : error :=
  errors_New "guestplane: control dispatch not yet routed to in-guest reconciler".

Definition call (id : Z) (f : option (W -> gerr * W)) (w : W) : ControlResponse * W :=
  match f with
  | None => (mkResp id (Some unwired), w)
  | Some f => let '(err, w') := f w in (mkResp id err, w')
  end.

Definition dispatchControl (cr : ControlRequest) (dp : option Dispatcher) (w : W) : ControlResponse * W :=
  match dp with
  | None => (mkResp (CallId cr) (Some unwired), w)
  | Some dp =>
      match Op cr with
      | OpStopPod grace => call (CallId cr) ((fun f => f grace) <$> StopPod dp) w
      | OpKill id sig =>
          let sig := if decide (sig = "") then "SIGTERM" else sig in
          call (CallId cr) ((fun f => f id sig) <$> Kill dp) w
      | OpExec e => call (CallId cr) ((fun f => f e) <$> Exec dp) w
      | OpUpdate u => call (CallId cr) ((fun f => f u) <$> Update dp) w
      | OpOther T => (mkResp (CallId cr) (Some (Errorf "guestplane: unknown ControlRequest op %T" [EStr T])), w)
      end
  end.

(** ** runOnce: the handshake *)

(** The frames sent, and the error runOnce returns with, if any. *)
Definition handshake (cfg : Config) (localCID : Z) (dial newClient attach : gerr)
    (sendHello : gerr) (recv : result frame) : list frame * gerr :=
  match dial, newClient, attach with
  | Some e, _, _ => ([], Some (Errorf "dial vsock (%d,%d): %w" [EInt (HostCID cfg); EInt (Port cfg); EErr e]))
  | _, Some e, _ => ([], Some (Errorf "grpc client: %w" [EErr e]))
  | _, _, Some e => ([], Some (Errorf "Attach: %w" [EErr e]))
  | None, None, None =>
      match sendHello with
      | Some e => ([], Some (Errorf "send hello: %w" [EErr e]))
      | None =>
          ([FHello (PodID cfg) (InitVersion cfg) (KernelInfo cfg) localCID],
           match recv with
           | Err e => Some (Errorf "recv hello-ack: %w" [EErr e])
           | Ok FHelloAck => None
           | Ok _ => Some (errors_New "expected GuestHelloAck, got %T")
           end)
      end
  end.

(** ** runOnce: the attached session *)

Inductive heartbeat := HWaiting | HSending (uptime : Z) | HDone.
Inductive receiver := RWaiting | RSending (r : ControlResponse) | RDone.
Inductive mainpc := MSelect | MReturned (err : gerr).

Record session := mkSession {
  sent : list frame;              (* Sends that completed *)
  hb : heartbeat;
  rx : receiver;
  errCh : list gerr;              (* capacity 2 *)
  main : mainpc;
  ctxErr : gerr;                  (* ctx.Err() *)
  received : list ControlRequest; (* requests dispatched *)
  world : W
}.

Context (cfg : Config) (dp : option Dispatcher).

Definition attached (hello : list frame) (w : W) : session :=
  mkSession hello (if 0 <? HeartbeatTick cfg then HWaiting else HDone) RWaiting [] MSelect None [] w.

(** [uint64(time.Since(bootTime) / time.Millisecond)]. *)
Definition uptime (since : Z) : Z := u64 (Z.quot since 1000000).

Definition room (ch : list gerr) : Prop := (length ch < 2)%nat.

Inductive step : session -> session -> Prop :=
| h_tick se r ch m c rc w since :
    step (mkSession se HWaiting r ch m c rc w) (mkSession se (HSending (uptime since)) r ch m c rc w)
| h_sent se u r ch m c rc w :
    step (mkSession se (HSending u) r ch m c rc w)
         (mkSession (se ++ [FPodStatus (PodID cfg) u]) HWaiting r ch m c rc w)
| h_fails se u r ch m c rc w e : room ch ->
    step (mkSession se (HSending u) r ch m c rc w)
         (mkSession se HDone r (ch ++ [Some (Errorf "send pod-status: %w" [EErr e])]) m c rc w)
| h_stops se r ch m c rc w : is_Some c \/ m <> MSelect ->
    step (mkSession se HWaiting r ch m c rc w) (mkSession se HDone r ch m c rc w)
| r_control se h ch m c rc w cr resp w' : dispatchControl cr dp w = (resp, w') ->
    step (mkSession se h RWaiting ch m c rc w) (mkSession se h (RSending resp) ch m c (rc ++ [cr]) w')
| r_ignored s : rx s = RWaiting -> step s s
| r_sent se h resp ch m c rc w :
    step (mkSession se h (RSending resp) ch m c rc w)
         (mkSession (se ++ [FControlResp resp]) h RWaiting ch m c rc w)
| r_send_fails se h resp ch m c rc w e : room ch ->
    step (mkSession se h (RSending resp) ch m c rc w)
         (mkSession se h RDone (ch ++ [Some (Errorf "send control-resp: %w" [EErr e])]) m c rc w)
| r_eof se h ch m c rc w : room ch ->
    step (mkSession se h RWaiting ch m c rc w) (mkSession se h RDone (ch ++ [None]) m c rc w)
| r_fails se h ch m c rc w e : room ch ->
    step (mkSession se h RWaiting ch m c rc w)
         (mkSession se h RDone (ch ++ [Some (Errorf "recv: %w" [EErr e])]) m c rc w)
| m_ctx se h r ch e rc w :
    step (mkSession se h r ch MSelect (Some e) rc w) (mkSession se h r ch (MReturned (Some e)) (Some e) rc w)
| m_err se h r err ch c rc w :
    step (mkSession se h r (err :: ch) MSelect c rc w) (mkSession se h r ch (MReturned err) c rc w)
| c_cancel se h r ch m rc w e :
    step (mkSession se h r ch m None rc w) (mkSession se h r ch m (Some e) rc w).

Definition reachable (hello : list frame) (w : W) : session -> Prop := rtc step (attached hello w).
End dispatch.
Arguments Dispatcher W : clear implicits.
Arguments session W : clear implicits.

(** ** Run: the reconnect loop *)

(** One turn: ctx.Err() at its top, what runOnce returned, ctx.Err() when the
    select of the gap chose [ctx.Done()]. *)
Record turn := mkTurn { t_ctx : gerr; t_session : gerr; t_gap : gerr }.

(** The sessions attempted, and the value returned; [None] while it runs. *)
Fixpoint run_loop (ts : list turn) : nat * option error :=
  match ts with
  | [] => (0%nat, None)
  | t :: ts' =>
      match t_ctx t with
      | Some e => (0%nat, Some e)
      | None =>
          match t_gap t with
          | Some e => (1%nat, Some e)
          | None => let '(n, r) := run_loop ts' in (S n, r)
          end
      end
  end.

Definition Run (cfg : Config) (ts : list turn) : nat * option error :=
  let cfg := with_defaults cfg in
  if decide (PodID cfg = "") then (0%nat, Some (errors_New "guestplane: PodID is required"))
  else run_loop ts.

(** ** The dispatcher wired to NATS *)

Record nats := mkNats { published : list (string * bytes); closed : gerr }.

(** [nc.Publish]: fails on a closed connection. *)
Definition Publish (subj : string) (payload : bytes) (n : nats) : gerr * nats :=
  match closed n with
  | Some e => (Some e, n)
  | None => (None, mkNats (published n ++ [(subj, payload)]) None)
  end.

(** The payload of Kill. *)
Record KillPayload := { kp_ContainerID : string; kp_Signal : string }.
Definition KillPayload_type : Reflect.gotype :=
  Reflect.TStruct [Messages.req "container_id" Reflect.TString; Messages.req "signal" Reflect.TString].
#[export] Instance KillPayload_message : Messages.Message KillPayload := {|
  Messages.go_type := KillPayload_type;
  Messages.of_go v := {| kp_ContainerID := Messages.as_string (Messages.fld 0 v); kp_Signal := Messages.as_string (Messages.fld 1 v) |};
  Messages.to_go k := Reflect.GStruct [Messages.of_string (kp_ContainerID k); Messages.of_string (kp_Signal k)] |}.

Section dispatcher.
Context (vmID : string) (UnixNano : nats -> Z).

Definition marshal_publish (what subj : string) (payload : result bytes) (n : nats) : gerr * nats :=
  match payload with
  | Err e => (Some (Errorf (what +:+ " marshal: %w") [EErr e]), n)
  | Ok payload => Publish subj payload n
  end.

Definition stop_set : ContainerSet := {| cs_Version := ContainerSetVersion; cs_Containers := [] |}.

Definition update_set (u : UpdateContainer) : ContainerSet := {|
  cs_Version := ContainerSetVersion;
  cs_Containers := [{| wc_Name := u_ContainerId u; wc_Image := ""; wc_Command := u_Command u; wc_Args := [];
                       wc_Env := u_Env u; wc_Mounts := []; wc_WorkingDir := ""; wc_Net := "";
                       wc_Restart := ""; wc_Annotations := ∅ |}] |}.

Definition exec_request (now : Z) (e : ExecInContainer) : ExecSession.ExecRequest := {|
  ExecSession.ID := "gplane-" +:+ Itoa now;
  ExecSession.Target := {| ExecSession.Kind := "exec"; ExecSession.Container := e_ContainerId e;
                           ExecSession.Command := e_Command e; ExecSession.Args := [];
                           ExecSession.Env := e_Env e; ExecSession.WorkDir := "" |};
  ExecSession.InitialCols := 0; ExecSession.InitialRows := 0 |}.

Definition newGuestplaneDispatcher : Dispatcher nats := {|
  StopPod := Some (fun _ => marshal_publish "guestplane stop-pod" (Bus.Containers_Subject vmID) (Messages.Marshal stop_set));
  Kill := Some (fun id sig =>
    marshal_publish "guestplane kill" (Bus.Containers_Subject vmID +:+ ".kill") (Messages.Marshal {| kp_ContainerID := id; kp_Signal := sig |}));
  Exec := Some (fun e n =>
    marshal_publish "guestplane exec" (Bus.SubjectOpen vmID) (Messages.Marshal (exec_request (UnixNano n) e)) n);
  Update := Some (fun u =>
    marshal_publish "guestplane update" (Bus.Containers_Subject vmID) (Messages.Marshal (update_set u))) |}.
End dispatcher.

(** ** The session: invariant *)

Section session_proofs.
Context {W : Type} (cfg : Config) (dp : option (Dispatcher W)) (hello : list frame) (w0 : W).

Lemma dispatch_call_id cr (w : W) : r_CallId (dispatchControl cr dp w).1 = CallId cr.
Proof. unfold dispatchControl, call. repeat (case_match; simplify_eq/=); done. Qed.

Definition resp_ids (l : list frame) : list Z :=
  omap (fun f => match f with FControlResp r => Some (r_CallId r) | _ => None end) l.
Definition pending (r : receiver) : list Z := match r with RSending resp => [r_CallId resp] | _ => [] end.
Definition alive_h (h : heartbeat) : nat := match h with HDone => 0 | _ => 1 end.
Definition alive_r (r : receiver) : nat := match r with RDone => 0 | _ => 1 end.

(** The requests dispatched are answered in order: all of them, but for the one
    whose response is being sent, or was when its Send failed. *)
Definition answered (s : session W) : Prop :=
  match rx s with
  | RDone => exists lost, resp_ids (sent s) ++ lost = CallId <$> received s /\ (length lost <= 1)%nat
  | r => resp_ids (sent s) ++ pending r = CallId <$> received s
  end.

Definition inv (s : session W) : Prop :=
  answered s /\ (length (errCh s) + alive_h (hb s) + alive_r (rx s) <= 2)%nat /\ hello `prefix_of` sent s.

Lemma resp_ids_app a b : resp_ids (a ++ b) = resp_ids a ++ resp_ids b.
Proof. unfold resp_ids. apply omap_app. Qed.

Lemma answered_idle se h r ch m c rc w f h' ch' m' c' : resp_ids [f] = [] ->
  answered (mkSession se h r ch m c rc w) -> answered (mkSession (se ++ [f]) h' r ch' m' c' rc w).
Proof.
  intros Hf. unfold answered. cbn [rx sent received]. 
  by rewrite resp_ids_app, Hf, (app_nil_r (resp_ids se)).
Qed.

Lemma session_inv_step s t : inv s -> step cfg dp s t -> inv t.
Proof.
  intros (Ha & Hl & Hh) Hst.
  destruct Hst as [se r ch m c rc w since|se u r ch m c rc w|se u r ch m c rc w e Hrm|se r ch m c rc w Hc|
    se h ch m c rc w cr resp w' Hd|s Hr|se h resp ch m c rc w|se h resp ch m c rc w e Hrm|se h ch m c rc w Hrm|
    se h ch m c rc w e Hrm|se h r ch e rc w|se h r err ch c rc w|se h r ch m rc w e];
    unfold inv in *; cbn [errCh hb rx sent alive_h alive_r] in *; rewrite ?length_app; simpl in *;
    split_and!; try lia; try done; try (by apply prefix_app_r).
  - by apply (answered_idle se (HSending u) r ch m c rc w).
  - unfold answered in *. simpl in *. rewrite app_nil_r in Ha. rewrite fmap_app, <- Ha. simpl.
    pose proof (dispatch_call_id cr w) as E. rewrite Hd in E. simpl in E. by rewrite E.
  - unfold answered in *. simpl in *. rewrite resp_ids_app, app_nil_r. done.
  - unfold answered in *. simpl in *. exists [r_CallId resp]. split; [done|simpl; lia].
  - unfold answered in *. simpl in *. exists []. split; [done|simpl; lia].
  - unfold answered in *. simpl in *. exists []. split; [done|simpl; lia].
Qed.

Lemma inv_attached : resp_ids hello = [] -> inv (attached cfg hello w0).
Proof.
  intros Hh. unfold inv, answered, attached. cbn [rx sent received errCh hb]. rewrite Hh. split_and!; [done| |done].
  destruct (0 <? HeartbeatTick cfg); simpl; lia.
Qed.

Lemma session_reachable s : resp_ids hello = [] -> reachable cfg dp hello w0 s -> inv s.
Proof. intros Hh. apply rtc_invariant; [apply session_inv_step|by apply inv_attached]. Qed.

(** C30.  Every control request is answered: in every reachable state of a
    session the responses sent carry, in order, the call IDs of the requests
    dispatched, except for at most the last one, whose Send is in progress or
    failed; and everything is preceded by the Hello. *)
Theorem requests_answered s : resp_ids hello = [] -> reachable cfg dp hello w0 s ->
  (exists rest, resp_ids (sent s) ++ rest = CallId <$> received s /\ (length rest <= 1)%nat) /\
  (rx s = RWaiting -> resp_ids (sent s) = CallId <$> received s) /\
  hello `prefix_of` sent s.
Proof.
  intros Hh Hr. destruct (session_reachable s Hh Hr) as (Ha & _ & Hp). unfold answered in Ha. split_and!; [| |done].
  - destruct (rx s); [exists []; split; [done|simpl; lia]|eexists; split; [exact Ha|simpl; lia]|exact Ha].
  - intros E. rewrite E in Ha. simpl in Ha. by rewrite app_nil_r in Ha.
Qed.

Lemma send_room s : inv s -> alive_h (hb s) = 1%nat \/ alive_r (rx s) = 1%nat -> room (errCh s).
Proof. intros (_ & Hl & _) [H|H]; unfold room; rewrite H in Hl; lia. Qed.

Lemma step_main s t err : main s = MReturned err -> step cfg dp s t -> main t = MReturned err.
Proof. intros Hm Hst. destruct Hst; simpl in *; congruence. Qed.

Lemma heartbeat_ends s : inv s -> main s <> MSelect -> exists t, rtc (step cfg dp) s t /\ hb t = HDone /\ main t <> MSelect.
Proof.
  destruct s as [se h r ch m c rc w]. simpl. intros Hi Hm. destruct h as [|u|].
  - eexists. split; [apply rtc_once, h_stops; by right|]. done.
  - eexists. split; [eapply rtc_l; [apply h_sent|apply rtc_once, h_stops; by right]|]. done.
  - eexists. split; [apply rtc_refl|]. done.
Qed.

Lemma receiver_ends s (e : error) : inv s -> hb s = HDone -> exists t, rtc (step cfg dp) s t /\ hb t = HDone /\ rx t = RDone.
Proof.
  destruct s as [se h r ch m c rc w]. simpl. intros Hi ->.
  assert (alive_r r = 1%nat -> room ch) as Hrm by (intros E; apply (send_room _ Hi); by right).
  destruct r as [|resp|].
  - eexists. split; [apply rtc_once, (r_fails cfg dp _ _ _ _ _ _ _ e), Hrm; done|]. done.
  - eexists. split; [apply rtc_once, (r_send_fails cfg dp _ _ _ _ _ _ _ _ e), Hrm; done|]. done.
  - eexists. split; [apply rtc_refl|]. done.
Qed.

(** No goroutine of a session is left blocked: errCh always has room for
    every goroutine still running, and once runOnce has returned both goroutines
    can end. *)
Theorem session_goroutines_end s : resp_ids hello = [] -> reachable cfg dp hello w0 s ->
  (length (errCh s) + alive_h (hb s) + alive_r (rx s) <= 2)%nat /\
  (main s <> MSelect -> exists t, rtc (step cfg dp) s t /\ hb t = HDone /\ rx t = RDone).
Proof.
  intros Hh Hr. pose proof (session_reachable s Hh Hr) as Hi. split; [by destruct Hi as (_ & ? & _)|].
  intros Hm. destruct (heartbeat_ends s Hi Hm) as (t & Ht & Hd & _).
  assert (inv t) as Hi' by (by eapply (rtc_invariant (step cfg dp) inv); [apply session_inv_step| |]).
  destruct (receiver_ends t (errors_New "closed") Hi' Hd) as (u & Hu & ? & ?).
  exists u. split; [by etransitivity|done].
Qed.
End session_proofs.

(** ** Concrete sessions *)

Definition cfg0 : Config := with_defaults (mkConfig 0 0 "vm1" "6.1" "0.1" 0 0 0 0).
Definition hello0 : list frame := [FHello "vm1" "0.1" "6.1" 3].
Definition req0 : ControlRequest := mkReq 7 (OpStopPod 5).

Lemma handshake0 : handshake cfg0 3 None None None None (Ok FHelloAck) = (hello0, None).
Proof. reflexivity. Qed.

(** Both goroutines inside Send. *)
Definition overlapping : session unit :=
  mkSession hello0 (HSending 10000) (RSending (mkResp 7 (Some unwired))) [] MSelect None [req0] tt.

Lemma overlapping_reachable : reachable cfg0 None hello0 tt overlapping.
Proof.
  eapply rtc_l; [apply (h_tick cfg0 None hello0 RWaiting [] MSelect None [] tt (10 * second))|].
  apply rtc_once. exact (r_control cfg0 None hello0 (HSending 10000) [] MSelect None [] tt req0 _ _ eq_refl).
Qed.

(** The two goroutines of a session can be inside [stream.Send] at the same
    time, which gRPC forbids: after the handshake, with the default
    configuration, a heartbeat tick and a control request suffice. *)
Theorem concurrent_sends : exists s : session unit,
  reachable cfg0 None (handshake cfg0 3 None None None None (Ok FHelloAck)).1 tt s /\
  (exists u, hb s = HSending u) /\ (exists r, rx s = RSending r).
Proof. exists overlapping. split_and!; [apply overlapping_reachable|by eexists|by eexists]. Qed.

Lemma requests_answered_witness :
  exists rest, resp_ids (sent overlapping) ++ rest = CallId <$> received overlapping /\ (length rest <= 1)%nat.
Proof.
  apply (requests_answered cfg0 None hello0 tt overlapping).
  - reflexivity.
  - apply overlapping_reachable.
Defined.

Lemma session_goroutines_end_witness :
  (length (errCh overlapping) + alive_h (hb overlapping) + alive_r (rx overlapping) <= 2)%nat.
Proof.
  apply (session_goroutines_end cfg0 None hello0 tt overlapping).
  - reflexivity.
  - apply overlapping_reachable.
Defined.

(** ** Run *)

(** The reconnect loop ends only by its context: whatever the sessions
    return, Run attempts a session per turn and keeps running while the context
    is not done, and what it returns is the context's error of the first turn
    that saw it; an empty PodID is refused before any attempt. *)
Theorem Run_reconnects cfg ts : PodID cfg <> "" ->
  match (Run cfg ts).2 with
  | None => Forall (fun t => t_ctx t = None /\ t_gap t = None) ts /\ (Run cfg ts).1 = length ts
  | Some e => exists before t after, ts = before ++ t :: after /\
      Forall (fun t => t_ctx t = None /\ t_gap t = None) before /\
      ((t_ctx t = Some e /\ (Run cfg ts).1 = length before) \/
       (t_ctx t = None /\ t_gap t = Some e /\ (Run cfg ts).1 = S (length before)))
  end.
Proof.
  intros Hp. unfold Run. rewrite decide_False by done. clear Hp.
  induction ts as [|t ts IH]; simpl; [done|].
  destruct (t_ctx t) as [e|] eqn:E1; simpl; [exists [], t, ts; auto|].
  destruct (t_gap t) as [e|] eqn:E2; simpl; [exists [], t, ts; auto 10|].
  destruct (run_loop ts) as [n [e|]]; simpl in *.
  - destruct IH as (b & t' & a & -> & Hb & H). exists (t :: b), t', a. split_and!; [done|by constructor|].
    destruct H as [[? ?]|(? & ? & ?)]; [left|right]; simpl; auto.
  - destruct IH as [? ->]. split; [by constructor|done].
Qed.

Definition broken : turn := mkTurn None (Some (errors_New "recv: EOF")) None.

Lemma Run_reconnects_witness : (Run cfg0 [broken; broken]).2 = None /\ (Run cfg0 [broken; broken]).1 = 2%nat.
Proof.
  split; [reflexivity|]. pose proof (Run_reconnects cfg0 [broken; broken]) as H.
  simpl in H. apply H. discriminate.
Defined.

(** Heartbeats are sent unless the configured interval is negative: zero
    means the default, not "disabled"; and Run's other defaults leave positive
    values positive. *)
Theorem heartbeat_enabled cfg :
  (0 <? HeartbeatTick (with_defaults cfg)) = (0 <=? HeartbeatTick cfg).
Proof.
  simpl. unfold or_default, DefaultHeartbeatTick, second.
  destruct (HeartbeatTick cfg =? 0) eqn:E; [apply Z.eqb_eq in E; by rewrite E|].
  apply Z.eqb_neq in E. destruct (0 <? HeartbeatTick cfg) eqn:E1, (0 <=? HeartbeatTick cfg) eqn:E2; try done;
    apply Z.ltb_lt in E1 || apply Z.ltb_ge in E1; apply Z.leb_le in E2 || apply Z.leb_gt in E2; lia.
Qed.

(** ** The dispatcher and the subscribers of its subjects *)

Section composition.
Context (vmID : string) (UnixNano : nats -> Z).

Local Abbreviation wired := (newGuestplaneDispatcher vmID UnixNano).

Lemma Publish_ok subj b n n' : Publish subj b n = (None, n') -> n' = mkNats (published n ++ [(subj, b)]) None.
Proof. unfold Publish. case_match; intros; by simplify_eq. Qed.

(** A request acknowledged without error has published one message. *)
Lemma acked_published cr n resp n' : dispatchControl cr (Some wired) n = (resp, n') -> r_Error resp = None ->
  exists subj b, n' = mkNats (published n ++ [(subj, b)]) None /\
    match Op cr with
    | OpStopPod _ => subj = Bus.Containers_Subject vmID /\ Messages.Marshal stop_set = Ok b
    | OpKill id sig => subj = Bus.Containers_Subject vmID +:+ ".kill" /\
        Messages.Marshal {| kp_ContainerID := id; kp_Signal := if decide (sig = "") then "SIGTERM" else sig |} = Ok b
    | OpExec e => subj = Bus.SubjectOpen vmID /\ Messages.Marshal (exec_request (UnixNano n) e) = Ok b
    | OpUpdate u => subj = Bus.Containers_Subject vmID /\ Messages.Marshal (update_set u) = Ok b
    | OpOther _ => False
    end.
Proof.
  unfold dispatchControl. destruct (Op cr); simpl; try (case_match eqn:E; intros; simplify_eq/=;
    apply Publish_ok in E as ->; by repeat eexists).
  intros. by simplify_eq/=.
Qed.

(** protobuf delivers strings of valid UTF-8, which JSON carries unchanged. *)
Definition exec_utf8 (e : ExecInContainer) : Prop :=
  Messages.utf8 (e_ContainerId e) /\ Messages.utf8_list (e_Command e) /\ Messages.utf8_map (e_Env e).
Definition update_utf8 (u : UpdateContainer) : Prop :=
  Messages.utf8 (u_ContainerId u) /\ Messages.utf8_list (u_Command u) /\ Messages.utf8_map (u_Env u).

Lemma stop_valid : Messages.valid stop_set.
Proof. reflexivity. Qed.

Lemma update_valid u : update_utf8 u -> Messages.valid (update_set u).
Proof.
  intros (Hi & Hc & He). Messages.typed_fields. apply Messages.of_list_typed. repeat constructor. Messages.typed_fields.
Qed.

Lemma exec_valid now e : exec_utf8 e -> Messages.valid (exec_request now e).
Proof.
  intros (Hi & Hc & He). Messages.typed_fields.
  - apply Messages.ascii_Valid. cbn [ExecSession.ID exec_request]. rewrite chars_app. apply Forall_app.
    split; [repeat constructor|apply Messages.Itoa_ascii].
  - Messages.typed_fields.
Qed.

(** Stop for each of the names, in order; the first error is kept. *)
Definition stop_each {S : Type} `{!Containers.Runtime S} (names : list string) (s : S) : gerr * S :=
  foldl (fun acc name => let '(err, s) := Containers.rt_Stop name acc.2 in (Containers.keep_first acc.1 err, s)) (None, s) names.

Lemma drops_all {S : Type} `{!Containers.Runtime S} names (acc : gerr * S) :
  foldl (Containers.drop_one ∅) acc names =
  foldl (fun acc name => let '(err, s) := Containers.rt_Stop name acc.2 in (Containers.keep_first acc.1 err, s)) acc names.
Proof. revert acc. induction names as [|n names IH]; intros acc; [done|]. simpl. rewrite IH. unfold Containers.drop_one. by rewrite lookup_empty. Qed.

(** C31.  An acknowledged StopPod stops everything: the JSON text it publishes on
    the containers subject makes the reconciler, over any runtime and whatever its
    calls answer, call Stop once for every container of its record, and nothing
    else, and empty the record.  Over a runtime that keeps the contract (a Stop that
    reports no error has ended the container) and runs what the record says, no
    error means that no container is alive. *)
Theorem StopPod_stops_all {S : Type} `{!Containers.Runtime S} id grace n resp n' d (s : S) :
  dispatchControl (mkReq id (OpStopPod grace)) (Some wired) n = (resp, n') -> r_Error resp = None ->
  exists b, published n' = published n ++ [(Bus.Containers_Subject vmID, b)] /\
    let '(err, s') := stop_each (Containers.keys_of d) s in
    Containers.HandleMessage Messages.Unmarshal b (d, s) = (err, (∅, s')) /\
    forall Laws : Containers.RuntimeLaws S, Containers.agrees d s -> err = None -> Containers.agrees ∅ s'.
Proof.
  intros Hd Hr. destruct (acked_published _ _ _ _ Hd Hr) as (subj & b & -> & -> & Hb).
  destruct (Messages.roundtrip _ stop_valid) as (b' & Hb' & Hu). assert (b' = b) as -> by (apply (inj Ok); congruence).
  exists b. split; [done|]. unfold Containers.HandleMessage. rewrite Hu. simpl.
  unfold Containers.Apply. simpl. change (Containers.next_of []) with (∅ : Containers.desired_set).
  change (merge_sort String.le (Containers.keys_of ∅)) with (@nil string). cbn [foldl].
  unfold stop_each. rewrite <- drops_all.
  destruct (foldl (Containers.drop_one ∅) (None, s) (Containers.keys_of d)) as [err s'] eqn:Ef.
  split; [done|]. intros Laws Ha -> k.
  pose proof (Containers.drops_ok ∅ (Containers.keys_of d) (None, s)) as Hk. rewrite Ef in Hk. specialize (Hk eq_refl k).
  cbn [snd] in Hk. rewrite (lookup_empty (M := gmap string) k). rewrite Hk. clear Hk. case_decide as Hin; [constructor|]. specialize (Ha k).
  destruct (d !! k) as [c|] eqn:E; [|exact Ha].
  exfalso. apply Hin. split; [|done]. apply Containers.keys_of_elem. eauto.
Qed.

(** An acknowledged Update is never carried out: the message it publishes
    is a container set without an image, which the reconciler rejects, leaving
    the desired set and the runtime as they were. *)
Theorem Update_is_rejected {S : Type} `{!Containers.Runtime S} id u n resp n' d (s : S) : update_utf8 u ->
  dispatchControl (mkReq id (OpUpdate u)) (Some wired) n = (resp, n') -> r_Error resp = None ->
  exists b e, published n' = published n ++ [(Bus.Containers_Subject vmID, b)] /\
    Containers.HandleMessage Messages.Unmarshal b (d, s) = (Some e, (d, s)).
Proof.
  intros Hutf Hd Hr. destruct (acked_published _ _ _ _ Hd Hr) as (subj & b & -> & -> & Hb).
  destruct (Messages.roundtrip _ (update_valid u Hutf)) as (b' & Hb' & Hu). assert (b' = b) as -> by (apply (inj Ok); congruence).
  unfold Containers.HandleMessage. exists b. rewrite Hu. unfold Containers.Apply.
  destruct (ContainerSet_Validate (update_set u)) as [s' [e|]] eqn:Hv; [by eexists|].
  exfalso. apply ContainerSet_Validate_ok in Hv as (_ & _ & Hwf & _). inversion Hwf as [|? ? Hc _].
  by destruct Hc as (_ & Hi & _).
Qed.

(** An acknowledged Exec reaches the session subscriber of the same VM as the
    request itself, which it acts on exactly when the container and the command
    are given; an Exec without them is acknowledged as a success all the same. *)
Theorem Exec_reaches_subscriber id e n resp n' : exec_utf8 e ->
  dispatchControl (mkReq id (OpExec e)) (Some wired) n = (resp, n') -> r_Error resp = None ->
  exists b, published n' = published n ++ [(Bus.SubjectOpen vmID, b)] /\
    Messages.Unmarshal b = Ok (exec_request (UnixNano n) e) /\
    (is_Ok (ExecSession.DecodeRequest Messages.Unmarshal b) = true <-> e_ContainerId e <> "" /\ e_Command e <> []).
Proof.
  intros Hutf Hd Hr. destruct (acked_published _ _ _ _ Hd Hr) as (subj & b & -> & -> & Hb).
  destruct (Messages.roundtrip _ (exec_valid (UnixNano n) e Hutf)) as (b' & Hb' & Hu).
  assert (b' = b) as -> by (apply (inj Ok); congruence).
  exists b. split; [done|]. split; [done|]. unfold ExecSession.DecodeRequest. rewrite Hu.
  assert (ExecSession.Validate (exec_request (UnixNano n) e) = None <-> e_ContainerId e <> "" /\ e_Command e <> []) as Hv.
  { rewrite ExecSession.acceptable_ok. unfold ExecSession.acceptable. simpl. naive_solver. }
  rewrite <- Hv. by destruct (ExecSession.Validate _).
Qed.

End composition.

Definition up : nats := mkNats [] None.

(** The container "web" runs; StopPod ends it. *)
Abbreviation web_running := Containers.web_up.

Lemma StopPod_stops_all_witness :
  is_Some (Containers.Started web_running.2 !! "web") /\
  exists b s', Containers.HandleMessage Messages.Unmarshal b web_running = (None, (∅, s')) /\
    Containers.agrees ∅ s' /\ Containers.Started s' !! "web" = None.
Proof.
  split; [vm_compute; eauto|].
  destruct (StopPod_stops_all "vm1" (fun _ => 0) 1 5 up _ _ web_running.1 web_running.2 eq_refl eq_refl) as (b & _ & H).
  destruct (stop_each (Containers.keys_of web_running.1) web_running.2) as [err s'] eqn:E. destruct H as [H1 H2].
  assert (err = None /\ Containers.Started s' !! "web" = None) as [-> Hw]
    by (split; [change err with (err, s').1|change s' with (err, s').2]; rewrite <- E; vm_compute; reflexivity).
  exists b, s'. split; [exact H1|]. split; [exact (H2 _ Containers.web_up_agrees eq_refl)|exact Hw].
Defined.

Definition update0 : UpdateContainer := {| u_ContainerId := "web"; u_Command := ["sh"]; u_Env := ∅ |}.

Lemma Update_is_rejected_witness : exists b e,
  Containers.HandleMessage Messages.Unmarshal b (∅, Containers.NewStubRuntime) =
    (Some e, (∅, Containers.NewStubRuntime)).
Proof.
  assert (update_utf8 update0) as Hu by (split_and!; [reflexivity|repeat constructor|done]).
  destruct (Update_is_rejected "vm1" (fun _ => 0) 1 update0 up _ _ ∅ Containers.NewStubRuntime Hu eq_refl eq_refl) as (b & e & _ & H).
  exists b, e. exact H.
Defined.

Definition exec0 : ExecInContainer := {| e_ContainerId := ""; e_Command := []; e_Env := ∅ |}.

Lemma Exec_reaches_subscriber_witness : exists b : bytes,
  is_Ok (ExecSession.DecodeRequest Messages.Unmarshal b) = true <-> "" <> "" /\ [] <> ([] : list string).
Proof.
  assert (exec_utf8 exec0) as Hu by (split_and!; [reflexivity|constructor|done]).
  destruct (Exec_reaches_subscriber "vm1" (fun _ => 0) 1 exec0 up _ _ Hu eq_refl eq_refl) as (b & _ & _ & H).
  exists b. exact H.
Defined.

End GuestPlane.
