(* ===== verification/Vsock.v ===== *)
(** * The guest's end of the vsock channel
      (src/vendor/github.com/openweft/weft-microvm-init/pkg/transport/vsock.go,
      kernelRelease of src/cmd/weft-microvm-agent/kernel_linux.go, and the
      GuestPodPlane wiring of run in main.go)

    Dial, DialWithRetry and LocalCID with the file descriptors they open and
    close; what the kernel answers to each system call is an argument.  The
    result of DialWithRetry and the reported CID are then fed to the handshake of
    [GuestPlane].  Durations are nanoseconds. *)

From S2P Require Import Prelude GoLib GuestPlane.
Local Open Scope Z_scope.

Module Vsock.

Definition afVsock : Z := 40.
Definition VsockCIDAny : Z := 4294967295.
Definition VsockCIDHypervisor : Z := 0.
Definition VsockCIDLocal : Z := 1.

Record sockaddrVM := { family : Z; reserved : Z; sa_port : Z; sa_cid : Z; zero : list Z }.

(** ** Descriptors *)

(** The descriptors open in the process, and a bound above all of them. *)
Record fdtable := mkFds { open_fds : gset nat; bound : nat }.

Definition fd_wf (s : fdtable) : Prop := forall fd, fd ∈ open_fds s -> (fd < bound s)%nat.
Definition fd_open (s : fdtable) : nat * fdtable := (bound s, mkFds ({[bound s]} ∪ open_fds s) (S (bound s))).
Definition fd_close (fd : nat) (s : fdtable) : fdtable := mkFds (open_fds s ∖ {[fd]}) (bound s).

(** The kernel's answers to one Dial: socket, connect (which sees the address),
    and the duplication in net.FileConn. *)
Record answers := { a_socket : gerr; a_connect : sockaddrVM -> gerr; a_fileconn : gerr }.

Definition Dial (cid port : Z) (a : answers) (s : fdtable) : result nat * fdtable :=
  match a_socket a with
  | Some e => (Err (Errorf "vsock socket: %w" [EErr e]), s)
  | None =>
      let '(fd, s) := fd_open s in
      let sa := {| family := afVsock; reserved := 0; sa_port := port; sa_cid := cid; zero := [0; 0; 0; 0] |} in
      match a_connect a sa with
      | Some errno => (Err (Errorf "vsock connect (%d,%d): %w" [EInt cid; EInt port; EErr errno]), fd_close fd s)
      | None =>
          let '(r, s) := match a_fileconn a with
                         | Some e => (Err e, s)
                         | None => let '(conn, s) := fd_open s in (Ok conn, s)
                         end in
          let s := fd_close fd s in      (* FileConn dups *)
          match r with
          | Err e => (Err (Errorf "vsock filconn: %w" [EErr e]), s)
          | Ok conn => (Ok conn, s)
          end
      end
  end.

(** The loop of DialWithRetry from attempt [i], [n] attempts left: connection,
    error, descriptors, and time slept. *)
Fixpoint retry (cid port delay : Z) (a : nat -> answers) (i n : nat) (lastErr : gerr) (s : fdtable)
    : option nat * gerr * fdtable * Z :=
  match n with
  | O => (None, lastErr, s, 0)
  | S n' =>
      let '(r, s) := Dial cid port (a i) s in
      match r with
      | Ok c => (Some c, None, s, 0)
      | Err err =>
          let '(c, e, s, slept) := retry cid port delay a (S i) n' (Some err) s in
          (c, e, s, delay + slept)
      end
  end.

Definition DialWithRetry (cid port attempts delay : Z) (a : nat -> answers) (s : fdtable)
    : option nat * gerr * fdtable * Z :=
  retry cid port delay a 0 (Z.to_nat attempts) None s.

(** [o] is what opening /dev/vsock answers, [ioctl] what the ioctl does: an
    errno, or the CID it stores. *)
Definition LocalCID (o : gerr) (ioctl : result Z) (s : fdtable) : Z * fdtable :=
  match o with
  | Some _ => (0, s)
  | None =>
      let '(fd, s) := fd_open s in
      (match ioctl with Err _ => 0 | Ok cid => cid end, fd_close fd s)
  end.

(** ** The kernel release *)

(** [byte(c)] for an int8. *)
Definition byte_of_int8 (c : Z) : Z := c mod 256.

Fixpoint cstring (l : list Z) : list Z :=
  match l with [] => [] | c :: l' => if c =? 0 then [] else byte_of_int8 c :: cstring l' end.

Definition kernelRelease (uname : result (list Z)) : string :=
  match uname with Err _ => "" | Ok release => str (byte_of <$> cstring release) end.

(** The configuration run hands to guestplane.Run. *)
Definition agentConfig (version podID kernel : string) (hostCID port interval : Z) : GuestPlane.Config :=
  GuestPlane.mkConfig hostCID port podID kernel version interval 0 0 0.

(** ** Dial leaks no descriptor *)

(** The descriptors after a dial are those before and the connection's. *)
Definition owned (c : option nat) (s s' : fdtable) : Prop :=
  fd_wf s' /\ (bound s <= bound s')%nat /\
  match c with
  | Some fd => open_fds s' = {[fd]} ∪ open_fds s /\ fd ∉ open_fds s
  | None => open_fds s' = open_fds s
  end.

Lemma owned_refl s : fd_wf s -> owned None s s.
Proof. intros Hw. by split. Qed.

Lemma owned_trans c s1 s2 s3 : owned None s1 s2 -> owned c s2 s3 -> owned c s1 s3.
Proof.
  intros (Hw & Hb & Ho) (Hw' & Hb' & Ho'). split; [done|]. split; [lia|]. destruct c; by rewrite Ho in Ho'.
Qed.

Lemma open_close_owned s : fd_wf s -> owned None s (fd_close (bound s) (fd_open s).2).
Proof.
  intros Hw. assert (bound s ∉ open_fds s) as Hn by (intros ?%Hw; lia).
  split_and!; [|simpl; lia|simpl; set_solver]. intros fd Hfd. simpl in *.
  assert (fd ∈ open_fds s) as ?%Hw by set_solver. lia.
Qed.

Definition dialled (r : result nat) : option nat := match r with Ok c => Some c | Err _ => None end.

Lemma Dial_owned cid port a s : fd_wf s -> let '(r, s') := Dial cid port a s in owned (dialled r) s s'.
Proof.
  intros Hw. unfold Dial. destruct (a_socket a); [by apply owned_refl|]. simpl.
  destruct (a_connect a _); [by apply open_close_owned|]. destruct (a_fileconn a); [by apply open_close_owned|]. simpl.
  assert (bound s ∉ open_fds s /\ S (bound s) ∉ open_fds s) as [H1 H2] by (split; intros ?%Hw; lia).
  assert (({[S (bound s)]} ∪ ({[bound s]} ∪ open_fds s)) ∖ {[bound s]} = {[S (bound s)]} ∪ open_fds s) as Ho.
  { assert (S (bound s) <> bound s) as Hne by lia. revert H2 Hne. generalize (S (bound s)). set_solver. }
  unfold owned, fd_wf. simpl. rewrite Ho. split_and!; [|lia|done|done]. intros fd [->%elem_of_singleton|?%Hw]%elem_of_union; lia.
Qed.

(** Attempt [i] of a run succeeds: the answers of its system calls do. *)
Definition reachable (cid port : Z) (a : answers) : Prop :=
  a_socket a = None /\ a_fileconn a = None /\
  a_connect a {| family := afVsock; reserved := 0; sa_port := port; sa_cid := cid; zero := [0; 0; 0; 0] |} = None.

Lemma Dial_ok_iff cid port a s : is_Ok (Dial cid port a s).1 = true <-> reachable cid port a.
Proof.
  unfold Dial, reachable. destruct (a_socket a); [naive_solver|]. simpl. destruct (a_connect a _); [naive_solver|].
  by destruct (a_fileconn a); split; naive_solver.
Qed.

Lemma retry_spec cid port delay a i n lastErr s : fd_wf s ->
  let '(c, e, s', slept) := retry cid port delay a i n lastErr s in
  owned c s s' /\
  match c with
  | Some _ => e = None /\ exists k, (k < n)%nat /\ reachable cid port (a (i + k)%nat) /\ slept = Z.of_nat k * delay /\
                forall j, (j < k)%nat -> ~ reachable cid port (a (i + j)%nat)
  | None => slept = Z.of_nat n * delay /\ (n = 0%nat -> e = lastErr) /\ ((0 < n)%nat -> is_Some e) /\
            forall j, (j < n)%nat -> ~ reachable cid port (a (i + j)%nat)
  end.
Proof.
  revert i lastErr s. induction n as [|n IH]; intros i lastErr s Hw; cbn [retry].
  { split; [by apply owned_refl|]. split_and!; [lia|done|lia|lia]. }
  pose proof (Dial_owned cid port (a i) s Hw) as Ho. pose proof (Dial_ok_iff cid port (a i) s) as Hr.
  destruct (Dial cid port (a i) s) as [[c|err] s1]; simpl in Ho, Hr.
  - split; [done|]. split; [done|]. exists 0%nat. rewrite Nat.add_0_r. split_and!; [lia|by apply Hr|lia|lia].
  - assert (~ reachable cid port (a i)) as Hno by (by intros ?%Hr).
    assert (forall m, (forall j, (j < m)%nat -> ~ reachable cid port (a (S i + j)%nat)) ->
      forall j, (j < S m)%nat -> ~ reachable cid port (a (i + j)%nat)) as Hshift.
    { intros m Hm [|j] Hj; [by rewrite Nat.add_0_r|]. rewrite <- Nat.add_succ_comm. apply Hm. lia. }
    specialize (IH (S i) (Some err) s1 (proj1 Ho)).
    destruct (retry cid port delay a (S i) n (Some err) s1) as [[[c e] s'] slept]. destruct IH as [Ho' IH].
    split; [by eapply owned_trans|]. destruct c as [c|].
    + destruct IH as (He & k & Hk & Hrk & Hs & Hj). split; [done|]. exists (S k). rewrite <- Nat.add_succ_comm.
      split_and!; [lia|done|lia|by apply Hshift].
    + destruct IH as (Hs & He0 & He & Hj). split_and!; [lia|lia| |by apply Hshift]. intros _.
      destruct n as [|n]; [rewrite He0 by done; eauto|apply He; lia].
Qed.

(** C32.  The agent's dial of the host: guestplane.Run fills in sixty attempts a
    second apart, so the dial returns either an open connection, whose
    descriptor is the only one added, from the first attempt the host
    answered, having slept a second per failed attempt; or, if none of the
    sixty was answered, an error and no descriptor more than before, after
    sixty seconds.  It never returns neither (a nil connection without an
    error), which grpc would dereference. *)
Theorem agent_dial version podID kernel hostCID port interval a s : fd_wf s ->
  let cfg := GuestPlane.with_defaults (agentConfig version podID kernel hostCID port interval) in
  let host := fun i => reachable (GuestPlane.HostCID cfg) (GuestPlane.Port cfg) (a i) in
  let '(c, e, s', slept) := DialWithRetry (GuestPlane.HostCID cfg) (GuestPlane.Port cfg)
                              (GuestPlane.DialAttempts cfg) (GuestPlane.DialDelay cfg) a s in
  owned c s s' /\
  ((exists k fd, (k < 60)%nat /\ host k /\ (forall j, (j < k)%nat -> ~ host j) /\
      c = Some fd /\ e = None /\ slept = Z.of_nat k * GuestPlane.second) \/
   ((forall j, (j < 60)%nat -> ~ host j) /\ c = None /\ is_Some e /\ slept = 60 * GuestPlane.second)).
Proof.
  intros Hw cfg host. unfold DialWithRetry.
  change (GuestPlane.DialAttempts cfg) with 60. change (GuestPlane.DialDelay cfg) with GuestPlane.second.
  change (Z.to_nat 60) with 60%nat.
  pose proof (retry_spec (GuestPlane.HostCID cfg) (GuestPlane.Port cfg) GuestPlane.second a 0 60 None s Hw) as H.
  destruct (retry _ _ _ _ _ _ _ _) as [[[c e] s'] slept]. destruct H as [Ho H]. split; [done|].
  destruct c as [fd|].
  - left. destruct H as (He & k & Hk & Hr & Hs & Hj). by exists k, fd.
  - right. destruct H as (Hs & _ & He & Hj). split_and!; [done|done|apply He; lia|done].
Qed.

Definition answered : answers := {| a_socket := None; a_connect := fun _ => None; a_fileconn := None |}.
Definition refused : answers := {| a_socket := None; a_connect := fun _ => Some (Sentinel "ECONNRESET"); a_fileconn := None |}.
Definition late_host (i : nat) : answers := if bool_decide (i < 3)%nat then refused else answered.

Lemma agent_dial_witness :
  owned (Some 7%nat) (mkFds {[1%nat]} 3) (mkFds {[7%nat; 1%nat]} 8) /\
  DialWithRetry 2 7777 60 GuestPlane.second late_host (mkFds {[1%nat]} 3) =
    (Some 7%nat, None, mkFds {[7%nat; 1%nat]} 8, 3 * GuestPlane.second).
Proof.
  assert (DialWithRetry 2 7777 60 GuestPlane.second late_host (mkFds {[1%nat]} 3) =
    (Some 7%nat, None, mkFds {[7%nat; 1%nat]} 8, 3 * GuestPlane.second)) as Hd by (by vm_compute).
  split; [|exact Hd].
  assert (fd_wf (mkFds {[1%nat]} 3)) as Hw by (intros fd Hfd; simpl in Hfd; apply elem_of_singleton in Hfd as ->; simpl; lia).
  pose proof (agent_dial "v1" "pod" "6.1" 0 0 0 late_host (mkFds {[1%nat]} 3) Hw) as H. cbv zeta in H.
  change (GuestPlane.HostCID _) with 2 in H. change (GuestPlane.Port _) with 7777 in H.
  change (GuestPlane.DialAttempts _) with 60 in H. change (GuestPlane.DialDelay _) with GuestPlane.second in H.
  rewrite Hd in H. exact (proj1 H).
Defined.

(** With no attempts to make, DialWithRetry returns neither a connection nor an
    error. *)
Lemma no_attempts_no_error cid port attempts delay a s : attempts <= 0 ->
  DialWithRetry cid port attempts delay a s = (None, None, s, 0).
Proof. intros Ha. unfold DialWithRetry. by replace (Z.to_nat attempts) with 0%nat by lia. Qed.

(** ** What the Hello announces *)

Lemma LocalCID_closes o ioctl s : fd_wf s -> owned None s (LocalCID o ioctl s).2.
Proof. intros Hw. unfold LocalCID. destruct o; [by apply owned_refl|]. by apply open_close_owned. Qed.

Lemma cstring_padded l n : Forall (fun c => c <> 0) l -> cstring (l ++ replicate (S n) 0) = byte_of_int8 <$> l.
Proof.
  induction 1 as [|c l Hc _ IH]; [done|]. cbn [app cstring fmap list_fmap]. rewrite (proj2 (Z.eqb_neq _ _)) by done.
  by rewrite IH.
Qed.

(** The int8 the kernel stores for a byte. *)
Definition int8_of (b : ascii) : Z := if byte_val b <? 128 then byte_val b else byte_val b - 256.

Lemma byte_int8 b : byte_of (byte_of_int8 (int8_of b)) = b.
Proof.
  pose proof (byte_val_range b) as Hb. unfold byte_of_int8, int8_of. destruct (byte_val b <? 128) eqn:E; to_prop.
  - rewrite Z.mod_small by lia. apply byte_of_val.
  - replace (byte_val b - 256) with (byte_val b + (-1) * 256) by lia. rewrite Z.mod_add, Z.mod_small by lia. apply byte_of_val.
Qed.

(** The Hello frame tells the truth: once the host has been dialled, the one
    frame the handshake sends before it waits for the acknowledgement carries
    the pod id, the agent's version, the kernel release exactly as uname has it
    (for any release of at most 64 bytes without NUL), and the CID of the
    kernel, or 0 when it cannot be read; reading it leaves no descriptor open. *)
Theorem hello_announces version podID release n hostCID port interval o ioctl s recv :
  fd_wf s -> "000"%char ∉ chars release ->
  let uts := (int8_of <$> chars release) ++ replicate (S n) 0 in
  let cfg := GuestPlane.with_defaults (agentConfig version podID (kernelRelease (Ok uts)) hostCID port interval) in
  let '(cid, s') := LocalCID o ioctl s in
  (GuestPlane.handshake cfg cid None None None None recv).1 = [GuestPlane.FHello podID version release cid] /\
  cid = match o, ioctl with None, Ok c => c | _, _ => 0 end /\ open_fds s' = open_fds s.
Proof.
  intros Hw Hnul uts cfg. pose proof (LocalCID_closes o ioctl s Hw) as (_ & _ & Hc).
  assert (kernelRelease (Ok uts) = release) as Hk.
  { unfold kernelRelease, uts. rewrite cstring_padded.
    - rewrite <- !list_fmap_compose. rewrite <- (str_chars release) at 2. f_equal. rewrite <- (list_fmap_id (chars release)) at 2.
      apply list_fmap_ext. intros _ b _. apply byte_int8.
    - apply Forall_fmap, Forall_forall. intros b Hb. simpl. intros Hz. apply Hnul.
      replace ("000"%char) with b; [done|]. rewrite <- (byte_int8 b), Hz. reflexivity. }
  destruct (LocalCID o ioctl s) as [cid s'] eqn:Hl. simpl in Hc. split_and!; [|by unfold LocalCID in Hl; destruct o, ioctl; simpl in Hl; simplify_eq|done].
  unfold cfg. by rewrite Hk.
Qed.

Lemma hello_announces_witness :
  (GuestPlane.handshake (GuestPlane.with_defaults (agentConfig "v1" "pod"
     (kernelRelease (Ok ((int8_of <$> chars "6.1.0") ++ replicate 60 0))) 0 0 0)) 3 None None None None (Ok GuestPlane.FHelloAck)).1
  = [GuestPlane.FHello "pod" "v1" "6.1.0" 3].
Proof.
  assert (fd_wf (mkFds ∅ 0)) as Hw by (intros fd Hfd; simpl in Hfd; by apply elem_of_empty in Hfd).
  refine (proj1 (hello_announces "v1" "pod" "6.1.0" 59 0 0 0 None (Ok 3) (mkFds ∅ 0) (Ok GuestPlane.FHelloAck) Hw _)).
  apply (bool_decide_unpack _). by vm_compute.
Defined.
End Vsock.
