(* ===== verification/Mounts.v ===== *)
(** * Share mounts (the Registry of
      src/vendor/github.com/openweft/weft-microvm-init/pkg/cubefs/mount.go, and
      applyBootMounts of src/cmd/weft-microvm-agent/main.go)

    Mounting a share launches cfs-client and waits for the kernel to show the
    mount; unmounting runs fusermount or umount.  What the registry relies on is
    the class [Mounter]: a successful Mount adds one live mount, a failed one
    adds none, a successful Unmount removes the mount it is given. *)

From S2P Require Import Prelude GoLib Pod Bus.
Import Pod.

Module Mounts.

Class Mounter (S H : Type) := {
  mount : ShareMount -> S -> result H * S;
  unmount : H -> S -> gerr * S
}.

(** [live s h]: handle [h] is mounted; [spec_of h]: what it mounts. *)
Class MounterLaws (S H : Type) `{Mounter S H} := {
  live : S -> H -> Prop;
  spec_of : H -> ShareMount;
  mount_ok : forall m s h s', mount m s = (Ok h, s') ->
    spec_of h = m /\ ~ live s h /\ forall h', live s' h' <-> h' = h \/ live s h';
  mount_fails : forall m s e s', mount m s = (Err e, s') -> forall h, live s' h <-> live s h;
  unmount_ok : forall h s s', unmount h s = (None, s') -> forall h', live s' h' <-> live s h' /\ h' <> h;
  unmount_fails : forall h s e s', unmount h s = (Some e, s') -> forall h', live s' h' <-> live s h'
}.

Section registry.
Context {S H : Type} `{Mounter S H}.

Abbreviation Registry := (gmap string H).

Definition Apply (spec : ShareMount) (st : Registry * S) : gerr * (Registry * S) :=
  let '(active, s) := st in
  let '(err, (active, s)) :=
    match active !! sm_ID spec with
    | Some existing =>
        let '(err, s) := unmount existing s in
        match err with
        | Some e => (Some e, (active, s))
        | None => (None, (delete (sm_ID spec) active, s))
        end
    | None => (None, (active, s))
    end in
  match err with
  | Some e => (Some e, (active, s))
  | None =>
      if decide (sm_Action spec = MountActionUnmount) then (None, (active, s))
      else
        let '(r, s) := mount spec s in
        match r with
        | Err e => (Some e, (active, s))
        | Ok m => (None, (<[sm_ID spec := m]> active, s))
        end
  end.

(** The loop of UnmountAll, over the map in its enumeration order. *)
Definition unmount_one (acc : gerr * S) (m : H) : gerr * S :=
  let '(err, s) := unmount m acc.2 in
  (match acc.1 with Some e => Some e | None => err end, s).

Definition UnmountAll (st : Registry * S) : gerr * (Registry * S) :=
  let acc := foldl unmount_one (None, st.2) (map_to_list st.1).*2 in
  (acc.1, (∅, acc.2)).

(** Boot-time mounts: the first failure is fatal. *)
Fixpoint applyAll (ms : list ShareMount) (st : Registry * S) : gerr * (Registry * S) :=
  match ms with
  | [] => (None, st)
  | m :: ms' =>
      let '(err, st) := Apply m st in
      match err with
      | Some e => (Some (Errorf "apply %q: %w" [EStr (sm_ID m); EErr e]), st)
      | None => applyAll ms' st
      end
  end.

Definition applyBootMounts (LoadShareMounts : result (list ShareMount)) (st : Registry * S) : gerr * (Registry * S) :=
  match LoadShareMounts with Err e => (Some e, st) | Ok ms => applyAll ms st end.

(** The callback of the mounts subscription on a sequence of messages. *)
Definition deliver (Unmarshal : bytes -> result ShareMount) (st : Registry * S) (msgs : list bytes) : Registry * S :=
  foldl (fun st data => (Bus.Mounts_HandleMessage Unmarshal data Apply st).2) st msgs.

(** What the stream of ensureStream keeps of a subject (MaxMsgsPerSubject with
    DiscardOld), and what DeliverLastPerSubject replays of it to a subscriber
    that starts. *)
Definition retained (maxMsgsPerSubject : nat) (msgs : list bytes) : list bytes :=
  drop (length msgs - maxMsgsPerSubject) msgs.
Definition replayed (msgs : list bytes) : list bytes := option_list (last (retained 1 msgs)).

Lemma Apply_size spec active s : size (Apply spec (active, s)).2.1 <= 1 + size active.
Proof.
  unfold Apply. destruct (active !! sm_ID spec) as [h|] eqn:Hh.
  - destruct (unmount h s) as [[e|] s1]; [simpl; lia|].
    assert (size (delete (sm_ID spec) active) <= size active) as Hd by (rewrite map_size_delete_Some; eauto; lia).
    case_decide; [simpl; lia|]. destruct (mount spec s1) as [[m|e] s2]; simpl; [|lia].
    rewrite insert_delete_eq, map_size_insert_Some by eauto. lia.
  - case_decide; [simpl; lia|]. destruct (mount spec s) as [[m|e] s2]; simpl; [|lia].
    by rewrite map_size_insert_None.
Qed.

(** A restarted agent gets at most one share back from the stream, however many
    were mounted: the messages are one share each, and the stream keeps one
    message per VM. *)
Theorem replay_restores_one_share Unmarshal msgs s : size (deliver Unmarshal (∅, s) (replayed msgs)).1 <= 1.
Proof.
  unfold replayed. destruct (last (retained 1 msgs)) as [data|]; simpl; [|by rewrite map_size_empty; lia].
  unfold Bus.Mounts_HandleMessage, Bus.HandleMessage. destruct (Unmarshal data) as [m|e]; [|simpl; rewrite map_size_empty; lia].
  destruct (ShareMount_Validate m); [simpl; rewrite map_size_empty; lia|].
  pose proof (Apply_size m ∅ s) as Ha. by rewrite map_size_empty in Ha.
Qed.

(** ** Invariant *)

Context `{!MounterLaws S H}.

(** The live mounts are exactly those the registry tracks, each under the ID of
    its own specification. *)
Definition tracked (st : Registry * S) : Prop :=
  (forall h, live st.2 h <-> exists id, st.1 !! id = Some h) /\
  (forall id h, st.1 !! id = Some h -> sm_ID (spec_of h) = id).

Lemma tracked_unmount st id h s' : tracked st -> st.1 !! id = Some h -> unmount h st.2 = (None, s') ->
  tracked (delete id st.1, s').
Proof.
  intros [Hl Hid] Hh Hu. pose proof (unmount_ok _ _ _ Hu) as Hu'. split; simpl.
  - intros h'. rewrite Hu', Hl. split.
    + intros [[id' Hi] Hne]. exists id'. rewrite lookup_delete_ne; [done|]. intros ->. congruence.
    + intros [id' [Hne Hi]%lookup_delete_Some]. split; [by exists id'|]. intros ->.
      apply Hid in Hi, Hh. congruence.
  - intros id' h' [_ Hi]%lookup_delete_Some. by apply Hid.
Qed.

Lemma tracked_mount active s spec h s' : tracked (active, s) -> active !! sm_ID spec = None ->
  mount spec s = (Ok h, s') -> tracked (<[sm_ID spec := h]> active, s').
Proof.
  intros [Hl Hid] Hn Hm. destruct (mount_ok _ _ _ _ Hm) as (Hs & _ & Hl'). split; simpl in *.
  - intros h'. rewrite Hl', Hl. split.
    + intros [->|[id Hi]]; [exists (sm_ID spec); by rewrite lookup_insert_eq|].
      exists id. rewrite lookup_insert_ne; [done|]. intros <-. congruence.
    + intros [id Hi]. rewrite lookup_insert in Hi. case_decide; [left; congruence|right; eauto].
  - intros id h' Hi. rewrite lookup_insert in Hi. case_decide as E; [|by apply Hid]. simplify_eq. done.
Qed.

Lemma tracked_same active s s' : tracked (active, s) -> (forall h, live s' h <-> live s h) -> tracked (active, s').
Proof. intros [Hl Hid] Hs. split; simpl in *; [|done]. intros h. by rewrite Hs, Hl. Qed.

(** What Apply does to the entry of the share's ID. *)
Definition applied (spec : ShareMount) (active active' : Registry) (err : gerr) : Prop :=
  match err with
  | None => if decide (sm_Action spec = MountActionUnmount) then active' !! sm_ID spec = None
            else exists h, active' !! sm_ID spec = Some h /\ spec_of h = spec
  | Some _ => active' !! sm_ID spec = active !! sm_ID spec \/ active' !! sm_ID spec = None
  end.

Lemma Apply_spec spec st : tracked st ->
  tracked (Apply spec st).2 /\ applied spec st.1 (Apply spec st).2.1 (Apply spec st).1 /\
  forall id, id <> sm_ID spec -> (Apply spec st).2.1 !! id = st.1 !! id.
Proof.
  destruct st as [active s]. intros Ht. unfold Apply, applied.
  assert (forall active s, tracked (active, s) -> active !! sm_ID spec = None ->
    let r := if decide (sm_Action spec = MountActionUnmount) then (None, (active, s))
             else let '(r, s) := mount spec s in
                  match r with
                  | Err e => (Some e, (active, s))
                  | Ok m => (None, (<[sm_ID spec := m]> active, s))
                  end in
    tracked r.2 /\
    match r.1 with
    | None => if decide (sm_Action spec = MountActionUnmount) then r.2.1 !! sm_ID spec = None
              else exists h, r.2.1 !! sm_ID spec = Some h /\ spec_of h = spec
    | Some _ => r.2.1 !! sm_ID spec = None
    end /\
    forall id, id <> sm_ID spec -> r.2.1 !! id = active !! id) as Hrest.
  { clear active s Ht. intros active s Ht Hn. cbv zeta. case_decide; [done|].
    destruct (mount spec s) as [[h|e] s'] eqn:Hm; simpl; rewrite ?decide_False by done.
    - split_and!; [by eapply tracked_mount| |].
      + exists h. rewrite lookup_insert_eq. by destruct (mount_ok _ _ _ _ Hm).
      + intros id Hne. by rewrite lookup_insert_ne.
    - split_and!; [|done|done]. eapply tracked_same; [exact Ht|]. by eapply mount_fails. }
  destruct (active !! sm_ID spec) as [existing|] eqn:He.
  - destruct (unmount existing s) as [[e|] s1] eqn:Hu; simpl.
    + split_and!; [|by left; rewrite He|done]. eapply tracked_same; [exact Ht|]. by eapply unmount_fails.
    + specialize (Hrest (delete (sm_ID spec) active) s1
        (tracked_unmount (active, s) _ _ _ Ht He Hu) (lookup_delete_eq _ _)).
      cbv zeta in Hrest. simpl. destruct Hrest as (H1 & H2 & H3). split_and!; [exact H1| |].
      * destruct (if decide _ then _ else _) as [[e|] st']; simpl in *; [by right|exact H2].
      * intros id Hne. rewrite H3 by done. by rewrite lookup_delete_ne.
  - specialize (Hrest active s Ht He). cbv zeta in Hrest. simpl. destruct Hrest as (H1 & H2 & H3).
    split_and!; [exact H1| |exact H3].
    destruct (if decide _ then _ else _) as [[e|] st']; simpl in *; [by right|exact H2].
Qed.

Lemma unmounts_ok hs (acc : gerr * S) : (foldl unmount_one acc hs).1 = None ->
  acc.1 = None /\ forall h, live (foldl unmount_one acc hs).2 h <-> live acc.2 h /\ h ∉ hs.
Proof.
  revert acc. induction hs as [|m hs IH]; intros acc; simpl; [set_solver|]. intros Hok.
  destruct (IH _ Hok) as [H1 H2]. unfold unmount_one in H1, H2 |- *.
  destruct (unmount m acc.2) as [[e|] s'] eqn:Hu; simpl in *; destruct (acc.1) eqn:E; try done.
  split; [done|]. intros h. rewrite H2, (unmount_ok _ _ _ Hu). set_solver.
Qed.

(** The registry never loses a mount: whatever messages arrive, and
    whichever mounts and unmounts fail, the live mounts are exactly those the
    registry holds, each under its own ID. *)
Theorem mounts_tracked Unmarshal msgs s0 : (forall h, ~ live s0 h) ->
  tracked (deliver Unmarshal (∅, s0) msgs).
Proof.
  intros Hnone. assert (tracked (∅, s0)) as Ht.
  { split; simpl; [|intros id h; by rewrite lookup_empty]. intros h. split; [by intros ?%Hnone|].
    intros [id Hi]. by rewrite lookup_empty in Hi. }
  revert Ht. generalize ((∅, s0) : Registry * S) as st. unfold deliver.
  induction msgs as [|data msgs IH]; intros st Ht; simpl; [done|]. apply IH.
  unfold Bus.Mounts_HandleMessage, Bus.HandleMessage. destruct (Unmarshal data) as [m|e]; [|done].
  destruct (ShareMount_Validate m); [done|]. by apply Apply_spec.
Qed.

(** Apply replaces by ID: it changes no other share; on success the share is
    mounted from exactly the given specification, or not mounted for an unmount;
    on failure the old mount is still in place or none is. *)
Theorem Apply_replaces_by_id spec st : tracked st ->
  let '(err, st') := Apply spec st in
  applied spec st.1 st'.1 err /\ forall id, id <> sm_ID spec -> st'.1 !! id = st.1 !! id.
Proof.
  intros Ht. destruct (Apply_spec spec st Ht) as (_ & H1 & H2). by destruct (Apply spec st) as [err st'].
Qed.

(** Shutdown unmounts everything: if UnmountAll reports no error, no share
    is mounted any more. *)
Theorem UnmountAll_unmounts st : tracked st -> (UnmountAll st).1 = None -> forall h, ~ live (UnmountAll st).2.2 h.
Proof.
  intros [Hl _] Hok h. unfold UnmountAll in *. simpl in *.
  destruct (unmounts_ok _ _ Hok) as [_ H2]. rewrite H2. simpl. rewrite Hl. intros [[id Hi] Hn].
  apply Hn. apply list_elem_of_fmap. exists (id, h). by rewrite elem_of_map_to_list.
Qed.

End registry.
(** ** An engine that always mounts: the laws can hold *)

#[export] Instance CubeFSMount_eq_dec : EqDecision CubeFSMount.
Proof. solve_decision. Defined.
#[export] Instance ShareMount_eq_dec : EqDecision ShareMount.
Proof. solve_decision. Defined.

Definition handle : Type := nat * ShareMount.
Definition fresh (l : list handle) : nat := S (foldr Nat.max 0 (fst <$> l)).

#[export] Instance simple_mounter : Mounter (list handle) handle := {|
  mount m l := (Ok (fresh l, m), (fresh l, m) :: l);
  unmount h l := (None, filter (fun h' => h' <> h) l) |}.

Lemma fresh_above l (h : handle) : h ∈ l -> h.1 < fresh l.
Proof.
  unfold fresh. induction l as [|x l IH]; [set_solver|]. rewrite elem_of_cons. cbn [fmap list_fmap foldr].
  intros [->|Hin]; [lia|]. specialize (IH Hin). lia.
Qed.

#[export] Program Instance simple_mounter_laws : MounterLaws (list handle) handle := {|
  live l h := h ∈ l; spec_of := snd |}.
Next Obligation.
  intros m l h l' E. simpl in E. simplify_eq. split_and!; [done| |intros h'; by rewrite elem_of_cons].
  intros H%fresh_above. simpl in H. lia.
Qed.
Next Obligation. intros m l e l' E. simpl in E. congruence. Qed.
Next Obligation. intros h l l' E h'. simpl in E. simplify_eq. rewrite list_elem_of_filter. naive_solver. Qed.
Next Obligation. intros h l e l' E. simpl in E. congruence. Qed.

Definition share (id action : string) : ShareMount :=
  {| sm_ID := id; sm_Action := action; sm_Backend := ""; sm_MountPoint := "/mnt/" +:+ id; sm_Readonly := false;
     sm_CubeFS := Some {| cf_Volume := "v"; cf_Masters := ["m:1"]; cf_Owner := "o"; cf_AccessKey := "a"; cf_SecretKey := "s"; cf_SubDir := "" |} |}.

Definition share_json (b : bytes) : result ShareMount := Ok (share (str b) "mount").

Lemma mounts_tracked_witness : tracked (deliver (S := list handle) (H := handle) share_json (∅, []) [chars "a"; chars "b"; chars "a"]).
Proof. apply (mounts_tracked share_json [chars "a"; chars "b"; chars "a"] []). intros h. apply not_elem_of_nil. Defined.

Lemma empty_tracked : tracked (S := list handle) (H := handle) (∅, []).
Proof.
  split; simpl; [|intros id h; by rewrite lookup_empty]. intros h. split; [set_solver|].
  intros [id Hi]. by rewrite lookup_empty in Hi.
Qed.

Lemma Apply_replaces_by_id_witness :
  let '(err, st') := Apply (S := list handle) (H := handle) (share "a" "mount") (∅, []) in
  applied (share "a" "mount") ∅ st'.1 err /\ forall id, id <> "a" -> st'.1 !! id = None.
Proof. exact (Apply_replaces_by_id (share "a" "mount") (∅, []) empty_tracked). Defined.

Lemma UnmountAll_unmounts_witness : forall h, ~ live (UnmountAll (S := list handle) (H := handle) (∅, [])).2.2 h.
Proof. apply (UnmountAll_unmounts (∅, []) empty_tracked). reflexivity. Defined.

(** Two shares published and mounted; after a restart only the second is back. *)
Example second_share_only :
  let before := deliver (S := list handle) (H := handle) share_json (∅, []) [chars "a"; chars "b"] in
  let after := deliver (S := list handle) (H := handle) share_json (∅, []) (replayed [chars "a"; chars "b"]) in
  size before.1 = 2 /\ is_Some (before.1 !! "a") /\ size after.1 = 1 /\ after.1 !! "a" = None.
Proof. vm_compute. eauto. Qed.

End Mounts.
