(* ===== verification/Words.v ===== *)
(** * Words: how strings.Fields reads lines of separated words

    A word is a non-empty run of ASCII bytes none of which is white space; lines
    of labelled values.  Used for the text files of /proc. *)

From S2P Require Import Prelude GoLib FileSys GoPath.
Local Open Scope Z_scope.

Definition wordc (a : ascii) : Prop := byte_val a < 128 /\ IsSpace (byte_val a) = false.
#[export] Instance wordc_dec a : Decision (wordc a).
Proof. unfold wordc. apply _. Defined.

Definition space : ascii := " "%char.

Lemma runes_word w rest : Forall wordc w ->
  runes_go 0 (w ++ rest) = ((fun a => (byte_val a, [a])) <$> w) ++ runes_go 0 rest.
Proof.
  induction w as [|a w IH]; intros Hw; [done|]. apply Forall_cons in Hw as [[Ha _] Hw].
  simpl. rewrite (proj2 (Z.ltb_lt _ _)) by done. simpl. by rewrite IH.
Qed.

Lemma fields_word cur w rs : Forall wordc w -> w <> [] ->
  fields_go cur (((fun a => (byte_val a, [a])) <$> w) ++ rs) = fields_go (Some (default [] cur ++ w)) rs.
Proof.
  revert cur. induction w as [|a w IH]; intros cur Hw Hne; [done|]. apply Forall_cons in Hw as [[_ Ha] Hw].
  simpl. rewrite Ha. destruct (decide (w = [])) as [->|Hw']; [done|].
  rewrite IH by done. simpl. by rewrite <- app_assoc.
Qed.

Lemma fields_cons w rest : Forall wordc w -> w <> [] ->
  fields_go None (runes_go 0 (w ++ space :: rest)) = w :: fields_go None (runes_go 0 rest).
Proof. intros Hw Hne. rewrite runes_word, fields_word by done. done. Qed.

Lemma fields_join ws : Forall (Forall wordc) ws -> Forall (fun w => w <> []) ws -> ws <> [] ->
  fields_go None (runes_go 0 (join_bytes [space] ws)) = ws.
Proof.
  induction ws as [|w ws IH]; intros Hw Hn Hne; [done|].
  apply Forall_cons in Hw as [Hw1 Hw], Hn as [Hn1 Hn]. destruct ws as [|w' ws].
  - simpl. rewrite <- (app_nil_r w) at 1. rewrite runes_word, fields_word by done. done.
  - change (join_bytes [space] (w :: w' :: ws)) with (w ++ space :: join_bytes [space] (w' :: ws)).
    rewrite fields_cons by done. f_equal. by apply IH.
Qed.

(** ** White space *)

Definition spacec (a : ascii) : Prop := byte_val a < 128 /\ IsSpace (byte_val a) = true.
#[export] Instance spacec_dec a : Decision (spacec a).
Proof. unfold spacec. apply _. Defined.

Definition newline : ascii := "010"%char.
Definition tab : ascii := "009"%char.

Lemma fields_space cur a rest : spacec a ->
  fields_go cur (runes_go 0 (a :: rest)) = option_list cur ++ fields_go None (runes_go 0 rest).
Proof. intros [Ha Hs]. simpl. rewrite (proj2 (Z.ltb_lt _ _)) by done. simpl. by rewrite Hs. Qed.

Lemma fields_pad pad rest : Forall spacec pad -> fields_go None (runes_go 0 (pad ++ rest)) = fields_go None (runes_go 0 rest).
Proof. induction 1 as [|a pad Ha _ IH]; [done|]. change ((a :: pad) ++ rest) with (a :: (pad ++ rest)). by rewrite fields_space. Qed.

(** A line of words that ends in white space. *)
Lemma fields_join_end ws a : Forall (Forall wordc) ws -> Forall (fun w => w <> []) ws -> spacec a ->
  fields_go None (runes_go 0 (join_bytes [space] ws ++ [a])) = ws.
Proof.
  intros Hw Hn Ha. induction ws as [|w ws IH]; [by apply (fields_pad [a] []); constructor|].
  apply Forall_cons in Hw as [Hw1 Hw], Hn as [Hn1 Hn]. destruct ws as [|w' ws].
  - simpl. rewrite runes_word, fields_word by done. by rewrite fields_space.
  - change (join_bytes [space] (w :: w' :: ws) ++ [a]) with ((w ++ space :: join_bytes [space] (w' :: ws)) ++ [a]).
    rewrite <- app_assoc. change ((space :: ?x) ++ [a]) with (space :: (x ++ [a])). rewrite fields_cons by done.
    f_equal. by apply IH.
Qed.

(** The first word of a padded line. *)
Lemma fields_first pad w rest : Forall spacec pad -> Forall wordc w -> w <> [] ->
  (rest = [] \/ exists a r, rest = a :: r /\ spacec a) ->
  exists l, fields_go None (runes_go 0 (pad ++ w ++ rest)) = w :: l.
Proof.
  intros Hp Hw Hne Hr. rewrite fields_pad by done. rewrite runes_word, fields_word by done.
  destruct Hr as [->|(a & r & -> & Ha)]; [by exists []|]. rewrite fields_space by done. by eexists.
Qed.

Lemma Fields_first w a rest : Forall wordc w -> w <> [] -> spacec a -> exists l, Fields (str (w ++ a :: rest)) = str w :: l.
Proof.
  intros Hw Hne Ha. unfold Fields, runes. rewrite chars_str.
  destruct (fields_first [] w (a :: rest)) as [l Hl]; [constructor|done|done|right; by eexists _, _|].
  simpl app in Hl. rewrite Hl. by eexists.
Qed.

(** Leading white space is trimmed. *)
Lemma TrimSpace_pad a s : spacec a -> TrimSpace (str (a :: s)) = TrimSpace (str s).
Proof.
  intros [Ha Hs]. unfold TrimSpace, runes. rewrite !chars_str. simpl. rewrite (proj2 (Z.ltb_lt _ _)) by done. simpl.
  unfold space_chunk at 2. simpl. by rewrite Hs.
Qed.

Lemma drop_while_none {A} (p : A -> bool) l : Forall (fun x => p x = false) l -> drop_while p l = l.
Proof. intros [|x l' Hx _]; simpl; [done|]. by rewrite Hx. Qed.

Lemma TrimSpace_word w : Forall wordc w -> TrimSpace (str w) = str w.
Proof.
  intros Hw. unfold TrimSpace, runes. rewrite chars_str. rewrite <- (app_nil_r w) at 1. rewrite runes_word, app_nil_r by done.
  assert (Forall (fun c => space_chunk c = false) ((fun a => (byte_val a, [a])) <$> w)) as Hc.
  { apply Forall_fmap. eapply Forall_impl; [exact Hw|]. by intros a [_ Ha]. }
  rewrite drop_while_none by done. unfold drop_while_end. rewrite drop_while_none, reverse_involutive by (by apply Forall_reverse).
  f_equal. clear. induction w as [|a w IH]; [done|]. simpl. by f_equal.
Qed.

(** A trailing separator is trimmed. *)
Lemma TrimRight_snoc b c a : a <> c -> TrimRight (str (b ++ [a] ++ [c])) c = str (b ++ [a]).
Proof.
  intros Ha. unfold TrimRight, drop_while_end. rewrite chars_str, app_assoc, reverse_snoc. simpl.
  rewrite bool_decide_eq_true_2 by done. rewrite reverse_snoc. simpl. rewrite bool_decide_eq_false_2 by done.
  by rewrite reverse_cons, reverse_involutive.
Qed.

(** ** Lines *)

Definition unlines (ls : list bytes) : bytes := mjoin ((fun l => l ++ [newline]) <$> ls).

Lemma split_unlines ls : Forall (fun l => newline ∉ l) ls -> split_go newline [] (unlines ls) = ls ++ [[]].
Proof.
  intros Hl. induction Hl as [|l ls Hl _ IH]; [done|]. unfold unlines in *. simpl. rewrite <- app_assoc.
  change (GoLib.split newline (l ++ newline :: mjoin ((fun l => l ++ [newline]) <$> ls)) = l :: ls ++ [[]]).
  rewrite split_app, split_free by done. unfold GoLib.split. by rewrite IH.
Qed.

Lemma Split_unlines ls : Forall (fun l => newline ∉ l) ls -> Split (str (unlines ls)) newline = (str <$> ls) ++ [""].
Proof. intros Hl. unfold Split. rewrite chars_str, split_unlines by done. by rewrite fmap_app. Qed.

(** A label with its value, cut at the separator: only the label's own prefix
    matches. *)
Lemma cut_label (c : ascii) label v L : c ∉ label -> c ∉ L ->
  CutPrefix (str (label ++ c :: v)) (str (L ++ [c])) = if decide (label = L) then Some (str v) else None.
Proof.
  intros Hl HL. unfold CutPrefix, HasPrefix, has_prefix. rewrite !chars_str.
  assert (take (length (L ++ [c])) (label ++ c :: v) = L ++ [c] <-> label = L) as Hiff.
  { split; [|intros ->; rewrite length_app; simpl; rewrite (cons_middle c L v), app_assoc; apply take_app_length'; rewrite length_app; simpl; lia].
    intros E. destruct (decide (label = L)) as [?|Hne]; [done|]. exfalso.
    assert (L ++ [c] `prefix_of` label ++ c :: v) as Hp by (exists (drop (length (L ++ [c])) (label ++ c :: v)); rewrite <- E at 1; by rewrite take_drop).
    clear E. revert L HL Hne Hp. induction label as [|a label IH]; intros [|b L] HL Hne Hp; [done|..]; simpl in *.
    - apply prefix_cons_inv_1 in Hp. set_solver.
    - apply prefix_cons_inv_1 in Hp. set_solver.
    - apply prefix_cons_inv_1 in Hp as Hab. apply prefix_cons_inv_2 in Hp. subst b. apply (IH ltac:(set_solver) L); [set_solver|congruence|done]. }
  case_bool_decide as Hb; case_decide as Hd; [|tauto|tauto|done].
  f_equal. subst. rewrite length_app. simpl. rewrite (cons_middle c L v), app_assoc.
  f_equal. apply drop_app_length'. rewrite length_app. simpl. lia.
Qed.
