(* ===== verification/Procps.v ===== *)
(** * The process table (src/pkg/procps/procps.go,
      src/pkg/introspectsrv/server.go)

    float64 is the Standard Library's executable model of IEEE 754 binary64.
    The user database is a parameter; [strconv.ParseFloat] is modelled for
    plain decimal notation, which /proc/uptime uses, and is a parameter for the
    others. *)

From Stdlib Require Import SpecFloat.
From S2P Require Import Prelude GoLib FileSys GoPath Words FsLogic AbsPath FsExec SshWire Strconv.

Import SshWire.

Module Procps.

Local Open Scope Z_scope.

(** ** float64 *)

Definition float64 : Type := spec_float.
Definition of_int (z : Z) : float64 := binary_normalize 53 1024 z 0 false.
Definition fadd (a b : float64) : float64 := SFadd 53 1024 a b.
Definition fsub (a b : float64) : float64 := SFsub 53 1024 a b.
Definition fmul (a b : float64) : float64 := SFmul 53 1024 a b.
Definition fdiv (a b : float64) : float64 := SFdiv 53 1024 a b.

(** [int64(f)]: truncation; out of range, the value amd64 gives. *)
Definition int64_of (f : float64) : Z :=
  let v := match f with
           | S754_finite s m e =>
               let q := if 0 <=? e then Z.pos m * 2 ^ e else Z.pos m / 2 ^ (- e) in
               if s then - q else q
           | S754_zero _ => 0
           | _ => 2 ^ 63
           end in
  if (- 2 ^ 63 <=? v) && (v <? 2 ^ 63) then v else - 2 ^ 63.

(** The correctly rounded value of [n / 10^k]. *)
Definition decimal (n : Z) (k : nat) : float64 :=
  match n with
  | Z.pos m => SFdiv 53 1024 (S754_finite false m 0) (S754_finite false (Pos.pow 10 (Pos.of_nat k)) 0)
  | _ => S754_zero false
  end.

Definition digits (b : bytes) : option Z :=
  foldl (fun acc a => acc ≫= fun n => (fun d => n * 10 + d) <$> digit a) (Some 0) b.

Section procps.
Context (LookupId : string -> result string) (ParseFloat_other : string -> float64).

Definition ParseFloat (s : string) : float64 :=
  match split "."%char (chars s) with
  | [i] => match digits i with Some n => of_int n | None => ParseFloat_other s end
  | [i; f] => match digits (i ++ f) with
              | Some n => if decide (f = []) then of_int n else decimal n (length f)
              | None => ParseFloat_other s
              end
  | _ => ParseFloat_other s
  end.

(** ** Fields of text files *)

Definition parseUint (s : string) : Z := (ParseUint s 64).1.

Definition firstField (s : string) : string := match Fields s with f :: _ => f | [] => "" end.

Definition parseFirstUint (s : string) : Z := parseUint (firstField s).

Definition resolveUser (uid : string) : string :=
  if decide (uid = "") then ""
  else match LookupId uid with Ok name => name | Err _ => uid end.

Record statFields := mkStat {
  comm : string; state : string; ppid : Z; utime : Z; stime : Z; starttime : Z
}.

Local Open Scope go_scope.

(** [s[openIdx+1:closeIdx]] is a slice expression, which could panic. *)
Definition parseStat (s : string) : panics (option statFields) :=
  match index_byte "("%char (chars s), last_index_byte ")"%char (chars s) with
  | Some openIdx, Some closeIdx =>
      if (closeIdx <? openIdx)%nat then Value None else
      c <-! slice (chars s) (Z.of_nat openIdx + 1) (Z.of_nat closeIdx);
      tailBytes <-! slice (chars s) (Z.of_nat closeIdx + 1) (len (chars s));
      let rest := Fields (str tailBytes) in
      if (length rest <? 20)%nat then Value None else
      let field k := rest !!! k in
      Value (Some {|
        comm := str c; state := field 0%nat;
        ppid := match ParseInt (field 1%nat) 32 with (v, None) => i32 v | _ => 0 end;
        utime := parseUint (field 11%nat); stime := parseUint (field 12%nat);
        starttime := parseUint (field 19%nat) |})
  | _, _ => Value None
  end.

(** ** The system *)

Record systemInfo := mkSys { uptimeSec : float64; btimeSec : Z; memTotalKB : Z }.

Definition nul : ascii := "000"%char.

(** The first line with prefix [p], without it. *)
Fixpoint first_line (p : string) (lines : list string) : option string :=
  match lines with
  | [] => None
  | l :: lines' => match CutPrefix l p with Some rest => Some rest | None => first_line p lines' end
  end.

Local Open Scope os_scope.

Definition readSystem (root : string) : M systemInfo :=
  u <~ os_ReadFile (Join root "uptime") ;;
  s <~ os_ReadFile (Join root "stat") ;;
  m <~ os_ReadFile (Join root "meminfo") ;;
  oret {|
    uptimeSec := match u with
                 | Ok b => match Fields b with f :: _ => ParseFloat f | [] => S754_zero false end
                 | Err _ => S754_zero false
                 end;
    btimeSec := match s with
                | Ok b => match first_line "btime " (Split b newline) with
                          | Some rest => (ParseInt (TrimSpace rest) 64).1
                          | None => 0
                          end
                | Err _ => 0
                end;
    memTotalKB := match m with
                  | Ok b => match first_line "MemTotal:" (Split b newline) with
                            | Some rest => parseFirstUint rest
                            | None => 0
                            end
                  | Err _ => 0
                  end |}.

(** ** A process *)

Record Process := mkProcess {
  PID : Z; PPID : Z; User : string; State : string; CPUPercent : float64; MemPercent : float64;
  VSZKB : Z; RSSKB : Z; TTY : string; StartTimeMS : Z; Command : string
}.

(** What the loop over /proc/<pid>/status collects. *)
Record statusInfo := mkStatus { s_User : string; s_VSZKB : Z; s_RSSKB : Z; s_comm : string }.

Definition status_line (acc : statusInfo) (line : string) : statusInfo :=
  match CutPrefix line "Uid:", CutPrefix line "VmSize:", CutPrefix line "VmRSS:", CutPrefix line "Name:" with
  | Some r, _, _, _ => mkStatus (resolveUser (firstField r)) (s_VSZKB acc) (s_RSSKB acc) (s_comm acc)
  | None, Some r, _, _ => mkStatus (s_User acc) (parseFirstUint r) (s_RSSKB acc) (s_comm acc)
  | None, None, Some r, _ => mkStatus (s_User acc) (s_VSZKB acc) (parseFirstUint r) (s_comm acc)
  | None, None, None, Some r =>
      let c := TrimSpace r in
      if decide (c <> "") then mkStatus (s_User acc) (s_VSZKB acc) (s_RSSKB acc) c else acc
  | None, None, None, None => acc
  end.

Definition clkTck : Z := 100.

Definition command_of (comm : string) (cmdline : result string) : string :=
  match cmdline with
  | Ok b => if decide (b <> "") then SJoin (Split (TrimRight b nul) nul) " " else "[" +:+ comm +:+ "]"
  | Err _ => "[" +:+ comm +:+ "]"
  end.

Definition hundred : float64 := of_int 100.

Definition derive (pid : Z) (sys : systemInfo) (st : statFields) (si : statusInfo) (command : string) : Process :=
  let startSec := fdiv (of_int (starttime st)) (of_int clkTck) in
  let elapsed := fsub (uptimeSec sys) startSec in
  {| PID := i32 pid; PPID := ppid st; User := s_User si; State := state st;
     CPUPercent :=
       if SFltb (S754_zero false) elapsed
       then fdiv (fmul hundred (fdiv (of_int (u64 (utime st + stime st))) (of_int clkTck))) elapsed
       else S754_zero false;
     MemPercent :=
       if 0 <? memTotalKB sys
       then fdiv (fmul hundred (of_int (s_RSSKB si))) (of_int (memTotalKB sys)) else S754_zero false;
     VSZKB := s_VSZKB si; RSSKB := s_RSSKB si; TTY := "?";
     StartTimeMS :=
       if 0 <? btimeSec sys then int64_of (fmul (fadd (of_int (btimeSec sys)) startSec) (of_int 1000)) else 0;
     Command := command |}.

(** [None]: the process is skipped. *)
Definition readProcess (root : string) (pid : Z) (sys : systemInfo) : M (panics (option Process)) :=
  let dir := Join root (Itoa pid) in
  statRaw <~ os_ReadFile (Join dir "stat") ;;
  match statRaw with
  | Err _ => oret (Value None)
  | Ok raw =>
      match parseStat raw with
      | Panic => oret Panic
      | Value None => oret (Value None)
      | Value (Some st) =>
          status <~ os_ReadFile (Join dir "status") ;;
          let si0 := mkStatus "" 0 0 (comm st) in
          let si := match status with
                    | Ok b => foldl status_line si0 (Split b newline)
                    | Err _ => si0
                    end in
          cmdline <~ os_ReadFile (Join dir "cmdline") ;;
          oret (Value (Some (derive pid sys st si (command_of (s_comm si) cmdline))))
      end
  end.

Fixpoint listEntries (root : string) (sys : systemInfo) (entries : list (string * bool))
    (procs : list Process) : M (panics (list Process)) :=
  match entries with
  | [] => oret (Value procs)
  | (name, isDir) :: rest =>
      if isDir then
        match Atoi name with
        | Err _ => listEntries root sys rest procs
        | Ok pid =>
            p <- readProcess root pid sys ;;
            match p with
            | Panic => oret Panic
            | Value None => listEntries root sys rest procs
            | Value (Some p) => listEntries root sys rest (procs ++ [p])
            end
        end
      else listEntries root sys rest procs
  end.

Definition listFrom (root : string) : M (panics (list Process)) :=
  entries <- os_ReadDir root ;;
  sys <- readSystem root ;;
  listEntries root sys entries [].

Definition List_ : M (panics (list Process)) := listFrom "/proc".

(** ** introspectsrv: the gRPC row has the same fields *)

Record pb_Process := mkPb {
  Pid : Z; Ppid : Z; pb_User : string; pb_State : string; CpuPercent : float64; pb_MemPercent : float64;
  VszKb : Z; RssKb : Z; Tty : string; StartTimeMs : Z; pb_Command : string
}.

Definition to_pb (p : Process) : pb_Process :=
  mkPb (PID p) (PPID p) (User p) (State p) (CPUPercent p) (MemPercent p) (VSZKB p) (RSSKB p) (TTY p)
    (StartTimeMS p) (Command p).

Definition ListProcesses (list_ : M (panics (list Process))) : M (panics (list pb_Process)) :=
  procs <- list_ ;;
  oret (match procs with Panic => Panic | Value procs => Value (to_pb <$> procs) end).

(** introspectsrv.Server: the source of its table, the live /proc by default. *)
Record Server := { srv_list : M (panics (list Process)) }.
Definition New : Server := {| srv_list := List_ |}.
Definition Serve_ListProcesses (s : Server) : M (panics (list pb_Process)) := ListProcesses (srv_list s).

(** ** Numbers *)

(** Bytes that are neither white space nor part of a longer rune. *)
Definition word (w : bytes) : Prop := w <> [] /\ Forall wordc w /\ ")"%char ∉ w.

Lemma digit_wordc a : is_Some (digit a) -> wordc a /\ a <> ")"%char.
Proof.
  unfold digit. intros [d Hd]. destruct (_ && _) eqn:E; [|done]. apply andb_true_iff in E as [E1 E2]. to_prop.
  split.
  - split; [lia|]. unfold IsSpace. repeat (apply orb_false_iff; split); try (apply andb_false_iff);
      rewrite ?Z.leb_gt, ?Z.eqb_neq; lia.
  - intros ->. vm_compute in E1. by apply E1.
Qed.

Lemma Itoa_nonneg n : 0 <= n -> word (chars (Itoa n)) /\ Itoa n <> "".
Proof.
  intros Hn. destruct (Itoa_digits n Hn) as [Hne Hd]. split; [|intros E; by rewrite E in Hne].
  split_and!; [done| |].
  - eapply Forall_impl; [exact Hd|]. intros a Ha. by apply digit_wordc.
  - intros Hin. rewrite Forall_forall in Hd. apply Hd in Hin. by apply digit_wordc in Hin as [_ ?].
Qed.

Lemma parseUint_Itoa n : 0 <= n -> parseUint (Itoa n) = Z.min n maxUint64.
Proof.
  intros Hn. unfold parseUint, ParseUint. destruct n as [|p|p]; [done| |lia].
  pose proof (Itoa_nonneg (Z.pos p) Hn) as [[Hw _] _].
  change (Itoa (Z.pos p)) with (pretty.pretty_N_go (N.pos p) "") in *.
  pose proof (parse_pretty (N.pos p) "") as H. simpl in H.
  destruct (chars (pretty.pretty_N_go (N.pos p) "")) as [|a b]; [done|].
  change (2 ^ 64 - 1) with maxUint64. rewrite H.
  destruct (Z.pos p <=? maxUint64) eqn:E; to_prop; simpl; lia.
Qed.

(** parseStat never panics: the slice between the parentheses is within
    bounds for every input. *)
Lemma parseStat_total s : exists r, parseStat s = Value r.
Proof.
  unfold parseStat. destruct (index_byte _ _) as [i|] eqn:Ei; [|by eexists].
  destruct (last_index_byte _ _) as [j|] eqn:Ej; [|by eexists].
  destruct (j <? i)%nat eqn:E; [by eexists|]. apply Nat.ltb_ge in E.
  apply index_byte_Some in Ei as (u & v & Ei & <-). apply last_index_byte_Some in Ej.
  assert (j <> length u) as Hne.
  { intros ->. rewrite Ei, list_lookup_middle in Ej by done. discriminate. }
  apply lookup_lt_Some in Ej.
  rewrite !slice_total by (unfold len; lia). cbn [panics_bind]. case_match; by eexists.
Qed.

(** /proc/<pid>/stat as the kernel writes it: one line. *)
Definition stat_line (pid : Z) (name : bytes) (fields : list bytes) : string :=
  str ((chars (Itoa pid) ++ [space]) ++ "("%char :: name ++ ")"%char :: [space] ++ join_bytes [space] fields ++ [newline]).

Lemma join_free (c : ascii) ws : c <> space -> Forall (fun w => c ∉ w) ws -> c ∉ join_bytes [space] ws.
Proof.
  intros Hc. induction ws as [|w ws IH]; intros Hw; [set_solver|]. apply Forall_cons in Hw as [Hw Hws].
  destruct ws as [|w' ws]; [done|]. change (c ∉ w ++ [space] ++ join_bytes [space] (w' :: ws)).
  rewrite !not_elem_of_app, list_elem_of_singleton. auto.
Qed.

Lemma parseStat_fields pid name fields : 0 <= pid -> Forall word fields -> (20 <= length fields)%nat ->
  parseStat (stat_line pid name fields) = Value (Some {|
    comm := str name; state := str (fields !!! 0%nat);
    ppid := match ParseInt (str (fields !!! 1%nat)) 32 with (v, None) => i32 v | _ => 0 end;
    utime := parseUint (str (fields !!! 11%nat)); stime := parseUint (str (fields !!! 12%nat));
    starttime := parseUint (str (fields !!! 19%nat)) |}).
Proof.
  intros Hp Hf Hlen. unfold parseStat, stat_line. rewrite chars_str.
  set (pre := chars (Itoa pid) ++ [space]). set (tl := [space] ++ join_bytes [space] fields ++ [newline]).
  assert ("("%char ∉ pre) as Hpre.
  { unfold pre. rewrite not_elem_of_app. split; [|apply (bool_decide_unpack _); vm_compute; exact I].
    destruct (Itoa_digits pid Hp) as [_ Hd]. intros Hin. rewrite Forall_forall in Hd.
    apply Hd in Hin. by destruct Hin. }
  assert (")"%char ∉ tl) as Htl.
  { unfold tl. rewrite !not_elem_of_app, !list_elem_of_singleton. split_and!; [done| |done]. apply join_free; [done|].
    eapply Forall_impl; [exact Hf|]. by intros w (_ & _ & ?). }
  rewrite index_byte_app by done. set (all := pre ++ "("%char :: name ++ ")"%char :: tl).
  assert (all = (pre ++ "("%char :: name) ++ ")"%char :: tl) as E1 by (unfold all; rewrite <- (app_assoc pre); done).
  assert (all = (pre ++ ["("%char]) ++ name ++ (")"%char :: tl)) as E2 by (unfold all; rewrite <- (app_assoc pre); done).
  assert (all = (pre ++ "("%char :: name ++ [")"%char]) ++ tl ++ []) as E3
    by (unfold all; rewrite app_nil_r, <- !app_assoc; simpl; by rewrite <- app_assoc).
  assert (last_index_byte ")"%char all = Some (length (pre ++ "("%char :: name))) as ->
    by (rewrite E1; by apply last_index_byte_app).
  rewrite (proj2 (Nat.ltb_ge _ _)) by (rewrite length_app; lia).
  assert (slice all (Z.of_nat (length pre) + 1) (Z.of_nat (length (pre ++ "("%char :: name))) = Value name) as ->.
  { rewrite E2. apply slice_app_mid; unfold len; rewrite !length_app; simpl; lia. }
  cbn [panics_bind].
  assert (slice all (Z.of_nat (length (pre ++ "("%char :: name)) + 1) (len all) = Value tl) as ->.
  { rewrite E3. apply slice_app_mid; unfold len; rewrite !length_app; simpl; rewrite ?length_app; simpl; lia. }
  cbn [panics_bind].
  assert (Fields (str tl) = str <$> fields) as ->.
  { unfold Fields, tl, runes. rewrite chars_str. simpl. f_equal. apply fields_join_end.
    - eapply Forall_impl; [eassumption|]. by intros w (_ & Hw & _).
    - eapply Forall_impl; [eassumption|]. by intros w (Hw & _ & _).
    - done. }
  rewrite length_fmap, (proj2 (Nat.ltb_ge _ _)) by lia.
  assert (forall k, (k < 20)%nat -> (str <$> fields) !!! k = str (fields !!! k)) as Hk.
  { intros k Hk. apply list_lookup_total_correct. rewrite list_lookup_fmap.
    by rewrite (list_lookup_lookup_total_lt fields k) by lia. }
  by rewrite !Hk by lia.
Qed.

(** parseStat inverts the kernel's format, whatever the command name: for a
    stat line whose name holds any bytes (spaces and parentheses included) and
    whose later fields are printed words, it returns the name, the state and the
    numbers exactly; times above 64 bits saturate. *)
Theorem parseStat_roundtrip pid name fields st pp ut sti start :
  0 <= pid -> Forall word fields -> (20 <= length fields)%nat ->
  fields !! 0%nat = Some (chars st) -> fields !! 1%nat = Some (chars (Itoa pp)) -> 0 <= pp < 2 ^ 31 ->
  fields !! 11%nat = Some (chars (Itoa ut)) -> 0 <= ut ->
  fields !! 12%nat = Some (chars (Itoa sti)) -> 0 <= sti ->
  fields !! 19%nat = Some (chars (Itoa start)) -> 0 <= start ->
  parseStat (stat_line pid name fields) = Value (Some {|
    comm := str name; state := st; ppid := pp; utime := Z.min ut maxUint64;
    stime := Z.min sti maxUint64; starttime := Z.min start maxUint64 |}).
Proof.
  intros Hp Hf Hlen H0 H1 Hpp H11 Hut H12 Hst H19 Hstart. rewrite parseStat_fields by done.
  rewrite !(list_lookup_total_correct _ _ _ H0), !(list_lookup_total_correct _ _ _ H1),
    !(list_lookup_total_correct _ _ _ H11), !(list_lookup_total_correct _ _ _ H12),
    !(list_lookup_total_correct _ _ _ H19), !str_chars, ParseInt_Itoa, !parseUint_Itoa by (done || lia).
  rewrite i32_small by lia. done.
Qed.

(** ** The table *)

(** What a file holds. *)
Definition content (f : fsys) (p : string) : result string :=
  match lookup_path f (path_of p) with Ok (NFile d) => Ok d | Ok NDir => Err EISDIR | Err e => Err e end.

Lemma content_exec f p : exec (os_ReadFile p) f (content f p) f.
Proof. apply ReadFile_exec. Qed.

(** What readSystem makes of the files. *)
Definition system_of (f : fsys) (root : string) : systemInfo :=
  {| uptimeSec := match content f (Join root "uptime") with
                  | Ok b => match Fields b with x :: _ => ParseFloat x | [] => S754_zero false end
                  | Err _ => S754_zero false end;
     btimeSec := match content f (Join root "stat") with
                 | Ok b => from_option (fun r => (ParseInt (TrimSpace r) 64).1) 0 (first_line "btime " (Split b newline))
                 | Err _ => 0 end;
     memTotalKB := match content f (Join root "meminfo") with
                   | Ok b => from_option parseFirstUint 0 (first_line "MemTotal:" (Split b newline))
                   | Err _ => 0 end |}.

(** What readProcess makes of one directory entry, the reads evaluated. *)
Definition row (f : fsys) (root : string) (sys : systemInfo) (e : string * bool) : option Process :=
  if e.2 then
    match Atoi e.1 with
    | Err _ => None
    | Ok pid =>
        let dir := Join root (Itoa pid) in
        match content f (Join dir "stat") with
        | Err _ => None
        | Ok raw =>
            match parseStat raw with
            | Value (Some st) =>
                let si0 := mkStatus "" 0 0 (comm st) in
                let si := match content f (Join dir "status") with
                          | Ok b => foldl status_line si0 (Split b newline) | Err _ => si0 end in
                Some (derive pid sys st si (command_of (s_comm si) (content f (Join dir "cmdline"))))
            | _ => None
            end
        end
    end
  else None.

Lemma readSystem_exec f root : exec (readSystem root) f (Ok (system_of f root)) f.
Proof.
  unfold readSystem. do 3 (eapply exec_catch; [apply content_exec|]). unfold system_of.
  repeat case_match; simplify_eq/=; apply exec_ret.
Qed.

Lemma readProcess_exec f root sys pid name : Atoi name = Ok pid ->
  exec (readProcess root pid sys) f (Ok (Value (row f root sys (name, true)))) f.
Proof.
  intros Ha. unfold row. simpl. rewrite Ha. unfold readProcess. cbv zeta.
  eapply exec_catch; [apply content_exec|].
  destruct (content f (Join (Join root (Itoa pid)) "stat")) as [raw|e]; [|apply exec_ret].
  destruct (parseStat_total raw) as [[st|] ->]; [|apply exec_ret].
  do 2 (eapply exec_catch; [apply content_exec|]). apply exec_ret.
Qed.

Lemma listEntries_exec f root sys es procs :
  exec (listEntries root sys es procs) f (Ok (Value (procs ++ omap (row f root sys) es))) f.
Proof.
  revert procs. induction es as [|[name d] es IH]; intros procs; cbn [listEntries omap list_omap].
  { rewrite app_nil_r. apply exec_ret. }
  destruct d; [|apply IH]. destruct (Atoi name) as [pid|e] eqn:Ha.
  - pose proof (readProcess_exec f root sys pid name Ha) as Hr.
    eapply exec_bind; [exact Hr|]. destruct (row f root sys (name, true)) as [p|]; [|apply IH].
    pose proof (IH (procs ++ [p])) as H. by rewrite <- app_assoc in H.
  - assert (row f root sys (name, true) = None) as -> by (unfold row; simpl; by rewrite Ha). apply IH.
Qed.

(** Without faults the scan is an evaluation of the files; it changes nothing,
    and nothing it reads makes it panic or fail. *)
Lemma listFrom_exec f root : wf f -> node_at f (path_of root) = Some NDir ->
  exec (listFrom root) f (Ok (Value (omap (row f root (system_of f root)) (entries f (path_of root))))) f.
Proof.
  intros Hw Hroot. unfold listFrom. eapply exec_bind; [by apply ReadDir_exec|].
  eapply exec_bind; [apply readSystem_exec|]. apply (listEntries_exec _ _ _ _ []).
Qed.

End procps.

(** The fixture's line, with a name made to confuse a naive parser. *)
Definition sample_fields : list bytes :=
  chars <$> (["S"; "0"; "1"; "1"; "0"; "0"; "4194560"; "100"; "0"; "50"; "0"; "50"; "10"; "0"; "0"; "20";
              "0"; "1"; "0"; "100"]).

Lemma parseStat_roundtrip_witness :
  parseStat (stat_line 1 (chars "a) R (b") sample_fields) = Value (Some {|
    comm := "a) R (b"; state := "S"; ppid := 0; utime := Z.min 50 maxUint64; stime := Z.min 10 maxUint64;
    starttime := Z.min 100 maxUint64 |}).
Proof.
  apply (parseStat_roundtrip 1 (chars "a) R (b") sample_fields "S" 0 50 10 100); try reflexivity; try lia.
  apply Forall_fmap. repeat constructor; try discriminate; apply (bool_decide_unpack _); vm_compute; exact Logic.I.
Defined.

(** The package's test fixture, process 1. *)
Definition nl : string := str [newline].
Definition tab : string := str ["009"%char].
Definition z : string := str [nul].

Definition fixture : fsys := {[
  ["proc"] := NDir; ["proc"; "1"] := NDir;
  ["proc"; "uptime"] := NFile ("1000.50 4000.00" +:+ nl);
  ["proc"; "stat"] := NFile ("cpu  100 0 50 1000 0 0 0 0 0 0" +:+ nl +:+ "btime 1600000000" +:+ nl);
  ["proc"; "meminfo"] := NFile ("MemTotal:        2048000 kB" +:+ nl);
  ["proc"; "1"; "stat"] := NFile "1 (systemd) S 0 1 1 0 -1 4194560 100 0 50 0 50 10 0 0 20 0 1 0 100";
  ["proc"; "1"; "cmdline"] := NFile ("/sbin/init" +:+ z +:+ "--system" +:+ z);
  ["proc"; "1"; "status"] := NFile ("Name:" +:+ tab +:+ "systemd" +:+ nl +:+ "Uid:" +:+ tab +:+ "0" +:+ tab +:+ "0" +:+ nl +:+
     "VmSize:" +:+ tab +:+ "168944 kB" +:+ nl +:+ "VmRSS:" +:+ tab +:+ "13056 kB" +:+ nl) ]}.

Definition passwd (uid : string) : result string := if decide (uid = "0") then Ok "root" else Err ENOENT.

(** The values the package's test expects of the fixture, floats included. *)
Lemma fixture_row : (listFrom passwd (fun _ => S754_nan) "/proc" (mk_os fixture [] [])).1 = Ok (Value [{|
  PID := 1; PPID := 0; User := "root"; State := "S";
  CPUPercent := fdiv (fmul hundred (decimal 6 1)) (decimal 9995 1);
  MemPercent := fdiv (fmul hundred (of_int 13056)) (of_int 2048000);
  VSZKB := 168944; RSSKB := 13056; TTY := "?"; StartTimeMS := 1600000001000; Command := "/sbin/init --system" |}]).
Proof. vm_compute. reflexivity. Qed.

End Procps.
