(* ===== verification/ProcFormat.v ===== *)
(** * What ps shows (src/pkg/procps/procps.go against proc(5))

    [Procps] models the parser.  Here is the other side, written from proc(5) and
    not from the parser: what the kernel knows of a task and of the machine, the
    text it prints in /proc for it, and the row of a process table that says so.
    The theorem is that the scan of the printed files gives these rows. *)

From Stdlib Require Import SpecFloat.
From S2P Require Import Prelude GoLib FileSys GoPath Words FsLogic AbsPath FsExec SshWire Strconv Procps.
Import Procps.

Module ProcFormat.

Local Open Scope Z_scope.

(** ** The kernel's side *)

(** A task.  The numbers in parentheses are those of the fields of
    /proc/<pid>/stat in proc(5). *)
Record task := mkTask {
  t_comm : bytes;              (* (2) comm *)
  t_state : bytes;             (* (3) state *)
  t_ppid : Z;                  (* (4) ppid *)
  t_5_13 : list Z;             (* (5) pgrp .. (13) cmajflt *)
  t_utime : Z;                 (* (14), in clock ticks *)
  t_stime : Z;                 (* (15), in clock ticks *)
  t_16_21 : list Z;            (* (16) cutime .. (21) itrealvalue *)
  t_starttime : Z;             (* (22), in clock ticks since boot *)
  t_23_on : list Z;            (* (23) vsize and the rest *)
  t_uid : Z;                   (* the real user id *)
  t_other_uids : list Z;       (* effective, saved, file system *)
  t_vm : option (Z * Z);       (* VmSize and VmRSS in kB; a kernel thread has none *)
  t_status : list (bytes * bytes);  (* the lines of /proc/<pid>/status, label and value *)
  t_argv : list bytes          (* empty for a kernel thread *)
}.

Definition colon : ascii := ":"%char.

(** "%8lu kB" and the like: a number, padded, in kB. *)
Definition kilobytes (v : bytes) (n : Z) : Prop :=
  exists pad, Forall spacec pad /\ v = pad ++ chars (Itoa n) ++ chars " kB".

Definition uid_value (t : task) : bytes := join_bytes [Words.tab] (chars ∘ Itoa <$> t_uid t :: t_other_uids t).

(** The four lines of status that matter, among others in any order. *)
Record status_shows (t : task) : Prop := {
  ss_distinct : NoDup (t_status t).*1;
  ss_lines : Forall (fun lv => colon ∉ lv.1 /\ newline ∉ lv.1 /\ newline ∉ lv.2) (t_status t);
  ss_name : (chars "Name", t_comm t) ∈ t_status t;
  ss_uid : (chars "Uid", uid_value t) ∈ t_status t;
  ss_vm : match t_vm t with
          | Some (vsz, rss) => exists v r, (chars "VmSize", v) ∈ t_status t /\ kilobytes v vsz /\
                                          (chars "VmRSS", r) ∈ t_status t /\ kilobytes r rss
          | None => chars "VmSize" ∉ (t_status t).*1 /\ chars "VmRSS" ∉ (t_status t).*1
          end
}.

Record task_ok (t : task) : Prop := {
  ok_status : status_shows t;
  ok_state : word (t_state t);
  ok_ppid : 0 <= t_ppid t < 2 ^ 31;
  ok_5_13 : length (t_5_13 t) = 9%nat;
  ok_16_21 : length (t_16_21 t) = 6%nat;
  ok_ticks : 0 <= t_utime t /\ 0 <= t_stime t /\ t_utime t + t_stime t < 2 ^ 64 /\ 0 <= t_starttime t < 2 ^ 64;
  ok_uid : 0 <= t_uid t < 2 ^ 32;
  ok_vm : forall vsz rss, t_vm t = Some (vsz, rss) -> 0 <= vsz < 2 ^ 64 /\ 0 <= rss < 2 ^ 64;
  ok_comm : t_comm t <> [] /\ TrimSpace (str (t_comm t)) = str (t_comm t);
  ok_argv : Forall (fun a => nul ∉ a) (t_argv t) /\ last (t_argv t) <> Some []
}.

(** The texts. *)
Definition stat_text (pid : Z) (t : task) : string :=
  stat_line pid (t_comm t)
    (t_state t :: chars (Itoa (t_ppid t)) :: (chars ∘ Itoa <$> t_5_13 t) ++
     [chars (Itoa (t_utime t)); chars (Itoa (t_stime t))] ++ (chars ∘ Itoa <$> t_16_21 t) ++
     [chars (Itoa (t_starttime t))] ++ (chars ∘ Itoa <$> t_23_on t)).

Definition labelled (sep : bytes) (lines : list (bytes * bytes)) : string :=
  str (unlines ((fun lv => lv.1 ++ sep ++ lv.2) <$> lines)).

Definition status_text (t : task) : string := labelled [colon; Words.tab] (t_status t).

Definition cmdline_text (t : task) : string := str (mjoin ((fun a => a ++ [nul]) <$> t_argv t)).

(** The machine: the uptime in hundredths of a second, the boot time, the memory
    in kB, and the lines /proc/stat and /proc/meminfo show. *)
Record machine := mkMachine {
  m_uptime : Z;
  m_idle : bytes;
  m_btime : Z;
  m_stat : list (bytes * bytes);
  m_memtotal : Z;
  m_meminfo : list (bytes * bytes)
}.

Definition two_digits (n : Z) : bytes := [pretty.pretty_N_char (Z.to_N (n / 10)); pretty.pretty_N_char (Z.to_N (n mod 10))].

Definition uptime_text (m : machine) : string :=
  str ((chars (Itoa (m_uptime m / 100)) ++ "."%char :: two_digits (m_uptime m mod 100)) ++ space :: m_idle m).

Record machine_ok (m : machine) : Prop := {
  mo_uptime : 0 < m_uptime m < 2 ^ 63;
  mo_btime : 0 < m_btime m < 2 ^ 63;
  mo_stat : Forall (fun lv => space ∉ lv.1 /\ newline ∉ lv.1 /\ newline ∉ lv.2) (m_stat m);
  mo_stat_btime : NoDup (m_stat m).*1 /\ (chars "btime", chars (Itoa (m_btime m))) ∈ m_stat m;
  mo_mem : 0 < m_memtotal m < 2 ^ 64;
  mo_meminfo : Forall (fun lv => colon ∉ lv.1 /\ newline ∉ lv.1 /\ newline ∉ lv.2) (m_meminfo m);
  mo_memtotal : NoDup (m_meminfo m).*1 /\ exists v, (chars "MemTotal", v) ∈ m_meminfo m /\ kilobytes v (m_memtotal m)
}.

(** ** The row *)

Section rows.
Context (LookupId : string -> result string) (ParseFloat_other : string -> float64).

(** The login name of a user id, or the number. *)
Definition login (uid : Z) : string := match LookupId (Itoa uid) with Ok name => name | Err _ => Itoa uid end.

(** USER_HZ is 100. *)
Definition seconds (ticks : Z) : float64 := fdiv (of_int ticks) (of_int 100).
Definition percent (part whole : float64) : float64 := fdiv (fmul (of_int 100) part) whole.

(** The uptime in seconds, correctly rounded. *)
Definition uptime (m : machine) : float64 := decimal (m_uptime m) 2.

Definition ps_row (m : machine) (pid : Z) (t : task) : Process := {|
  PID := pid;
  PPID := t_ppid t;
  User := login (t_uid t);
  State := str (t_state t);
  CPUPercent :=
    let lifetime := fsub (uptime m) (seconds (t_starttime t)) in
    if SFltb (S754_zero false) lifetime then percent (seconds (t_utime t + t_stime t)) lifetime else S754_zero false;
  MemPercent := percent (of_int (from_option snd 0 (t_vm t))) (of_int (m_memtotal m));
  VSZKB := from_option fst 0 (t_vm t);
  RSSKB := from_option snd 0 (t_vm t);
  TTY := "?";
  StartTimeMS := int64_of (fmul (fadd (of_int (m_btime m)) (seconds (t_starttime t))) (of_int 1000));
  Command := if decide (t_argv t = []) then "[" +:+ str (t_comm t) +:+ "]" else str (join_bytes [space] (t_argv t))
|}.

(** A directory entry that is a process, by its number. *)
Definition pid_of (e : string * bool) : option Z :=
  if e.2 then match Atoi e.1 with Ok pid => Some pid | Err _ => None end else None.

(** The files under [root] show the machine and the processes: [Some t] one with
    its files, [None] one whose directory was listed but whose files are gone. *)
Record shows (f : fsys) (root : string) (m : machine) (procs : list (Z * option task)) : Prop := {
  sh_uptime : content f (Join root "uptime") = Ok (uptime_text m);
  sh_stat : content f (Join root "stat") = Ok (labelled [space] (m_stat m));
  sh_meminfo : content f (Join root "meminfo") = Ok (labelled [colon] (m_meminfo m));
  sh_pids : omap pid_of (entries f (path_of root)) = procs.*1;
  sh_procs : forall pid p, (pid, p) ∈ procs -> 0 <= pid < 2 ^ 31 /\
    let file name := content f (Join (Join root (Itoa pid)) name) in
    match p with
    | Some t => task_ok t /\ file "stat" = Ok (stat_text pid t) /\ file "status" = Ok (status_text t) /\
                file "cmdline" = Ok (cmdline_text t)
    | None => exists e, file "stat" = Err e
    end
}.

(** ** Reading numbers *)

Lemma Itoa_word z : word (chars (Itoa z)).
Proof.
  destruct (decide (0 <= z)) as [Hz|Hz]; [by apply Itoa_nonneg|]. destruct z as [| |q]; try lia.
  destruct (Itoa_nonneg (Z.pos q) ltac:(lia)) as [(_ & Hw & Hc) _]. rewrite Itoa_neg. split_and!; [done| |set_solver].
  apply Forall_cons. split; [|done]. apply (bool_decide_unpack _). vm_compute. exact Logic.I.
Qed.

Lemma firstField_pad pad w rest : Forall spacec pad -> word w -> (rest = [] \/ exists a r, rest = a :: r /\ spacec a) ->
  firstField (str (pad ++ w ++ rest)) = str w.
Proof.
  intros Hp (Hne & Hw & _) Hr. unfold firstField, Fields, runes. rewrite chars_str.
  by destruct (fields_first pad w rest Hp Hw Hne Hr) as [l ->].
Qed.

Lemma kilobytes_read v n pre : Forall spacec pre -> kilobytes v n -> 0 <= n < 2 ^ 64 -> parseFirstUint (str (pre ++ v)) = n.
Proof.
  intros Hpre (pad & Hpad & ->) Hn. unfold parseFirstUint. rewrite app_assoc.
  rewrite firstField_pad; [|by apply Forall_app|apply Itoa_word|right; by eexists _, _].
  rewrite str_chars, parseUint_Itoa by lia. unfold maxUint64. lia.
Qed.

Lemma digits_parse maxVal b n v : 0 <= n -> parse_uint_go maxVal n b = (v, None) ->
  foldl (fun acc a => acc ≫= fun n => (fun d => n * 10 + d) <$> digit a) (Some n) b = Some v.
Proof.
  revert n. induction b as [|a b IH]; intros n Hn; simpl; [congruence|]. destruct (digit a) as [d|] eqn:Hd; [|done]. simpl.
  destruct (_ <=? n) eqn:E; [done|]. destruct (_ || _) eqn:E'; [done|]. apply orb_false_iff in E' as [E' _]. to_prop.
  assert (0 <= d < 10) as Hd' by (unfold digit in Hd; destruct (_ && _) eqn:Ea; [|done]; apply andb_true_iff in Ea as [? ?]; to_prop; simplify_eq; lia).
  assert (u64 (n * 10 + d) = n * 10 + d) as Eu.
  { change (maxUint64 / 10 + 1) with 1844674407370955162 in E. unfold u64 in *. destruct (decide (n * 10 + d < 2 ^ 64)); [apply Z.mod_small; lia|].
    rewrite <- (Z.mod_unique (n * 10 + d) (2 ^ 64) 1 (n * 10 + d - 2 ^ 64)) in E' by lia. lia. }
  rewrite Eu. apply IH. lia.
Qed.

Lemma digits_Itoa n : 0 <= n < 2 ^ 64 -> digits (chars (Itoa n)) = Some n.
Proof.
  intros Hn. pose proof (ParseUint_Itoa 64 n ltac:(lia) Hn) as H. unfold ParseUint in H. unfold digits.
  destruct (chars (Itoa n)) as [|a b] eqn:E; [by destruct (Itoa_word n) as [? _]|]. by eapply digits_parse; [|exact H].
Qed.

Lemma digits_two n k : digits n = Some k -> forall j, 0 <= j < 100 -> digits (n ++ two_digits j) = Some (k * 100 + j).
Proof.
  intros Hn j Hj. unfold digits in *. rewrite foldl_app, Hn. simpl. pose proof (Z.div_mod j 10 ltac:(lia)).
  pose proof (Z.mod_pos_bound j 10 ltac:(lia)). assert (0 <= j / 10 < 10) by lia.
  rewrite !digit_pretty by lia. simpl. rewrite !Z2N.id by lia. f_equal. lia.
Qed.

Lemma dot_free n : "."%char ∉ chars (Itoa n).
Proof.
  destruct (decide (0 <= n)) as [Hn|Hn].
  - destruct (Itoa_digits n Hn) as [_ Hd]. rewrite Forall_forall in Hd. intros Hin%Hd. by destruct Hin.
  - destruct n as [| |q]; try lia. rewrite Itoa_neg. destruct (Itoa_digits (Z.pos q) ltac:(lia)) as [_ Hd].
    rewrite Forall_forall in Hd. intros [E|Hin]%elem_of_cons; [done|]. apply Hd in Hin. by destruct Hin.
Qed.

Lemma two_digits_free j : 0 <= j < 100 -> Forall (fun a => is_Some (digit a)) (two_digits j).
Proof.
  intros Hj. pose proof (Z.div_mod j 10 ltac:(lia)). pose proof (Z.mod_pos_bound j 10 ltac:(lia)). assert (0 <= j / 10 < 10) by lia.
  apply Forall_cons. split; [|apply Forall_singleton]; rewrite digit_pretty by lia; by eexists.
Qed.

Lemma ParseFloat_uptime m : 0 < m_uptime m < 2 ^ 63 ->
  ParseFloat ParseFloat_other (str (chars (Itoa (m_uptime m / 100)) ++ "."%char :: two_digits (m_uptime m mod 100))) = uptime m.
Proof.
  intros Hu. pose proof (Z.mod_pos_bound (m_uptime m) 100 ltac:(lia)) as Hm. unfold ParseFloat. rewrite chars_str, split_app.
  rewrite !split_free; [simpl|..].
  - assert (digits (chars (Itoa (m_uptime m / 100))) = Some (m_uptime m / 100)) as Hd
      by (apply digits_Itoa; split; [apply Z.div_pos; lia|apply Z.div_lt_upper_bound; lia]).
    rewrite (digits_two _ _ Hd _ Hm). unfold uptime. f_equal. pose proof (Z.div_mod (m_uptime m) 100 ltac:(lia)). lia.
  - intros Hin. pose proof (two_digits_free _ Hm) as Hd. rewrite Forall_forall in Hd. apply Hd in Hin. by destruct Hin.
  - apply dot_free.
Qed.

(** ** Reading lines *)

(** Labels without [c], and no line break anywhere. *)
Definition label_ok (c : ascii) (lv : bytes * bytes) : Prop := c ∉ lv.1 /\ newline ∉ lv.1 /\ newline ∉ lv.2.

Lemma Split_labelled c sep lines : newline ∉ sep -> Forall (label_ok c) lines ->
  Split (labelled sep lines) newline = ((fun lv => str (lv.1 ++ sep ++ lv.2)) <$> lines) ++ [""].
Proof.
  intros Hsep Hl. unfold labelled. rewrite Split_unlines.
  - by rewrite <- list_fmap_compose.
  - apply Forall_fmap. eapply Forall_impl; [exact Hl|]. intros lv (_ & H1 & H2). simpl. rewrite !not_elem_of_app. auto.
Qed.

Lemma first_labelled c sep lines L v : newline ∉ c :: sep -> Forall (label_ok c) lines -> NoDup lines.*1 -> c ∉ L ->
  (L, v) ∈ lines -> first_line (str (L ++ [c])) (Split (labelled (c :: sep) lines) newline) = Some (str (sep ++ v)).
Proof.
  intros Hsep Hl Hnd HL Hin. rewrite (Split_labelled c) by done. revert Hnd Hin.
  induction Hl as [|[l w] lines (H1 & _ & _) _ IH]; intros Hnd Hin; [by apply not_elem_of_nil in Hin|].
  cbn [fmap list_fmap app first_line fst snd] in *. rewrite cut_label by done. apply NoDup_cons in Hnd as [Hn Hnd].
  case_decide as Hd.
  - subst. apply elem_of_cons in Hin as [E|Hin]; [by simplify_eq|].
    destruct Hn. apply list_elem_of_fmap. by exists (L, v).
  - apply IH; [done|]. apply elem_of_cons in Hin as [E|Hin]; [by simplify_eq|done].
Qed.

Lemma uptime_word m : let w := chars (Itoa (m_uptime m / 100)) ++ "."%char :: two_digits (m_uptime m mod 100) in
  Forall wordc w /\ w <> [].
Proof.
  pose proof (Z.mod_pos_bound (m_uptime m) 100 ltac:(lia)) as Hmod.
  destruct (Itoa_word (m_uptime m / 100)) as (_ & Hw & _). split; [|by intros [_ ?]%app_eq_nil].
  apply Forall_app. split; [done|]. apply Forall_cons. split; [apply (bool_decide_unpack _); vm_compute; exact Logic.I|].
  eapply Forall_impl; [by apply two_digits_free|]. intros a Ha. by apply digit_wordc.
Qed.

Lemma system_shown f root m procs : machine_ok m -> shows f root m procs ->
  system_of ParseFloat_other f root = mkSys (uptime m) (m_btime m) (m_memtotal m).
Proof.
  intros [Hu Hb Hs [Hsd Hsb] Hm Hi (Hmd & v & Hv & Hk)] [E1 E2 E3 _ _]. unfold system_of. rewrite E1, E2, E3. f_equal.
  - destruct (uptime_word m) as [Hw Hne]. unfold uptime_text.
    destruct (Fields_first _ space (m_idle m) Hw Hne) as [l ->]; [by apply (bool_decide_unpack _)|]. by apply ParseFloat_uptime.
  - change "btime " with (str (chars "btime" ++ [space])).
    rewrite (first_labelled space [] _ (chars "btime") (chars (Itoa (m_btime m)))); [|set_solver|done|done|set_solver|done].
    cbn [from_option app]. rewrite TrimSpace_word by apply Itoa_word. rewrite str_chars, ParseInt_Itoa by lia. done.
  - change "MemTotal:" with (str (chars "MemTotal" ++ [colon])).
    rewrite (first_labelled colon [] _ (chars "MemTotal") v); [|set_solver|done|done|set_solver|done].
    cbn [from_option]. apply (kilobytes_read v _ []); [constructor|done|lia].
Qed.

(** ** A process *)

(** What the lines of status come to, as a map from labels. *)
Definition gathered (lines : gmap bytes bytes) (acc : statusInfo) : statusInfo :=
  let value {A} (f : string -> A) (d : A) (L : string) := from_option (fun v => f (str (Words.tab :: v))) d (lines !! chars L) in
  mkStatus (value (fun r => resolveUser LookupId (firstField r)) (s_User acc) "Uid")
    (value parseFirstUint (s_VSZKB acc) "VmSize") (value parseFirstUint (s_RSSKB acc) "VmRSS")
    (value (fun r => if decide (TrimSpace r <> "") then TrimSpace r else s_comm acc) (s_comm acc) "Name").

Lemma status_line_labelled acc l v : colon ∉ l ->
  status_line LookupId acc (str (l ++ colon :: Words.tab :: v)) = gathered {[l := v]} acc.
Proof.
  intros Hl. unfold status_line, gathered.
  change "Uid:" with (str (chars "Uid" ++ [colon])). change "VmSize:" with (str (chars "VmSize" ++ [colon])).
  change "VmRSS:" with (str (chars "VmRSS" ++ [colon])). change "Name:" with (str (chars "Name" ++ [colon])).
  rewrite !cut_label by (done || set_solver). rewrite !lookup_singleton.
  destruct acc. repeat case_decide; simplify_eq; simpl; repeat case_decide; try done; congruence.
Qed.

Lemma gathered_insert l v lines acc : lines !! l = None ->
  gathered lines (gathered {[l := v]} acc) = gathered (<[l := v]> lines) acc.
Proof.
  intros Hn. unfold gathered. simpl. rewrite !lookup_singleton, !lookup_insert.
  f_equal; case_decide; subst; rewrite ?Hn; simpl; try done; by destruct (lines !! _).
Qed.

Lemma status_fold lines acc : Forall (label_ok colon) lines -> NoDup lines.*1 ->
  foldl (status_line LookupId) acc ((fun lv => str (lv.1 ++ [colon; Words.tab] ++ lv.2)) <$> lines) =
  gathered (list_to_map lines) acc.
Proof.
  intros Hl. revert acc. induction Hl as [|[l v] lines (H1 & _ & _) _ IH]; intros acc Hnd; [by destruct acc|].
  apply NoDup_cons in Hnd as [Hn Hnd]. cbn [fmap list_fmap foldl fst snd list_to_map foldr app] in *.
  rewrite status_line_labelled, IH by done. apply gathered_insert. by apply not_elem_of_list_to_map_1.
Qed.

Lemma status_shown t st_comm : task_ok t ->
  foldl (status_line LookupId) (mkStatus "" 0 0 st_comm) (Split (status_text t) newline) =
  mkStatus (login (t_uid t)) (from_option fst 0 (t_vm t)) (from_option snd 0 (t_vm t)) (str (t_comm t)).
Proof.
  intros [[Hnd Hl Hname Huid Hvm] _ _ _ _ _ Hu Hr [Hc1 Hc2] _]. unfold status_text.
  rewrite (Split_labelled colon), foldl_app, status_fold by (done || set_solver).
  change (foldl ?g ?a [""]) with (g a ""). change (status_line LookupId ?a "") with a.
  assert (forall L v, (L, v) ∈ t_status t -> (list_to_map (t_status t) : gmap bytes bytes) !! L = Some v) as Hget
    by (intros L v; by apply elem_of_list_to_map).
  assert (Forall spacec [Words.tab]) as Htab by (apply Forall_singleton; by apply (bool_decide_unpack _)).
  unfold gathered. rewrite (Hget _ _ Hname), (Hget _ _ Huid). cbn [from_option s_comm s_User s_VSZKB s_RSSKB].
  rewrite TrimSpace_pad, Hc2 by (by apply (bool_decide_unpack _)).
  assert (str (t_comm t) <> "") as Hne by (intros E%(f_equal chars); by rewrite chars_str in E).
  rewrite (decide_True (P := str (t_comm t) <> "")) by done.
  assert (resolveUser LookupId (firstField (str (Words.tab :: uid_value t))) = login (t_uid t)) as ->.
  { unfold uid_value. change (Words.tab :: ?x) with ([Words.tab] ++ x).
    assert (exists rest, join_bytes [Words.tab] (chars ∘ Itoa <$> t_uid t :: t_other_uids t) = chars (Itoa (t_uid t)) ++ rest /\
      (rest = [] \/ exists a r, rest = a :: r /\ spacec a)) as (rest & -> & Hrest).
    { destruct (t_other_uids t) as [|o os]; [exists []; split; [by rewrite app_nil_r|by left]|].
      eexists. split; [reflexivity|]. right. eexists _, _. split; [reflexivity|]. by apply (bool_decide_unpack _). }
    rewrite firstField_pad, str_chars by (done || apply Itoa_word). unfold resolveUser.
    rewrite decide_False by (apply Itoa_nonneg; lia). done. }
  destruct (t_vm t) as [[vsz rss]|] eqn:Evm; cbn [from_option fst snd].
  - destruct Hvm as (v & r & Hv & Kv & Hr' & Kr). destruct (Hr _ _ eq_refl) as [? ?].
    rewrite (Hget _ _ Hv), (Hget _ _ Hr'). cbn [from_option].
    f_equal; [by apply (kilobytes_read v vsz [Words.tab])|by apply (kilobytes_read r rss [Words.tab])].
  - destruct Hvm as [H1 H2]. by rewrite !not_elem_of_list_to_map_1 by done.
Qed.

Lemma last_join argv w a : last argv = Some (w ++ [a]) -> exists x, join_bytes [nul] argv = x ++ [a].
Proof.
  induction argv as [|v argv IH]; [done|]. destruct argv as [|v' argv]; [intros [= ->]; by exists w|].
  intros Hl. destruct (IH Hl) as [x Hx]. exists (v ++ [nul] ++ x).
  change (join_bytes [nul] (v :: v' :: argv)) with (v ++ [nul] ++ join_bytes [nul] (v' :: argv)).
  rewrite Hx. by rewrite <- !app_assoc.
Qed.

Lemma terminated_join argv : argv <> [] -> mjoin ((fun a => a ++ [nul]) <$> argv) = join_bytes [nul] argv ++ [nul].
Proof.
  induction argv as [|v argv IH]; [done|]. intros _. destruct argv as [|v' argv]; [simpl; by rewrite app_nil_r|].
  change (join_bytes [nul] (v :: v' :: argv)) with (v ++ [nul] ++ join_bytes [nul] (v' :: argv)).
  simpl mjoin in *. rewrite IH by done. by rewrite <- !app_assoc.
Qed.

Lemma command_shown t : task_ok t -> command_of (str (t_comm t)) (Ok (cmdline_text t)) =
  if decide (t_argv t = []) then "[" +:+ str (t_comm t) +:+ "]" else str (join_bytes [space] (t_argv t)).
Proof.
  intros [_ _ _ _ _ _ _ _ _ [Hf Hl]]. unfold command_of, cmdline_text. case_decide as Hd; case_decide as He; try done.
  - by rewrite He in Hd.
  - rewrite terminated_join by done.
    assert (exists w a, last (t_argv t) = Some (w ++ [a]) /\ a <> nul) as (w & a & Hw & Ha).
    { destruct (last (t_argv t)) as [w|] eqn:Ew; [|by apply last_None in Ew].
      destruct (decide (w = [])) as [->|Hne]; [done|]. destruct (exists_last Hne) as (w' & a & ->).
      exists w', a. split; [done|]. intros ->. rewrite Forall_forall in Hf.
      apply (Hf (w' ++ [nul])); [by apply last_Some_elem_of|set_solver]. }
    destruct (last_join _ _ _ Hw) as [x Hx]. rewrite Hx, <- app_assoc, TrimRight_snoc, <- Hx by done.
    unfold Split. rewrite chars_str. change (split_go nul [] ?b) with (GoLib.split nul b). rewrite split_join by done.
    unfold SJoin. do 2 f_equal. rewrite <- list_fmap_compose. rewrite <- (list_fmap_id (t_argv t)) at 2.
    apply list_fmap_ext. intros i b _. apply chars_str.
  - exfalso. rewrite terminated_join in Hd by done. apply (f_equal chars) in Hd. rewrite chars_str in Hd.
    by apply app_eq_nil in Hd as [_ ?].
Qed.

Lemma stat_shown pid t : 0 <= pid -> task_ok t -> parseStat (stat_text pid t) = Value (Some {|
  comm := str (t_comm t); state := str (t_state t); ppid := t_ppid t; utime := t_utime t; stime := t_stime t;
  starttime := t_starttime t |}).
Proof.
  intros Hp [_ Hst Hpp H5 H16 (Hu & Hs & Hus & Hstart) _ _ _ _]. unfold stat_text.
  assert (forall l : list Z, Forall word (chars ∘ Itoa <$> l)) as Hw
    by (intros l; apply Forall_fmap, Forall_forall; intros z _; apply Itoa_word).
  erewrite (parseStat_roundtrip pid (t_comm t) _ (str (t_state t)) (t_ppid t) (t_utime t) (t_stime t) (t_starttime t)); try lia.
  - unfold maxUint64. by rewrite !Z.min_l by lia.
  - repeat first [apply Forall_app; split|apply Forall_cons; split|apply Hw|apply Itoa_word|done|apply Forall_nil].
  - simpl. rewrite !length_app. simpl. rewrite !length_app, !length_fmap, H5, H16. simpl. lia.
  - simpl. by rewrite chars_str.
  - done.
  - simpl. rewrite lookup_app_r; rewrite length_fmap, H5; [done|lia].
  - simpl. rewrite lookup_app_r; rewrite length_fmap, H5; [done|lia].
  - simpl. rewrite lookup_app_r; rewrite length_fmap, H5; [simpl|lia]. rewrite lookup_app_r; rewrite length_fmap, H16; [done|lia].
Qed.

(** ** The table *)

(** The row of a process number. *)
Definition row_pid (f : fsys) (root : string) (sys : systemInfo) (pid : Z) : option Process :=
  row LookupId f root sys (Itoa pid, true).

Lemma Atoi_Itoa n : 0 <= n < 2 ^ 31 -> Atoi (Itoa n) = Ok n.
Proof. intros Hn. unfold Atoi. by rewrite ParseInt_Itoa by lia. Qed.

Lemma row_entry f root sys e : (forall pid, pid_of e = Some pid -> 0 <= pid < 2 ^ 31) ->
  row LookupId f root sys e = pid_of e ≫= row_pid f root sys.
Proof.
  destruct e as [name []]; [|done]. unfold pid_of, row_pid, row. cbn [fst snd]. destruct (Atoi name) as [pid|]; [|done].
  intros Hp. cbn [mbind option_bind]. by rewrite Atoi_Itoa by auto.
Qed.

Lemma omap_rows f root sys es : Forall (fun pid => 0 <= pid < 2 ^ 31) (omap pid_of es) ->
  omap (row LookupId f root sys) es = omap (row_pid f root sys) (omap pid_of es).
Proof.
  induction es as [|e es IH]; [done|]. cbn [omap list_omap]. intros Hf.
  rewrite row_entry by (intros pid E; rewrite E in Hf; by apply Forall_cons in Hf as [? _]).
  destruct (pid_of e) as [pid|]; [|by apply IH]. apply Forall_cons in Hf as [_ Hf]. cbn [omap list_omap mbind option_bind].
  by rewrite IH.
Qed.

Lemma row_shown f root m procs pid p : machine_ok m -> shows f root m procs -> (pid, p) ∈ procs ->
  row_pid f root (mkSys (uptime m) (m_btime m) (m_memtotal m)) pid = ps_row m pid <$> p.
Proof.
  intros Hm Hsh Hin. destruct (sh_procs _ _ _ _ Hsh _ _ Hin) as [Hp Hfiles]. unfold row_pid, row. cbn [fst snd].
  rewrite Atoi_Itoa by done. destruct p as [t|]; [|by destruct Hfiles as [e ->]].
  destruct Hfiles as (Ht & E1 & E2 & E3). rewrite E1, E2, E3, stat_shown by (done || lia). cbv zeta. cbn [comm].
  rewrite status_shown by done. cbn [s_comm]. rewrite command_shown by done. cbn [fmap option_fmap option_map]. f_equal.
  unfold derive, ps_row. cbn [s_User s_VSZKB s_RSSKB state ppid utime stime starttime uptimeSec btimeSec memTotalKB].
  destruct Hm as [_ [Hb _] _ _ [Hmem _] _ _]. destruct Ht as [_ _ _ _ _ (Hu & Hs & Hus & _) _ _ _ _].
  rewrite (proj2 (Z.ltb_lt _ _) Hb), (proj2 (Z.ltb_lt _ _) Hmem), i32_small, u64_small by lia. reflexivity.
Qed.

(** C39.  The process table is what proc(5) says.  Let the files under the root
    show a machine and its processes in the kernel's formats: a command name may hold
    blanks and parentheses, the lines of status come in any order among others, a
    kernel thread has neither memory nor arguments, and some processes are gone when
    their files are read.  When no read fails otherwise, the scan returns, in directory
    order, one row for each process that is still there: its numbers and state, the
    login name of its real user, its memory in kB and in percent of the machine's, its
    time on the CPU in percent of its lifetime, when it started, and its arguments
    joined by blanks or the name in brackets.  It changes no file. *)
Theorem process_table root m procs w :
  no_faults w -> wf (files w) -> node_at (files w) (path_of root) = Some NDir ->
  machine_ok m -> shows (files w) root m procs ->
  (listFrom LookupId ParseFloat_other root w).1 = Ok (Value (omap (fun pp => ps_row m pp.1 <$> pp.2) procs)) /\
  files (listFrom LookupId ParseFloat_other root w).2 = files w.
Proof.
  intros Hn Hw Hroot Hm Hsh.
  destruct (listFrom_exec LookupId ParseFloat_other _ _ Hw Hroot w eq_refl Hn) as (-> & -> & _). split; [|done]. do 2 f_equal.
  rewrite (system_shown _ _ _ _ Hm Hsh), omap_rows, (sh_pids _ _ _ _ Hsh).
  - assert (forall l, l ⊆ procs -> omap (row_pid (files w) root (mkSys (uptime m) (m_btime m) (m_memtotal m))) l.*1 =
      omap (fun pp => ps_row m pp.1 <$> pp.2) l) as H; [|by apply H].
    induction l as [|[pid p] l IH]; intros Hl; [done|]. cbn [fmap list_fmap omap list_omap fst snd].
    rewrite (row_shown _ _ _ _ _ _ Hm Hsh (Hl _ (list_elem_of_here _ _))), IH by set_solver. done.
  - rewrite (sh_pids _ _ _ _ Hsh). apply Forall_fmap, Forall_forall. intros [pid p] Hin. by apply (sh_procs _ _ _ _ Hsh) in Hin as [? _].
Qed.

End rows.

(** ** At a concrete machine *)

Definition kB (n : Z) : bytes := chars "   " ++ chars (Itoa n) ++ chars " kB".

Lemma kB_kilobytes n : kilobytes (kB n) n.
Proof. exists (chars "   "). split; [|done]. by apply (bool_decide_unpack _). Qed.

(** A daemon with a confusing name, run by root. *)
Definition daemon : task := mkTask (chars "a) R (b") (chars "S") 1 [7; 7; 0; -1; 4194560; 100; 0; 50; 0] 50 10
  [0; 0; 20; 0; 1; 0] 100 [172998656; 3264] 0 [0; 0; 0] (Some (168944, 13056))
  [(chars "Name", chars "a) R (b"); (chars "Umask", chars "0022"); (chars "Uid", chars (str (join_bytes [Words.tab] (chars <$> ["0"; "0"; "0"; "0"]))));
   (chars "VmPeak", kB 170000); (chars "VmSize", kB 168944); (chars "VmRSS", kB 13056)]
  (chars <$> ["/usr/sbin/bd"; "-f"; "x y"]).

(** A kernel thread. *)
Definition kthread : task := mkTask (chars "kworker/0:1") (chars "I") 2 [0; 0; 0; -1; 69238880; 0; 0; 0; 0] 0 3
  [0; 0; 20; 0; 1; 0] 30 [] 0 [0; 0; 0] None
  [(chars "Name", chars "kworker/0:1"); (chars "Uid", chars (str (join_bytes [Words.tab] (chars <$> ["0"; "0"; "0"; "0"]))))]
  [].

Definition box : machine := mkMachine 100050 (chars "4000.00" ++ [newline]) 1600000000
  [(chars "cpu", chars " 100 0 50 1000 0 0 0 0 0 0"); (chars "btime", chars "1600000000")]
  2048000 [(chars "MemTotal", kB 2048000); (chars "MemFree", kB 7)].

Definition running : list (Z * option task) := [(12, Some kthread); (7, Some daemon); (9, None)].

Definition proc_files : fsys := list_to_map [
  (["proc"], NDir); (["proc"; "12"], NDir); (["proc"; "7"], NDir); (["proc"; "9"], NDir); (["proc"; "self"], NDir);
  (["proc"; "uptime"], NFile (uptime_text box));
  (["proc"; "stat"], NFile (labelled [space] (m_stat box)));
  (["proc"; "meminfo"], NFile (labelled [colon] (m_meminfo box)));
  (["proc"; "12"; "stat"], NFile (stat_text 12 kthread)); (["proc"; "12"; "status"], NFile (status_text kthread));
  (["proc"; "12"; "cmdline"], NFile (cmdline_text kthread));
  (["proc"; "7"; "stat"], NFile (stat_text 7 daemon)); (["proc"; "7"; "status"], NFile (status_text daemon));
  (["proc"; "7"; "cmdline"], NFile (cmdline_text daemon))].

Local Ltac decided := apply (bool_decide_unpack _); vm_compute; exact Logic.I.

Lemma daemon_ok : task_ok daemon.
Proof.
  split; simpl; try lia; [| | |split; [done|]; vm_compute; reflexivity|split; decided].
  - split; [decided|decided|simpl; set_solver|simpl; set_solver|].
    exists (kB 168944), (kB 13056). split_and!; [simpl; set_solver|apply kB_kilobytes|simpl; set_solver|apply kB_kilobytes].
  - split_and!; [done|decided|decided].
  - intros ? ? [= <- <-]. lia.
Qed.

Lemma kthread_ok : task_ok kthread.
Proof.
  split; [| |simpl; lia|done|done|simpl; lia|simpl; lia|done|split; [done|]; vm_compute; reflexivity|split; decided].
  - split; [decided|decided|simpl; set_solver|simpl; set_solver|]. split; decided.
  - split_and!; [done|decided|decided].
Qed.

(** A file system in which every node has its directory. *)
Lemma wf_by_parents (f : fsys) : f !! ([] : path) = None ->
  map_Forall (fun p _ => node_at f (parent p) = Some NDir) f -> wf f.
Proof. intros Hr Hp. split; [done|]. intros q c n Hq. specialize (Hp _ _ Hq). cbv beta in Hp. by rewrite parent_snoc in Hp. Qed.

Lemma box_ok : machine_ok box.
Proof.
  split; [simpl; lia|simpl; lia|decided|split; decided|simpl; lia|decided|]. split; [decided|].
  exists (kB 2048000). split; [decided|apply kB_kilobytes].
Qed.

Lemma box_shown : shows proc_files "/proc" box running.
Proof.
  split; [vm_compute; reflexivity..|].
  intros pid p Hin. repeat (apply elem_of_cons in Hin as [[= -> ->]|Hin]); [..|by apply not_elem_of_nil in Hin];
    (split; [lia|]).
  - split_and!; [apply kthread_ok|vm_compute; reflexivity..].
  - split_and!; [apply daemon_ok|vm_compute; reflexivity..].
  - eexists. vm_compute. reflexivity.
Qed.

Lemma proc_files_wf : wf proc_files.
Proof. apply wf_by_parents; decided. Qed.

Definition passwd (uid : string) : result string := if decide (uid = "0") then Ok "root" else Err ENOENT.

Lemma process_table_witness :
  (listFrom passwd (fun _ => S754_nan) "/proc" (mk_os proc_files [] [])).1 =
    Ok (Value [ps_row passwd box 12 kthread; ps_row passwd box 7 daemon]) /\
  VSZKB (ps_row passwd box 7 daemon) = 168944 /\ RSSKB (ps_row passwd box 7 daemon) = 13056 /\
  User (ps_row passwd box 7 daemon) = "root" /\ StartTimeMS (ps_row passwd box 7 daemon) = 1600000001000 /\
  CPUPercent (ps_row passwd box 7 daemon) = fdiv (fmul (of_int 100) (decimal 6 1)) (decimal 9995 1) /\
  Command (ps_row passwd box 7 daemon) = "/usr/sbin/bd -f x y" /\ Command (ps_row passwd box 12 kthread) = "[kworker/0:1]".
Proof.
  split; [|vm_compute; split_and!; reflexivity].
  apply (process_table passwd (fun _ => S754_nan) "/proc" box running (mk_os proc_files [] [])).
  - constructor.
  - apply proc_files_wf.
  - vm_compute. reflexivity.
  - apply box_ok.
  - apply box_shown.
Defined.

End ProcFormat.
