(* ===== verification/NetIP.v ===== *)
(** * IP addresses and prefixes (net/netip and package net of the standard library)

    The firewall and the overlay receive addresses as text.  [ParseAddr],
    [ParsePrefix] are the parsers of net/netip, [ParseCIDR], [CIDRMask], [Mask]
    and [To4] those of package net, on bytes and on every error branch.  The
    lemmas say what an accepted text denotes: addresses of 4 or 16 bytes, that
    the two prefix parsers agree, and that masking a byte string compares
    exactly the leading bits of the number it denotes. *)

From S2P Require Import Prelude GoLib Strconv GoPath.
Local Open Scope Z_scope.

Module NetIP.

(** ** netip.Addr and its parser *)

Inductive Addr :=
| Addr4 (ip : bytes)
| Addr6 (ip : bytes) (zone : string).

#[export] Instance Addr_eq_dec : EqDecision Addr.
Proof. solve_decision. Defined.

Definition addr_bytes (a : Addr) : bytes := match a with Addr4 b | Addr6 b _ => b end.
Definition Is6 (a : Addr) : bool := match a with Addr4 _ => false | Addr6 _ _ => true end.
Definition Zone (a : Addr) : string := match a with Addr4 _ => "" | Addr6 _ z => z end.
Definition BitLen (a : Addr) : Z := match a with Addr4 _ => 32 | Addr6 _ _ => 128 end.

Definition parseAddrError (input msg : string) (at_ : bytes) : error :=
  Errorf "ParseAddr(%q): %s (at %q)" [EStr input; EStr msg; EStr (str at_)].

Definition dot : ascii := "."%char.
Definition colon : ascii := ":"%char.
Definition percent : ascii := "%"%char.

(** The loop of parseIPv4Fields; [prev] is [s[i-1]], [fields] what has been
    stored. *)
Fixpoint parseIPv4Fields (input : string) (val pos digLen : Z) (prev : option ascii)
    (fields : bytes) (s : bytes) : result bytes :=
  match s with
  | [] =>
      if pos <? 3 then Err (parseAddrError input "IPv4 address too short" [])
      else Ok (fields ++ [byte_of val])
  | c :: s' =>
      match digit c with
      | Some d =>
          if (digLen =? 1) && (val =? 0) then
            Err (parseAddrError input "IPv4 field has octet with leading zero" [])
          else
            let val := val * 10 + d in
            if 255 <? val then Err (parseAddrError input "IPv4 field has value >255" [])
            else parseIPv4Fields input val pos (digLen + 1) (Some c) fields s'
      | None =>
          if decide (c = dot) then
            if bool_decide (prev = None) || bool_decide (s' = []) || bool_decide (prev = Some dot) then
              Err (parseAddrError input "IPv4 field must have at least one digit" s)
            else if pos =? 3 then Err (parseAddrError input "IPv4 address too long" [])
            else parseIPv4Fields input 0 (pos + 1) 0 (Some c) (fields ++ [byte_of val]) s'
          else Err (parseAddrError input "unexpected character" s)
      end
  end.

Definition parseIPv4 (s : string) : result Addr :=
  match parseIPv4Fields s 0 0 0 None [] (chars s) with
  | Ok fields => Ok (Addr4 fields)
  | Err e => Err e
  end.

Definition hexval (c : ascii) : option Z :=
  let v := byte_val c in
  if (48 <=? v) && (v <=? 57) then Some (v - 48)
  else if (97 <=? v) && (v <=? 102) then Some (v - 97 + 10)
  else if (65 <=? v) && (v <=? 70) then Some (v - 65 + 10)
  else None.

(** The hex number at the head of [s]: its digits counted, its value, the
    rest of the text. *)
Fixpoint hexGroup (input : string) (whole : bytes) (off : Z) (acc : Z) (s : bytes) : result (Z * Z * bytes) :=
  match s with
  | [] => Ok (off, acc, [])
  | c :: s' =>
      match hexval c with
      | None => Ok (off, acc, s)
      | Some d =>
          let acc := u32 (Z.shiftl acc 4 + d) in
          if 3 <? off then Err (parseAddrError input "each group must have 4 or fewer digits" whole)
          else if 65535 <? acc then Err (parseAddrError input "IPv6 field has value >=2^16" whole)
          else hexGroup input whole (off + 1) acc s'
      end
  end.

(** The group loop, [for i < 16]: [g] groups of two bytes are still free, the
    [16 - 2 g] bytes parsed so far are [ip].  The result is the state at the
    loop's exit. *)
Fixpoint groups (input : string) (g : nat) (ip : bytes) (ellipsis : option nat) (s : bytes)
    : result (bytes * option nat * bytes) :=
  match g with
  | O => Ok (ip, ellipsis, s)
  | S g' =>
      match hexGroup input s 0 0 s with
      | Err e => Err e
      | Ok (off, acc, rest) =>
          if off =? 0 then
            Err (parseAddrError input "each colon-separated field must have at least one digit" s)
          else
            match rest with
            | [] => Ok (ip ++ [byte_of (Z.shiftr acc 8); byte_of acc], ellipsis, [])
            | c :: rest' =>
                if decide (c = dot) then
                  if bool_decide (ellipsis = None) && negb (bool_decide (length ip = 12%nat)) then
                    Err (parseAddrError input "embedded IPv4 address must replace the final 2 fields of the address" s)
                  else if (16 <? length ip + 4)%nat then
                    Err (parseAddrError input "too many hex fields to fit an embedded IPv4 at the end of the address" s)
                  else match parseIPv4Fields input 0 0 0 None [] s with
                       | Err e => Err e
                       | Ok f => Ok (ip ++ f, ellipsis, [])
                       end
                else
                  let ip := ip ++ [byte_of (Z.shiftr acc 8); byte_of acc] in
                  if negb (bool_decide (c = colon)) then
                    Err (parseAddrError input "unexpected character, want colon" rest)
                  else match rest' with
                       | [] => Err (parseAddrError input "colon must be followed by more characters" rest)
                       | c' :: rest'' =>
                           if decide (c' = colon) then
                             match ellipsis with
                             | Some _ => Err (parseAddrError input "multiple :: in address" rest')
                             | None =>
                                 match rest'' with
                                 | [] => Ok (ip, Some (length ip), [])
                                 | _ => groups input g' ip (Some (length ip)) rest''
                                 end
                             end
                           else groups input g' ip ellipsis rest'
                       end
            end
      end
  end.

Definition zeros (n : nat) : bytes := replicate n (byte_of 0).

(** After the loop: all of the text used, the ellipsis expanded. *)
Definition finish6 (input : string) (zone : string) (st : bytes * option nat * bytes) : result Addr :=
  let '(ip, ellipsis, s) := st in
  if negb (bool_decide (s = [])) then Err (parseAddrError input "trailing garbage after address" s)
  else if (length ip <? 16)%nat then
    match ellipsis with
    | None => Err (parseAddrError input "address string too short" [])
    | Some e => Ok (Addr6 (take e ip ++ zeros (16 - length ip) ++ drop e ip) zone)
    end
  else match ellipsis with
       | Some _ => Err (parseAddrError input "the :: must expand to at least one field of zeros" [])
       | None => Ok (Addr6 ip zone)
       end.

Definition parseIPv6 (input : string) : result Addr :=
  let b := chars input in
  let '(s, zone, bad) :=
    match index_byte percent b with
    | None => (b, [], false)
    | Some i => (take i b, drop (S i) b, bool_decide (drop (S i) b = []))
    end in
  if bad then Err (parseAddrError input "zone must be a non-empty string" [])
  else
    let '(ellipsis, s) :=
      match s with
      | c1 :: c2 :: s' => if bool_decide (c1 = colon) && bool_decide (c2 = colon) then (Some 0%nat, s') else (None, s)
      | _ => (None, s)
      end in
    match ellipsis, s with
    | Some _, [] => Ok (Addr6 (zeros 16) (str zone))
    | _, _ =>
        match groups input 8 [] ellipsis s with
        | Err e => Err e
        | Ok st => finish6 input (str zone) st
        end
    end.

Fixpoint parseAddr_go (input : string) (b : bytes) : result Addr :=
  match b with
  | [] => Err (parseAddrError input "unable to parse IP" [])
  | c :: b' =>
      if decide (c = dot) then parseIPv4 input
      else if decide (c = colon) then parseIPv6 input
      else if decide (c = percent) then Err (parseAddrError input "missing IPv6 address" [])
      else parseAddr_go input b'
  end.

Definition ParseAddr (s : string) : result Addr := parseAddr_go s (chars s).

(** ** netip.ParsePrefix *)

Definition parsePrefixError (input msg : string) : error :=
  Errorf "netip.ParsePrefix(%q): %s" [EStr input; EStr msg].

Definition isDigit19 (c : ascii) : bool := (49 <=? byte_val c) && (byte_val c <=? 57).

Definition ParsePrefix (s : string) : result (Addr * Z) :=
  match last_index_byte "/"%char (chars s) with
  | None => Err (parsePrefixError s "no '/'")
  | Some i =>
      match ParseAddr (str (take i (chars s))) with
      | Err e => Err (Errorf "netip.ParsePrefix(%q): %w" [EStr s; EErr e])
      | Ok ip =>
          if Is6 ip && negb (bool_decide (Zone ip = "")) then
            Err (parsePrefixError s "IPv6 zones cannot be present in a prefix")
          else
            let bitsStr := drop (S i) (chars s) in
            let lead := match bitsStr with c :: _ :: _ => negb (isDigit19 c) | _ => false end in
            if lead then Err (parsePrefixError s "bad bits after slash")
            else match Atoi (str bitsStr) with
                 | Err _ => Err (parsePrefixError s "bad bits after slash")
                 | Ok bits =>
                     let maxBits := if Is6 ip then 128 else 32 in
                     if (bits <? 0) || (maxBits <? bits) then
                       Err (parsePrefixError s "prefix length out of range")
                     else Ok (ip, bits)
                 end
      end
  end.

(** What [FirewallRule.Validate] keeps of it. *)
Definition ParsePrefix_err (s : string) : gerr :=
  match ParsePrefix s with Ok _ => None | Err e => Some e end.

(** ** package net: masks and ParseCIDR *)

Definition v4InV6Prefix : bytes := zeros 10 ++ [byte_of 255; byte_of 255].

(** [IP.To4]: [None] for nil. *)
Definition To4 (ip : bytes) : option bytes :=
  if decide (length ip = 4%nat) then Some ip
  else if decide (length ip = 16%nat /\ take 12 ip = v4InV6Prefix) then Some (drop 12 ip)
  else None.

(** The loop of CIDRMask over the remaining [l] bytes. *)
Fixpoint mask_go (l : nat) (n : Z) : bytes :=
  match l with
  | O => []
  | S l' =>
      if 8 <=? n then byte_of 255 :: mask_go l' (n - 8)
      else byte_of (Z.lnot (Z.shiftr 255 n)) :: mask_go l' 0
  end.

Definition CIDRMask (ones bits : Z) : option bytes :=
  if negb (bits =? 32) && negb (bits =? 128) then None
  else if (ones <? 0) || (bits <? ones) then None
  else Some (mask_go (Z.to_nat (bits / 8)) ones).

Definition land_byte (a b : ascii) : ascii := byte_of (Z.land (byte_val a) (byte_val b)).
Definition land_bytes (a b : bytes) : bytes := zip_with land_byte a b.

Definition allFF (b : bytes) : bool := forallb (fun c => bool_decide (c = byte_of 255)) b.

(** [IP.Mask]: [None] for nil. *)
Definition Mask (ip mask : bytes) : option bytes :=
  let mask := if bool_decide (length mask = 16%nat) && bool_decide (length ip = 4%nat) && allFF (take 12 mask)
              then drop 12 mask else mask in
  let ip := if bool_decide (length mask = 4%nat) && bool_decide (length ip = 16%nat)
               && bool_decide (take 12 ip = v4InV6Prefix)
            then drop 12 ip else ip in
  if decide (length ip = length mask) then Some (land_bytes ip mask) else None.

(** [Addr.As16]. *)
Definition As16 (a : Addr) : bytes := match a with Addr4 b => v4InV6Prefix ++ b | Addr6 b _ => b end.

(** [dtoi]: the decimal number at the head of the text, bounded by [big]. *)
Definition big : Z := 16777215.

Fixpoint dtoi_go (n i : Z) (s : bytes) : Z * Z * bool :=
  match s with
  | [] => (n, i, negb (i =? 0))
  | c :: s' =>
      match digit c with
      | None => if i =? 0 then (0, 0, false) else (n, i, true)
      | Some d => let n := n * 10 + d in
                  if big <=? n then (big, i, false) else dtoi_go n (i + 1) s'
      end
  end.

Definition dtoi (s : bytes) : Z * Z * bool := dtoi_go 0 0 s.

Record IPNet := { net_IP : bytes; net_Mask : bytes }.

Definition cidrError (s : string) : error := Errorf "invalid CIDR address: %s" [EStr s].

(** [net.ParseCIDR]: the address and the network. *)
Definition ParseCIDR (s : string) : result (bytes * IPNet) :=
  match index_byte "/"%char (chars s) with
  | None => Err (cidrError s)
  | Some i =>
      let mask := drop (S i) (chars s) in
      match ParseAddr (str (take i (chars s))) with
      | Err _ => Err (cidrError s)
      | Ok ipAddr =>
          if negb (bool_decide (Zone ipAddr = "")) then Err (cidrError s)
          else
            let '(n, j, ok) := dtoi mask in
            if negb ok || negb (j =? Z.of_nat (length mask)) || (n <? 0) || (BitLen ipAddr <? n) then Err (cidrError s)
            else
              match CIDRMask n (BitLen ipAddr) with
              | None => Err (cidrError s)
              | Some m =>
                  Ok (As16 ipAddr, {| net_IP := default [] (Mask (As16 ipAddr) m); net_Mask := m |})
              end
      end
  end.

(** ** What the parsers accept *)

Lemma zeros_length n : length (zeros n) = n.
Proof. apply length_replicate. Qed.

Lemma digit_not_slash c d : digit c = Some d -> c <> "/"%char.
Proof. intros H ->. vm_compute in H. done. Qed.

Lemma hexval_not_slash c d : hexval c = Some d -> c <> "/"%char.
Proof. intros H ->. vm_compute in H. done. Qed.

Lemma parseIPv4Fields_ok input val pos digLen prev fields s f :
  parseIPv4Fields input val pos digLen prev fields s = Ok f ->
  Z.of_nat (length fields) = pos -> pos <= 3 -> length f = 4%nat /\ "/"%char ∉ s.
Proof.
  revert val pos digLen prev fields. induction s as [|c s IH]; intros val pos digLen prev fields H Hf Hp; simpl in H.
  { case_match; simplify_eq. to_prop. rewrite length_app. simpl. split; [lia|set_solver]. }
  rewrite not_elem_of_cons. destruct (digit c) as [d|] eqn:Hd.
  - repeat (case_match; simplify_eq). apply IH in H as [Hlen Hs]; [|lia..].
    apply digit_not_slash in Hd. done.
  - case_decide as Hc; [|done]. repeat (case_match; simplify_eq). to_prop.
    apply IH in H as [Hlen Hs]; [|rewrite length_app; simpl; lia|lia]. done.
Qed.

Lemma hexGroup_split input whole off acc s off' acc' rest :
  hexGroup input whole off acc s = Ok (off', acc', rest) ->
  exists pre, s = pre ++ rest /\ "/"%char ∉ pre.
Proof.
  revert off acc. induction s as [|c s IH]; intros off acc H; simpl in H.
  { simplify_eq. exists []. set_solver. }
  destruct (hexval c) as [d|] eqn:Hd.
  - repeat (case_match; simplify_eq). apply IH in H as (pre & -> & Hp). exists (c :: pre).
    rewrite not_elem_of_cons. apply hexval_not_slash in Hd. done.
  - simplify_eq. exists []. set_solver.
Qed.

Lemma groups_ok input g ip ellipsis s ip' ellipsis' s' :
  groups input g ip ellipsis s = Ok (ip', ellipsis', s') ->
  (length ip + 2 * g = 16)%nat -> (forall e, ellipsis = Some e -> (e <= length ip)%nat) ->
  (length ip' <= 16)%nat /\ (forall e, ellipsis' = Some e -> (e <= length ip')%nat) /\
  (s' = [] -> "/"%char ∉ s).
Proof.
  revert ip ellipsis s. induction g as [|g IH]; intros ip ellipsis s H Hl He; simpl in H.
  { simplify_eq. split_and!; [lia|done|]. intros ->. set_solver. }
  destruct (hexGroup input s 0 0 s) as [[[off acc] rest]|] eqn:Hx; [|done]. case_match; [done|].
  apply hexGroup_split in Hx as (pre & Es & Hpre). destruct rest as [|c rest].
  { simplify_eq. split_and!; [rewrite length_app; simpl; lia| |set_solver].
    intros e ->. specialize (He e eq_refl). rewrite length_app. lia. }
  case_decide as Hc.
  { repeat (case_match; simplify_eq). to_prop.
    destruct (parseIPv4Fields_ok _ _ _ _ _ _ _ _ ltac:(eassumption) eq_refl ltac:(lia)) as [Hf Hs].
    rewrite length_app, Hf. match goal with H : (_ <? _)%nat = false |- _ => apply Nat.ltb_ge in H end. split_and!; [lia| |done].
    intros e ->. specialize (He e eq_refl). lia. }
  case_match eqn:Hcol; [done|]. to_prop. subst c.
  set (ip2 := ip ++ [byte_of (acc ≫ 8); byte_of acc]) in H.
  assert (length ip2 = length ip + 2)%nat as Hl2 by (unfold ip2; rewrite length_app; done).
  destruct rest as [|c' rest]; [done|]. case_decide as Hc'.
  - destruct ellipsis; [done|]. destruct rest as [|c2 rest].
    + simplify_eq. split_and!; [lia|intros e [= <-]; lia|]. intros _. set_solver.
    + apply IH in H as (H1 & H2 & H3); [|lia|intros e [= <-]; lia]. split_and!; [done..|].
      intros Hs. specialize (H3 Hs). subst. set_solver.
  - apply IH in H as (H1 & H2 & H3); [|lia|intros e ->; specialize (He e eq_refl); lia].
    split_and!; [done..|]. intros Hs. specialize (H3 Hs). subst. set_solver.
Qed.

(** Every accepted address has the length of its family, and a text with a
    slash is accepted only inside a zone. *)
Definition well_sized (a : Addr) : Prop :=
  match a with Addr4 b => length b = 4%nat | Addr6 b _ => length b = 16%nat end.

Lemma finish6_ok input zone st a : finish6 input zone st = Ok a ->
  (length st.1.1 <= 16)%nat -> (forall e, st.1.2 = Some e -> (e <= length st.1.1)%nat) ->
  well_sized a /\ st.2 = [] /\ Zone a = zone.
Proof.
  destruct st as [[ip e] s]. simpl. intros H Hl He. repeat (case_match; simplify_eq); simpl; to_prop; subst.
  - match goal with H : (_ <? _)%nat = true |- _ => apply Nat.ltb_lt in H end. specialize (He _ eq_refl). unfold zeros.
    rewrite !length_app, length_take, length_drop, length_replicate. split_and!; [lia|done..].
  - match goal with H : (_ <? _)%nat = false |- _ => apply Nat.ltb_ge in H end. split_and!; [lia|done..].
Qed.

Lemma parseIPv6_ok input a : parseIPv6 input = Ok a ->
  well_sized a /\ (Zone a = "" -> "/"%char ∉ chars input).
Proof.
  unfold parseIPv6. intros H.
  set (z := match index_byte percent (chars input) with
            | None => (chars input, [], false)
            | Some i => (take i (chars input), drop (S i) (chars input), bool_decide (drop (S i) (chars input) = []))
            end) in H.
  destruct z as [[s zone] bad] eqn:Ez. destruct bad; [done|].
  assert (str zone = "" -> s = chars input) as Hz.
  { intros Hz. unfold z in Ez. destruct (index_byte percent (chars input)); simplify_eq; [|done].
    to_prop. exfalso. match goal with H : _ <> [] |- _ => apply H end. apply (inj str). exact Hz. }
  clearbody z. clear Ez.
  assert (forall e s0, (forall k, e = Some k -> (k <= 0)%nat) ->
    match groups input 8 [] e s0 with Err e => Err e | Ok st => finish6 input (str zone) st end = Ok a ->
    well_sized a /\ Zone a = str zone /\ "/"%char ∉ s0) as Hg.
  { intros e s0 He Hok. destruct (groups input 8 [] e s0) as [[[ip' e'] s']|] eqn:Hgr; [|done].
    apply groups_ok in Hgr as (Hl & Hell & Hs); [|done|done].
    apply finish6_ok in Hok as (Hw & Hnil & Hzone); [|done..]. simpl in Hnil. auto. }
  destruct s as [|c1 [|c2 s']].
  - apply Hg in H as (Hw & HZ & Hs); [|done]. rewrite HZ. split; [done|]. intros E. by rewrite <- (Hz E).
  - apply Hg in H as (Hw & HZ & Hs); [|done]. rewrite HZ. split; [done|]. intros E. by rewrite <- (Hz E).
  - destruct (bool_decide (c1 = colon) && bool_decide (c2 = colon)) eqn:Hc.
    + to_prop. subst c1 c2. destruct s' as [|c s'].
      * simplify_eq. split; [done|]. simpl. intros E. rewrite <- (Hz E), !not_elem_of_cons. by repeat split; try apply not_elem_of_nil.
      * apply Hg in H as (Hw & HZ & Hs); [|intros k [= <-]; done]. rewrite HZ. split; [done|].
        intros E. rewrite <- (Hz E), !(not_elem_of_cons _ _ colon). done.
    + apply Hg in H as (Hw & HZ & Hs); [|done]. rewrite HZ. split; [done|]. intros E. by rewrite <- (Hz E).
Qed.

Lemma ParseAddr_ok s a : ParseAddr s = Ok a ->
  well_sized a /\ (Zone a = "" -> "/"%char ∉ chars s).
Proof.
  unfold ParseAddr. generalize (chars s) at 1. intros b. induction b as [|c b IH]; simpl; [done|].
  case_decide.
  { unfold parseIPv4. destruct (parseIPv4Fields s 0 0 0 None [] (chars s)) as [f|] eqn:Hf; [|done].
    intros [= <-]. apply parseIPv4Fields_ok in Hf as [Hl Hs]; [|done|lia]. done. }
  case_decide; [apply parseIPv6_ok|]. case_decide; [done|]. exact IH.
Qed.

(** ** The two prefix parsers agree *)

Lemma digit_range c d : digit c = Some d -> 0 <= d <= 9.
Proof. unfold digit. case_match; [|done]. intros [= <-]. to_prop. lia. Qed.

(** Where strconv accepts a small number, dtoi reads the same one. *)
Lemma parse_uint_dtoi maxVal n i b v : parse_uint_go maxVal n b = (v, None) -> 0 <= n -> 0 <= i ->
  n <= v /\ (v < big -> dtoi_go n i b = (v, i + Z.of_nat (length b), negb (i + Z.of_nat (length b) =? 0))).
Proof.
  revert n i. induction b as [|c b IH]; intros n i H Hn Hi; simpl in H.
  { simplify_eq. split; [lia|]. intros _. cbn [dtoi_go length]. by rewrite Z.add_0_r. }
  destruct (digit c) as [d|] eqn:Hd; [|done]. pose proof (digit_range c d Hd).
  case_match; [done|]. case_match; [done|]. to_prop.
  change (maxUint64 / 10) with 1844674407370955161 in *.
  assert (u64 (n * 10 + d) = n * 10 + d) as E.
  { apply u64_small. split; [lia|]. destruct (decide (n * 10 + d < 2 ^ 64)); [done|exfalso].
    assert (u64 (n * 10 + d) = n * 10 + d - 2 ^ 64) as Em by (symmetry; apply Z.mod_unique with 1; lia). lia. }
  rewrite E in *. destruct (IH _ (i + 1) H) as [Hle Hdt]; [lia..|]. split; [lia|].
  intros Hb. cbn [dtoi_go]. rewrite Hd. cbv zeta.
  assert ((big <=? n * 10 + d) = false) as -> by (apply Z.leb_gt; lia).
  rewrite (Hdt Hb). cbn [length]. by replace (i + Z.of_nat (S (length b))) with (i + 1 + Z.of_nat (length b)) by lia.
Qed.

Lemma Atoi_dtoi b bits : (match b with c :: _ :: _ => negb (isDigit19 c) | _ => false end) = false ->
  Atoi (str b) = Ok bits -> 0 <= bits < big -> dtoi b = (bits, Z.of_nat (length b), true).
Proof.
  unfold Atoi, ParseInt. rewrite chars_str. intros Hlead H Hb. destruct b as [|c t]; [done|].
  case_decide; [exfalso; subst c; destruct t; [by vm_compute in H|by vm_compute in Hlead]|].
  case_decide; [exfalso; subst c; destruct t; [by vm_compute in H|by vm_compute in Hlead]|].
  unfold ParseUint in H. rewrite chars_str in H.
  destruct (parse_uint_go (2 ^ 64 - 1) 0 (c :: t)) as [un [[]|]] eqn:Hp; [done| |].
  { apply parse_uint_saturates in Hp as ->. by vm_compute in H. }
  cbn [negb andb] in H. destruct (2 ^ (64 - 1) <=? un); [done|]. simplify_eq.
  destruct (parse_uint_dtoi _ 0 0 _ _ Hp) as [_ Hd]; [lia..|]. unfold dtoi. rewrite Hd by lia. rewrite Z.add_0_l.
  by destruct t.
Qed.

Lemma mask_go_length l n : length (mask_go l n) = l.
Proof. revert n. induction l as [|l IH]; intros n; simpl; [done|]. case_match; simpl; by rewrite IH. Qed.

Definition addr_len (a : Addr) : nat := if Is6 a then 16 else 4.

Lemma well_sized_length a : well_sized a -> length (addr_bytes a) = addr_len a.
Proof. by destruct a. Qed.

Lemma Mask_As16 a m : well_sized a -> length m = addr_len a ->
  Mask (As16 a) m = Some (land_bytes (addr_bytes a) m).
Proof.
  unfold Mask, addr_len. destruct a as [b|b z]; intros Hw Hm; simpl in *.
  - rewrite (bool_decide_eq_false_2 (length m = 16%nat)) by lia. simpl.
    rewrite !bool_decide_eq_true_2 by (rewrite ?length_app; simpl; first [lia|by rewrite take_app_length]).
    cbn [andb]. rewrite drop_0. by rewrite decide_True by lia.
  - rewrite (bool_decide_eq_false_2 (length b = 4%nat)) by lia. rewrite andb_false_r. simpl.
    rewrite (bool_decide_eq_false_2 (length m = 4%nat)) by lia. simpl. by rewrite decide_True by lia.
Qed.

(** Whatever [FirewallRule.Validate] accepts as a prefix, [net.ParseCIDR]
    accepts too, and denotes the same network: the address masked to the same
    number of bits, in the address's own length. *)
Lemma ParseCIDR_of_ParsePrefix s a bits : ParsePrefix s = Ok (a, bits) ->
  well_sized a /\ 0 <= bits <= BitLen a /\
  let m := mask_go (addr_len a) bits in
  ParseCIDR s = Ok (As16 a, {| net_IP := land_bytes (addr_bytes a) m; net_Mask := m |}).
Proof.
  unfold ParsePrefix. destruct (last_index_byte "/"%char (chars s)) as [i|] eqn:Hi; [|done].
  destruct (ParseAddr (str (take i (chars s)))) as [ip|] eqn:Ha; [|done]. case_match eqn:Hz; [done|].
  case_match eqn:Hlead; [done|]. destruct (Atoi (str (drop (S i) (chars s)))) as [n|] eqn:Hn; [|done].
  destruct ((n <? 0) || _) eqn:Hb; [done|]. intros [= -> ->]. to_prop.
  assert (Zone a = "") as Hzone.
  { destruct a; [done|]. simpl in Hz. by to_prop. }
  destruct (ParseAddr_ok _ _ Ha) as [Hw Hs]. specialize (Hs Hzone). rewrite chars_str in Hs.
  assert (0 <= bits <= BitLen a) as Hbits by (destruct a; simpl in *; lia).
  split; [done|]. split; [done|]. apply last_index_byte_Some in Hi as Hi'.
  apply take_drop_middle in Hi' as Es. unfold ParseCIDR. apply lookup_lt_Some in Hi'.
  assert (index_byte "/"%char (chars s) = Some i) as ->.
  { rewrite <- Es. rewrite index_byte_app by done. f_equal. rewrite length_take. lia. }
  rewrite Ha, (bool_decide_eq_true_2 _ Hzone). simpl negb. cbv iota.
  rewrite (Atoi_dtoi _ _ Hlead Hn) by (unfold big; destruct a; simpl in *; lia).
  rewrite Z.eqb_refl, !(proj2 (Z.ltb_ge _ _)) by lia. simpl negb. simpl orb.
  assert (CIDRMask bits (BitLen a) = Some (mask_go (addr_len a) bits)) as ->.
  { unfold CIDRMask. rewrite !(proj2 (Z.ltb_ge _ _)) by lia. by destruct a. }
  simpl. rewrite Mask_As16; [done..|]. by rewrite mask_go_length.
Qed.

Lemma ParseCIDR_ok s ip n : ParseCIDR s = Ok (ip, n) -> exists a, well_sized a /\ ip = As16 a.
Proof.
  unfold ParseCIDR. destruct (index_byte _ _) as [i|]; [|done].
  destruct (ParseAddr (str (take i (chars s)))) as [a|] eqn:Ha; [|done]. case_match; [done|].
  destruct (dtoi _) as [[m j] ok]. case_match; [done|]. destruct (CIDRMask _ _); [|done]. intros [= <- <-].
  exists a. by apply ParseAddr_ok in Ha as [Hw _].
Qed.

Lemma As16_length a : well_sized a -> length (As16 a) = 16%nat.
Proof. destruct a as [b|b z]; cbn [As16 well_sized]; [|done]. intros Hw. by rewrite length_app, Hw. Qed.

(** ** Masking compares leading bits *)

Lemma land_byte_idem x m : land_byte (land_byte x m) m = land_byte x m.
Proof.
  unfold land_byte. f_equal. rewrite byte_val_of. pose proof (byte_val_range x). pose proof (byte_val_range m).
  unfold u8. rewrite <- Z.land_ones by lia. rewrite <- !Z.land_assoc, (Z.land_comm (Z.ones 8)), Z.land_assoc.
  rewrite !Z.land_assoc, <- (Z.land_assoc (byte_val x)), Z.land_diag.
  rewrite <- Z.land_assoc, Z.land_ones by lia. by rewrite Z.mod_small by lia.
Qed.

Lemma land_bytes_idem a m : land_bytes (land_bytes a m) m = land_bytes a m.
Proof.
  unfold land_bytes. revert m. induction a as [|x a IH]; intros [|y m]; simpl; [done..|]. by rewrite land_byte_idem, IH.
Qed.

Lemma land_bytes_length a m : length a = length m -> length (land_bytes a m) = length a.
Proof. intros E. unfold land_bytes. rewrite length_zip_with. lia. Qed.

(** The number a byte string denotes in network order. *)
Definition be (b : bytes) : Z := foldl (fun acc c => acc * 256 + byte_val c) 0 b.

Lemma be_go acc b : foldl (fun acc c => acc * 256 + byte_val c) acc b = acc * 256 ^ Z.of_nat (length b) + be b.
Proof.
  unfold be. revert acc. induction b as [|c b IH]; intros acc; simpl foldl; [simpl; lia|].
  rewrite IH, (IH (0 * 256 + byte_val c)). cbn [length]. rewrite Nat2Z.inj_succ, Z.pow_succ_r by lia. lia.
Qed.

Lemma be_cons c b : be (c :: b) = byte_val c * 256 ^ Z.of_nat (length b) + be b.
Proof. unfold be. simpl foldl. rewrite be_go. unfold be. lia. Qed.

Lemma be_range b : 0 <= be b < 256 ^ Z.of_nat (length b).
Proof.
  induction b as [|c b IH]; [unfold be; simpl; lia|]. rewrite be_cons. cbn [length].
  rewrite Nat2Z.inj_succ, Z.pow_succ_r by lia. pose proof (byte_val_range c). nia.
Qed.

Lemma be_inj a b : length a = length b -> be a = be b -> a = b.
Proof.
  revert b. induction a as [|x a IH]; intros [|y b] Hl; try done. rewrite !be_cons.
  injection Hl as Hl. rewrite Hl. pose proof (be_range a). pose proof (be_range b). rewrite Hl in *. intros E.
  assert (byte_val x = byte_val y) as Ex by nia. f_equal; [by apply (inj byte_val)|]. apply IH; [done|nia].
Qed.

(** One byte of a mask keeps the quotient by a power of two. *)
Lemma mask_byte n x : 0 <= n < 8 ->
  Z.land (byte_val x) (u8 (Z.lnot (Z.shiftr 255 n))) = byte_val x / 2 ^ (8 - n) * 2 ^ (8 - n).
Proof.
  intros Hn. pose proof (byte_val_range x) as Hx. revert Hx. generalize (byte_val x). clear x. intros x Hx.
  rewrite <- Z.shiftr_div_pow2, <- Z.shiftl_mul_pow2 by lia. apply Z.bits_inj'. intros k Hk. unfold u8.
  rewrite Z.land_spec, Z.shiftl_spec by lia. destruct (decide (k < 8)).
  - rewrite Z.mod_pow2_bits_low, Z.lnot_spec, Z.shiftr_spec by lia. change 255 with (Z.ones 8).
    rewrite Z.testbit_ones by lia. destruct (decide (k + n < 8)).
    + rewrite (proj2 (Z.leb_le 0 _)), (proj2 (Z.ltb_lt _ _)) by lia. rewrite andb_false_r.
      by rewrite Z.testbit_neg_r by lia.
    + rewrite (proj2 (Z.ltb_ge (k + n) _)) by lia. rewrite andb_false_r, andb_true_r.
      rewrite Z.shiftr_spec by lia. f_equal. lia.
  - rewrite Z.mod_pow2_bits_high by lia. rewrite andb_false_r, Z.shiftr_spec by lia.
    symmetry. replace (k - (8 - n) + (8 - n)) with k by lia. apply Z.bits_above_log2; [lia|].
    destruct (decide (x = 0)) as [->|]; [simpl; lia|]. apply Z.log2_lt_pow2; [lia|].
    apply Z.lt_le_trans with (2 ^ 8); [lia|]. apply Z.pow_le_mono_r; lia.
Qed.

Lemma pow256 l : 256 ^ Z.of_nat l = 2 ^ (8 * Z.of_nat l).
Proof. rewrite Z.pow_mul_r by lia. done. Qed.

Lemma land_mask a n : 0 <= n <= 8 * Z.of_nat (length a) ->
  let k := 8 * Z.of_nat (length a) - n in
  be (land_bytes a (mask_go (length a) n)) = be a / 2 ^ k * 2 ^ k.
Proof.
  revert n. induction a as [|x a IH]; intros n Hn k; [done|]. subst k. cbn [length mask_go] in *.
  rewrite Nat2Z.inj_succ in *. set (l := Z.of_nat (length a)) in *.
  pose proof (be_range a) as Hr. rewrite pow256 in Hr. fold l in Hr.
  assert (forall n, length (land_bytes a (mask_go (length a) n)) = length a) as Hlen.
  { intros n'. unfold land_bytes. rewrite length_zip_with, mask_go_length. lia. }
  destruct (8 <=? n) eqn:H8; to_prop; unfold land_bytes in *; cbn [zip_with];
    rewrite be_cons, (be_cons x a), Hlen, pow256; fold l; unfold land_byte at 1; rewrite !byte_val_of.
  - change (u8 255) with (Z.ones 8). rewrite Z.land_ones by lia. unfold u8. rewrite Z.mod_mod by lia.
    rewrite Z.mod_small by (pose proof (byte_val_range x); lia).
    rewrite IH by lia.
    replace (8 * Z.succ l - n) with (8 * l - (n - 8)) by lia. set (k := 8 * l - (n - 8)).
    replace (8 * l) with (n - 8 + k) by lia. rewrite Z.pow_add_r, Z.mul_assoc by lia.
    rewrite Z.div_add_l by (apply Z.pow_nonzero; lia). lia.
  - rewrite mask_byte by lia. unfold u8. rewrite Z.mod_small.
    2: { pose proof (byte_val_range x). pose proof (Z.mul_div_le (byte_val x) (2 ^ (8 - n)) ltac:(apply Z.pow_pos_nonneg; lia)).
         pose proof (Z.div_pos (byte_val x) (2 ^ (8 - n)) ltac:(lia) ltac:(apply Z.pow_pos_nonneg; lia)).
         pose proof (Z.pow_pos_nonneg 2 (8 - n)). nia. }
    rewrite IH by lia. replace (8 * l - 0) with (8 * l) by lia. rewrite (Z.div_small (be a)) by lia.
    replace (8 * Z.succ l - n) with (8 * l + (8 - n)) by lia. rewrite !Z.pow_add_r by lia.
    rewrite <- Z.div_div by (try apply Z.pow_nonzero; try apply Z.pow_pos_nonneg; lia).
    rewrite Z.div_add_l by (apply Z.pow_nonzero; lia). rewrite (Z.div_small (be a)) by lia.
    rewrite (Z.add_0_r (byte_val x)). ring.
Qed.

(** Two addresses agree under a mask exactly when they agree on the masked
    leading bits. *)
Lemma land_mask_eq a b n : length a = length b -> 0 <= n <= 8 * Z.of_nat (length a) ->
  land_bytes a (mask_go (length a) n) = land_bytes b (mask_go (length a) n) <->
  be a / 2 ^ (8 * Z.of_nat (length a) - n) = be b / 2 ^ (8 * Z.of_nat (length a) - n).
Proof.
  intros Hl Hn. pose proof (land_mask a n Hn) as Ha. rewrite Hl in Hn. pose proof (land_mask b n Hn) as Hb.
  rewrite <- Hl in Hb. cbv zeta in Ha, Hb. assert (0 < 2 ^ (8 * Z.of_nat (length a) - n)) by (apply Z.pow_pos_nonneg; lia).
  split; intros E.
  - rewrite E, Hb in Ha. symmetry. eapply Z.mul_reg_r; [|exact Ha]. lia.
  - apply be_inj; [unfold land_bytes; rewrite !length_zip_with; lia|]. by rewrite Ha, Hb, E.
Qed.
End NetIP.
