(* ===== verification/Nft.v ===== *)
(** * The nftables interface of the kernel
      (expression types of src/vendor/github.com/google/nftables/expr)

    The firewall reconciler talks to the kernel in nftables expressions and
    batches.  [Any] has the expressions it emits.  Packets are given by the
    fields of their headers and laid out as the RFCs lay them out, so that the
    byte offsets in expressions mean something.  The kernel itself is a
    parameter: [NftVM] evaluates rules, [Nftables] keeps the tables and commits
    batches; their laws are the documented behaviour of each expression and of
    the netlink transaction.  Where an expression reads bytes a register does
    not hold, nothing is assumed ([documented] is [None]). *)

From S2P Require Import Prelude GoLib NetIP.
Local Open Scope Z_scope.

Module Nft.

(** ** Expressions *)

Inductive CmpOp := CmpOpEq | CmpOpNeq | CmpOpLt | CmpOpLte | CmpOpGt | CmpOpGte.
Inductive MetaKey := MetaKeyNFPROTO | MetaKeyL4PROTO | MetaKeyIIFNAME.
Inductive CtKey := CtKeySTATE.
Inductive PayloadBase := PayloadBaseNetworkHeader | PayloadBaseTransportHeader.
Inductive VerdictKind := VerdictDrop | VerdictAccept.

#[export] Instance VerdictKind_eq_dec : EqDecision VerdictKind.
Proof. solve_decision. Defined.

Inductive Any :=
| Meta (Key : MetaKey) (Register : Z)
| Cmp (Op : CmpOp) (Register : Z) (Data : bytes)
| Payload (DestRegister : Z) (Base : PayloadBase) (Offset Len : Z)
| Bitwise (SourceRegister DestRegister Len : Z) (Mask Xor : bytes)
| Range (Op : CmpOp) (Register : Z) (FromData ToData : bytes)
| Ct (Register : Z) (Key : CtKey)
| Counter (Packets Bytes : Z)
| Verdict (Kind : VerdictKind).

#[export] Instance Any_eq_dec : EqDecision Any.
Proof.
  assert (EqDecision CmpOp) by solve_decision. assert (EqDecision MetaKey) by solve_decision.
  assert (EqDecision CtKey) by solve_decision. assert (EqDecision PayloadBase) by solve_decision. solve_decision.
Defined.

Definition CtStateBitESTABLISHED : Z := 2.
Definition CtStateBitRELATED : Z := 4.

Definition NFPROTO_IPV4 : Z := 2.
Definition NFPROTO_IPV6 : Z := 10.
Definition IPPROTO_ICMP : Z := 1.
Definition IPPROTO_TCP : Z := 6.
Definition IPPROTO_UDP : Z := 17.

(** ** Packets *)

(** [n] bytes in network order. *)
Fixpoint be_bytes (n : nat) (z : Z) : bytes :=
  match n with O => [] | S n' => be_bytes n' (z / 256) ++ [byte_of z] end.

(** RFC 791: twelve bytes before the addresses, options after them.  RFC 8200:
    eight bytes before the addresses, extension headers after them. *)
Inductive net_header :=
| IPv4 (head : bytes) (saddr daddr : Z) (options : bytes)
| IPv6 (head : bytes) (saddr daddr : Z) (extensions : bytes).

(** RFC 793, RFC 768: the source port, then the destination port.  The bytes of
    a later fragment carry no transport header. *)
Inductive l4 :=
| Ports (sport dport : Z) (rest : bytes)
| Opaque (b : bytes)
| Fragment (b : bytes).

Record packet := {
  pk_iif : string;
  pk_ct : Z;
  pk_net : net_header;
  pk_proto : Z;
  pk_l4 : l4
}.

Definition net_bytes (h : net_header) : bytes :=
  match h with
  | IPv4 head s d o => head ++ be_bytes 4 s ++ be_bytes 4 d ++ o
  | IPv6 head s d x => head ++ be_bytes 16 s ++ be_bytes 16 d ++ x
  end.

Definition l4_bytes (t : l4) : bytes :=
  match t with
  | Ports s d rest => be_bytes 2 s ++ be_bytes 2 d ++ rest
  | Opaque b | Fragment b => b
  end.

Definition pk_len (p : packet) : Z := Z.of_nat (length (net_bytes (pk_net p) ++ l4_bytes (pk_l4 p))).

(** The bytes a payload expression counts its offset from. *)
Definition header (p : packet) (base : PayloadBase) : option bytes :=
  match base, pk_l4 p with
  | PayloadBaseNetworkHeader, t => Some (net_bytes (pk_net p) ++ l4_bytes t)
  | PayloadBaseTransportHeader, Fragment _ => None
  | PayloadBaseTransportHeader, t => Some (l4_bytes t)
  end.

Definition slice (b : bytes) (off len : Z) : option bytes :=
  if off + len <=? Z.of_nat (length b) then Some (take (Z.to_nat len) (drop (Z.to_nat off) b)) else None.

Definition nfproto (p : packet) : Z :=
  match pk_net p with IPv4 _ _ _ _ => NFPROTO_IPV4 | IPv6 _ _ _ _ => NFPROTO_IPV6 end.

(** Interface names fill a register of sixteen bytes. *)
Definition ifname (s : string) : bytes := take 16 (chars s ++ NetIP.zeros 16).

Definition meta (p : packet) (k : MetaKey) : bytes :=
  match k with
  | MetaKeyNFPROTO => [byte_of (nfproto p)]
  | MetaKeyL4PROTO => [byte_of (pk_proto p)]
  | MetaKeyIIFNAME => ifname (pk_iif p)
  end.

Definition wf_net (h : net_header) : Prop :=
  match h with
  | IPv4 head s d _ => length head = 12%nat /\ 0 <= s < 2 ^ 32 /\ 0 <= d < 2 ^ 32
  | IPv6 head s d _ => length head = 8%nat /\ 0 <= s < 2 ^ 128 /\ 0 <= d < 2 ^ 128
  end.

(** A packet as the IP stack hands it to the hook. *)
Record wf_packet (p : packet) : Prop := {
  wf_iif : (length (chars (pk_iif p)) < 16)%nat /\ byte_of 0 ∉ chars (pk_iif p);
  wf_ct : 0 <= pk_ct p < 2 ^ 32;
  wf_header : wf_net (pk_net p);
  wf_proto : 0 <= pk_proto p < 256;
  wf_l4 : match pk_l4 p with
          | Ports s d _ => 0 <= s < 2 ^ 16 /\ 0 <= d < 2 ^ 16
          | Opaque b => pk_proto p = IPPROTO_TCP \/ pk_proto p = IPPROTO_UDP -> (length b < 4)%nat
          | Fragment _ => True
          end
}.

(** ** Evaluation of a rule *)

Inductive endianness := LittleEndian | BigEndian.

Definition host_u32 (e : endianness) (z : Z) : bytes :=
  match e with LittleEndian => reverse (be_bytes 4 z) | BigEndian => be_bytes 4 z end.

(** memcmp, on byte strings of one length. *)
Fixpoint memcmp (a b : bytes) : comparison :=
  match a, b with
  | x :: a', y :: b' => match byte_val x ?= byte_val y with Eq => memcmp a' b' | c => c end
  | _, _ => Eq
  end.

Definition cmp_holds (op : CmpOp) (c : comparison) : bool :=
  match op, c with
  | CmpOpEq, Eq | CmpOpNeq, Lt | CmpOpNeq, Gt | CmpOpLt, Lt | CmpOpLte, Lt | CmpOpLte, Eq
  | CmpOpGt, Gt | CmpOpGte, Gt | CmpOpGte, Eq => true
  | _, _ => false
  end.

Definition in_range (v lo hi : bytes) : bool :=
  cmp_holds CmpOpGte (memcmp v lo) && cmp_holds CmpOpLte (memcmp v hi).

Definition xor_bytes (a b : bytes) : bytes := zip_with (fun x y => byte_of (Z.lxor (byte_val x) (byte_val y))) a b.

Abbreviation regs := (gmap Z bytes).

(** The first [n] bytes of a register, where it holds that many. *)
Definition reg_read (rg : regs) (r : Z) (n : nat) : option bytes :=
  v ← rg !! r; if decide (n <= length v)%nat then Some (take n v) else None.

Inductive outcome :=
| Next (rg : regs) (e : Any)   (* go on; the expression as it is afterwards *)
| Break                        (* the rule does not match *)
| Decide (v : VerdictKind).

Definition documented (en : endianness) (p : packet) (rg : regs) (e : Any) : option outcome :=
  match e with
  | Meta k r => Some (Next (<[r := meta p k]> rg) e)
  | Ct r CtKeySTATE => Some (Next (<[r := host_u32 en (pk_ct p)]> rg) e)
  | Payload r base off len =>
      Some (match header p base ≫= (fun b => slice b off len) with
            | Some v => Next (<[r := v]> rg) e
            | None => Break
            end)
  | Bitwise src dst len mask xor =>
      if decide (length mask = Z.to_nat len /\ length xor = Z.to_nat len) then
        v ← reg_read rg src (Z.to_nat len);
        Some (Next (<[dst := xor_bytes (NetIP.land_bytes v mask) xor]> rg) e)
      else None
  | Cmp op r data =>
      v ← reg_read rg r (length data);
      Some (if cmp_holds op (memcmp v data) then Next rg e else Break)
  | Range op r lo hi =>
      match op with
      | CmpOpEq =>
          if decide (length lo = length hi) then
            v ← reg_read rg r (length lo);
            Some (if in_range v lo hi then Next rg e else Break)
          else None
      | _ => None
      end
  | Counter n b => Some (Next rg (Counter (u64 (n + 1)) (u64 (b + pk_len p))))
  | Verdict k => Some (Decide k)
  end.

(** [exec p rg es]: the verdict of a rule, if it gives one, and the rule with
    its counters advanced. *)
Class NftVM := {
  endian : endianness;
  exec : packet -> regs -> list Any -> option VerdictKind * list Any
}.

Class NftVMLaws `{NftVM} : Prop := {
  exec_nil : forall p rg, exec p rg [] = (None, []);
  exec_cons : forall p rg e es o, documented endian p rg e = Some o ->
    exec p rg (e :: es) = match o with
                          | Next rg' e' => let '(v, es') := exec p rg' es in (v, e' :: es')
                          | Break => (None, e :: es)
                          | Decide v => (Some v, e :: es)
                          end
}.

(** ** Chains, tables and transactions *)

Record Chain := { ch_Name : string; ch_Policy : VerdictKind; ch_Rules : list (list Any) }.

#[export] Instance Chain_eq_dec : EqDecision Chain.
Proof. solve_decision. Defined.

Abbreviation Table := (list Chain).
Abbreviation ruleset := (gmap string Table).   (* the tables of family inet *)

Inductive Cmd :=
| DelTable (t : string)
| AddTable (t : string)
| AddChain (t name : string) (policy : VerdictKind)
| AddRule (t chain : string) (exprs : list Any).

Definition add_rule (c : string) (es : list Any) (ch : Chain) : Chain :=
  if decide (ch_Name ch = c) then
    {| ch_Name := ch_Name ch; ch_Policy := ch_Policy ch; ch_Rules := ch_Rules ch ++ [es] |}
  else ch.

Definition cmd_effect (rs : ruleset) (c : Cmd) : ruleset :=
  match c with
  | DelTable t => delete t rs
  | AddTable t => match rs !! t with Some _ => rs | None => <[t := []]> rs end
  | AddChain t n pol =>
      alter (fun cs => if decide (n ∈ ch_Name <$> cs) then cs
                       else cs ++ [{| ch_Name := n; ch_Policy := pol; ch_Rules := [] |}]) t rs
  | AddRule t n es => alter (fmap (add_rule n es)) t rs
  end.

Section traversal.
Context `{NftVM}.

(** The rules of a chain in order, up to the first verdict. *)
Fixpoint run_rules (p : packet) (rules : list (list Any)) : option VerdictKind * list (list Any) :=
  match rules with
  | [] => (None, [])
  | r :: rs =>
      match exec p ∅ r with
      | (Some v, r') => (Some v, r' :: rs)
      | (None, r') => let '(v, rs') := run_rules p rs in (v, r' :: rs')
      end
  end.

Definition run_chain (p : packet) (c : Chain) : VerdictKind * Chain :=
  let '(v, rules) := run_rules p (ch_Rules c) in
  (default (ch_Policy c) v, {| ch_Name := ch_Name c; ch_Policy := ch_Policy c; ch_Rules := rules |}).

Definition run_named (n : string) (p : packet) (t : Table) : Table :=
  (fun c => if decide (ch_Name c = n) then (run_chain p c).2 else c) <$> t.
End traversal.

(** The netlink socket: what a connection can do.  [receive] is the kernel
    handing an arriving packet to the input hook. *)
Class Nftables (K : Type) := {
  nft_New : K -> gerr * K;
  ListTables : K -> result (list string) * K;
  ListChains : K -> result (list (string * string)) * K;
  GetRules : string -> string -> K -> result (list (list Any)) * K;
  Flush : list Cmd -> K -> gerr * K;
  receive : packet -> K -> K
}.

Class NftablesLaws (K : Type) `{NftVM, Nftables K} := {
  tables : K -> ruleset;
  New_keeps : forall k, tables (nft_New k).2 = tables k;
  ListTables_keeps : forall k, tables (ListTables k).2 = tables k;
  ListTables_ok : forall k ts, (ListTables k).1 = Ok ts -> forall t, t ∈ ts <-> is_Some (tables k !! t);
  ListChains_keeps : forall k, tables (ListChains k).2 = tables k;
  ListChains_ok : forall k cs, (ListChains k).1 = Ok cs ->
    forall t, (filter (fun c => c.1 = t) cs).*2 = (match tables k !! t with Some ch => ch_Name <$> ch | None => [] end);
  GetRules_keeps : forall t n k, tables (GetRules t n k).2 = tables k;
  GetRules_ok : forall t n k rs, (GetRules t n k).1 = Ok rs ->
    forall cs c, tables k !! t = Some cs -> NoDup (ch_Name <$> cs) -> c ∈ cs -> ch_Name c = n -> rs = ch_Rules c;
  Flush_commits : forall cmds k, (Flush cmds k).1 = None ->
    tables (Flush cmds k).2 = foldl cmd_effect (tables k) cmds;
  (* an error does not say whether the batch was committed: the acknowledgement may be what was lost *)
  Flush_atomic : forall cmds k, tables (Flush cmds k).2 = tables k \/
    tables (Flush cmds k).2 = foldl cmd_effect (tables k) cmds;
  receive_runs : forall p k t cs, tables k = {[t := cs]} -> NoDup (ch_Name <$> cs) ->
    tables (receive p k) = {[t := run_named "input" p cs]}
}.

(** ** Bytes and numbers *)

Lemma be_bytes_length n z : length (be_bytes n z) = n.
Proof. revert z. induction n as [|n IH]; intros z; simpl; [done|]. rewrite length_app, IH. simpl. lia. Qed.

Lemma be_snoc b c : NetIP.be (b ++ [c]) = NetIP.be b * 256 + byte_val c.
Proof. unfold NetIP.be. by rewrite foldl_app. Qed.

Lemma be_be_bytes n z : 0 <= z < 256 ^ Z.of_nat n -> NetIP.be (be_bytes n z) = z.
Proof.
  revert z. induction n as [|n IH]; intros z Hz; simpl be_bytes; [simpl in Hz; unfold NetIP.be; simpl; lia|].
  rewrite Nat2Z.inj_succ, Z.pow_succ_r in Hz by lia. rewrite be_snoc, IH, byte_val_of.
  - unfold u8. change (2 ^ 8) with 256. pose proof (Z.div_mod z 256 ltac:(done)). lia.
  - split; [apply Z.div_pos; lia|]. apply Z.div_lt_upper_bound; lia.
Qed.

Lemma be_one c : NetIP.be [c] = byte_val c.
Proof. unfold NetIP.be. simpl. lia. Qed.

Lemma memcmp_be a b : length a = length b -> memcmp a b = (NetIP.be a ?= NetIP.be b).
Proof.
  revert b. induction a as [|x a IH]; intros [|y b] Hl; try done. injection Hl as Hl.
  cbn [memcmp]. rewrite !NetIP.be_cons, Hl, (IH _ Hl).
  pose proof (NetIP.be_range a). pose proof (NetIP.be_range b). rewrite Hl in *.
  destruct (Z.compare_spec (byte_val x) (byte_val y)) as [E|E|E].
  - rewrite E. symmetry. apply Z.add_compare_mono_l.
  - symmetry. apply Z.compare_lt_iff. nia.
  - symmetry. apply Z.compare_gt_iff. nia.
Qed.

Lemma memcmp_eq a b : length a = length b -> cmp_holds CmpOpEq (memcmp a b) = bool_decide (a = b).
Proof.
  intros Hl. rewrite memcmp_be by done. destruct (Z.compare_spec (NetIP.be a) (NetIP.be b)) as [E|E|E]; simpl.
  - by rewrite bool_decide_eq_true_2 by by apply NetIP.be_inj.
  - rewrite bool_decide_eq_false_2; [done|]. intros ->. lia.
  - rewrite bool_decide_eq_false_2; [done|]. intros ->. lia.
Qed.

Lemma memcmp_neq a b : length a = length b -> cmp_holds CmpOpNeq (memcmp a b) = bool_decide (a <> b).
Proof.
  intros Hl. rewrite bool_decide_not, <- memcmp_eq by done. by destruct (memcmp a b).
Qed.

Lemma in_range_be v lo hi : length v = length lo -> length v = length hi ->
  in_range v lo hi = bool_decide (NetIP.be lo <= NetIP.be v <= NetIP.be hi).
Proof.
  intros H1 H2. unfold in_range. rewrite !memcmp_be by done.
  destruct (Z.compare_spec (NetIP.be v) (NetIP.be lo)), (Z.compare_spec (NetIP.be v) (NetIP.be hi)); simpl;
    symmetry; first [apply bool_decide_eq_true_2; lia|apply bool_decide_eq_false_2; lia].
Qed.

Lemma slice_app a b c off len : Z.of_nat (length a) = off -> Z.of_nat (length b) = len ->
  slice (a ++ b ++ c) off len = Some b.
Proof.
  intros <- <-. unfold slice. rewrite (proj2 (Z.leb_le _ _)) by (rewrite !length_app; lia).
  rewrite !Nat2Z.id, drop_app_length, take_app_length. done.
Qed.

Lemma xor_zeros a : xor_bytes a (NetIP.zeros (length a)) = a.
Proof.
  unfold xor_bytes, NetIP.zeros. induction a as [|x a IH]; simpl; [done|]. f_equal; [|done].
  change (byte_val (byte_of 0)) with 0. rewrite Z.lxor_0_r. apply byte_of_val.
Qed.

Lemma reg_read_insert rg r v n : (n <= length v)%nat -> reg_read (<[r := v]> rg) r n = Some (take n v).
Proof. intros Hn. unfold reg_read. rewrite lookup_insert_eq. simpl. by rewrite decide_True. Qed.

Lemma ifname_inj s t : (length (chars s) < 16)%nat -> (length (chars t) < 16)%nat ->
  byte_of 0 ∉ chars s -> byte_of 0 ∉ chars t -> ifname s = ifname t -> s = t.
Proof.
  unfold ifname, NetIP.zeros. intros Hs Ht Zs Zt E. apply (inj chars).
  assert (forall a b n m, byte_of 0 ∉ a -> byte_of 0 ∉ b -> (length a < n)%nat -> (length b < n)%nat -> (n <= m)%nat ->
    take n (a ++ replicate m (byte_of 0)) = take n (b ++ replicate m (byte_of 0)) -> a = b) as Hgen.
  { induction a as [|x a IH]; intros [|y b] n m Ha Hb Hla Hlb Hm; destruct n as [|n], m as [|m];
      simpl in *; try done; try lia; intros [= E1 E2].
    - set_solver.
    - set_solver.
    - subst y. f_equal. rewrite not_elem_of_cons in Ha, Hb. destruct Ha as [_ Ha], Hb as [_ Hb].
      apply (IH b n (S m)); try done; lia. }
  by apply (Hgen _ _ 16%nat 16%nat).
Qed.

(** ** Register typing

    A rule is well typed if every register it reads was written before, with at
    least as many bytes as are read.  Well-typed rules stay within the
    documented behaviour on every packet. *)

Definition meta_width (k : MetaKey) : nat := match k with MetaKeyIIFNAME => 16 | _ => 1 end.

Definition reads (w : gmap Z nat) (r : Z) (n : nat) : bool :=
  match w !! r with Some k => bool_decide (n <= k)%nat | None => false end.

Definition type_step (w : gmap Z nat) (e : Any) : option (gmap Z nat) :=
  match e with
  | Meta k r => Some (<[r := meta_width k]> w)
  | Ct r _ => Some (<[r := 4%nat]> w)
  | Payload r _ off len => if (0 <=? off) && (0 <=? len) then Some (<[r := Z.to_nat len]> w) else None
  | Bitwise src dst len mask xor =>
      if bool_decide (length mask = Z.to_nat len /\ length xor = Z.to_nat len) && reads w src (Z.to_nat len)
      then Some (<[dst := Z.to_nat len]> w) else None
  | Cmp _ r data => if reads w r (length data) then Some w else None
  | Range op r lo hi =>
      match op with
      | CmpOpEq => if bool_decide (length lo = length hi) && reads w r (length lo)
                   then Some w else None
      | _ => None
      end
  | Counter _ _ | Verdict _ => Some w
  end.

Fixpoint typed (w : gmap Z nat) (es : list Any) : bool :=
  match es with
  | [] => true
  | e :: es' => match type_step w e with Some w' => typed w' es' | None => false end
  end.

Fixpoint fully_documented (en : endianness) (p : packet) (rg : regs) (es : list Any) : Prop :=
  match es with
  | [] => True
  | e :: es' =>
      match documented en p rg e with
      | Some (Next rg' _) => fully_documented en p rg' es'
      | Some _ => True
      | None => False
      end
  end.

Definition holds_widths (w : gmap Z nat) (rg : regs) : Prop :=
  forall r n, w !! r = Some n -> exists v, rg !! r = Some v /\ (n <= length v)%nat.

Lemma holds_insert w rg r n v : holds_widths w rg -> (n <= length v)%nat -> holds_widths (<[r := n]> w) (<[r := v]> rg).
Proof.
  intros Hw Hn r' n'. rewrite !lookup_insert. case_decide; [|apply Hw]. intros [= <-]. by exists v.
Qed.

Lemma reads_insert w r k n : (n <= k)%nat -> reads (<[r := k]> w) r n = true.
Proof. intros Hn. unfold reads. rewrite lookup_insert_eq. by apply bool_decide_eq_true_2. Qed.

Lemma reads_reg w rg r n : holds_widths w rg -> reads w r n = true ->
  exists v, reg_read rg r n = Some v /\ length v = n.
Proof.
  intros Hw Hr. unfold reads in Hr. destruct (w !! r) as [k|] eqn:Hk; [|done]. to_prop.
  destruct (Hw _ _ Hk) as (v & Hv & Hle). exists (take n v). unfold reg_read. rewrite Hv. simpl.
  rewrite decide_True by lia. split; [done|]. rewrite length_take. lia.
Qed.

Lemma slice_length b off len v : 0 <= off -> 0 <= len -> slice b off len = Some v -> length v = Z.to_nat len.
Proof.
  intros Ho Hl. unfold slice. case_match; [|done]. intros [= <-]. to_prop. rewrite length_take, length_drop. lia.
Qed.

Lemma meta_length p k : length (meta p k) = meta_width k.
Proof. destruct k; simpl; [done..|]. unfold ifname. rewrite length_take, length_app, NetIP.zeros_length. lia. Qed.

Lemma type_step_sound en p rg w e w' : holds_widths w rg -> type_step w e = Some w' ->
  match documented en p rg e with Some (Next rg' _) => holds_widths w' rg' | Some _ => True | None => False end.
Proof.
  intros Hw. destruct e as [k r|op r d|r base off len|s d len m x|op r lo hi|r []|n b|v]; simpl.
  - intros [= <-]. apply holds_insert; [done|]. by rewrite meta_length.
  - case_match eqn:E; [|done]. intros [= <-]. to_prop. destruct (reads_reg w rg r (length d)) as (v & -> & _); [done..|].
    simpl. by destruct (cmp_holds op (memcmp v d)).
  - case_match eqn:E; [|done]. intros [= <-]. to_prop.
    destruct (header p base) as [b|]; simpl; [|done]. destruct (slice b off len) as [v|] eqn:Es; [|done].
    apply holds_insert; [done|]. apply slice_length in Es; [lia|done..].
  - case_match eqn:E; [|done]. intros [= <-]. to_prop. destruct_and!. rewrite decide_True by done.
    destruct (reads_reg w rg s (Z.to_nat len)) as (v & -> & Hv); [done..|]. simpl. apply holds_insert; [done|].
    unfold xor_bytes, NetIP.land_bytes. rewrite !length_zip_with. lia.
  - destruct op; try done. case_match eqn:E; [|done]. intros [= <-]. to_prop. rewrite decide_True by done.
    destruct (reads_reg w rg r (length lo)) as (v & -> & _); [done..|]. simpl. by destruct (in_range v lo hi).
  - intros [= <-]. apply holds_insert; [done|]. destruct en; simpl; lia.
  - by intros [= <-].
  - done.
Qed.

Lemma typed_documented en p rg w es : holds_widths w rg -> typed w es = true -> fully_documented en p rg es.
Proof.
  revert w rg. induction es as [|e es IH]; intros w rg Hw; simpl; [done|].
  destruct (type_step w e) as [w'|] eqn:E; [|done]. intros Ht. pose proof (type_step_sound en p rg w e w' Hw E) as Hs.
  destruct (documented en p rg e) as [[rg' e'| |v]|]; try done. by eapply IH.
Qed.

(** ** A kernel that behaves as documented: the laws can hold *)

Fixpoint exec_doc (en : endianness) (p : packet) (rg : regs) (es : list Any) : option VerdictKind * list Any :=
  match es with
  | [] => (None, [])
  | e :: es' =>
      match documented en p rg e with
      | Some (Next rg' e') => let '(v, es'') := exec_doc en p rg' es' in (v, e' :: es'')
      | Some (Decide v) => (Some v, es)
      | _ => (None, es)
      end
  end.

#[local] Instance doc_vm : NftVM := {| endian := LittleEndian; exec := exec_doc LittleEndian |}.
#[local] Instance doc_vm_laws : NftVMLaws.
Proof. split; [done|]. intros p rg e es o E. simpl in *. rewrite E. by destruct o. Qed.

(** Its tables, and the error its next transaction fails with, if any, before
    ([false]) or after ([true]) the commit. *)
Record kernel := { k_tables : ruleset; k_fault : option (error * bool) }.

#[local] Instance doc_nft : Nftables kernel := {|
  nft_New k := (None, k);
  ListTables k := (Ok (map_to_list (k_tables k)).*1, k);
  ListChains k := (Ok (kv ← map_to_list (k_tables k); (fun c => (kv.1, ch_Name c)) <$> kv.2), k);
  GetRules t n k := (Ok (match list_find (fun c => ch_Name c = n) (default [] (k_tables k !! t)) with
                         | Some (_, c) => ch_Rules c | None => [] end), k);
  Flush cmds k := match k_fault k with
                  | Some (e, committed) =>
                      (Some e, {| k_tables := if committed then foldl cmd_effect (k_tables k) cmds else k_tables k;
                                  k_fault := None |})
                  | None => (None, {| k_tables := foldl cmd_effect (k_tables k) cmds; k_fault := None |})
                  end;
  receive p k := {| k_tables := run_named "input" p <$> k_tables k; k_fault := k_fault k |} |}.

Lemma filter_chains t (l : list (string * Table)) : NoDup l.*1 ->
  (filter (fun c => c.1 = t) (kv ← l; (fun c => (kv.1, ch_Name c)) <$> kv.2)).*2 =
  ch_Name <$> default [] (snd <$> head (filter (fun kv => kv.1 = t) l)).
Proof.
  assert (forall cs : Table, (filter (fun c => c.1 = t) ((fun c => (t, ch_Name c)) <$> cs)).*2 = ch_Name <$> cs) as Hin.
  { induction cs as [|c cs IH]; [done|]. simpl. rewrite filter_cons_True by done. simpl. by f_equal. }
  assert (forall k (cs : Table), k <> t -> filter (fun c => c.1 = t) ((fun c => (k, ch_Name c)) <$> cs) = []) as Hout.
  { intros k cs Hk. induction cs as [|c cs IH]; [done|]. simpl. by rewrite filter_cons_False. }
  assert (forall l : list (string * Table), t ∉ l.*1 ->
    filter (fun c => c.1 = t) (kv ← l; (fun c => (kv.1, ch_Name c)) <$> kv.2) = []) as Hnone.
  { induction l0 as [|[k cs] l0 IH]; [done|]. rewrite bind_cons, fmap_cons, not_elem_of_cons, filter_app. intros [Hk Hl].
    cbn [fst snd] in *. rewrite Hout by congruence. by rewrite IH. }
  induction l as [|[k cs] l IH]; [done|]. rewrite bind_cons, fmap_cons, NoDup_cons, filter_app, fmap_app.
  cbn [fst snd]. intros [Hk Hl].
  destruct (decide (k = t)) as [->|Hne].
  - rewrite Hin, (Hnone l) by done. rewrite filter_cons_True by done. simpl. by rewrite app_nil_r.
  - rewrite (Hout k) by done. rewrite filter_cons_False by done. by apply IH.
Qed.

Lemma head_filter_lookup (rs : ruleset) t :
  default [] (snd <$> head (filter (fun kv => kv.1 = t) (map_to_list rs))) = default [] (rs !! t).
Proof.
  destruct (rs !! t) as [cs|] eqn:E; simpl.
  - apply elem_of_map_to_list in E as Hin.
    assert ((t, cs) ∈ filter (fun kv => kv.1 = t) (map_to_list rs)) as Hf by (by apply list_elem_of_filter).
    destruct (filter _ _) as [|[t' cs'] l] eqn:El; [by apply not_elem_of_nil in Hf|]. simpl.
    assert ((t', cs') ∈ filter (fun kv => kv.1 = t) (map_to_list rs)) as Hh by (rewrite El; left).
    apply list_elem_of_filter in Hh as [Ht Hm]. apply elem_of_map_to_list in Hm. simpl in Ht. subst. congruence.
  - destruct (filter _ _) as [|[t' cs'] l] eqn:El; [done|]. exfalso.
    assert ((t', cs') ∈ filter (fun kv => kv.1 = t) (map_to_list rs)) as Hh by (rewrite El; left).
    apply list_elem_of_filter in Hh as [Ht Hm]. apply elem_of_map_to_list in Hm. simpl in Ht. subst. congruence.
Qed.

#[local] Program Instance doc_nft_laws : NftablesLaws kernel := {| tables := k_tables |}.
Next Obligation. done. Qed.
Next Obligation. done. Qed.
Next Obligation.
  intros k ts E t. simpl in E. injection E as <-. rewrite list_elem_of_fmap. split.
  - intros ([t' cs] & -> & Hin). apply elem_of_map_to_list in Hin. by exists cs.
  - intros [cs Hcs]. exists (t, cs). by rewrite elem_of_map_to_list.
Qed.
Next Obligation. done. Qed.
Next Obligation.
  intros k cs E t. simpl in E. injection E as <-.
  rewrite filter_chains by apply NoDup_fst_map_to_list. rewrite head_filter_lookup. by destruct (k_tables k !! t).
Qed.
Next Obligation. done. Qed.
Next Obligation.
  intros t n k rs E cs c Ht Hnd Hin Hn. simpl in E. injection E as <-. rewrite Ht. simpl.
  destruct (list_find _ cs) as [[i c']|] eqn:Hf.
  - apply list_find_Some in Hf as (Hi & Hc' & _). apply list_elem_of_lookup in Hin as [j Hj].
    assert (i = j) as ->; [|congruence]. eapply NoDup_lookup; [exact Hnd|..]; rewrite list_lookup_fmap.
    + rewrite Hi. simpl. by rewrite Hc'.
    + rewrite Hj. simpl. by rewrite Hn.
  - apply list_find_None in Hf. rewrite Forall_forall in Hf. by destruct (Hf c).
Qed.
Next Obligation. intros cmds k E. simpl in *. by destruct (k_fault k) as [[]|]. Qed.
Next Obligation. intros cmds k. simpl in *. destruct (k_fault k) as [[e []]|]; auto. Qed.
Next Obligation. intros p k t cs E Hnd. simpl. rewrite E. apply map_fmap_singleton. Qed.

End Nft.
