(* ===== verification/Firewall.v ===== *)
(** * The firewall reconciler (ApplyFirewall and ReadFirewallStatus of
      src/vendor/github.com/openweft/weft-microvm-init/pkg/network, wired as
      firewallApply and firewallStatusRead by
      src/cmd/weft-microvm-agent/firewall_linux.go)

    A published ruleset is translated to nftables expressions and installed as
    one table in one transaction.  The abstract policy [rule_permits] speaks of
    addresses, prefixes and port numbers; the theorems say that the compiled
    expressions, run by the kernel on the bytes of a packet, decide exactly
    that, that the transaction leaves the old table or the new one, and what
    the status reader then reports. *)

From S2P Require Import Prelude GoLib NetIP Pod Messages Bus Nft.
Import NetIP Pod Nft.
Import (hints) Messages.
Local Open Scope Z_scope.

Module Firewall.

(** ** The translation (firewall_linux.go) *)

Definition firewallTableName : string := "weft-fw".

Definition portBytes (p : Z) : bytes := [byte_of (Z.shiftr p 8); byte_of p].
Definition zeroBytes (n : nat) : bytes := zeros n.
Definition nftIfname (name : string) : bytes :=
  take 16 (chars name) ++ zeros (16 - length (take 16 (chars name))).
Definition binaryUint32 (v : Z) : bytes :=
  [byte_of v; byte_of (Z.shiftr v 8); byte_of (Z.shiftr v 16); byte_of (Z.shiftr v 24)].

Definition ctEstablishedAccept : list Any :=
  [Ct 1 CtKeySTATE;
   Bitwise 1 1 4 (binaryUint32 (Z.lor CtStateBitESTABLISHED CtStateBitRELATED)) (zeroBytes 4);
   Cmp CmpOpNeq 1 (zeroBytes 4);
   Verdict VerdictAccept].

Definition iifAccept (name : string) : list Any :=
  [Meta MetaKeyIIFNAME 1; Cmp CmpOpEq 1 (nftIfname name); Verdict VerdictAccept].

Definition addrOffset (ip : bytes) (direction : string) : result (Z * Z) :=
  let v4 := bool_decide (To4 ip <> None) in
  if v4 && bool_decide (direction = "ingress") then Ok (12, NFPROTO_IPV4)
  else if v4 && bool_decide (direction = "egress") then Ok (16, NFPROTO_IPV4)
  else if negb v4 && bool_decide (direction = "ingress") then Ok (8, NFPROTO_IPV6)
  else if negb v4 && bool_decide (direction = "egress") then Ok (24, NFPROTO_IPV6)
  else Err (Errorf "unknown direction %q" [EStr direction]).

(** The three blocks of buildRuleExprs. *)
Definition cidrExprs (r : FirewallRule) : result (list Any) :=
  if decide (fr_RemoteCIDR r = "") then Ok []
  else match ParseCIDR (fr_RemoteCIDR r) with
       | Err e => Err (Errorf "parse cidr: %w" [EErr e])
       | Ok (_, ipnet) =>
           match addrOffset (net_IP ipnet) (fr_Direction r) with
           | Err e => Err e
           | Ok (offset, family) =>
               Ok [Meta MetaKeyNFPROTO 1;
                   Cmp CmpOpEq 1 [byte_of family];
                   Payload 1 PayloadBaseNetworkHeader offset (Z.of_nat (length (net_IP ipnet)));
                   Bitwise 1 1 (Z.of_nat (length (net_Mask ipnet))) (net_Mask ipnet) (zeroBytes (length (net_Mask ipnet)));
                   Cmp CmpOpEq 1 (default [] (Mask (net_IP ipnet) (net_Mask ipnet)))]
           end
       end.

Definition protoExprs (r : FirewallRule) : result (list Any) :=
  if decide (fr_Protocol r = "") then Ok []
  else
    let with_l4 (l4 : Z) := Ok [Meta MetaKeyL4PROTO 1; Cmp CmpOpEq 1 [byte_of l4]] in
    if decide (fr_Protocol r = "tcp") then with_l4 IPPROTO_TCP
    else if decide (fr_Protocol r = "udp") then with_l4 IPPROTO_UDP
    else if decide (fr_Protocol r = "icmp") then with_l4 IPPROTO_ICMP
    else Err (Errorf "unknown protocol %q" [EStr (fr_Protocol r)]).

Definition portExprs (r : FirewallRule) : list Any :=
  if negb (fr_PortMin r =? 0) || negb (fr_PortMax r =? 0) then
    Payload 1 PayloadBaseTransportHeader 2 2 ::
    (if fr_PortMin r =? fr_PortMax r then [Cmp CmpOpEq 1 (portBytes (fr_PortMin r))]
     else [Range CmpOpEq 1 (portBytes (fr_PortMin r)) (portBytes (fr_PortMax r))])
  else [].

Definition buildRuleExprs (r : FirewallRule) : result (list Any) :=
  match cidrExprs r with
  | Err e => Err e
  | Ok e1 =>
      match protoExprs r with
      | Err e => Err e
      | Ok e2 => Ok (e1 ++ e2 ++ portExprs r ++ [Verdict VerdictAccept])
      end
  end.

(** ** The transaction *)

Fixpoint ruleCmds (rs : list FirewallRule) : result (list Cmd) :=
  match rs with
  | [] => Ok []
  | r :: rs' =>
      match buildRuleExprs r with
      | Err e => Err (Errorf "build rule (%+v): %w" [EErr e])
      | Ok exprs =>
          let cmd := if decide (fr_Direction r = "ingress") then [AddRule firewallTableName "input" exprs]
                     else if decide (fr_Direction r = "egress") then [AddRule firewallTableName "output" exprs]
                     else [] in
          match ruleCmds rs' with Err e => Err e | Ok cmds => Ok (cmd ++ cmds) end
      end
  end.

Definition tailExprs : list Any := [Counter 0 0; Verdict VerdictDrop].

Section apply.
Context {K : Type} `{Nftables K}.

Definition ApplyFirewall (fw : Firewall) (k : K) : gerr * K :=
  let '(err, k) := nft_New k in
  match err with
  | Some e => (Some (Errorf "nftables: %w" [EErr e]), k)
  | None =>
      let '(existing, k) := ListTables k in
      match existing with
      | Err e => (Some (Errorf "list tables: %w" [EErr e]), k)
      | Ok ts =>
          let del := DelTable <$> filter (fun t => t = firewallTableName) ts in
          let setup :=
            [AddTable firewallTableName;
             AddChain firewallTableName "input" VerdictDrop;
             AddRule firewallTableName "input" ctEstablishedAccept;
             AddRule firewallTableName "input" (iifAccept "lo");
             AddChain firewallTableName "output" VerdictAccept] in
          match ruleCmds (fw_Rules fw) with
          | Err e => (Some e, k)
          | Ok cmds =>
              let '(err, k) := Flush (del ++ setup ++ cmds ++ [AddRule firewallTableName "input" tailExprs]) k in
              match err with
              | Some e => (Some (Errorf "nftables flush: %w" [EErr e]), k)
              | None => (None, k)
              end
          end
      end
  end.

(** ** ReadFirewallStatus (firewallstat_linux.go) *)

Fixpoint nextVerdict (es : list Any) : option VerdictKind :=
  match es with [] => None | Verdict v :: _ => Some v | _ :: es' => nextVerdict es' end.

Fixpoint dropCounterFromRule (es : list Any) : option (Z * Z) :=
  match es with
  | [] => None
  | Counter n b :: es' =>
      if decide (nextVerdict es' = Some VerdictDrop) then Some (n, b) else dropCounterFromRule es'
  | _ :: es' => dropCounterFromRule es'
  end.

Definition addDrops (acc : Z * Z) (rule : list Any) : Z * Z :=
  match dropCounterFromRule rule with
  | Some (pkts, byts) => (u64 (acc.1 + pkts), u64 (acc.2 + byts))
  | None => acc
  end.

(** [err.Error()] is an argument. *)
Context (Error : error -> string).

Definition degraded (installed : bool) (msg : string) : FirewallStatus :=
  {| fs_Overall := "Degraded"; fs_TableInstalled := installed; fs_RulesInstalled := 0; fs_LastError := msg;
     fs_PublishedAtUnix := 0; fs_DropsPackets := 0; fs_DropsBytes := 0 |}.

Definition healthy (installed : bool) (rules : Z) (drops : Z * Z) : FirewallStatus :=
  {| fs_Overall := "Healthy"; fs_TableInstalled := installed; fs_RulesInstalled := rules; fs_LastError := "";
     fs_PublishedAtUnix := 0; fs_DropsPackets := drops.1; fs_DropsBytes := drops.2 |}.

(** The loop over the chains of every inet table. *)
Fixpoint readChains (chains : list (string * string)) (total : Z) (drops : Z * Z) (k : K) : FirewallStatus * K :=
  match chains with
  | [] => (healthy true total drops, k)
  | (t, n) :: chains' =>
      if decide (t = firewallTableName) then
        let '(r, k) := GetRules firewallTableName n k in
        match r with
        | Err e => (degraded true ("get rules in " +:+ n +:+ ": " +:+ Error e), k)
        | Ok rules =>
            let total := total + Z.of_nat (length rules) in
            let drops := if decide (n = "input") then foldl addDrops drops rules else drops in
            readChains chains' total drops k
        end
      else readChains chains' total drops k
  end.

Definition ReadFirewallStatus (k : K) : FirewallStatus * K :=
  let '(err, k) := nft_New k in
  match err with
  | Some e => (degraded false ("nftables open: " +:+ Error e), k)
  | None =>
      let '(ts, k) := ListTables k in
      match ts with
      | Err e => (degraded false ("list tables: " +:+ Error e), k)
      | Ok ts =>
          if decide (firewallTableName ∈ ts) then
            let '(chains, k) := ListChains k in
            match chains with
            | Err e => (degraded true ("list chains: " +:+ Error e), k)
            | Ok chains => readChains chains 0 (0, 0) k
            end
          else (healthy false 0 (0, 0), k)
      end
  end.
End apply.

(** ** The policy a ruleset means *)

(** The address of the other side: whether it is an IPv6 address, and its
    value. *)
Definition remote (direction : string) (h : net_header) : bool * Z :=
  match h with
  | IPv4 _ s d _ => (false, if decide (direction = "ingress") then s else d)
  | IPv6 _ s d _ => (true, if decide (direction = "ingress") then s else d)
  end.

(** [v] is in the prefix of the first [bits] bits of [a]. *)
Definition in_prefix (a : Addr) (bits : Z) (v : bool * Z) : bool :=
  Bool.eqb (Is6 a) v.1 && (v.2 / 2 ^ (BitLen a - bits) =? be (addr_bytes a) / 2 ^ (BitLen a - bits)).

Definition protocol_number (s : string) : option Z :=
  if decide (s = "tcp") then Some 6 else if decide (s = "udp") then Some 17
  else if decide (s = "icmp") then Some 1 else None.

Definition cidr_permits (r : FirewallRule) (p : packet) : bool :=
  bool_decide (fr_RemoteCIDR r = "") ||
  match ParsePrefix (fr_RemoteCIDR r) with
  | Ok (a, bits) => in_prefix a bits (remote (fr_Direction r) (pk_net p))
  | Err _ => false
  end.

Definition proto_permits (r : FirewallRule) (p : packet) : bool :=
  bool_decide (fr_Protocol r = "") ||
  match protocol_number (fr_Protocol r) with Some n => pk_proto p =? n | None => false end.

Definition port_permits (r : FirewallRule) (p : packet) : bool :=
  ((fr_PortMin r =? 0) && (fr_PortMax r =? 0)) ||
  match pk_l4 p with
  | Ports _ dport _ => (fr_PortMin r <=? dport) && (dport <=? fr_PortMax r)
  | _ => false
  end.

Definition rule_permits (r : FirewallRule) (p : packet) : bool :=
  cidr_permits r p && proto_permits r p && port_permits r p.

Definition established (p : packet) : bool := Z.testbit (pk_ct p) 1 || Z.testbit (pk_ct p) 2.

(** What the VM accepts: replies, loopback, and what some ingress rule permits. *)
Definition accepts (fw : Firewall) (p : packet) : bool :=
  established p || bool_decide (pk_iif p = "lo") ||
  existsb (fun r => bool_decide (fr_Direction r = "ingress") && rule_permits r p) (fw_Rules fw).

(** An IPv6 prefix inside ::ffff:0:0/96: the translation takes it for IPv4. *)
Definition v4_mapped (r : FirewallRule) : bool :=
  match ParsePrefix (fr_RemoteCIDR r) with
  | Ok (Addr6 b z, bits) => bool_decide (To4 (land_bytes b (mask_go 16 bits)) <> None)
  | _ => false
  end.

(** ** Validated rules compile *)

Definition valid (r : FirewallRule) : Prop := FirewallRule_Validate ParsePrefix_err r = None.

Lemma valid_fields r : valid r ->
  (fr_Direction r = "ingress" \/ fr_Direction r = "egress") /\
  (fr_Protocol r = "" \/ is_Some (protocol_number (fr_Protocol r))) /\
  (fr_PortMin r <> 0 \/ fr_PortMax r <> 0 ->
     (fr_Protocol r = "tcp" \/ fr_Protocol r = "udp") /\ fr_PortMin r <= fr_PortMax r) /\
  (fr_RemoteCIDR r = "" \/ exists a bits, ParsePrefix (fr_RemoteCIDR r) = Ok (a, bits)).
Proof.
  unfold valid, FirewallRule_Validate. intros Hv. case_match eqn:H1; [done|]. case_match eqn:H2; [done|]. to_prop.
  split_and!.
  - set_solver.
  - unfold protocol_number. rewrite !elem_of_cons in H2. destruct H2 as [->|[->|[->|[->|?]]]]; try set_solver.
    all: right; by eexists.
  - intros Hne. destruct (Z.eqb_spec (fr_PortMin r) 0), (Z.eqb_spec (fr_PortMax r) 0); try lia; simpl in Hv.
    all: destruct (bool_decide (fr_Protocol r = "tcp")) eqn:Ht, (bool_decide (fr_Protocol r = "udp")) eqn:Hu;
      simpl in Hv; try done; to_prop; (split; [auto|]); destruct (Z.ltb_spec (fr_PortMax r) (fr_PortMin r)); done.
  - destruct (decide (fr_RemoteCIDR r = "")) as [|Hc]; [by left|right].
    destruct (if negb _ || negb _ then _ else _); [done|]. unfold ParsePrefix_err in Hv.
    destruct (ParsePrefix (fr_RemoteCIDR r)) as [[a bits]|]; [by eexists _, _|done].
Qed.

Lemma addrOffset_ok ip dir : dir = "ingress" \/ dir = "egress" ->
  addrOffset ip dir =
  Ok (if bool_decide (To4 ip <> None) then (if decide (dir = "ingress") then 12 else 16, NFPROTO_IPV4)
      else (if decide (dir = "ingress") then 8 else 24, NFPROTO_IPV6)).
Proof.
  intros Hd. unfold addrOffset. destruct (bool_decide (To4 ip <> None)), Hd as [-> | ->]; done.
Qed.

(** The network of a validated prefix, masked again, is itself. *)
Lemma net_masked a bits : well_sized a -> 
  let m := mask_go (addr_len a) bits in
  Mask (land_bytes (addr_bytes a) m) m = Some (land_bytes (addr_bytes a) m).
Proof.
  intros Hw m. pose proof (well_sized_length a Hw) as Hl.
  assert (length m = addr_len a) as Hm by apply mask_go_length.
  assert (length (land_bytes (addr_bytes a) m) = addr_len a) as Hn by (rewrite land_bytes_length; lia).
  unfold Mask. assert (addr_len a = 4 \/ addr_len a = 16)%nat as Hlen by (destruct a; auto).
  destruct Hlen as [H4|H16].
  - rewrite (bool_decide_eq_false_2 (length m = 16%nat)) by lia. cbn [andb].
    rewrite (bool_decide_eq_false_2 (length (land_bytes (addr_bytes a) m) = 16%nat)) by lia.
    rewrite andb_false_r. cbn [andb]. rewrite decide_True by lia. by rewrite land_bytes_idem.
  - rewrite (bool_decide_eq_false_2 (length (land_bytes (addr_bytes a) m) = 4%nat)) by lia.
    rewrite andb_false_r. cbn [andb]. rewrite (bool_decide_eq_false_2 (length m = 4%nat)) by lia. cbn [andb].
    rewrite decide_True by lia. by rewrite land_bytes_idem.
Qed.

(** The address expressions of a rule with prefix [a/bits]. *)
Definition addrExprs (dir : string) (a : Addr) (bits : Z) (v4 : bool) : list Any :=
  let m := mask_go (addr_len a) bits in
  [Meta MetaKeyNFPROTO 1; Cmp CmpOpEq 1 [byte_of (if v4 then NFPROTO_IPV4 else NFPROTO_IPV6)];
   Payload 1 PayloadBaseNetworkHeader
     (if v4 then (if decide (dir = "ingress") then 12 else 16) else (if decide (dir = "ingress") then 8 else 24))
     (Z.of_nat (addr_len a));
   Bitwise 1 1 (Z.of_nat (length m)) m (zeroBytes (length m));
   Cmp CmpOpEq 1 (land_bytes (addr_bytes a) m)].

Lemma cidrExprs_valid r a bits : fr_Direction r = "ingress" \/ fr_Direction r = "egress" ->
  fr_RemoteCIDR r <> "" -> ParsePrefix (fr_RemoteCIDR r) = Ok (a, bits) ->
  cidrExprs r = Ok (addrExprs (fr_Direction r) a bits
    (bool_decide (To4 (land_bytes (addr_bytes a) (mask_go (addr_len a) bits)) <> None))).
Proof.
  intros Hd Hc Hp. unfold cidrExprs. rewrite decide_False by done.
  destruct (ParseCIDR_of_ParsePrefix _ _ _ Hp) as (Hw & Hbits & ->). cbn [net_IP net_Mask].
  rewrite addrOffset_ok by done. pose proof (net_masked a bits Hw) as Hm. cbv zeta in Hm. rewrite Hm. cbn [default].
  rewrite land_bytes_length by (by rewrite well_sized_length, mask_go_length).
  rewrite well_sized_length by done. unfold addrExprs. by case_bool_decide.
Qed.

Lemma protoExprs_valid r : fr_Protocol r = "" \/ is_Some (protocol_number (fr_Protocol r)) ->
  exists es, protoExprs r = Ok es.
Proof.
  unfold protoExprs, protocol_number. intros [->|[n Hn]]; [by exists []|]. repeat case_decide; try done; by eexists.
Qed.

Lemma buildRuleExprs_valid r : valid r -> exists es, buildRuleExprs r = Ok es.
Proof.
  intros (Hd & Hp & _ & Hc)%valid_fields. unfold buildRuleExprs.
  assert (exists es, cidrExprs r = Ok es) as [es1 ->].
  { destruct (decide (fr_RemoteCIDR r = "")) as [E|E].
    - unfold cidrExprs. rewrite decide_True by done. by eexists.
    - destruct Hc as [|(a & bits & Hp')]; [done|]. eexists. by apply cidrExprs_valid. }
  destruct (protoExprs_valid r Hp) as [es2 ->]. by eexists.
Qed.

(** The compiled rules of one direction, in order. *)
Definition rulesFor (dir : string) (rs : list FirewallRule) : list (list Any) :=
  r ← rs;
  if decide (fr_Direction r = dir) then match buildRuleExprs r with Ok es => [es] | Err _ => [] end else [].

(** ** Register typing of compiled rules *)

Lemma typed_ports r w : typed w (portExprs r ++ [Verdict VerdictAccept]) = true.
Proof.
  unfold portExprs. destruct (negb _ || negb _); [|done].
  destruct (fr_PortMin r =? fr_PortMax r); cbn [app typed type_step];
    change ((0 <=? 2) && (0 <=? 2)) with true; cbv iota; rewrite reads_insert by (vm_compute; lia); done.
Qed.

Lemma typed_proto r w x : typed w ([Meta MetaKeyL4PROTO 1; Cmp CmpOpEq 1 [x]] ++ portExprs r ++ [Verdict VerdictAccept]) = true.
Proof. cbn [app typed type_step]. rewrite reads_insert by (simpl; lia). apply typed_ports. Qed.

Lemma typed_addr dir a bits v4 w rest : well_sized a -> (forall w, typed w rest = true) ->
  typed w (addrExprs dir a bits v4 ++ rest) = true.
Proof.
  intros Hw Hrest. pose proof (well_sized_length a Hw) as Hl. unfold addrExprs. cbn [app].
  set (m := mask_go (addr_len a) bits). assert (length m = addr_len a) as Hm by apply mask_go_length.
  cbn [typed type_step]. rewrite reads_insert by (simpl; lia).
  assert ((0 <=? (if v4 then (if decide (dir = "ingress") then 12 else 16)
                  else (if decide (dir = "ingress") then 8 else 24))) = true) as ->
    by (destruct v4; case_decide; done).
  rewrite (proj2 (Z.leb_le 0 _)) by lia. cbn [andb]. rewrite !Nat2Z.id.
  rewrite bool_decide_eq_true_2 by (split; [done|apply zeros_length]).
  rewrite reads_insert by lia. cbn [andb]. rewrite reads_insert by (rewrite land_bytes_length; lia). apply Hrest.
Qed.

(** ** Executing compiled rules *)

(** Port numbers are uint16 in the source. *)
Definition wf_rule (r : FirewallRule) : Prop := 0 <= fr_PortMin r < 2 ^ 16 /\ 0 <= fr_PortMax r < 2 ^ 16.

Section semantics.
Context `{NftVM, !NftVMLaws}.

(** [guards p es b]: on packet [p] the expressions [es] go on exactly if [b],
    and no counter among them moves. *)
Definition guards (p : packet) (es : list Any) (b : bool) : Prop :=
  forall (rg : regs) (rest : list Any), exists rg' : regs,
    exec p rg (es ++ rest) =
    if b then let '(v, rest') := exec p rg' rest in (v, es ++ rest') else (None, es ++ rest).

Lemma guards_nil p : guards p [] true.
Proof. intros rg rest. exists rg. simpl. by destruct (exec p rg rest). Qed.

(** The second block matters only where the first goes on. *)
Lemma guards_app p es1 es2 b1 b2 : guards p es1 b1 -> (b1 = true -> guards p es2 b2) ->
  guards p (es1 ++ es2) (b1 && b2).
Proof.
  intros G1 G2 rg rest. rewrite <- !app_assoc. destruct (G1 rg (es2 ++ rest)) as [rg1 E1].
  destruct b1; [|by exists rg]. destruct (G2 eq_refl rg1 rest) as [rg2 E2]. exists rg2. rewrite E1, E2.
  destruct b2; simpl; [|done]. destruct (exec p rg2 rest). by rewrite <- app_assoc.
Qed.

(** A load followed by expressions that act on what was loaded. *)
Lemma guards_load p r e es v (b : bool) : (forall rg, documented endian p rg e = Some (Next (<[r := v]> rg) e)) ->
  (forall rg rest, exists rg', exec p (<[r := v]> rg) (es ++ rest) =
     if b then let '(x, rest') := exec p rg' rest in (x, es ++ rest') else (None, es ++ rest)) ->
  guards p (e :: es) b.
Proof.
  intros He Hes rg rest. destruct (Hes rg rest) as [rg' E]. exists rg'. simpl.
  rewrite (exec_cons _ _ _ _ _ (He rg)), E. destruct b; [|done]. by destruct (exec p rg' rest).
Qed.

Lemma guards_break p e es : (forall rg, documented endian p rg e = Some Break) -> guards p (e :: es) false.
Proof. intros He rg rest. exists rg. simpl. by rewrite (exec_cons _ _ _ _ _ (He rg)). Qed.

Lemma exec_cmp p rg r v op data rest : length v = length data ->
  exec p (<[r := v]> rg) (Cmp op r data :: rest) =
  if cmp_holds op (memcmp v data) then let '(x, rest') := exec p (<[r := v]> rg) rest in (x, Cmp op r data :: rest')
  else (None, Cmp op r data :: rest).
Proof.
  intros Hl. assert (documented endian p (<[r := v]> rg) (Cmp op r data) =
    Some (if cmp_holds op (memcmp v data) then Next (<[r := v]> rg) (Cmp op r data) else Break)) as E.
  { simpl. rewrite reg_read_insert by lia. rewrite take_ge by lia. done. }
  rewrite (exec_cons _ _ _ _ _ E). by destruct (cmp_holds op (memcmp v data)).
Qed.

Lemma exec_mask p rg r v mask rest : length v = length mask ->
  let e := Bitwise r r (Z.of_nat (length mask)) mask (zeroBytes (length mask)) in
  exec p (<[r := v]> rg) (e :: rest) =
  let '(x, rest') := exec p (<[r := land_bytes v mask]> (<[r := v]> rg)) rest in (x, e :: rest').
Proof.
  intros Hl e. assert (documented endian p (<[r := v]> rg) e =
    Some (Next (<[r := land_bytes v mask]> (<[r := v]> rg)) e)) as E.
  { unfold e. simpl. rewrite !Nat2Z.id. unfold zeroBytes.
    rewrite decide_True by (split; [done|apply zeros_length]). rewrite reg_read_insert by lia. simpl. rewrite take_ge by lia.
    assert (length (land_bytes v mask) = length mask) as Hm by (unfold land_bytes; rewrite length_zip_with; lia).
    rewrite <- Hm at 1. by rewrite xor_zeros. }
  by rewrite (exec_cons _ _ _ _ _ E).
Qed.

(** [meta] compared with one byte. *)
Lemma guards_meta_byte p key v x : meta p key = [byte_of v] -> 0 <= v < 256 -> 0 <= x < 256 ->
  guards p [Meta key 1; Cmp CmpOpEq 1 [byte_of x]] (v =? x).
Proof.
  intros Hm Hv Hx. apply guards_load with (r := 1) (v := [byte_of v]); [intros rg; simpl; by rewrite Hm|].
  intros rg rest. exists (<[1 := [byte_of v]]> rg). cbn [app]. rewrite exec_cmp, memcmp_eq by done.
  assert (bool_decide ([byte_of v] = [byte_of x]) = (v =? x)) as ->.
  { destruct (Z.eqb_spec v x) as [->|Hne]; [by apply bool_decide_eq_true_2|]. apply bool_decide_eq_false_2.
    intros [= E]. apply (f_equal byte_val) in E. rewrite !byte_val_of in E. unfold u8 in E.
    rewrite !Z.mod_small in E by lia. done. }
  destruct (v =? x); [|done]. by destruct (exec p _ rest).
Qed.

Lemma guards_proto p r es : wf_packet p -> protoExprs r = Ok es -> guards p es (proto_permits r p).
Proof.
  intros Hp. unfold protoExprs, proto_permits, protocol_number. case_decide as Hnil.
  { intros [= <-]. rewrite bool_decide_eq_true_2 by done. apply guards_nil. }
  rewrite (bool_decide_eq_false_2 (fr_Protocol r = "")) by done. simpl orb.
  repeat case_decide; try done; intros [= <-];
    (apply guards_meta_byte; [done|apply Hp|unfold IPPROTO_TCP, IPPROTO_UDP, IPPROTO_ICMP; lia]).
Qed.

Lemma portBytes_be n : portBytes n = be_bytes 2 n.
Proof. unfold portBytes. simpl. by rewrite Z.shiftr_div_pow2 by lia. Qed.

Lemma be_port n : 0 <= n < 2 ^ 16 -> be (portBytes n) = n.
Proof. intros Hn. rewrite portBytes_be. apply be_be_bytes. done. Qed.

Lemma header_dport p sp dp rest : pk_l4 p = Ports sp dp rest ->
  header p PayloadBaseTransportHeader ≫= (fun b => slice b 2 2) = Some (portBytes dp).
Proof.
  intros E. unfold header. rewrite E. cbn [mbind option_bind l4_bytes]. rewrite slice_app by (by rewrite be_bytes_length).
  by rewrite portBytes_be.
Qed.

Lemma header_no_dport p : wf_packet p -> pk_proto p = IPPROTO_TCP \/ pk_proto p = IPPROTO_UDP ->
  match pk_l4 p with Ports _ _ _ => True
  | _ => header p PayloadBaseTransportHeader ≫= (fun b => slice b 2 2) = None end.
Proof.
  intros [_ _ _ _ Hl4] Ht. unfold header. destruct (pk_l4 p); try done. cbn [mbind option_bind l4_bytes].
  specialize (Hl4 Ht). unfold slice. by rewrite (proj2 (Z.leb_gt _ _)) by lia.
Qed.

Lemma port_test dp lo hi : 0 <= dp < 2 ^ 16 -> 0 <= lo < 2 ^ 16 -> 0 <= hi < 2 ^ 16 ->
  in_range (portBytes dp) (portBytes lo) (portBytes hi) = (lo <=? dp) && (dp <=? hi) /\
  cmp_holds CmpOpEq (memcmp (portBytes dp) (portBytes lo)) = (dp =? lo).
Proof.
  intros. split.
  - rewrite in_range_be, !be_port by done. destruct (Z.leb_spec lo dp), (Z.leb_spec dp hi); simpl;
      first [apply bool_decide_eq_true_2; lia|apply bool_decide_eq_false_2; lia].
  - rewrite memcmp_be, !be_port by done. destruct (Z.compare_spec dp lo); simpl; symmetry;
      first [apply Z.eqb_eq; lia|apply Z.eqb_neq; lia].
Qed.

Lemma guards_ports p r : wf_packet p -> wf_rule r ->
  (fr_PortMin r <> 0 \/ fr_PortMax r <> 0 ->
   (pk_proto p = IPPROTO_TCP \/ pk_proto p = IPPROTO_UDP) /\ fr_PortMin r <= fr_PortMax r) ->
  guards p (portExprs r) (port_permits r p).
Proof.
  intros Hp [Hmin Hmax] Hports. unfold portExprs, port_permits.
  destruct ((fr_PortMin r =? 0) && (fr_PortMax r =? 0)) eqn:E0.
  { to_prop. rewrite H1, H2. apply guards_nil. }
  rewrite <- negb_andb, E0. apply andb_false_iff in E0. rewrite !Z.eqb_neq in E0.
  destruct (Hports E0) as [Ht Hle]. cbn [negb orb]. pose proof (header_no_dport p Hp Ht) as Hno.
  pose proof (wf_l4 p Hp) as Hl4. destruct (pk_l4 p) as [sp dp rest|b|b] eqn:El;
    [|apply guards_break; intros rg; unfold documented; by rewrite Hno..].
  apply guards_load with (r := 1) (v := portBytes dp); [intros rg; unfold documented; by rewrite (header_dport _ _ _ _ El)|].
  intros rg rest'. exists (<[1 := portBytes dp]> rg).
  destruct (port_test dp (fr_PortMin r) (fr_PortMax r)) as [Hr Hc]; [lia..|].
  destruct (Z.eqb_spec (fr_PortMin r) (fr_PortMax r)) as [Em|Em]; cbn [app].
  - rewrite exec_cmp by done. rewrite Hc.
    replace ((fr_PortMin r <=? dp) && (dp <=? fr_PortMax r)) with (dp =? fr_PortMin r); [done|].
    rewrite <- Em. destruct (Z.eqb_spec dp (fr_PortMin r)), (Z.leb_spec (fr_PortMin r) dp),
      (Z.leb_spec dp (fr_PortMin r)); simpl; lia || done.
  - assert (documented endian p (<[1 := portBytes dp]> rg)
        (Range CmpOpEq 1 (portBytes (fr_PortMin r)) (portBytes (fr_PortMax r))) =
      Some (if (fr_PortMin r <=? dp) && (dp <=? fr_PortMax r)
            then Next (<[1 := portBytes dp]> rg) (Range CmpOpEq 1 (portBytes (fr_PortMin r)) (portBytes (fr_PortMax r)))
            else Break)) as E.
    { unfold documented. rewrite decide_True by done. rewrite reg_read_insert by done.
      rewrite take_ge by done. cbn [mbind option_bind]. by rewrite Hr. }
    rewrite (exec_cons _ _ _ _ _ E). by destruct ((fr_PortMin r <=? dp) && (dp <=? fr_PortMax r)).
Qed.

Lemma net_slice h t (six : bool) (dir : string) : wf_net h -> dir = "ingress" \/ dir = "egress" ->
  (remote dir h).1 = six ->
  slice (net_bytes h ++ t)
    (if six then (if decide (dir = "ingress") then 8 else 24) else (if decide (dir = "ingress") then 12 else 16))
    (if six then 16 else 4) = Some (be_bytes (if six then 16 else 4) (remote dir h).2).
Proof.
  intros Hh Hdir E. destruct h as [hd s d o|hd s d o]; cbn [remote fst snd net_bytes wf_net] in *; subst six; destruct Hh as [Hl _];
    case_decide; rewrite <- ?app_assoc.
  all: try (apply slice_app; rewrite ?be_bytes_length; lia).
  all: rewrite (app_assoc hd); apply slice_app; rewrite ?length_app, ?be_bytes_length; lia.
Qed.

Lemma remote_range dir h : wf_net h ->
  0 <= (remote dir h).2 < 256 ^ Z.of_nat (if (remote dir h).1 then 16 else 4).
Proof. destruct h; simpl; intros (_ & Hs & Hd); case_decide; simpl; lia. Qed.

(** The address test: load, mask, compare. *)
Lemma guards_addr p dir a bits : wf_packet p -> dir = "ingress" \/ dir = "egress" -> well_sized a ->
  0 <= bits <= BitLen a -> (remote dir (pk_net p)).1 = Is6 a ->
  let m := mask_go (addr_len a) bits in
  guards p
    [Payload 1 PayloadBaseNetworkHeader
       (if Is6 a then (if decide (dir = "ingress") then 8 else 24) else (if decide (dir = "ingress") then 12 else 16))
       (if Is6 a then 16 else 4);
     Bitwise 1 1 (Z.of_nat (length m)) m (zeroBytes (length m));
     Cmp CmpOpEq 1 (land_bytes (addr_bytes a) m)]
    ((remote dir (pk_net p)).2 / 2 ^ (BitLen a - bits) =? be (addr_bytes a) / 2 ^ (BitLen a - bits)).
Proof.
  intros Hp Hdir Hw Hbits E m. set (v := be_bytes (addr_len a) (remote dir (pk_net p)).2).
  pose proof (well_sized_length a Hw) as Hla. pose proof (mask_go_length (addr_len a) bits) as Hm. fold m in Hm.
  assert (length v = addr_len a) as Hv by apply be_bytes_length.
  assert (0 <= bits <= 8 * Z.of_nat (addr_len a)) as Hbits' by (by destruct a).
  apply guards_load with (r := 1) (v := v).
  { intros rg. unfold documented, header. cbn [mbind option_bind].
    rewrite (net_slice _ _ (Is6 a)) by (done || apply (wf_header p Hp)). by destruct a. }
  intros rg rest. exists (<[1 := land_bytes v m]> (<[1 := v]> rg)). cbn [app]. rewrite exec_mask by lia. rewrite exec_cmp.
  2: { rewrite !land_bytes_length; lia. }
  rewrite memcmp_eq by (rewrite !land_bytes_length; lia).
  assert (bool_decide (land_bytes v m = land_bytes (addr_bytes a) m) =
    ((remote dir (pk_net p)).2 / 2 ^ (BitLen a - bits) =? be (addr_bytes a) / 2 ^ (BitLen a - bits))) as ->.
  { assert (be v = (remote dir (pk_net p)).2) as <-.
    { apply be_be_bytes. pose proof (remote_range dir _ (wf_header p Hp)) as Hr. rewrite E in Hr. by destruct a. }
    assert (BitLen a = 8 * Z.of_nat (length v)) as -> by (rewrite Hv; by destruct a).
    pose proof (land_mask_eq v (addr_bytes a) bits ltac:(lia)) as Heq. rewrite Hv in Heq |- *. fold m in Heq.
    destruct (Z.eqb_spec (be v / 2 ^ (8 * Z.of_nat (addr_len a) - bits))
                         (be (addr_bytes a) / 2 ^ (8 * Z.of_nat (addr_len a) - bits))) as [E2|E2].
    - by apply bool_decide_eq_true_2, Heq.
    - apply bool_decide_eq_false_2. intros E3. by apply E2, Heq. }
  destruct (_ =? _); [|done]. by destruct (exec p _ rest).
Qed.

Lemma nfproto_remote p dir : nfproto p = if (remote dir (pk_net p)).1 then NFPROTO_IPV6 else NFPROTO_IPV4.
Proof. unfold nfproto. by destruct (pk_net p). Qed.

(** The family a rule's expressions test for. *)
Lemma to4_family r a bits : ParsePrefix (fr_RemoteCIDR r) = Ok (a, bits) -> well_sized a -> v4_mapped r = false ->
  bool_decide (To4 (land_bytes (addr_bytes a) (mask_go (addr_len a) bits)) <> None) = negb (Is6 a).
Proof.
  intros Hp Hw Hm. unfold v4_mapped in Hm. rewrite Hp in Hm.
  destruct a as [b|b z]; cbn [addr_bytes Is6 negb well_sized] in *; [|exact Hm]. apply bool_decide_eq_true_2. unfold To4. rewrite decide_True; [done|].
  change (addr_len (Addr4 b)) with 4%nat. rewrite land_bytes_length; [done|]. by rewrite mask_go_length.
Qed.

Lemma guards_cidr p r es : wf_packet p -> valid r -> v4_mapped r = false -> cidrExprs r = Ok es ->
  guards p es (cidr_permits r p).
Proof.
  intros Hp Hv Hm. destruct (valid_fields r Hv) as (Hd & _ & _ & Hc). unfold cidr_permits.
  destruct (decide (fr_RemoteCIDR r = "")) as [E|E].
  { unfold cidrExprs. rewrite decide_True, bool_decide_eq_true_2 by done. intros [= <-]. apply guards_nil. }
  destruct Hc as [|(a & bits & Hpp)]; [done|]. rewrite (cidrExprs_valid r a bits) by done.
  rewrite (bool_decide_eq_false_2 (fr_RemoteCIDR r = "")), Hpp by done.
  destruct (ParseCIDR_of_ParsePrefix _ _ _ Hpp) as (Hw & Hbits & _).
  rewrite (to4_family r a bits) by done. intros [= <-]. cbn [orb]. unfold in_prefix, addrExprs.
  apply (guards_app _ [_; _]).
  - replace (Bool.eqb (Is6 a) (remote (fr_Direction r) (pk_net p)).1) with
      (nfproto p =? (if negb (Is6 a) then NFPROTO_IPV4 else NFPROTO_IPV6)).
    2: { rewrite (nfproto_remote p (fr_Direction r)). by destruct (Is6 a), (remote _ _).1. }
    apply guards_meta_byte; [done|unfold nfproto, NFPROTO_IPV4, NFPROTO_IPV6; destruct (pk_net p); lia|].
    unfold NFPROTO_IPV4, NFPROTO_IPV6; destruct (Is6 a); simpl; lia.
  - intros E6%Bool.eqb_prop. symmetry in E6. pose proof (guards_addr p (fr_Direction r) a bits Hp Hd Hw Hbits E6) as Hg.
    cbv zeta in Hg. destruct a; exact Hg.
Qed.

(** One compiled rule on one packet: accept exactly what the rule permits. *)
Lemma exec_rule r es p : wf_packet p -> wf_rule r -> valid r -> v4_mapped r = false -> buildRuleExprs r = Ok es ->
  exec p ∅ es = (if rule_permits r p then Some VerdictAccept else None, es).
Proof.
  intros Hp Hr Hv Hm. unfold buildRuleExprs. destruct (cidrExprs r) as [es1|] eqn:E1; [|done].
  destruct (protoExprs r) as [es2|] eqn:E2; [|done]. intros [= <-].
  destruct (valid_fields r Hv) as (_ & _ & Hports & _).
  assert (guards p (es1 ++ es2 ++ portExprs r) (rule_permits r p)) as Hg.
  { unfold rule_permits. rewrite <- andb_assoc. apply guards_app; [by apply guards_cidr|]. intros _.
    apply guards_app; [by apply guards_proto|]. intros Hpp. apply guards_ports; [done..|]. intros Hne.
    destruct (Hports Hne) as [Ht Hle]. split; [|done]. unfold proto_permits, protocol_number in Hpp.
    unfold IPPROTO_TCP, IPPROTO_UDP. destruct Ht as [Ht|Ht]; rewrite Ht in Hpp; simpl in Hpp; to_prop; auto. }
  destruct (Hg ∅ [Verdict VerdictAccept]) as [rg' E]. rewrite <- !app_assoc in E. rewrite E.
  rewrite (exec_cons p rg' (Verdict VerdictAccept) [] (Decide VerdictAccept)) by done.
  destruct (rule_permits r p); by rewrite <- ?app_assoc.
Qed.

(** ** The two fixed rules and the tail *)

Lemma binaryUint32_reverse v : binaryUint32 v = reverse (be_bytes 4 v).
Proof.
  unfold binaryUint32. cbn [be_bytes]. rewrite !Z.shiftr_div_pow2 by lia.
  rewrite !Z.div_div by lia. done.
Qed.

Lemma land6 z : Z.land z 6 = 0 <-> Z.testbit z 1 || Z.testbit z 2 = false.
Proof.
  rewrite <- (Z.mod_pow2_bits_low z 3 1), <- (Z.mod_pow2_bits_low z 3 2) by lia.
  assert (Z.land z 6 = Z.land (z mod 2 ^ 3) 6) as ->
    by (rewrite <- Z.land_ones by lia; by rewrite <- Z.land_assoc).
  pose proof (Z.mod_pos_bound z (2 ^ 3) ltac:(lia)) as Hr. revert Hr. generalize (z mod 2 ^ 3). intros y Hy.
  assert (y = 0 \/ y = 1 \/ y = 2 \/ y = 3 \/ y = 4 \/ y = 5 \/ y = 6 \/ y = 7) as Hc by lia.
  by destruct Hc as [->|[->|[->|[->|[->|[->|[->| ->]]]]]]].
Qed.

Lemma ct_masked z : bool_decide (land_bytes (reverse (be_bytes 4 z)) (binaryUint32 6) <> zeroBytes 4) =
  Z.testbit z 1 || Z.testbit z 2.
Proof.
  rewrite <- binaryUint32_reverse.
  assert (forall x, land_byte x (byte_of 0) = byte_of 0) as Hzero.
  { intros x. unfold land_byte. change (byte_val (byte_of 0)) with 0. by rewrite Z.land_0_r. }
  assert (land_bytes (binaryUint32 z) (binaryUint32 6) =
    [byte_of (Z.land z 6); byte_of 0; byte_of 0; byte_of 0]) as ->.
  { unfold land_bytes, binaryUint32. cbn [zip_with]. change (byte_of (6 ≫ 8)) with (byte_of 0).
    change (byte_of (6 ≫ 16)) with (byte_of 0). change (byte_of (6 ≫ 24)) with (byte_of 0). rewrite !Hzero.
    f_equal. unfold land_byte. f_equal. rewrite byte_val_of. unfold u8. rewrite <- Z.land_ones by lia.
    by rewrite <- Z.land_assoc. }
  destruct (Z.testbit z 1 || Z.testbit z 2) eqn:E.
  - apply bool_decide_eq_true_2. intros [= Hb]. apply (f_equal byte_val) in Hb. rewrite !byte_val_of in Hb.
    assert (u8 (Z.land z 6) = Z.land z 6) as Hu.
    { unfold u8. rewrite <- Z.land_ones by lia. by rewrite <- Z.land_assoc. }
    rewrite Hu in Hb. apply land6 in Hb. congruence.
  - apply land6 in E. rewrite E. apply bool_decide_eq_false_2. intros Hne. by apply Hne.
Qed.

Lemma exec_established p : endian = LittleEndian ->
  exec p ∅ ctEstablishedAccept = (if established p then Some VerdictAccept else None, ctEstablishedAccept).
Proof.
  intros Hle. assert (guards p (take 3 ctEstablishedAccept) (established p)) as Hg.
  { change (take 3 ctEstablishedAccept)
      with [Ct 1 CtKeySTATE; Bitwise 1 1 4 (binaryUint32 6) (zeroBytes 4); Cmp CmpOpNeq 1 (zeroBytes 4)].
    apply guards_load with (r := 1) (v := reverse (be_bytes 4 (pk_ct p))); [intros rg; simpl; by rewrite Hle|].
    intros rg rest. set (v := reverse _). set (m := binaryUint32 6).
    exists (<[1 := land_bytes v m]> (<[1 := v]> rg)). assert (length v = length m) as Hl by done.
    pose proof (exec_mask p rg 1 v m ([Cmp CmpOpNeq 1 (zeroBytes 4)] ++ rest) Hl) as Hm. cbn [app] in *.
    change (Z.of_nat (length m)) with 4 in Hm. change (length m) with 4%nat in Hm. rewrite Hm. clear Hm.
    rewrite exec_cmp, memcmp_neq by done. unfold m, v. rewrite ct_masked. unfold established.
    destruct (Z.testbit (pk_ct p) 1 || Z.testbit (pk_ct p) 2); [|done]. by destruct (exec p _ rest). }
  destruct (Hg ∅ [Verdict VerdictAccept]) as [rg' E].
  rewrite (exec_cons p rg' (Verdict VerdictAccept) [] (Decide VerdictAccept)) in E by done.
  change (take 3 ctEstablishedAccept ++ [Verdict VerdictAccept]) with ctEstablishedAccept in E. rewrite E.
  by destruct (established p).
Qed.

Lemma exec_lo p : wf_packet p ->
  exec p ∅ (iifAccept "lo") = (if bool_decide (pk_iif p = "lo") then Some VerdictAccept else None, iifAccept "lo").
Proof.
  intros Hp. destruct (wf_iif p Hp) as [Hlen Hz]. unfold iifAccept.
  rewrite (exec_cons p ∅ _ _ (Next (<[1 := ifname (pk_iif p)]> ∅) (Meta MetaKeyIIFNAME 1))) by done.
  assert (length (ifname (pk_iif p)) = 16%nat) as Hl.
  { unfold ifname. rewrite length_take, length_app, zeros_length. lia. }
  rewrite exec_cmp by done. rewrite memcmp_eq by done. change (nftIfname "lo") with (ifname "lo").
  rewrite (bool_decide_ext (ifname (pk_iif p) = ifname "lo") (pk_iif p = "lo")).
  2: { split; [|by intros ->]. apply ifname_inj; [done|simpl; lia|done|]. by apply (bool_decide_unpack (byte_of 0 ∉ chars "lo")). }
  case_bool_decide; [|done]. by rewrite (exec_cons _ _ (Verdict VerdictAccept) [] (Decide VerdictAccept)).
Qed.

Lemma exec_tail p n b : exec p ∅ [Counter n b; Verdict VerdictDrop] =
  (Some VerdictDrop, [Counter (u64 (n + 1)) (u64 (b + pk_len p)); Verdict VerdictDrop]).
Proof.
  rewrite (exec_cons p ∅ (Counter n b) _ (Next ∅ (Counter (u64 (n + 1)) (u64 (b + pk_len p))))) by done.
  by rewrite (exec_cons p ∅ (Verdict VerdictDrop) [] (Decide VerdictDrop)).
Qed.

(** ** Whole chains *)

(** Rules that accept or say nothing, and move no counter. *)
Lemma run_rules_app p rs bs tl : Forall2 (fun es (b : bool) => exec p ∅ es = (if b then Some VerdictAccept else None, es)) rs bs ->
  run_rules p (rs ++ tl) =
  if existsb id bs then (Some VerdictAccept, rs ++ tl)
  else let '(v, tl') := run_rules p tl in (v, rs ++ tl').
Proof.
  induction 1 as [|es b rs bs Hes Hrs IH]; simpl; [by destruct (run_rules p tl)|]. rewrite Hes, IH.
  destruct b; [done|]. simpl. destruct (existsb id bs); [done|]. by destruct (run_rules p tl).
Qed.

Lemma rulesFor_exec p dir rs : wf_packet p -> Forall valid rs -> Forall wf_rule rs ->
  Forall (fun r => v4_mapped r = false) rs ->
  exists bs, Forall2 (fun es (b : bool) => exec p ∅ es = (if b then Some VerdictAccept else None, es)) (rulesFor dir rs) bs /\
    existsb id bs = existsb (fun r => bool_decide (fr_Direction r = dir) && rule_permits r p) rs.
Proof.
  intros Hp Hv Hw Hm. induction rs as [|r rs IH]; [by exists []|].
  rewrite !Forall_cons in *. destruct Hv as [Hv Hvs], Hw as [Hw Hws], Hm as [Hm Hms].
  destruct (IH Hvs Hws Hms) as (bs & Hbs & E). unfold rulesFor. rewrite bind_cons. fold (rulesFor dir rs).
  destruct (decide (fr_Direction r = dir)) as [Hd|Hd]; simpl.
  - destruct (buildRuleExprs_valid r Hv) as [es Hes]. rewrite Hes, bool_decide_eq_true_2 by done.
    exists (rule_permits r p :: bs). split; [constructor; [by apply exec_rule|done]|]. simpl. by rewrite E.
  - exists bs. rewrite bool_decide_eq_false_2 by done. done.
Qed.

Definition inputChain (fw : Firewall) (drops : Z * Z) : Chain :=
  {| ch_Name := "input"; ch_Policy := VerdictDrop;
     ch_Rules := [ctEstablishedAccept; iifAccept "lo"] ++ rulesFor "ingress" (fw_Rules fw) ++
                 [[Counter drops.1 drops.2; Verdict VerdictDrop]] |}.

Definition outputChain (fw : Firewall) : Chain :=
  {| ch_Name := "output"; ch_Policy := VerdictAccept; ch_Rules := rulesFor "egress" (fw_Rules fw) |}.

Definition compiles_exactly (fw : Firewall) : Prop :=
  Forall valid (fw_Rules fw) /\ Forall wf_rule (fw_Rules fw) /\ Forall (fun r => v4_mapped r = false) (fw_Rules fw).

Definition count_drop (fw : Firewall) (drops : Z * Z) (p : packet) : Z * Z :=
  if accepts fw p then drops else (u64 (drops.1 + 1), u64 (drops.2 + pk_len p)).

Lemma run_input fw drops p : endian = LittleEndian -> wf_packet p -> compiles_exactly fw ->
  run_chain p (inputChain fw drops) =
  (if accepts fw p then VerdictAccept else VerdictDrop, inputChain fw (count_drop fw drops p)).
Proof.
  intros Hle Hp (Hv & Hw & Hm). unfold run_chain, inputChain, count_drop, accepts. cbn [ch_Rules ch_Policy ch_Name].
  destruct (rulesFor_exec p "ingress" _ Hp Hv Hw Hm) as (bs & Hbs & E).
  rewrite (app_assoc [_; _]), (run_rules_app p _ (established p :: bool_decide (pk_iif p = "lo") :: bs)).
  2: { constructor; [by apply exec_established|]. constructor; [by apply exec_lo|exact Hbs]. }
  cbn [existsb id]. rewrite E, <- orb_assoc. unfold id.
  destruct (established p || _) eqn:Ea; [by rewrite <- app_assoc|].
  cbn [run_rules]. rewrite exec_tail. simpl default. by rewrite <- app_assoc.
Qed.

Lemma run_output fw p : wf_packet p -> compiles_exactly fw ->
  run_chain p (outputChain fw) = (VerdictAccept, outputChain fw).
Proof.
  intros Hp (Hv & Hw & Hm). unfold run_chain, outputChain. cbn [ch_Rules ch_Policy ch_Name].
  destruct (rulesFor_exec p "egress" _ Hp Hv Hw Hm) as (bs & Hbs & _).
  rewrite <- (app_nil_r (rulesFor "egress" (fw_Rules fw))), (run_rules_app p _ bs) by done.
  by destruct (existsb id bs).
Qed.
End semantics.

(** ** The transaction *)

Definition desired (fw : Firewall) : Table := [inputChain fw (0, 0); outputChain fw].

Definition two_chains (inp out : list (list Any)) : Table :=
  [{| ch_Name := "input"; ch_Policy := VerdictDrop; ch_Rules := inp |};
   {| ch_Name := "output"; ch_Policy := VerdictAccept; ch_Rules := out |}].

Lemma add_input rs inp out es : cmd_effect (<[firewallTableName := two_chains inp out]> rs) (AddRule firewallTableName "input" es) =
  <[firewallTableName := two_chains (inp ++ [es]) out]> rs.
Proof. simpl. by rewrite alter_insert_eq. Qed.

Lemma add_output rs inp out es : cmd_effect (<[firewallTableName := two_chains inp out]> rs) (AddRule firewallTableName "output" es) =
  <[firewallTableName := two_chains inp (out ++ [es])]> rs.
Proof. simpl. by rewrite alter_insert_eq. Qed.

Lemma ruleCmds_effect fwr cmds : ruleCmds fwr = Ok cmds -> forall rs inp out,
  foldl cmd_effect (<[firewallTableName := two_chains inp out]> rs) cmds =
  <[firewallTableName := two_chains (inp ++ rulesFor "ingress" fwr) (out ++ rulesFor "egress" fwr)]> rs.
Proof.
  revert cmds. induction fwr as [|r fwr IH]; intros cmds H rs inp out; cbn [ruleCmds] in H.
  { simplify_eq. by rewrite !app_nil_r. }
  destruct (buildRuleExprs r) as [es|] eqn:Hes; [|done]. destruct (ruleCmds fwr) as [cmds'|]; [|done]. simplify_eq.
  unfold rulesFor. rewrite !bind_cons, Hes. fold (rulesFor "ingress" fwr) (rulesFor "egress" fwr). rewrite foldl_app.
  destruct (decide (fr_Direction r = "ingress")) as [Hi|Hi].
  - rewrite decide_False by congruence. cbn [foldl]. rewrite add_input, (IH _ eq_refl). by rewrite <- app_assoc.
  - destruct (decide (fr_Direction r = "egress")) as [He|He].
    + cbn [foldl]. rewrite add_output, (IH _ eq_refl). by rewrite <- app_assoc.
    + cbn [foldl]. by rewrite (IH _ eq_refl).
Qed.

(** Deleting whatever was there and building the table afresh. *)
Lemma setup_effect rs ts : (forall t, t ∈ ts <-> is_Some (rs !! t)) ->
  foldl cmd_effect rs ((DelTable <$> filter (fun t => t = firewallTableName) ts) ++
    [AddTable firewallTableName; AddChain firewallTableName "input" VerdictDrop;
     AddRule firewallTableName "input" ctEstablishedAccept; AddRule firewallTableName "input" (iifAccept "lo");
     AddChain firewallTableName "output" VerdictAccept]) =
  <[firewallTableName := two_chains [ctEstablishedAccept; iifAccept "lo"] []]> rs.
Proof.
  intros Hts. rewrite foldl_app.
  assert (forall l rs, Forall (fun t => t = firewallTableName) l ->
    foldl cmd_effect rs (DelTable <$> l) = match l with [] => rs | _ => delete firewallTableName rs end) as Hdel.
  { induction l as [|t l IH]; intros rs' Hl; [done|]. apply Forall_cons in Hl as [-> Hl]. simpl. rewrite (IH _ Hl).
    destruct l; [done|]. by rewrite delete_delete_eq. }
  rewrite Hdel by (apply Forall_forall; intros t; by rewrite list_elem_of_filter; intros [-> _]).
  assert (match filter (fun t => t = firewallTableName) ts with [] => rs | _ => delete firewallTableName rs end =
    delete firewallTableName rs) as ->.
  { destruct (filter _ ts) as [|t l] eqn:Hf; [|done]. symmetry. apply delete_id.
    destruct (rs !! firewallTableName) eqn:El; [exfalso|done].
    assert (firewallTableName ∈ filter (fun t => t = firewallTableName) ts) as Hin.
    { apply list_elem_of_filter. split; [done|]. apply Hts. by eexists. }
    rewrite Hf in Hin. by apply not_elem_of_nil in Hin. }
  cbn [foldl cmd_effect]. rewrite lookup_delete_eq. rewrite !alter_insert_eq. cbn.
  by rewrite insert_delete_eq.
Qed.

Section transaction.
Context {K : Type} `{NftVM, !NftVMLaws, Nftables K, !NftablesLaws K}.

Lemma ApplyFirewall_spec fw k :
  match (ApplyFirewall fw k).1 with
  | Some err => tables (ApplyFirewall fw k).2 = tables k \/
      (exists e, err = Errorf "nftables flush: %w" [EErr e]) /\
      tables (ApplyFirewall fw k).2 = <[firewallTableName := desired fw]> (tables k)
  | None => tables (ApplyFirewall fw k).2 = <[firewallTableName := desired fw]> (tables k) /\
            exists cmds, ruleCmds (fw_Rules fw) = Ok cmds
  end.
Proof.
  unfold ApplyFirewall. pose proof (New_keeps k) as HN. destruct (nft_New k) as [[e|] k1]; cbn [fst snd] in *; [by left|].
  pose proof (ListTables_keeps k1) as HL. pose proof (ListTables_ok k1) as Hok.
  destruct (ListTables k1) as [[ts|e] k2]; cbn [fst snd] in *; [|left; congruence]. specialize (Hok ts eq_refl).
  destruct (ruleCmds (fw_Rules fw)) as [cmds|] eqn:Hc; cbn [fst snd]; [|left; congruence].
  set (batch := _ ++ _).
  assert (foldl cmd_effect (tables k2) batch = <[firewallTableName := desired fw]> (tables k)) as Hb.
  { rewrite HL, HN. unfold batch.
    rewrite app_assoc, foldl_app, setup_effect, foldl_app, (ruleCmds_effect _ _ Hc) by (by rewrite <- HN).
    cbn [foldl]. rewrite add_input. by rewrite <- app_assoc. }
  pose proof (Flush_commits batch k2) as Hf. pose proof (Flush_atomic batch k2) as Ha.
  destruct (Flush batch k2) as [[e|] k3]; cbn [fst snd] in *.
  - destruct Ha as [Ha|Ha]; [left; congruence|right]. split; [by eexists|congruence].
  - split; [rewrite (Hf eq_refl); congruence|by eexists].
Qed.

(** ** What the status reader sees *)

Lemma readChains_keeps Error cs total drops k : tables (readChains Error cs total drops k).2 = tables k.
Proof.
  revert total drops k. induction cs as [|[t n] cs IH]; intros total drops k; simpl; [done|].
  case_decide; [|done]. pose proof (GetRules_keeps firewallTableName n k) as Hk.
  destruct (GetRules firewallTableName n k) as [[rules|e] k']; simpl in *; [by rewrite IH|done].
Qed.

Lemma readChains_ok Error cs tbl chs total drops k :
  tables k !! firewallTableName = Some tbl -> NoDup (ch_Name <$> tbl) ->
  Forall2 (fun n c => c ∈ tbl /\ ch_Name c = n) (filter (fun c => c.1 = firewallTableName) cs).*2 chs ->
  (exists msg, (readChains Error cs total drops k).1 = degraded true msg) \/
  (readChains Error cs total drops k).1 =
    healthy true (total + Z.of_nat (length (chs ≫= ch_Rules)))
      (foldl (fun d c => if decide (ch_Name c = "input") then foldl addDrops d (ch_Rules c) else d) drops chs).
Proof.
  revert chs total drops k. induction cs as [|[t n] cs IH]; intros chs total drops k Ht Hnd HF; simpl.
  { inversion HF; subst. right. simpl. by rewrite Z.add_0_r. }
  destruct (decide (t = firewallTableName)) as [->|Hne].
  2: { rewrite filter_cons_False in HF by done. by apply IH. }
  rewrite filter_cons_True, fmap_cons in HF by done. inversion HF as [|? c ? chs' [Hin Hn] HF']; subst.
  pose proof (GetRules_keeps firewallTableName (ch_Name c) k) as Hk.
  pose proof (GetRules_ok firewallTableName (ch_Name c) k) as Hr.
  destruct (GetRules firewallTableName (ch_Name c) k) as [[rules|e] k']; simpl in *; [|left; by eexists].
  rewrite (Hr _ eq_refl _ _ Ht Hnd Hin eq_refl). rewrite length_app, Nat2Z.inj_add, Z.add_assoc.
  apply IH; [by rewrite Hk|done..].
Qed.

Lemma addDrops_silent acc rs : Forall (fun es => dropCounterFromRule es = None) rs -> foldl addDrops acc rs = acc.
Proof. intros HF. induction HF as [|es rs He _ IH]; simpl; [done|]. unfold addDrops at 2. by rewrite He. Qed.

Lemma compiled_silent r es : buildRuleExprs r = Ok es -> dropCounterFromRule es = None.
Proof.
  unfold buildRuleExprs. destruct (cidrExprs r) as [e1|] eqn:E1; [|done]. destruct (protoExprs r) as [e2|] eqn:E2; [|done].
  intros [= <-]. unfold cidrExprs, protoExprs, portExprs in *. repeat (case_match; simplify_eq); done.
Qed.

Lemma rulesFor_silent dir rs : Forall (fun es => dropCounterFromRule es = None) (rulesFor dir rs).
Proof.
  apply Forall_forall. intros es Hes. unfold rulesFor in Hes. apply list_elem_of_bind in Hes as (r & Hin & _).
  case_decide; [|set_solver]. destruct (buildRuleExprs r) eqn:E; [|set_solver].
  apply list_elem_of_singleton in Hin as ->. by eapply compiled_silent.
Qed.

Definition drops_ok (d : Z * Z) : Prop := 0 <= d.1 < 2 ^ 64 /\ 0 <= d.2 < 2 ^ 64.

Lemma input_drops fw d : drops_ok d -> foldl addDrops (0, 0) (ch_Rules (inputChain fw d)) = d.
Proof.
  intros [Hp Hb]. unfold inputChain. cbn [ch_Rules]. rewrite !foldl_app.
  rewrite (addDrops_silent _ [_; _]) by (by repeat constructor).
  rewrite (addDrops_silent _ (rulesFor _ _)) by apply rulesFor_silent. simpl. unfold addDrops. simpl.
  rewrite !u64_small by lia. by destruct d.
Qed.

Lemma rulesFor_length rs : Forall valid rs ->
  (length (rulesFor "ingress" rs) + length (rulesFor "egress" rs) = length rs)%nat.
Proof.
  induction 1 as [|r rs Hv _ IH]; [done|]. unfold rulesFor in *. rewrite !bind_cons, !length_app.
  destruct (buildRuleExprs_valid r Hv) as [es ->]. destruct (valid_fields r Hv) as ([E|E] & _); rewrite E;
    repeat (case_decide; [try done|try done]); simpl; lia.
Qed.

(** Packets arriving one after the other. *)
Definition traffic (ps : list packet) (k : K) : K := foldl (fun k p => receive p k) k ps.

Lemma traffic_tables fw ps d k : endian = LittleEndian -> Forall wf_packet ps -> compiles_exactly fw ->
  tables k = {[firewallTableName := [inputChain fw d; outputChain fw]]} ->
  tables (traffic ps k) = {[firewallTableName := [inputChain fw (foldl (count_drop fw) d ps); outputChain fw]]}.
Proof.
  intros Hle Hps Hfw. revert d k. induction Hps as [|p ps Hp _ IH]; intros d k Hk; [done|]. simpl. apply IH.
  rewrite (receive_runs p k _ _ Hk) by (repeat constructor; set_solver). unfold run_named. simpl.
  by rewrite run_input.
Qed.

Lemma count_drop_ok fw ps d : drops_ok d -> drops_ok (foldl (count_drop fw) d ps).
Proof.
  revert d. induction ps as [|p ps IH]; intros d Hd; simpl; [done|]. apply IH. unfold count_drop.
  destruct (accepts fw p); [done|]. split; apply u64_range.
Qed.

(** Reading the status of an installed ruleset: an error, or its rules and its
    counter. *)
Lemma ReadFirewallStatus_ok Error fw d k : Forall valid (fw_Rules fw) -> drops_ok d ->
  tables k = {[firewallTableName := [inputChain fw d; outputChain fw]]} ->
  tables (ReadFirewallStatus Error k).2 = tables k /\
  ((exists installed msg, (ReadFirewallStatus Error k).1 = degraded installed msg) \/
   (ReadFirewallStatus Error k).1 = healthy true (3 + Z.of_nat (length (fw_Rules fw))) d).
Proof.
  intros Hfw Hd Hk.
  unfold ReadFirewallStatus. pose proof (New_keeps k) as HN. destruct (nft_New k) as [[e|] k1]; simpl in *; [split; [done|left; by eexists _, _]|].
  pose proof (ListTables_keeps k1) as HL. pose proof (ListTables_ok k1) as Hts.
  destruct (ListTables k1) as [[ts|e] k2]; simpl in *; [|split; [congruence|left; by eexists _, _]]. specialize (Hts ts eq_refl).
  rewrite decide_True by (apply Hts; rewrite HN, Hk, lookup_singleton_eq; by eexists).
  pose proof (ListChains_keeps k2) as HC. pose proof (ListChains_ok k2) as Hcs.
  destruct (ListChains k2) as [[cs|e] k3]; simpl in *; [|split; [congruence|left; by eexists _, _]].
  specialize (Hcs cs eq_refl firewallTableName).
  assert (tables k3 !! firewallTableName = Some [inputChain fw d; outputChain fw]) as H3
    by (by rewrite HC, HL, HN, Hk, lookup_singleton_eq).
  rewrite <- HC, H3 in Hcs. split; [rewrite readChains_keeps; congruence|].
  destruct (readChains_ok Error cs [inputChain fw d; outputChain fw] [inputChain fw d; outputChain fw] 0 (0, 0) k3)
    as [[msg Hmsg]|Hst]; [done|repeat constructor; set_solver| |left; by eexists _, _|].
  { rewrite Hcs. repeat constructor; set_solver. }
  right. rewrite Hst. f_equal; [|exact (input_drops fw d Hd)]. cbn [mbind list_bind ch_Rules inputChain outputChain]. rewrite !length_app. cbn [length].
  pose proof (rulesFor_length _ Hfw). lia.
Qed.

(** ** Prefixes inside ::ffff:0:0/96 *)

Definition ff4 : bytes := replicate 4 (byte_of 255).

(** A mask that keeps the last bit of its twelfth byte keeps the first four bytes. *)
Lemma mask_wide bits : 0 <= bits <= 128 ->
  Z.testbit (byte_val (default (byte_of 0) (mask_go 16 bits !! 11%nat))) 0 = true -> take 4 (mask_go 16 bits) = ff4.
Proof.
  intros Hb. assert (forallb (fun n => negb (Z.testbit (byte_val (default (byte_of 0) (mask_go 16 n !! 11%nat))) 0)
    || bool_decide (take 4 (mask_go 16 n) = ff4)) (seqZ 0 129) = true) as Hall by (vm_compute; reflexivity).
  rewrite forallb_forall in Hall. specialize (Hall bits). rewrite <- list_elem_of_In, elem_of_seqZ in Hall.
  specialize (Hall ltac:(lia)). intros Ht. rewrite Ht in Hall. cbn [negb orb] in Hall. by apply bool_decide_eq_true in Hall.
Qed.

Lemma land_ff4 a : length a = 4%nat -> land_bytes a ff4 = a.
Proof.
  intros Hl. assert (forall c, land_byte c (byte_of 255) = c) as Hc.
  { intros c. unfold land_byte. change (byte_val (byte_of 255)) with (Z.ones 8). rewrite Z.land_ones by lia.
    rewrite Z.mod_small by (pose proof (byte_val_range c); lia). apply byte_of_val. }
  do 4 (destruct a as [|? a]; [done|]). destruct a; [|done]. unfold land_bytes, ff4. cbn [replicate zip_with].
  by rewrite !Hc.
Qed.

(** The bytes compared are an IPv4 address and what follows it, with twelve
    fixed bytes that start with four zeros. *)
Lemma mapped_compare b bits v : length b = 16%nat -> length v = 16%nat -> 0 <= bits <= 128 ->
  To4 (land_bytes b (mask_go 16 bits)) <> None ->
  land_bytes v (mask_go 16 bits) = land_bytes b (mask_go 16 bits) -> take 4 v = zeros 4.
Proof.
  intros Hb Hv Hbits Hto E. set (m := mask_go 16 bits) in *. assert (length m = 16%nat) as Hm by apply mask_go_length.
  assert (length (land_bytes b m) = 16%nat) as Hl by (rewrite land_bytes_length; lia).
  unfold To4 in Hto. rewrite decide_False in Hto by lia. case_decide as Hp; [|done]. destruct Hp as [_ Hp].
  assert (land_bytes b m !! 11%nat = Some (byte_of 255)) as H11.
  { rewrite <- (lookup_take_lt _ 12) by lia. by rewrite Hp. }
  assert (take 4 m = ff4) as Hff.
  { apply mask_wide; [done|]. fold m. unfold land_bytes in H11. rewrite lookup_zip_with in H11.
    destruct (b !! 11%nat) as [x|]; [|done]. destruct (m !! 11%nat) as [y|]; [|done]. cbn [default].
    injection H11 as H11.
    unfold land_byte in H11. apply (f_equal byte_val), (f_equal (fun z => Z.testbit z 0)) in H11.
    rewrite !byte_val_of in H11. unfold u8 in H11. rewrite Z.mod_pow2_bits_low, Z.land_spec in H11 by lia.
    change (Z.testbit (255 mod 2 ^ 8) 0) with true in H11. by apply andb_true_iff in H11 as [_ ?]. }
  apply (f_equal (take 4)) in E. unfold land_bytes in E. rewrite (zip_with_take _ 4 v m) in E.
  change (zip_with land_byte (take 4 v) (take 4 m)) with (land_bytes (take 4 v) (take 4 m)) in E.
  rewrite Hff, land_ff4 in E by (rewrite length_take; lia). rewrite E.
  change (zip_with land_byte b m) with (land_bytes b m).
  change 4%nat with (4 `min` 12)%nat. rewrite <- take_take, Hp. done.
Qed.

(** ** Properties *)

(** C16.  Applying a ruleset is all or nothing, whatever call fails: no other table
    changes, and the agent's table is never a mixture.  On success it is exactly the
    compiled ruleset, with fresh counters; on an error it is what it was, except
    that an error of the transaction itself, whose acknowledgement may be what was
    lost, can also leave the compiled ruleset. *)
Theorem ApplyFirewall_atomic fw k : 
  let '(err, k') := ApplyFirewall fw k in
  (forall t, t <> firewallTableName -> tables k' !! t = tables k !! t) /\
  match err with
  | None => tables k' !! firewallTableName = Some (desired fw)
  | Some err =>
      tables k' !! firewallTableName = tables k !! firewallTableName \/
      (exists e, err = Errorf "nftables flush: %w" [EErr e]) /\ tables k' !! firewallTableName = Some (desired fw)
  end.
Proof.
  pose proof (ApplyFirewall_spec fw k) as Hs. destruct (ApplyFirewall fw k) as [[err|] k']; simpl in Hs.
  - destruct Hs as [->|[He ->]]; [by split; [|left]|].
    split; [intros t Ht; by rewrite lookup_insert_ne|right; split; [done|by rewrite lookup_insert_eq]].
  - destruct Hs as [-> _]. split; [intros t Ht; by rewrite lookup_insert_ne|by rewrite lookup_insert_eq].
Qed.

Lemma rules_Validate_ok i rs : fw_rules_Validate ParsePrefix_err i rs = None -> Forall valid rs.
Proof.
  revert i. induction rs as [|r rs IH]; intros i; simpl; [constructor|].
  destruct (FirewallRule_Validate ParsePrefix_err r) eqn:E; [done|]. intros HV. constructor; [done|by eapply IH].
Qed.

(** C3.  A published ruleset is enforced as written, on a little-endian kernel and
    with IPv4-mapped prefixes excepted (see [mapped_rule_dead]).  Once the handler
    reports no error on a JSON payload, the input chain accepts a packet exactly if it belongs to an
    established or related connection, arrives on the loopback, or is permitted
    by some ingress rule (address in the prefix, protocol, destination port in
    the range), and drops every other; the output chain accepts everything: egress
    rules restrict nothing, although the header of the source promises drop lines. *)
Theorem published_policy_enforced data fw k k' :
  endian = LittleEndian -> Messages.Unmarshal data = Ok fw -> Forall (fun r => v4_mapped r = false) (fw_Rules fw) ->
  Bus.Firewall_HandleMessage ParsePrefix_err Messages.Unmarshal data ApplyFirewall k = (None, k') ->
  exists inp out, tables k' !! firewallTableName = Some [inp; out] /\
    ch_Name inp = "input" /\ ch_Name out = "output" /\
    forall p, wf_packet p ->
      (run_chain p inp).1 = (if accepts fw p then VerdictAccept else VerdictDrop) /\
      (run_chain p out).1 = VerdictAccept.
Proof.
  intros Hle Hu Hm. pose proof (Messages.Firewall_decoded data fw Hu) as Hw. fold wf_rule in Hw.
  unfold Bus.Firewall_HandleMessage, Bus.HandleMessage. rewrite Hu.
  destruct (Firewall_Validate ParsePrefix_err fw) eqn:Hv; [done|]. intros Ha.
  apply rules_Validate_ok in Hv. pose proof (ApplyFirewall_spec fw k) as Hs. rewrite Ha in Hs. cbn [fst snd] in Hs.
  destruct Hs as [-> _]. exists (inputChain fw (0, 0)), (outputChain fw). rewrite lookup_insert_eq.
  split_and!; [done..|]. intros p Hp. rewrite run_input, run_output by (done || by split_and!). done.
Qed.

(** C23.  Every rule that passes validation compiles, and to a well-typed rule: each
    register is written before it is read, with at least the bytes that are
    read, so that on every packet its execution is documented behaviour. *)
Theorem rules_well_typed r : valid r ->
  exists es, buildRuleExprs r = Ok es /\ typed ∅ es = true /\
    forall en p, fully_documented en p ∅ es.
Proof.
  intros Hv. destruct (buildRuleExprs_valid r Hv) as [es Hes]. exists es. split; [done|].
  assert (typed ∅ es = true) as Ht.
  { destruct (valid_fields r Hv) as (Hd & _ & _ & Hc). unfold buildRuleExprs in Hes.
    destruct (cidrExprs r) as [e1|] eqn:E1; [|done]. destruct (protoExprs r) as [e2|] eqn:E2; [|done].
    injection Hes as <-.
    assert (forall w, typed w (e2 ++ portExprs r ++ [Verdict VerdictAccept]) = true) as Hrest.
    { intros w. unfold protoExprs in E2. repeat case_decide; simplify_eq; first [apply typed_ports|apply typed_proto]. }
    destruct (decide (fr_RemoteCIDR r = "")) as [E|E].
    - unfold cidrExprs in E1. rewrite decide_True in E1 by done. by simplify_eq.
    - destruct Hc as [|(a & bits & Hp)]; [done|]. rewrite (cidrExprs_valid r a bits) in E1 by done.
      injection E1 as <-. apply typed_addr; [|done]. by apply (ParseCIDR_of_ParsePrefix _ _ _ Hp). }
  split; [done|]. intros en p. apply typed_documented with ∅; [|done]. intros r' n Hr. by rewrite lookup_empty in Hr.
Qed.

(** What the status reader reports after an apply: either a read error, or
    healthy with three rules more than were published, and as drop counters the
    number and the bytes of the packets refused since the apply, modulo 2^64. *)
Theorem status_after_apply Error fw k ps :
  endian = LittleEndian -> compiles_exactly fw -> Forall wf_packet ps ->
  (forall t, t <> firewallTableName -> tables k !! t = None) ->
  (ApplyFirewall fw k).1 = None ->
  let status := (ReadFirewallStatus Error (traffic ps (ApplyFirewall fw k).2)).1 in
  (exists installed msg, status = degraded installed msg) \/
  status = healthy true (3 + Z.of_nat (length (fw_Rules fw))) (foldl (count_drop fw) (0, 0) ps).
Proof.
  intros Hle Hfw Hps Hother Hok. pose proof (ApplyFirewall_spec fw k) as Hs. rewrite Hok in Hs. destruct Hs as [Hs _].
  assert (tables (ApplyFirewall fw k).2 = {[firewallTableName := desired fw]}) as Hk.
  { rewrite Hs. apply map_eq. intros t. destruct (decide (t = firewallTableName)) as [->|Hne].
    - by rewrite lookup_insert_eq, lookup_singleton_eq.
    - by rewrite lookup_insert_ne, lookup_singleton_ne, Hother by done. }
  apply (traffic_tables fw ps) in Hk; [|done..]. cbv zeta. revert Hk. generalize (traffic ps (ApplyFirewall fw k).2).
  clear k Hok Hs Hother. intros k Hk. apply (ReadFirewallStatus_ok Error fw); [apply Hfw| |done].
  apply count_drop_ok. split; simpl; lia.
Qed.

(** The 16 bytes at the address of an IPv4 header start with that address. *)
Lemma slice_v4 h t dir v : wf_net h -> (remote dir h).1 = false -> dir = "ingress" \/ dir = "egress" ->
  slice (net_bytes h ++ t) (if decide (dir = "ingress") then 12 else 16) 16 = Some v ->
  length v = 16%nat /\ take 4 v = be_bytes 4 (remote dir h).2.
Proof.
  intros Hh E6 Hdir Hs. split; [by apply slice_length in Hs; [|case_decide..]|].
  pose proof (net_slice h t false dir Hh Hdir E6) as H4. unfold slice in *.
  destruct (_ <=? _) in Hs; [|done]. destruct (_ <=? _) in H4; [|done]. apply (inj Some) in Hs as <-. apply (inj Some) in H4.
  rewrite <- H4, take_take. done.
Qed.

Lemma mapped_addr_dead p dir b z bits rest : wf_packet p -> dir = "ingress" \/ dir = "egress" -> length b = 16%nat ->
  0 <= bits <= 128 -> To4 (land_bytes b (mask_go 16 bits)) <> None -> (remote dir (pk_net p)).2 <> 0 ->
  (exec p ∅ (addrExprs dir (Addr6 b z) bits true ++ rest)).1 = None.
Proof.
  intros Hp Hdir Hb Hbits Hto Hne. unfold addrExprs. change (addr_len (Addr6 b z)) with 16%nat. cbn [addr_bytes].
  set (m := mask_go 16 bits) in *. assert (length m = 16%nat) as Hm by apply mask_go_length.
  assert (guards p [Meta MetaKeyNFPROTO 1; Cmp CmpOpEq 1 [byte_of NFPROTO_IPV4]] (nfproto p =? NFPROTO_IPV4)) as Hg.
  { apply guards_meta_byte; [done|unfold nfproto, NFPROTO_IPV4, NFPROTO_IPV6; destruct (pk_net p); lia|].
    unfold NFPROTO_IPV4. lia. }
  destruct (Hg ∅ ([Payload 1 PayloadBaseNetworkHeader (if decide (dir = "ingress") then 12 else 16) (Z.of_nat 16);
     Bitwise 1 1 (Z.of_nat (length m)) m (zeroBytes (length m)); Cmp CmpOpEq 1 (land_bytes b m)] ++ rest)) as [rg E].
  cbn [app] in *. rewrite E. destruct (nfproto p =? NFPROTO_IPV4) eqn:Hf; [|done]. to_prop.
  assert ((remote dir (pk_net p)).1 = false) as E6 by (unfold nfproto in Hf; by destruct (pk_net p)).
  destruct (slice (net_bytes (pk_net p) ++ l4_bytes (pk_l4 p)) (if decide (dir = "ingress") then 12 else 16) 16)
    as [v|] eqn:Hs.
  - destruct (slice_v4 _ _ _ _ (wf_header p Hp) E6 Hdir Hs) as [Hv Hv4].
    rewrite (exec_cons _ _ _ _ (Next (<[1 := v]> rg) (Payload 1 PayloadBaseNetworkHeader
      (if decide (dir = "ingress") then 12 else 16) (Z.of_nat 16)))) by (unfold documented, header; cbn [mbind option_bind]; change (Z.of_nat 16) with 16; by rewrite Hs).
    rewrite exec_mask by lia. rewrite exec_cmp by (rewrite !land_bytes_length; lia).
    rewrite memcmp_eq by (rewrite !land_bytes_length; lia). case_bool_decide as Hc; [|done]. exfalso. apply Hne.
    apply (mapped_compare b bits v Hb Hv Hbits Hto) in Hc. rewrite Hv4 in Hc.
    pose proof (remote_range dir _ (wf_header p Hp)) as Hr. rewrite E6 in Hr.
    rewrite <- (be_be_bytes 4 (remote dir (pk_net p)).2) by done. by rewrite Hc.
  - rewrite (exec_cons _ _ _ _ Break) by (unfold documented, header; cbn [mbind option_bind]; change (Z.of_nat 16) with 16; by rewrite Hs). done.
Qed.

(** An IPv6 prefix inside ::ffff:0:0/96 passes validation and compiles, but to a
    rule that matches no packet unless the remote address is zero: it is taken
    for an IPv4 prefix, with a comparison of sixteen bytes. *)
Theorem mapped_rule_dead r p : valid r -> v4_mapped r = true -> wf_packet p ->
  (remote (fr_Direction r) (pk_net p)).2 <> 0 ->
  exists es, buildRuleExprs r = Ok es /\ (exec p ∅ es).1 = None.
Proof.
  intros Hv Hm Hp Hne. destruct (valid_fields r Hv) as (Hd & _ & _ & Hc).
  destruct (buildRuleExprs_valid r Hv) as [es Hes]. exists es. split; [done|]. unfold v4_mapped in Hm.
  destruct (ParsePrefix (fr_RemoteCIDR r)) as [[a bits]|] eqn:Hpp; [|done]. destruct a as [b|b z]; [done|]. to_prop.
  destruct (ParseCIDR_of_ParsePrefix _ _ _ Hpp) as (Hw & Hbits & _).
  unfold buildRuleExprs in Hes. rewrite (cidrExprs_valid r (Addr6 b z) bits) in Hes; [|done| |done].
  2: { intros E. by rewrite E in Hpp. }
  destruct (protoExprs r); [|done]. apply (inj Ok) in Hes as <-. cbn [addr_bytes]. change (addr_len (Addr6 b z)) with 16%nat.
  rewrite bool_decide_eq_true_2 by done. by apply mapped_addr_dead.
Qed.
End transaction.

(** ** At concrete values *)

#[local] Existing Instances doc_vm doc_vm_laws doc_nft doc_nft_laws.

Definition ssh_rule : FirewallRule :=
  {| fr_Direction := "ingress"; fr_Protocol := "tcp"; fr_PortMin := 22; fr_PortMax := 22; fr_RemoteCIDR := "10.0.0.0/8" |}.
Definition mapped_rule : FirewallRule :=
  {| fr_Direction := "ingress"; fr_Protocol := ""; fr_PortMin := 0; fr_PortMax := 0; fr_RemoteCIDR := "::ffff:10.0.0.0/104" |}.
Definition ssh_fw : Firewall := {| fw_Rules := [ssh_rule] |}.

(** A TCP packet from 10.0.0.1 to 10.0.0.2. *)
Definition tcp_packet (dport : Z) : packet :=
  {| pk_iif := "eth0"; pk_ct := 8; pk_net := IPv4 (zeros 12) 167772161 167772162 []; pk_proto := 6;
     pk_l4 := Ports 40000 dport (zeros 16) |}.

Lemma tcp_packet_wf dport : 0 <= dport < 2 ^ 16 -> wf_packet (tcp_packet dport).
Proof. intros Hd. split; simpl; try lia. split; [lia|]. by apply (bool_decide_unpack (byte_of 0 ∉ chars "eth0")). Qed.

Definition boot_kernel : kernel := {| k_tables := ∅; k_fault := None |}.

Lemma ssh_fw_exact : compiles_exactly ssh_fw.
Proof. split_and!; repeat constructor; try (vm_compute; reflexivity); simpl; lia. Qed.

(** A transaction that fails, after the commit or before it, on a machine with
    another table. *)
Definition failing_kernel (committed : bool) : kernel :=
  {| k_tables := {["other" := []]}; k_fault := Some (Sentinel "ENOBUFS", committed) |}.

Lemma ApplyFirewall_atomic_witness :
  tables (ApplyFirewall ssh_fw boot_kernel).2 !! firewallTableName = Some (desired ssh_fw) /\
  forall committed,
    tables (ApplyFirewall ssh_fw (failing_kernel committed)).2 !! "other" = Some [] /\
    (tables (ApplyFirewall ssh_fw (failing_kernel committed)).2 !! firewallTableName = None \/
     tables (ApplyFirewall ssh_fw (failing_kernel committed)).2 !! firewallTableName = Some (desired ssh_fw)).
Proof.
  split; [pose proof (ApplyFirewall_atomic ssh_fw boot_kernel) as [_ Ht]; vm_compute; vm_compute in Ht; exact Ht|].
  intros committed. pose proof (ApplyFirewall_atomic ssh_fw (failing_kernel committed)) as H.
  destruct (ApplyFirewall ssh_fw (failing_kernel committed)) as [[err|] k']; destruct H as [Ho Ht].
  - split; [exact (Ho "other" ltac:(done))|]. destruct Ht as [Ht|[_ Ht]]; [left; exact Ht|right; exact Ht].
  - split; [exact (Ho "other" ltac:(done))|right; exact Ht].
Defined.

Definition ssh_payload : bytes := Messages.text
  "{'rules':[{'direction':'ingress','protocol':'tcp','port_min':22,'port_max':22,'remote_cidr':'10.0.0.0/8'}]}".

Lemma published_policy_enforced_witness :
  exists inp, tables (Bus.Firewall_HandleMessage ParsePrefix_err Messages.Unmarshal ssh_payload ApplyFirewall boot_kernel).2
      !! firewallTableName ≫= head = Some inp /\
    (run_chain (tcp_packet 22) inp).1 = VerdictAccept /\ (run_chain (tcp_packet 23) inp).1 = VerdictDrop.
Proof.
  destruct (published_policy_enforced ssh_payload ssh_fw boot_kernel
    (Bus.Firewall_HandleMessage ParsePrefix_err Messages.Unmarshal ssh_payload ApplyFirewall boot_kernel).2)
    as (inp & out & Ht & _ & _ & Hp); [reflexivity|vm_compute; reflexivity|apply ssh_fw_exact|vm_compute; reflexivity|].
  exists inp. rewrite Ht. split; [done|].
  split; [exact (proj1 (Hp (tcp_packet 22) (tcp_packet_wf 22 ltac:(lia))))
         |exact (proj1 (Hp (tcp_packet 23) (tcp_packet_wf 23 ltac:(lia))))].
Defined.

Lemma rules_well_typed_witness : exists es, buildRuleExprs mapped_rule = Ok es /\ typed ∅ es = true.
Proof.
  destruct (rules_well_typed mapped_rule) as (es & H1 & H2 & _); [vm_compute; reflexivity|]. by exists es.
Defined.

Lemma status_after_apply_witness :
  (exists installed msg, (ReadFirewallStatus (fun _ => "") (traffic [tcp_packet 22; tcp_packet 23; tcp_packet 24]
      (ApplyFirewall ssh_fw boot_kernel).2)).1 = degraded installed msg) \/
  (ReadFirewallStatus (fun _ => "") (traffic [tcp_packet 22; tcp_packet 23; tcp_packet 24]
      (ApplyFirewall ssh_fw boot_kernel).2)).1 = healthy true 4 (2, 80).
Proof.
  apply (status_after_apply (fun _ => "") ssh_fw boot_kernel [tcp_packet 22; tcp_packet 23; tcp_packet 24]);
    [done|apply ssh_fw_exact|repeat (apply Forall_cons; split; [apply tcp_packet_wf; lia|]); apply Forall_nil; done|done
    |vm_compute; reflexivity].
Defined.

Lemma mapped_rule_dead_witness : exists es, buildRuleExprs mapped_rule = Ok es /\ (exec (tcp_packet 22) ∅ es).1 = None.
Proof.
  apply (mapped_rule_dead mapped_rule (tcp_packet 22)); [vm_compute; reflexivity..|apply tcp_packet_wf; lia|].
  vm_compute. discriminate.
Defined.

End Firewall.
