(* ===== verification/Base64.v ===== *)
(** * Standard base64 (encoding/base64, StdEncoding.DecodeString)

    WireGuard keys arrive in base64.  [DecodeString] is Go's decoder: carriage
    returns and newlines are skipped anywhere, padding is required and must end
    the text, trailing bits are not checked.  [EncodeToString] is the encoder of
    RFC 4648, against which the decoder is proved to be a left inverse. *)

From S2P Require Import Prelude GoLib.
Local Open Scope Z_scope.

Module Base64.

Definition sextet (c : ascii) : option Z :=
  let v := byte_val c in
  if (65 <=? v) && (v <=? 90) then Some (v - 65)
  else if (97 <=? v) && (v <=? 122) then Some (v - 97 + 26)
  else if (48 <=? v) && (v <=? 57) then Some (v - 48 + 52)
  else if v =? 43 then Some 62
  else if v =? 47 then Some 63
  else None.

Definition CorruptInputError : error := Sentinel "base64.CorruptInputError".

Definition newline (c : ascii) : bool := (byte_val c =? 10) || (byte_val c =? 13).
Definition pad : ascii := "="%char.

(** The value of up to four sextets, the missing ones zero, as three bytes. *)
Definition quantum (a b c d : Z) : bytes :=
  let val := Z.lor (Z.lor (Z.lor (Z.shiftl a 18) (Z.shiftl b 12)) (Z.shiftl c 6)) d in
  [byte_of (Z.shiftr val 16); byte_of (Z.shiftr val 8); byte_of val].

(** [pend] holds the sextets of the current quantum. *)
Fixpoint decode (pend : list Z) (src : bytes) : result bytes :=
  match src with
  | [] => match pend with [] => Ok [] | _ => Err CorruptInputError end
  | ch :: src' =>
      match sextet ch with
      | Some v =>
          match pend with
          | [a; b; c] => match decode [] src' with Ok out => Ok (quantum a b c v ++ out) | Err e => Err e end
          | _ => decode (pend ++ [v]) src'
          end
      | None =>
          if newline ch then decode pend src'
          else if negb (bool_decide (ch = pad)) then Err CorruptInputError
          else match pend with
               | [a; b] =>
                   match drop_while newline src' with
                   | ch' :: rest =>
                       if decide (ch' = pad) then
                         match drop_while newline rest with
                         | [] => Ok (take 1 (quantum a b 0 0))
                         | _ => Err CorruptInputError
                         end
                       else Err CorruptInputError
                   | [] => Err CorruptInputError
                   end
               | [a; b; c] =>
                   match drop_while newline src' with
                   | [] => Ok (take 2 (quantum a b c 0))
                   | _ => Err CorruptInputError
                   end
               | _ => Err CorruptInputError
               end
      end
  end.

Definition DecodeString (s : string) : result bytes := decode [] (chars s).

(** ** The encoder of RFC 4648 *)

Definition alphabet : bytes := chars "ABCDEFGHIJKLMNOPQRSTUVWXYZabcdefghijklmnopqrstuvwxyz0123456789+/".
Definition letter (v : Z) : ascii := nth (Z.to_nat v) alphabet pad.

Definition digits (x y z : ascii) : list Z :=
  let val := byte_val x * 65536 + byte_val y * 256 + byte_val z in
  [val / 262144; val / 4096 mod 64; val / 64 mod 64; val mod 64].

Fixpoint encode (b : bytes) : bytes :=
  match b with
  | x :: y :: z :: b' => (letter <$> digits x y z) ++ encode b'
  | [x; y] => (letter <$> take 3 (digits x y (byte_of 0))) ++ [pad]
  | [x] => (letter <$> take 2 (digits x (byte_of 0) (byte_of 0))) ++ [pad; pad]
  | [] => []
  end.

Definition EncodeToString (b : bytes) : string := str (encode b).

(** ** Round trip *)

Lemma sextet_letter v : 0 <= v < 64 -> sextet (letter v) = Some v.
Proof.
  intros Hv. assert (forallb (fun n => bool_decide (sextet (letter n) = Some n)) (seqZ 0 64) = true) as Hall
    by (vm_compute; reflexivity).
  rewrite forallb_forall in Hall. specialize (Hall v). rewrite <- list_elem_of_In, elem_of_seqZ in Hall.
  by apply bool_decide_eq_true in Hall; [|lia].
Qed.

Lemma quantum_value a b c d : 0 <= a < 64 -> 0 <= b < 64 -> 0 <= c < 64 -> 0 <= d < 64 ->
  quantum a b c d =
  let val := ((a * 64 + b) * 64 + c) * 64 + d in
  [byte_of (val / 65536); byte_of (val / 256); byte_of val].
Proof.
  intros Ha Hb Hc Hd. unfold quantum.
  assert (Z.lor (Z.lor (Z.lor (Z.shiftl a 18) (Z.shiftl b 12)) (Z.shiftl c 6)) d = ((a * 64 + b) * 64 + c) * 64 + d) as ->.
  { rewrite <- !Z.lor_assoc, (lor_shiftl_add c _ 6), (lor_shiftl_add b _ 12), (lor_shiftl_add a _ 18) by lia. lia. }
  by rewrite !Z.shiftr_div_pow2 by lia.
Qed.

Lemma digits_range x y z : Forall (fun v => 0 <= v < 64) (digits x y z).
Proof.
  pose proof (byte_val_range x). pose proof (byte_val_range y). pose proof (byte_val_range z).
  unfold digits. repeat constructor; try (apply Z.mod_pos_bound; lia); [apply Z.div_pos; lia|].
  apply Z.div_lt_upper_bound; lia.
Qed.

Lemma quantum_digits x y z : match digits x y z with [a; b; c; d] => quantum a b c d = [x; y; z] | _ => False end.
Proof.
  pose proof (byte_val_range x) as Hx. pose proof (byte_val_range y) as Hy. pose proof (byte_val_range z) as Hz.
  pose proof (digits_range x y z) as Hr. unfold digits in *. set (val := byte_val x * 65536 + byte_val y * 256 + byte_val z) in *.
  rewrite !Forall_cons in Hr. destruct Hr as (H1 & H2 & H3 & H4 & _). rewrite quantum_value by done. cbv zeta.
  assert (((val / 262144 * 64 + val / 4096 mod 64) * 64 + val / 64 mod 64) * 64 + val mod 64 = val) as ->.
  { assert (val / 4096 = val / 64 / 64) as -> by (by rewrite Z.div_div by lia).
    assert (val / 262144 = val / 64 / 64 / 64) as -> by (by rewrite !Z.div_div by lia).
    pose proof (Z.div_mod val 64 ltac:(lia)). pose proof (Z.div_mod (val / 64) 64 ltac:(lia)).
    pose proof (Z.div_mod (val / 64 / 64) 64 ltac:(lia)). lia. }
  assert (val / 65536 = byte_val x) as -> by (symmetry; apply Z.div_unique with (byte_val y * 256 + byte_val z); lia).
  assert (byte_of (val / 256) = y) as ->.
  { rewrite <- (byte_of_val y). unfold byte_of. do 2 f_equal. unfold u8. rewrite (Z.mod_small (byte_val y)) by lia.
    assert (val / 256 = byte_val x * 256 + byte_val y) as -> by (symmetry; apply Z.div_unique with (byte_val z); lia).
    symmetry. apply Z.mod_unique with (byte_val x); lia. }
  assert (byte_of val = z) as ->.
  { rewrite <- (byte_of_val z). unfold byte_of. do 2 f_equal. unfold u8. rewrite (Z.mod_small (byte_val z)) by lia.
    symmetry. apply Z.mod_unique with (byte_val x * 256 + byte_val y); lia. }
  by rewrite byte_of_val.
Qed.

Lemma decode_letter pend v src : 0 <= v < 64 -> (length pend < 3)%nat ->
  decode pend (letter v :: src) = decode (pend ++ [v]) src.
Proof.
  intros Hv Hl. cbn [decode]. rewrite sextet_letter by done.
  destruct pend as [|? [|? [|? [|]]]]; simpl in Hl; try done; lia.
Qed.

Lemma decode_encode b : decode [] (encode b) = Ok b.
Proof.
  induction b as [b IH] using (induction_ltof1 _ length). unfold ltof in IH. destruct b as [|x [|y [|z b]]].
  - done.
  - pose proof (digits_range x (byte_of 0) (byte_of 0)) as Hr. pose proof (quantum_digits x (byte_of 0) (byte_of 0)) as Hq.
    pose proof (byte_val_range x) as Hx. cbn [encode].
    assert (exists a b, digits x (byte_of 0) (byte_of 0) = [a; b; 0; 0]) as (a & b & E).
    { unfold digits. change (byte_val (byte_of 0)) with 0. eexists _, _. rewrite Z.mul_0_l, !Z.add_0_r.
      assert (byte_val x * 65536 mod 64 = 0) as -> by (apply Z.mod_divide; [lia|]; exists (byte_val x * 1024); lia).
      assert (byte_val x * 65536 / 64 = byte_val x * 1024) as -> by (symmetry; apply Z.div_unique with 0; lia).
      assert (byte_val x * 1024 mod 64 = 0) as -> by (apply Z.mod_divide; [lia|]; exists (byte_val x * 16); lia). done. }
    rewrite E in *. rewrite !Forall_cons in Hr. destruct Hr as (Ha & Hb & _). simpl fmap. cbn [app].
    rewrite !decode_letter by (simpl; lia || done). simpl app.
    change (Ok (take 1 (quantum a b 0 0)) = Ok [x]). by rewrite Hq.
  - pose proof (digits_range x y (byte_of 0)) as Hr. pose proof (quantum_digits x y (byte_of 0)) as Hq.
    pose proof (byte_val_range x) as Hx. pose proof (byte_val_range y) as Hy. cbn [encode].
    assert (exists a b c, digits x y (byte_of 0) = [a; b; c; 0]) as (a & b & c & E).
    { unfold digits. change (byte_val (byte_of 0)) with 0. eexists _, _, _. rewrite Z.add_0_r.
      assert ((byte_val x * 65536 + byte_val y * 256) mod 64 = 0) as ->
        by (apply Z.mod_divide; [lia|]; exists (byte_val x * 1024 + byte_val y * 4); lia). done. }
    rewrite E in *. rewrite !Forall_cons in Hr. destruct Hr as (Ha & Hb & Hc & _). simpl fmap. cbn [app].
    rewrite !decode_letter by (simpl; lia || done). simpl app.
    change (Ok (take 2 (quantum a b c 0)) = Ok [x; y]). by rewrite Hq.
  - pose proof (digits_range x y z) as Hr. pose proof (quantum_digits x y z) as Hq. cbn [encode].
    destruct (digits x y z) as [|a [|b0 [|c [|d [|]]]]]; try done. rewrite !Forall_cons in Hr.
    destruct Hr as (Ha & Hb & Hc & Hd & _). simpl fmap. cbn [app]. rewrite !decode_letter by (simpl; lia || done).
    simpl app. cbn [decode]. rewrite sextet_letter by done. rewrite IH by (simpl; lia). by rewrite Hq.
Qed.

Lemma DecodeString_Encode b : DecodeString (EncodeToString b) = Ok b.
Proof. unfold DecodeString, EncodeToString. rewrite chars_str. apply decode_encode. Qed.

End Base64.
