(* ===== verification/WireGuard.v ===== *)
(** * The overlay applier (ApplyWireGuard of
      src/vendor/github.com/openweft/weft-microvm-init/pkg/network, wired as
      meshApply by src/cmd/weft-microvm-agent/mesh_linux.go)

    A mesh update is checked in full, its private key is staged in a temporary
    file, the WireGuard library brings the interface up from that file, and the
    file is removed.  The library and the netlink calls are the class
    [WgKernel]; the temporary file is a file of [FileSys], so that every call on
    it may fail. *)

From S2P Require Import Prelude GoLib FileSys GoPath FsLogic FsExec NetIP Base64 Pod Bus.
Import NetIP Pod.
Local Open Scope Z_scope.

Module WireGuard.

(** ** Translation of the peers (wgpeers.go) *)

Definition keyLen : nat := 32.

(** [wgtransport.Peer]. *)
Record Peer := {
  PublicKey : string;
  AllowedIPs : list (Addr * Z);
  Endpoint : string;
  PersistentKeepalive : Z
}.

Fixpoint allowedIPs (i : Z) (cidrs : list string) : result (list (Addr * Z)) :=
  match cidrs with
  | [] => Ok []
  | cidr :: cidrs' =>
      match ParsePrefix cidr with
      | Err e => Err (Errorf "peer %d allowed_ip %q: %w" [EInt i; EStr cidr; EErr e])
      | Ok pref => match allowedIPs i cidrs' with Err e => Err e | Ok l => Ok (pref :: l) end
      end
  end.

Definition key_ok (b64 : string) : bool :=
  match Base64.DecodeString b64 with Ok k => bool_decide (length k = keyLen) | Err _ => false end.

Fixpoint buildPeers (i : Z) (ps : list WGPeer) : result (list Peer) :=
  match ps with
  | [] => Ok []
  | p :: ps' =>
      if negb (key_ok (wp_PublicKey p)) then Err (Errorf "peer %d public_key: invalid base64/length" [EInt i])
      else match allowedIPs i (wp_AllowedIPs p) with
           | Err e => Err e
           | Ok allowed =>
               match buildPeers (i + 1) ps' with
               | Err e => Err e
               | Ok out =>
                   Ok ({| PublicKey := wp_PublicKey p; AllowedIPs := allowed; Endpoint := wp_Endpoint p;
                          PersistentKeepalive := wp_PersistentKeepalive p |} :: out)
               end
           end
  end.

(** [netip.AddrFromSlice] and [Addr.Unmap]. *)
Definition AddrFromSlice (b : bytes) : option Addr :=
  if decide (length b = 4%nat) then Some (Addr4 b)
  else if decide (length b = 16%nat) then Some (Addr6 b "") else None.

Definition Unmap (a : Addr) : Addr :=
  match a with
  | Addr6 b _ => if decide (take 12 b = v4InV6Prefix) then Addr4 (drop 12 b) else a
  | Addr4 _ => a
  end.

(** [None] stands for a nil IP. *)
Definition overlayLocalIP (ip : option bytes) : result Addr :=
  match ip with
  | None => Err (errors_New "wireguard address is required")
  | Some b =>
      match AddrFromSlice b with
      | None => Err (Errorf "wireguard address %v: not a valid IP" [EStr (str b)])
      | Some a => Ok (Unmap a)
      end
  end.

(** ** Bringing the interface up (wireguard_linux.go) *)

(** [wgtransport.ServerConfig], kernel backend. *)
Record ServerConfig := {
  InterfaceName : string;
  PrivateKeyPath : string;
  LocalIP : Addr;
  ListenPort : Z;
  Peers : list Peer
}.

(** The library and the kernel: bring-up sees the file system it reads the key
    from. *)
Class WgKernel (N Closer : Type) := {
  BringUp : ServerConfig -> fsys -> N -> result Closer * N;
  ifaceIndex : string -> N -> result Z * N;
  addrAdd : Z -> bytes -> IPNet -> N -> gerr * N
}.

Section stage.
Local Open Scope os_scope.

(** [os.CreateTemp] with the name it settles on: created, never truncated. *)
Definition create_excl (p : path) (fs : fsys) : result unit * fsys :=
  match p with
  | [] => (Err EEXIST, fs)
  | _ =>
      match lookup_path fs (parent p) with
      | Err e => (Err e, fs)
      | Ok (NFile _) => (Err ENOTDIR, fs)
      | Ok NDir => match fs !! p with Some _ => (Err EEXIST, fs) | None => (Ok tt, <[p := NFile ""]> fs) end
      end
  end.

Definition os_CreateTemp (p : string) : M unit := syscall (guarded (create_excl (path_of p))).
Definition os_WriteString (p data : string) : M unit := syscall (write_data (path_of p) data).

(** Chmod and Close of the open file: they may fail. *)
Definition os_Chmod (p : string) : M unit := syscall (guarded (fun fs => (Ok tt, fs))).
Definition os_Close (p : string) : M unit := syscall (guarded (fun fs => (Ok tt, fs))).

Definition stageError (e : error) : error := Errorf "stage wg private key: %w" [EErr e].

(** A failed step closes the file unless the step was the close, and removes it. *)
Definition stagePrivateKey (tmp b64 : string) : M string :=
  r <~ os_CreateTemp tmp ;;
  match r with
  | Err e => ofail (stageError e)
  | Ok _ =>
      r <~ os_WriteString tmp (b64 +:+ String "010" "") ;;
      match r with
      | Err e => (_ <~ os_Close tmp ;; _ <~ os_Remove tmp ;; ofail (stageError e))
      | Ok _ =>
          r <~ os_Chmod tmp ;;
          match r with
          | Err e => (_ <~ os_Close tmp ;; _ <~ os_Remove tmp ;; ofail (stageError e))
          | Ok _ =>
              r <~ os_Close tmp ;;
              match r with
              | Err e => (_ <~ os_Remove tmp ;; ofail (stageError e))
              | Ok _ => oret tmp
              end
          end
      end
  end.

Definition cleanupTmpKey (path : string) : M unit :=
  if decide (path = "") then oret tt else (_ <~ os_Remove path ;; oret tt).
End stage.

Section apply.
Context {N Closer : Type} `{WgKernel N Closer}.

Record world := mkWorld { w_os : os; w_net : N; w_applier : option Closer }.

Definition with_os {A} (c : M A) (w : world) : result A * world :=
  let '(r, o) := c (w_os w) in (r, mkWorld o (w_net w) (w_applier w)).

(** What is checked before anything is touched. *)
Definition checkWireGuard (wg : WireGuard) : result (bytes * IPNet * list Peer * Addr) :=
  match Base64.DecodeString (wg_PrivateKey wg) with
  | Err e => Err (Errorf "wireguard private_key: %w" [EErr e])
  | Ok priv =>
      if negb (bool_decide (length priv = keyLen)) then
        Err (Errorf "wireguard private_key must be %d bytes, got %d" [EInt (Z.of_nat keyLen); EInt (Z.of_nat (length priv))])
      else
        let overlay := if decide (wg_Address wg = "") then Ok None
                       else match ParseCIDR (wg_Address wg) with
                            | Err e => Err (Errorf "wireguard address %q: %w" [EStr (wg_Address wg); EErr e])
                            | Ok x => Ok (Some x)
                            end in
        match overlay with
        | Err e => Err e
        | Ok ov =>
            match buildPeers 0 (wg_Peers wg) with
            | Err e => Err e
            | Ok peers =>
                match overlayLocalIP (fst <$> ov), ov with
                | Ok localIP, Some (ip, ipnet) => Ok (ip, ipnet, peers, localIP)
                | Err e, _ => Err e
                | _, None => Err (errors_New "wireguard address is required")
                end
            end
        end
  end.

Definition ifaceName (wg : WireGuard) : string := if decide (wg_Interface wg = "") then "wg0" else wg_Interface wg.

(** The part between staging and the deferred clean-up. *)
Definition bringUp (wg : WireGuard) (keyPath : string) (chk : bytes * IPNet * list Peer * Addr) (w : world) : gerr * world :=
  let '(ip, ipnet, peers, localIP) := chk in
  let iface := ifaceName wg in
  let cfg := {| InterfaceName := iface; PrivateKeyPath := keyPath; LocalIP := localIP;
                ListenPort := wg_ListenPort wg; Peers := peers |} in
  let '(r, n) := BringUp cfg (files (w_os w)) (w_net w) in
  match r with
  | Err e => (Some (Errorf "wireguard bring-up %s: %w" [EStr iface; EErr e]), mkWorld (w_os w) n (w_applier w))
  | Ok closer =>
      let '(r, n) := ifaceIndex iface n in
      match r with
      | Err e => (Some (Errorf "resolve %s after bring-up: %w" [EStr iface; EErr e]), mkWorld (w_os w) n (Some closer))
      | Ok idx =>
          let '(err, n) := addrAdd idx ip ipnet n in
          let w := mkWorld (w_os w) n (Some closer) in
          match err with
          | Some e => if errors_Is e "EEXIST" then (None, w)
                      else (Some (Errorf "addr add %s on %s: %w" [EStr (wg_Address wg); EStr iface; EErr e]), w)
          | None => (None, w)
          end
      end
  end.

(** [tmp] is the name os.CreateTemp picks. *)
Definition ApplyWireGuard (tmp : string) (wg : option WireGuard) (w : world) : gerr * world :=
  match wg with
  | None => (None, w)
  | Some wg =>
      match checkWireGuard wg with
      | Err e => (Some e, w)
      | Ok chk =>
          let '(r, w) := with_os (stagePrivateKey tmp (wg_PrivateKey wg)) w in
          match r with
          | Err e => (Some e, w)
          | Ok keyPath =>
              let '(err, w) := bringUp wg keyPath chk w in
              let '(_, w) := with_os (cleanupTmpKey keyPath) w in
              (err, w)
          end
      end
  end.
End apply.
Arguments world : clear implicits.

(** ** The key file *)

Lemma remove_node_file p fs d : p <> [] -> lookup_path fs p = Ok (NFile d) -> remove_node p fs = (Ok tt, delete p fs).
Proof. intros Hp Hl. unfold remove_node. destruct p; [done|]. by rewrite Hl. Qed.

Lemma create_excl_cases p fs : p <> [] -> fs !! p = None ->
  (exists e, create_excl p fs = (Err e, fs)) \/
  (lookup_path fs (parent p) = Ok NDir /\ create_excl p fs = (Ok tt, <[p := NFile ""]> fs)).
Proof.
  intros Hp Hf. unfold create_excl. destruct p; [done|].
  destruct (lookup_path fs _) as [[d|]|e]; [left; by eexists|rewrite Hf; by right|left; by eexists].
Qed.

Section key_file.
Context (tmp : string) (fs0 : fsys).
Context (Hwf : wf fs0) (Hne : path_of tmp <> []) (Hfresh : fs0 !! path_of tmp = None).

Definition staged (o : os) : Prop := exists d, files o = <[path_of tmp := NFile d]> fs0.

(** The number of the system call, counted from 0, that removes the file once it
    has been created: after create, write, chmod and close, or after create, write
    and the close of the failed-write branch.  [spared]: the schedule lets that
    one call through; it may fail any of the others. *)
Definition removal (fl : list fault) : nat := match fl !! 1%nat with Some (Some _) => 3 | _ => 4 end.
Definition spared (fl : list fault) : Prop := forall ft, fl !! removal fl <> Some (Some ft).

Lemma sys_files {A} (f : fault -> fsys -> result A * fsys) o :
  files (syscall f o).2 = (f (hd None (faults o)) (files o)).2 /\ (syscall f o).1 = (f (hd None (faults o)) (files o)).1.
Proof.
  unfold syscall. replace (match faults o with [] => None | x :: _ => x end) with (hd None (faults o)) by (by destruct (faults o)).
  by destruct (f _ (files o)).
Qed.

Lemma sys_faults {A} (f : fault -> fsys -> result A * fsys) o : faults (syscall f o).2 = tail (faults o).
Proof. unfold syscall. by destruct (f _ (files o)). Qed.

Lemma staged_write o data : staged o -> staged (os_WriteString tmp data o).2.
Proof.
  intros [d Hd]. unfold staged, os_WriteString. rewrite (proj1 (sys_files _ o)), Hd. unfold write_data.
  destruct (hd None (faults o)) as [[n e]|]; simpl; rewrite insert_insert_eq; by eexists.
Qed.

(** A write or a harmless call fails only by its entry of the schedule. *)
Lemma write_result o data : (os_WriteString tmp data o).1 = match hd None (faults o) with Some (_, e) => Err e | None => Ok tt end.
Proof. unfold os_WriteString. rewrite (proj2 (sys_files _ o)). by destruct (hd None (faults o)) as [[n e]|]. Qed.

Lemma staged_quiet o : staged o -> staged (syscall (guarded (fun fs => (Ok tt, fs))) o).2.
Proof.
  intros [d Hd]. exists d. rewrite (proj1 (sys_files _ o)). unfold guarded. by destruct (hd None (faults o)) as [[n e]|].
Qed.

Lemma staged_node d : node_at fs0 (parent (path_of tmp)) = Some NDir -> wf (<[path_of tmp := NFile d]> fs0).
Proof. intros Hdir. apply wf_insert_file; [done..|]. intros n E. congruence. Qed.

Lemma remove_staged o : node_at fs0 (parent (path_of tmp)) = Some NDir -> staged o ->
  (files (os_Remove tmp o).2 = fs0 \/ staged (os_Remove tmp o).2) /\
  (hd None (faults o) = None -> files (os_Remove tmp o).2 = fs0).
Proof.
  intros Hdir [d Hd]. unfold staged, os_Remove. rewrite (proj1 (sys_files _ o)).
  destruct (hd None (faults o)) as [[n e]|]; cbn [guarded]; [split; [right; by exists d|done]|].
  assert ((remove_node (path_of tmp) (files o)).2 = fs0) as ->; [|by split; [left|]].
  rewrite (remove_node_file _ _ d); [simpl; rewrite Hd; by rewrite delete_insert_id|done|].
  apply lookup_path_ok; [rewrite Hd; by apply staged_node|]. rewrite node_at_ne by done.
  by rewrite Hd, lookup_insert_eq.
Qed.

(** Creation: nothing, or an empty file in an existing directory. *)
Lemma create_cases o : files o = fs0 ->
  match (os_CreateTemp tmp o).1 with
  | Err _ => files (os_CreateTemp tmp o).2 = fs0
  | Ok _ => staged (os_CreateTemp tmp o).2 /\ node_at fs0 (parent (path_of tmp)) = Some NDir
  end.
Proof.
  intros Ho. unfold os_CreateTemp. destruct (sys_files (guarded (create_excl (path_of tmp))) o) as [E2 E1].
  rewrite E1. unfold staged. rewrite E2, Ho. unfold guarded. destruct (hd None (faults o)) as [[n e]|]; [done|].
  destruct (create_excl_cases (path_of tmp) fs0 Hne Hfresh) as [[e ->]|[El ->]]; simpl; [done|].
  split; [by eexists|]. by apply lookup_path_ok in El.
Qed.

(** The entry of the schedule for the removal, seen from the calls before it. *)
Lemma spared_write fl ft rest n : drop n fl = Some ft :: rest -> n = 1%nat -> spared fl -> hd None (drop 3 fl) = None.
Proof.
  intros Hd -> Hs. destruct fl as [|a [|b [|c [|e fl]]]]; simplify_eq/=; try done.
  unfold spared, removal in Hs. simpl in Hs. destruct e as [e|]; [|done]. by destruct (Hs e).
Qed.

Lemma spared_later fl : hd None (drop 1 fl) = None -> spared fl -> hd None (drop 4 fl) = None.
Proof.
  intros Hd Hs. destruct fl as [|a [|b [|c [|e [|g fl]]]]]; simplify_eq/=; try done.
  unfold spared, removal in Hs. simpl in Hs. destruct g as [g|]; [|done]. by destruct (Hs g).
Qed.

Lemma stage_cases b64 o : files o = fs0 ->
  let o' := (stagePrivateKey tmp b64 o).2 in
  match (stagePrivateKey tmp b64 o).1 with
  | Ok kp => kp = tmp /\ staged o' /\ node_at fs0 (parent (path_of tmp)) = Some NDir /\
             (spared (faults o) -> hd None (faults o') = None)
  | Err _ => (files o' = fs0 \/ staged o') /\ (spared (faults o) -> files o' = fs0)
  end.
Proof.
  intros Ho. cbv zeta. unfold stagePrivateKey, ocatch. pose proof (create_cases o Ho) as Hc.
  pose proof (sys_faults (guarded (create_excl (path_of tmp))) o) as F1. fold (os_CreateTemp tmp) in F1.
  destruct (os_CreateTemp tmp o) as [[[]|e] o1]; simpl in Hc, F1; [|by split; [left|]]. destruct Hc as [Hs Hdir].
  pose proof (staged_write o1 (b64 +:+ String "010" "") Hs) as Hs2.
  pose proof (write_result o1 (b64 +:+ String "010" "")) as Hw.
  pose proof (sys_faults (write_data (path_of tmp) (b64 +:+ String "010" "")) o1) as F2.
  fold (os_WriteString tmp (b64 +:+ String "010" "")) in F2.
  destruct (os_WriteString tmp _ o1) as [r o2]; simpl in Hs2, Hw, F2. subst r. rewrite F1 in *.
  destruct (hd None (tail (faults o))) as [[n e]|] eqn:Hh; cbn [fst snd].
  { unfold os_Close. pose proof (staged_quiet o2 Hs2) as Hs3.
    pose proof (sys_faults (guarded (fun fs => (Ok tt, fs))) o2) as F3.
    destruct (syscall _ o2) as [? o3]; simpl in Hs3, F3.
    destruct (remove_staged o3 Hdir Hs3) as [Hr Hk]. destruct (os_Remove tmp o3) as [? o4]. split; [exact Hr|].
    intros Hsp. apply Hk. rewrite F3, F2. destruct (faults o) as [|a [|b fl]]; try done. simpl in Hh. subst b.
    exact (spared_write (a :: Some (n, e) :: fl) (n, e) fl 1 eq_refl eq_refl Hsp). }
  assert (spared (faults o) -> hd None (drop 4 (faults o)) = None) as Hlater.
  { apply spared_later. by destruct (faults o) as [|a [|b fl]]. }
  unfold os_Chmod. pose proof (staged_quiet o2 Hs2) as Hs3.
  pose proof (sys_faults (guarded (fun fs => (Ok tt, fs))) o2) as F3.
  destruct (syscall _ o2) as [r o3]; simpl in Hs3, F3.
  pose proof (staged_quiet o3 Hs3) as Hs4. pose proof (sys_faults (guarded (fun fs => (Ok tt, fs))) o3) as F4.
  unfold os_Close. destruct (syscall _ o3) as [r4 o4] eqn:E4; simpl in Hs4, F4.
  assert (spared (faults o) -> hd None (faults o4) = None) as H4.
  { intros Hsp. rewrite F4, F3, F2. by destruct (faults o) as [|a [|b [|c [|e fl]]]]; try apply Hlater in Hsp. }
  destruct (remove_staged o4 Hdir Hs4) as [Hr Hk].
  destruct r as [[]|e]; cbn [fst snd]; rewrite E4; [destruct r4 as [[]|e]; cbn [fst snd]; [done|]|];
    destruct (os_Remove tmp o4) as [? o5]; cbn [ofail fst snd] in *; auto.
Qed.
End key_file.

Section properties.
Context {N Closer : Type} `{WgKernel N Closer}.
Local Abbreviation world := (world N Closer).

Lemma bringUp_os wg kp chk (w : world) : w_os (bringUp wg kp chk w).2 = w_os w.
Proof. unfold bringUp. repeat (case_match; simplify_eq/=); done. Qed.

(** C17.  The private key does not stay on disk.  Any of the calls that stage the
    key may fail, the library and the kernel may do and answer anything: as long as
    the one system call that removes the temporary file is let through, the file
    system is, when ApplyWireGuard returns, exactly what it was before; and if that
    call fails, the temporary file is all that differs. *)
Theorem private_key_not_left tmp wg (w : world) :
  wf (files (w_os w)) -> path_of tmp <> [] -> files (w_os w) !! path_of tmp = None ->
  let w' := (ApplyWireGuard tmp (Some wg) w).2 in
  (spared (faults (w_os w)) -> files (w_os w') = files (w_os w)) /\
  (files (w_os w') = files (w_os w) \/ exists d, files (w_os w') = <[path_of tmp := NFile d]> (files (w_os w))).
Proof.
  intros Hwf Hne Hfresh. unfold ApplyWireGuard. destruct (checkWireGuard wg) as [chk|e]; [|by split; [|left]].
  unfold with_os. pose proof (stage_cases tmp _ Hwf Hne Hfresh (wg_PrivateKey wg) (w_os w) eq_refl) as Hc.
  destruct (stagePrivateKey tmp (wg_PrivateKey wg) (w_os w)) as [[kp|e] o1]; simpl in Hc; [|by destruct Hc].
  destruct Hc as (-> & Hs & Hdir & Hsp).
  pose proof (bringUp_os wg tmp chk (mkWorld o1 (w_net w) (w_applier w))) as Hb.
  destruct (bringUp wg tmp chk _) as [err w2]. simpl in Hb.
  assert (tmp <> "") as Hnil by (intros ->; done). unfold cleanupTmpKey. rewrite decide_False by done. unfold ocatch.
  destruct (remove_staged tmp _ Hwf Hne Hfresh o1 Hdir Hs) as [Hr Hk]. rewrite <- Hb in Hr, Hk.
  rewrite <- Hb in Hsp. destruct (os_Remove tmp (w_os w2)). auto.
Qed.

(** ** What is checked before anything is touched *)








End properties.

(** ** At concrete values *)

(** A kernel that records the configurations brought up and always succeeds. *)
#[local] Instance recording : WgKernel (list (ServerConfig * option node)) nat := {|
  BringUp cfg fs n := (Ok (length n), n ++ [(cfg, fs !! path_of (PrivateKeyPath cfg))]);
  ifaceIndex _ n := (Ok 3, n);
  addrAdd _ _ _ n := (None, n) |}.

Definition some_key : string := Base64.EncodeToString (replicate 32 "k"%char).

Definition mesh1 : WireGuard :=
  {| wg_Interface := ""; wg_PrivateKey := some_key; wg_ListenPort := 51820; wg_Address := "10.9.0.1/24";
     wg_Peers := [{| wp_PublicKey := some_key; wp_Endpoint := "192.0.2.1:51820"; wp_AllowedIPs := ["10.9.0.2/32"];
                     wp_PersistentKeepalive := 25 |}] |}.

Definition guest : world (list (ServerConfig * option node)) nat :=
  mkWorld (mk_os {[["tmp"] := NDir]} [] []) [] None.

Lemma guest_wf : wf (files (w_os guest)).
Proof.
  split; [done|]. intros q c n. simpl. intros Hq. apply lookup_singleton_Some in Hq as [Hq _].
  destruct q; [done|]. by destruct q.
Qed.

(** The write of the key stops after five bytes, and so does the close; the
    removal, the fourth call, succeeds.  In the second schedule staging succeeds. *)
Definition disk_full : world (list (ServerConfig * option node)) nat :=
  mkWorld (mk_os {[["tmp"] := NDir]} [None; Some (5%nat, ENOTSUP); Some (0%nat, ENOTSUP); None; Some (0%nat, ENOTSUP)] []) [] None.

Lemma private_key_not_left_witness :
  files (w_os (ApplyWireGuard "/tmp/wg-priv-1" (Some mesh1) disk_full).2) = {[["tmp"] := NDir]} /\
  files (w_os (ApplyWireGuard "/tmp/wg-priv-1" (Some mesh1) guest).2) = {[["tmp"] := NDir]} /\
  length (history (w_os (ApplyWireGuard "/tmp/wg-priv-1" (Some mesh1) guest).2)) = 5%nat.
Proof.
  split; [|split; [|vm_compute; reflexivity]].
  - apply (private_key_not_left "/tmp/wg-priv-1" mesh1 disk_full); [apply guest_wf|done|done|].
    intros ft. simpl. congruence.
  - apply (private_key_not_left "/tmp/wg-priv-1" mesh1 guest); [apply guest_wf|done|done|].
    intros ft. simpl. congruence.
Defined.



Example mesh1_applied :
  fst <$> w_net (ApplyWireGuard "/tmp/wg-priv-1" (Some mesh1) guest).2 =
  [{| InterfaceName := "wg0"; PrivateKeyPath := "/tmp/wg-priv-1";
      LocalIP := Addr4 [byte_of 10; byte_of 9; byte_of 0; byte_of 1]; ListenPort := 51820;
      Peers := [{| PublicKey := some_key; AllowedIPs := [(Addr4 [byte_of 10; byte_of 9; byte_of 0; byte_of 2], 32)];
                   Endpoint := "192.0.2.1:51820"; PersistentKeepalive := 25 |}] |}].
Proof. vm_compute. reflexivity. Qed.

End WireGuard.
