(* ===== verification/CubeFS.v ===== *)
(** * The share engine (Mount, Unmount and their helpers of
      src/vendor/github.com/openweft/weft-microvm-init/pkg/cubefs/mount.go and
      config.go)

    Mounting a share writes a client configuration, starts cfs-client and polls
    /proc/mounts until the mount shows up; unmounting runs fusermount or umount
    and kills the client.  The file system is that of [FileSys]; the other
    system calls (processes, the mount table, the clock) are the class [Host].
    The engine is plugged into the registry of [Mounts] as a [Mounter], and the
    pair is shown never to lose a client process. *)

From S2P Require Import Prelude GoLib FileSys GoPath Words Json Reflect Pod Messages Bus Mounts.
Import Pod.
Import (hints) Messages.
Local Open Scope Z_scope.

Module CubeFS.

Definition runRoot : string := "/run/weft/cubefs".
Definition Binary : string := "cfs-client".

(** ** The client configuration (config.go) *)

Record clientCfg := {
  MountPoint : string; VolName : string; Owner : string; MasterAddr : string; LogDir : string;
  LogLevel : string; AccessKey : string; SecretKey : string; SubDir : string; ReadOnly : bool
}.

(** Its JSON, written by json.MarshalIndent. *)
Definition clientCfg_type : Reflect.gotype := Reflect.TStruct [
  Messages.req "mountPoint" Reflect.TString; Messages.req "volName" Reflect.TString; Messages.req "owner" Reflect.TString;
  Messages.req "masterAddr" Reflect.TString; Messages.req "logDir" Reflect.TString; Messages.req "logLevel" Reflect.TString;
  Messages.opt "accessKey" Reflect.TString; Messages.opt "secretKey" Reflect.TString; Messages.opt "subdir" Reflect.TString;
  Messages.opt "rdonly" Reflect.TBool].
#[export] Instance clientCfg_message : Messages.Message clientCfg := {|
  Messages.go_type := clientCfg_type;
  Messages.of_go v :=
    let s i := Messages.as_string (Messages.fld i v) in
    {| MountPoint := s 0%nat; VolName := s 1%nat; Owner := s 2%nat; MasterAddr := s 3%nat; LogDir := s 4%nat;
       LogLevel := s 5%nat; AccessKey := s 6%nat; SecretKey := s 7%nat; SubDir := s 8%nat;
       ReadOnly := Messages.as_bool (Messages.fld 9 v) |};
  Messages.to_go c := Reflect.GStruct [
    Messages.of_string (MountPoint c); Messages.of_string (VolName c); Messages.of_string (Owner c);
    Messages.of_string (MasterAddr c); Messages.of_string (LogDir c); Messages.of_string (LogLevel c);
    Messages.of_string (AccessKey c); Messages.of_string (SecretKey c); Messages.of_string (SubDir c);
    Reflect.GBool (ReadOnly c)] |}.

Definition config_json (c : clientCfg) : result string :=
  match Messages.MarshalIndent c with Ok b => Ok (str b) | Err e => Err e end.

#[export] Instance clientCfg_laws : Messages.MessageLaws clientCfg.
Proof.
  split; [reflexivity| |].
  - unfold Messages.go_type, Messages.of_go, clientCfg_message, clientCfg_type. cbv zeta. Messages.struct_respects.
  - intros []. unfold Messages.of_go, Messages.to_go, clientCfg_message, Messages.fld. cbn. by rewrite !str_chars.
Qed.

(** Reading the fields of a nil block panics; Validate rules it out. *)
Definition nilBlock : error := Sentinel "panic: nil CubeFS block".

Definition clientConfig (MarshalIndent : clientCfg -> result string) (spec : ShareMount) (logDir : string) : result string :=
  match sm_CubeFS spec with
  | None => Err nilBlock
  | Some c =>
      MarshalIndent {| MountPoint := sm_MountPoint spec; VolName := cf_Volume c; Owner := cf_Owner c;
        MasterAddr := SJoin (cf_Masters c) ","; LogDir := logDir; LogLevel := "warn";
        AccessKey := cf_AccessKey c; SecretKey := cf_SecretKey c; SubDir := cf_SubDir c; ReadOnly := sm_Readonly spec |}
  end.

(** ** The boot-time list (LoadShareMounts of pkg/pod/share.go) *)

Fixpoint validateAll (path : string) (ms : list ShareMount) : gerr :=
  match ms with
  | [] => None
  | m :: ms' =>
      match ShareMount_Validate m with
      | Some e => Some (Errorf "share mounts %s: %w" [EStr path; EErr e])
      | None => validateAll path ms'
      end
  end.

Definition LoadShareMounts (Unmarshal : string -> result (list ShareMount)) (path : string) : M (list ShareMount) :=
  ocatch (os_ReadFile path) (fun r =>
  match r with
  | Err e => if IsNotExist e then oret [] else ofail e
  | Ok b =>
      match Unmarshal b with
      | Err e => ofail (Errorf "share mounts %s: %w" [EStr path; EErr e])
      | Ok mounts => match validateAll path mounts with Some e => ofail e | None => oret mounts end
      end
  end).

Lemma validateAll_ok path ms : validateAll path ms = None -> Forall (fun m => ShareMount_Validate m = None) ms.
Proof. induction ms as [|m ms IH]; simpl; [constructor|]. destruct (ShareMount_Validate m) eqn:Hm; [done|]. auto. Qed.

Lemma LoadShareMounts_valid Unmarshal path o ms : (LoadShareMounts Unmarshal path o).1 = Ok ms ->
  Forall (fun m => ShareMount_Validate m = None) ms.
Proof.
  unfold LoadShareMounts, ocatch. destruct (os_ReadFile path o) as [[b|e] o']; [|destruct (IsNotExist e); intros [= <-]; constructor].
  destruct (Unmarshal b) as [ms'|e]; [|done]. destruct (validateAll path ms') eqn:Hv; [done|]. intros [= <-].
  by eapply validateAll_ok.
Qed.

(** A share that passed Validate and is to be mounted has its CubeFS block, so
    rendering its configuration does not panic. *)
Lemma valid_has_block m : ShareMount_Validate m = None -> sm_Action m <> MountActionUnmount -> is_Some (sm_CubeFS m).
Proof. unfold ShareMount_Validate. intros Hv Ha. repeat case_decide; try done. by destruct (sm_CubeFS m). Qed.

(** ** The host *)

Class Host (E : Type) := {
  cmd_Start : list string -> E -> gerr * E;
  cmd_Run : list string -> E -> gerr * E;
  LookPath : string -> E -> gerr * E;
  read_proc_mounts : E -> result string * E;
  now : E -> Z * E;
  sleep : Z -> E -> E
}.

(** The clock runs forward, and a sleep lasts at least as long as asked. *)
Class HostLaws (E : Type) `{Host E} := {
  clock : E -> Z;
  now_clock : forall e, (now e).1 = clock e /\ clock e <= clock (now e).2;
  read_clock : forall e, clock e <= clock (read_proc_mounts e).2;
  sleep_clock : forall d e, clock e + d <= clock (sleep d e)
}.

(** ** Reading /proc/mounts *)

Definition newline : ascii := "010"%char.
Definition carriage : ascii := "013"%char.

(** bufio.Scanner with ScanLines: a final carriage return is dropped, a line of
    64 KiB or more ends the scan, an empty last line is no line. *)
Definition maxTokenSize : Z := 65536.

Definition dropCR (l : bytes) : bytes :=
  match last l with Some c => if decide (c = carriage) then take (pred (length l)) l else l | None => l end.

Fixpoint scanLines (ls : list bytes) : list bytes :=
  match ls with
  | [] => []
  | l :: ls' =>
      if bool_decide (ls' = []) && bool_decide (l = []) then []
      else if maxTokenSize <=? Z.of_nat (length l) then []
      else dropCR l :: scanLines ls'
  end.

Definition lineHas (target : string) (l : bytes) : bool :=
  match Fields (str l) with _ :: f1 :: _ => bool_decide (f1 = target) | _ => false end.

Definition mountsHave (target content : string) : bool :=
  existsb (lineHas target) (scanLines (GoLib.split newline (chars content))).

Section engine.
Context {E : Type} `{Host E}.
Context (MarshalIndent : clientCfg -> result string).

Definition isMounted (target : string) (e : E) : bool * E :=
  let '(r, e) := read_proc_mounts e in
  match r with Err _ => (false, e) | Ok content => (mountsHave target content, e) end.

(** Durations in nanoseconds. *)
Definition pollEvery : Z := 200 * 10 ^ 6.
Definition mountTimeout : Z := 30 * 10 ^ 9.

(** The polling loop; [None] while it has not returned. *)
Fixpoint waitLoop (fuel : nat) (target : string) (timeout deadline : Z) (e : E) : option (gerr * E) :=
  match fuel with
  | O => None
  | S fuel' =>
      let '(m, e) := isMounted target e in
      if m then Some (None, e)
      else
        let '(t, e) := now e in
        if deadline <? t then
          Some (Some (Errorf "mount %s did not appear within %s" [EStr target; EInt timeout]), e)
        else waitLoop fuel' target timeout deadline (sleep pollEvery e)
  end.

Definition waitFuel (timeout : Z) : nat := Z.to_nat (timeout / pollEvery + 2).

Definition waitMounted (target : string) (timeout : Z) (e : E) : option (gerr * E) :=
  let '(t0, e) := now e in waitLoop (waitFuel timeout) target timeout (t0 + timeout) e.

Definition unmountCommands (target : string) : list (list string) :=
  [["fusermount3"; "-u"; target]; ["fusermount"; "-u"; target]; ["umount"; target]].

Fixpoint tryCommands (cmds : list (list string)) (target : string) (e : E) : gerr * E :=
  match cmds with
  | [] => (Some (Errorf "could not unmount %s (no working fusermount/umount)" [EStr target]), e)
  | c :: cmds' =>
      let '(err, e) := LookPath (default "" (head c)) e in
      match err with
      | Some _ => tryCommands cmds' target e
      | None =>
          let '(err, e) := cmd_Run c e in
          match err with None => (None, e) | Some _ => tryCommands cmds' target e end
      end
  end.

Definition unmountPath (target : string) (e : E) : gerr * E := tryCommands (unmountCommands target) target e.

(** ** Mount and Unmount *)

(** [c_running]: the clients started and not killed (some may have exited on
    their own); [c_logs]: the clients whose log file is open here. *)
Record state := mkState {
  c_os : os;
  c_env : E;
  c_running : gset nat;
  c_next : nat;
  c_logs : gset nat
}.

Record Mounted := mkMounted { m_mountPoint : string; m_pid : nat }.

(** Kill, wait for the reaper, close the log. *)
Definition stopClient (pid : nat) (s : state) : state :=
  mkState (c_os s) (c_env s) (c_running s ∖ {[pid]}) (c_next s) (c_logs s ∖ {[pid]}).

Definition Unmount (m : Mounted) (s : state) : gerr * state :=
  let '(uerr, e) := unmountPath (m_mountPoint m) (c_env s) in
  (uerr, stopClient (m_pid m) (mkState (c_os s) e (c_running s) (c_next s) (c_logs s))).

Definition with_os {A} (c : M A) (s : state) : result A * state :=
  let '(r, o) := c (c_os s) in (r, mkState o (c_env s) (c_running s) (c_next s) (c_logs s)).

Definition os_Create (p : string) : M unit := syscall (guarded (open_trunc (path_of p))).

(** From the configuration on disk to the running client.  The loop of
    waitMounted always returns, so the default is never taken. *)
Definition startClient (spec : ShareMount) (cfgPath logDir : string) (s : state) : result Mounted * state :=
  let '(lr, s) := with_os (os_Create (Join logDir "cfs-client.out")) s in
  let logged := is_Ok lr in
  let '(err, e) := cmd_Start [Binary; "-f"; "-c"; cfgPath] (c_env s) in
  match err with
  | Some e1 => (Err (Errorf "start cfs-client: %w" [EErr e1]), mkState (c_os s) e (c_running s) (c_next s) (c_logs s))
  | None =>
      let pid := c_next s in
      let '(werr, e) := default (Some (Sentinel "still polling"), e) (waitMounted (sm_MountPoint spec) mountTimeout e) in
      let s := mkState (c_os s) e ({[pid]} ∪ c_running s) (S pid) (if logged then {[pid]} ∪ c_logs s else c_logs s) in
      match werr with
      | Some e2 => (Err (Errorf "cubefs %q: %w" [EStr (sm_ID spec); EErr e2]), stopClient pid s)
      | None => (Ok (mkMounted (sm_MountPoint spec) pid), s)
      end
  end.

Definition Mount (spec : ShareMount) (s : state) : result Mounted * state :=
  if negb (bool_decide (backend spec = BackendCubeFS)) then
    (Err (Errorf "cubefs: unsupported backend %q" [EStr (backend spec)]), s)
  else
    let '(r, s) := with_os (os_MkdirAll (sm_MountPoint spec)) s in
    match r with
    | Err e => (Err (Errorf "mkdir mount point %s: %w" [EStr (sm_MountPoint spec); EErr e]), s)
    | Ok _ =>
        let runDir := Join runRoot (sm_ID spec) in
        let logDir := Join runDir "log" in
        let '(r, s) := with_os (os_MkdirAll logDir) s in
        match r with
        | Err e => (Err (Errorf "mkdir run dir %s: %w" [EStr runDir; EErr e]), s)
        | Ok _ =>
            match clientConfig MarshalIndent spec logDir with
            | Err e => (Err e, s)
            | Ok cfg =>
                let cfgPath := Join runDir "config.json" in
                let '(r, s) := with_os (os_WriteFile cfgPath cfg) s in
                match r with
                | Err e => (Err (Errorf "write cfs-client config: %w" [EErr e]), s)
                | Ok _ => startClient spec cfgPath logDir s
                end
            end
        end
    end.

(** Boot-time mounts, from the file (applyBootMounts of main.go; the loop is in [Mounts]). *)
Definition bootMounts `{!Mounts.Mounter state Mounted} (Unmarshal : string -> result (list ShareMount)) (path : string)
    (st : gmap string Mounted * state) : gerr * (gmap string Mounted * state) :=
  let '(r, s) := with_os (LoadShareMounts Unmarshal path) st.2 in Mounts.applyBootMounts r (st.1, s).

(** The engine as the registry uses it. *)
Definition cubefs_engine : Mounts.Mounter state Mounted := {| Mounts.mount := Mount; Mounts.unmount := Unmount |}.
End engine.
Arguments state : clear implicits.

(** ** Polling ends *)

Section polling.
Context {E : Type} `{Host E, !HostLaws E}.

Lemma isMounted_clock target e : clock e <= clock (isMounted target e).2.
Proof. unfold isMounted. pose proof (read_clock e). destruct (read_proc_mounts e) as [[|] e']; done. Qed.

Lemma waitLoop_returns fuel target timeout deadline e :
  (0 < fuel)%nat -> deadline < clock e + Z.of_nat (pred fuel) * pollEvery ->
  exists err e', waitLoop fuel target timeout deadline e = Some (err, e') /\
    match err with None => exists e1, isMounted target e1 = (true, e') | Some _ => deadline <= clock e' end.
Proof.
  revert e. induction fuel as [|fuel IH]; intros e Hpos Hd; [lia|]. cbn [waitLoop].
  pose proof (isMounted_clock target e) as H1.
  destruct (isMounted target e) as [[] e1] eqn:Hm; simpl in H1; [exists None, e1; split; [done|by exists e]|].
  destruct (now_clock e1) as [H2 H3]. destruct (now e1) as [t e2]. simpl in H2, H3. subst t.
  destruct (deadline <? clock e1) eqn:Ht; to_prop; [eexists _, _; split; [done|]; simpl; lia|].
  pose proof (sleep_clock pollEvery e2) as H4. destruct fuel as [|fuel]; [simpl in Hd; lia|].
  apply IH; [lia|]. simpl in *. unfold pollEvery in *. lia.
Qed.

(** C27.  Waiting for a mount ends: with the fuel given (one poll per 200 ms of the
    timeout, and two more) the loop always returns; it reports success only
    right after /proc/mounts showed the target, and the error only once the
    whole timeout has passed. *)
Theorem waitMounted_returns target timeout e : 0 <= timeout ->
  exists err e', waitMounted target timeout e = Some (err, e') /\
    match err with
    | None => exists e1, isMounted target e1 = (true, e')
    | Some _ => clock e + timeout <= clock e'
    end.
Proof.
  intros Ht. unfold waitMounted. destruct (now_clock e) as [H1 H2]. destruct (now e) as [t0 e1]. simpl in H1, H2. subst t0.
  destruct (waitLoop_returns (waitFuel timeout) target timeout (clock e + timeout) e1) as (err & e' & He & Hs).
  - unfold waitFuel. change pollEvery with 200000000. Z.to_euclidean_division_equations. lia.
  - unfold waitFuel. change pollEvery with 200000000. Z.to_euclidean_division_equations. lia.
  - eauto.
Qed.
End polling.

(** ** No client is lost *)

Section clients.
Context {E : Type} `{Host E}.
Context (MarshalIndent : clientCfg -> result string).

Abbreviation Registry := (gmap string Mounted).
#[local] Instance engine : Mounts.Mounter (state E) Mounted := cubefs_engine MarshalIndent.

(** Every running client is in the registry, once; a log is open only for a
    running client; process numbers are never reused. *)
Record accounted (st : Registry * state E) : Prop := {
  acc_running : forall pid, pid ∈ c_running st.2 -> exists id m, st.1 !! id = Some m /\ m_pid m = pid;
  acc_unique : forall id id' m m', st.1 !! id = Some m -> st.1 !! id' = Some m' -> m_pid m = m_pid m' -> id = id';
  acc_below : forall id m, st.1 !! id = Some m -> (m_pid m < c_next st.2)%nat;
  acc_logs : c_logs st.2 ⊆ c_running st.2
}.

Lemma acc_running_below st : accounted st -> forall pid, pid ∈ c_running st.2 -> (pid < c_next st.2)%nat.
Proof. intros Ha pid (id & m & Hm & <-)%(acc_running st Ha). by eapply acc_below. Qed.

(** What a step may do to the clients of a state: nothing, ... *)
Definition same_clients (s s' : state E) : Prop :=
  c_running s' = c_running s /\ c_logs s' = c_logs s /\ (c_next s <= c_next s')%nat.

Lemma with_os_clients {A} (c : M A) s : same_clients s (with_os c s).2.
Proof. unfold with_os, same_clients. by destruct (c (c_os s)). Qed.

Lemma same_clients_trans s1 s2 s3 : same_clients s1 s2 -> same_clients s2 s3 -> same_clients s1 s3.
Proof. unfold same_clients. intros (?&?&?) (?&?&?). split_and!; [congruence|congruence|lia]. Qed.

(** ... or start one fresh client. *)
Definition one_client (m : Mounted) (s s' : state E) : Prop :=
  (c_next s <= m_pid m)%nat /\ c_next s' = S (m_pid m) /\
  c_running s' = {[m_pid m]} ∪ c_running s /\ c_logs s' ⊆ {[m_pid m]} ∪ c_logs s.

Definition mount_clients (r : result Mounted) (s s' : state E) : Prop :=
  match r with Ok m => one_client m s s' | Err _ => same_clients s s' end.

Lemma mount_clients_after r s s1 s2 : same_clients s s1 -> mount_clients r s1 s2 -> mount_clients r s s2.
Proof.
  destruct r as [m|e]; simpl; [|by apply same_clients_trans]. unfold same_clients, one_client.
  intros (H1 & H2 & H3) (H4 & H5 & H6 & H7). rewrite <- H1, <- H2. split_and!; [lia|done|done|done].
Qed.

Definition bounded (s : state E) : Prop := forall pid, pid ∈ c_running s ∪ c_logs s -> (pid < c_next s)%nat.

Lemma same_clients_bounded s s' : same_clients s s' -> bounded s -> bounded s'.
Proof. intros (Hr & Hl & Hn) Hb pid. rewrite Hr, Hl. intros Hp%Hb. lia. Qed.

Lemma startClient_clients spec cfgPath logDir s : bounded s ->
  let '(r, s') := startClient spec cfgPath logDir s in mount_clients r s s'.
Proof.
  intros Hb. unfold startClient. pose proof (with_os_clients (os_Create (Join logDir "cfs-client.out")) s) as Hs.
  destruct (with_os _ s) as [lr s1]. simpl in Hs. pose proof (same_clients_bounded _ _ Hs Hb) as Hb1.
  destruct (cmd_Start _ _) as [[e1|] e]; [done|].
  destruct (default _ _) as [[e2|] e']; eapply mount_clients_after; try exact Hs; simpl.
  - assert (c_next s1 ∉ c_running s1 ∪ c_logs s1) as Hn by (intros ?%Hb1; lia).
    unfold same_clients, stopClient. simpl. split_and!; [set_solver| |lia].
    destruct (is_Ok lr); set_solver.
  - unfold one_client. simpl. split_and!; [lia|done|done|]. destruct (is_Ok lr); set_solver.
Qed.

Lemma Mount_clients spec s : bounded s -> let '(r, s') := Mount MarshalIndent spec s in mount_clients r s s'.
Proof.
  intros Hb. unfold Mount. case_bool_decide; simpl; [|done].
  pose proof (with_os_clients (os_MkdirAll (sm_MountPoint spec)) s) as H1.
  destruct (with_os _ s) as [[?|e] s1]; simpl in H1; [|done].
  match goal with |- context [with_os ?c s1] => pose proof (with_os_clients c s1) as H2; destruct (with_os c s1) as [[?|e] s2] end;
    simpl in H2; pose proof (same_clients_trans _ _ _ H1 H2) as H12; [|done].
  destruct (clientConfig _ _ _) as [cfg|e]; [|done].
  match goal with |- context [with_os ?c s2] => pose proof (with_os_clients c s2) as H3; destruct (with_os c s2) as [[?|e] s3] end;
    simpl in H3; pose proof (same_clients_trans _ _ _ H12 H3) as H13; [|done].
  pose proof (startClient_clients spec (Join (Join runRoot (sm_ID spec)) "config.json")
    (Join (Join runRoot (sm_ID spec)) "log") s3 (same_clients_bounded _ _ H13 Hb)) as H4.
  destruct (startClient _ _ _ _) as [r s']. by eapply mount_clients_after.
Qed.

Lemma Unmount_clients m s : let '(_, s') := Unmount m s in
  c_running s' = c_running s ∖ {[m_pid m]} /\ c_logs s' = c_logs s ∖ {[m_pid m]} /\ c_next s' = c_next s.
Proof. unfold Unmount. by destruct (unmountPath _ _) as [err e]. Qed.

Lemma accounted_bounded st : accounted st -> bounded st.2.
Proof.
  intros Ha pid Hp. apply (acc_running_below st Ha). pose proof (acc_logs st Ha). set_solver.
Qed.

Lemma accounted_same a s s' : same_clients s s' -> accounted (a, s) -> accounted (a, s').
Proof.
  intros (Hr & Hl & Hn) [H1 H2 H3 H4]. split; simpl in *; rewrite ?Hr, ?Hl; [done|done| |done].
  intros id m Hm%H3. lia.
Qed.

Lemma accounted_kill a s id m err s' : accounted (a, s) -> a !! id = Some m -> Unmount m s = (err, s') ->
  accounted (a, s') /\ accounted (delete id a, s').
Proof.
  intros [H1 H2 H3 H4] Hm Hu. pose proof (Unmount_clients m s) as Hc. rewrite Hu in Hc. destruct Hc as (Hr & Hl & Hn).
  split; split; simpl in *; rewrite ?Hr, ?Hl, ?Hn; [set_solver|done|done|set_solver| | | |set_solver].
  - intros pid [(id' & m' & Hm' & <-)%H1 Hne]%elem_of_difference. exists id', m'. split; [|done].
    rewrite lookup_delete_ne; [done|]. intros <-. set_solver.
  - intros id1 id2 m1 m2 [_ Hm1]%lookup_delete_Some [_ Hm2]%lookup_delete_Some. by apply H2.
  - intros id' m' [_ Hm']%lookup_delete_Some. by eapply H3.
Qed.

Lemma accounted_start a s id m s' : accounted (a, s) -> a !! id = None -> one_client m s s' ->
  accounted (<[id := m]> a, s').
Proof.
  intros [H1 H2 H3 H4] Hm (Hn & Hn' & Hr & Hl). split; simpl in *.
  - rewrite Hr. intros pid [->%elem_of_singleton|(id' & m' & Hm' & <-)%H1]%elem_of_union.
    + exists id, m. by rewrite lookup_insert_eq.
    + exists id', m'. rewrite lookup_insert_ne; [done|]. intros <-. congruence.
  - intros id1 id2 m1 m2 [[<- <-]|[_ Hm1]]%lookup_insert_Some [[<- <-]|[_ Hm2]]%lookup_insert_Some Hp; [done| | |by eapply H2].
    + apply H3 in Hm2. lia.
    + apply H3 in Hm1. lia.
  - rewrite Hn'. intros id' m' [[<- <-]|[_ Hm']]%lookup_insert_Some; [lia|]. apply H3 in Hm'. lia.
  - rewrite Hr. set_solver.
Qed.

(** The shares a step on [id] leaves alone: same entry, and a client that runs
    still runs. *)
Definition others_kept (id : string) (st st' : Registry * state E) : Prop :=
  forall id' m, id' <> id -> st.1 !! id' = Some m ->
    st'.1 !! id' = Some m /\ (m_pid m ∈ c_running st.2 -> m_pid m ∈ c_running st'.2).

Lemma remount_clients spec a s : accounted (a, s) -> a !! sm_ID spec = None ->
  let '(r, s') := Mount MarshalIndent spec s in
  let st' := (match r with Ok m => <[sm_ID spec := m]> a | Err _ => a end, s') in
  accounted st' /\ others_kept (sm_ID spec) (a, s) st'.
Proof.
  intros Ha Hn. pose proof (Mount_clients spec s (accounted_bounded _ Ha)) as Hm.
  destruct (Mount MarshalIndent spec s) as [[m|e] s']; simpl in Hm.
  - split; [by apply accounted_start with s|]. intros id' m' Hne Hl. simpl in *.
    rewrite lookup_insert_ne by done. destruct Hm as (_ & _ & -> & _). set_solver.
  - split; [by apply accounted_same with s|]. intros id' m' Hne Hl. simpl in *. destruct Hm as (-> & _). done.
Qed.

Lemma Apply_clients spec st : accounted st ->
  accounted (Mounts.Apply spec st).2 /\ others_kept (sm_ID spec) st (Mounts.Apply spec st).2.
Proof.
  destruct st as [a s]. intros Ha. unfold Mounts.Apply. cbn [Mounts.unmount Mounts.mount engine cubefs_engine].
  assert (forall a s, others_kept (sm_ID spec) (a, s) (a, s)) as Hrefl by (intros ???; done).
  destruct (a !! sm_ID spec) as [m|] eqn:Hm.
  - destruct (Unmount m s) as [err s1] eqn:Hu. destruct (accounted_kill _ _ _ _ _ _ Ha Hm Hu) as [Hk Hd].
    assert (forall a', (forall id, id <> sm_ID spec -> a' !! id = a !! id) -> others_kept (sm_ID spec) (a, s) (a', s1)) as Ho.
    { intros a' Ha' id' m' Hne Hl. simpl in *. rewrite Ha' by done. split; [done|].
      pose proof (Unmount_clients m s) as Hc. rewrite Hu in Hc. destruct Hc as (-> & _). intros Hr.
      apply elem_of_difference. split; [done|]. intros Hp%elem_of_singleton. apply Hne. by eapply (acc_unique _ Ha). }
    destruct err as [e|]; [split; [done|by apply Ho]|].
    assert (others_kept (sm_ID spec) (a, s) (delete (sm_ID spec) a, s1)) as Ho1 by (apply Ho; intros; by rewrite lookup_delete_ne).
    case_decide; [done|]. pose proof (remount_clients spec _ _ Hd (lookup_delete_eq _ _)) as Hr.
    destruct (Mount MarshalIndent spec s1) as [[m'|e] s'] eqn:Hmt; destruct Hr as [Hr1 Hr2]; (split; [exact Hr1|]);
      intros id' m0 Hne Hl; destruct (Ho1 id' m0 Hne Hl) as [Hl1 Hi]; destruct (Hr2 id' m0 Hne Hl1); split; eauto.
  - case_decide; [by split|]. pose proof (remount_clients spec _ _ Ha Hm) as Hr.
    by destruct (Mount MarshalIndent spec s) as [[m'|e] s'].
Qed.

Lemma deliver_clients Unmarshal msgs st : accounted st -> accounted (Mounts.deliver Unmarshal st msgs).
Proof.
  unfold Mounts.deliver. revert st. induction msgs as [|d msgs IH]; intros st Ha; simpl; [done|]. apply IH.
  unfold Bus.Mounts_HandleMessage, Bus.HandleMessage. destruct (Unmarshal d) as [m|e]; [|done].
  destruct (ShareMount_Validate m); [done|]. by apply Apply_clients.
Qed.

Lemma applyAll_clients ms st : accounted st -> accounted (Mounts.applyAll ms st).2.
Proof.
  revert st. induction ms as [|m ms IH]; intros st Ha; simpl; [done|].
  pose proof (proj1 (Apply_clients m st Ha)) as H1. destruct (Mounts.Apply m st) as [[e|] st1]; [done|]. by apply IH.
Qed.

Lemma unmount_list hs (acc : gerr * state E) :
  c_running (foldl Mounts.unmount_one acc hs).2 = c_running acc.2 ∖ list_to_set (m_pid <$> hs) /\
  c_logs (foldl Mounts.unmount_one acc hs).2 = c_logs acc.2 ∖ list_to_set (m_pid <$> hs).
Proof.
  revert acc. induction hs as [|m hs IH]; intros acc; cbn [foldl]; [split; set_solver|].
  destruct (IH (Mounts.unmount_one acc m)) as [H1 H2]. rewrite H1, H2. unfold Mounts.unmount_one.
  pose proof (Unmount_clients m acc.2) as Hc. cbn [Mounts.unmount engine cubefs_engine].
  destruct (Unmount m acc.2) as [err s']. destruct Hc as (Hr & Hl & _). cbn [snd]. rewrite Hr, Hl.
  split; set_solver.
Qed.

Lemma UnmountAll_clients st : accounted st ->
  c_running (Mounts.UnmountAll st).2.2 = ∅ /\ c_logs (Mounts.UnmountAll st).2.2 = ∅.
Proof.
  intros Ha. unfold Mounts.UnmountAll. cbn [snd].
  destruct (unmount_list (map_to_list st.1).*2 (None, st.2)) as [H1 H2]. rewrite H1, H2. cbn [snd].
  assert (c_running st.2 ⊆ list_to_set (m_pid <$> (map_to_list st.1).*2)) as Hs.
  { intros pid (id & m & Hm & <-)%(acc_running st Ha). apply elem_of_list_to_set, list_elem_of_fmap. exists m. split; [done|].
    apply list_elem_of_fmap. exists (id, m). by rewrite elem_of_map_to_list. }
  pose proof (acc_logs st Ha). split; set_solver.
Qed.

(** C9.  No cfs-client process is lost.  Whatever the boot-time list holds and
    whatever messages follow, whichever of the system calls, mounts and unmounts
    fail: every client that was started and not killed belongs to exactly one
    share of the registry and its log is the only one open, handling a share never
    kills the client of another one (a client may still exit by itself, as when the
    unmount of another share takes a mount point both use), and UnmountAll at shutdown leaves no client running
    and no log open (even if the kernel mount could not be removed). *)
Theorem no_client_lost UnmarshalList path Unmarshal msgs o e n :
  let st0 := (∅, mkState o e ∅ n ∅) in
  let st := Mounts.deliver Unmarshal (bootMounts UnmarshalList path st0).2 msgs in
  accounted st /\ (forall spec, others_kept (sm_ID spec) st (Mounts.Apply spec st).2) /\
  c_running (Mounts.UnmountAll st).2.2 = ∅ /\ c_logs (Mounts.UnmountAll st).2.2 = ∅.
Proof.
  intros st0 st.
  assert (accounted st) as Ha.
  { apply deliver_clients. assert (accounted st0) by (split; simpl; set_solver).
    unfold bootMounts. pose proof (with_os_clients (LoadShareMounts UnmarshalList path) st0.2) as Hs.
    destruct (with_os _ st0.2) as [r s]. apply (accounted_same ∅) in Hs; [|done].
    unfold Mounts.applyBootMounts. destruct r; [|done]. by apply applyAll_clients. }
  split; [done|]. split; [|by apply UnmountAll_clients]. intros spec. by apply Apply_clients.
Qed.
End clients.

(** ** What /proc/mounts looks like

    The kernel writes one line per mount: device, directory, type, options and
    two numbers, separated by spaces, where a space, tab, newline or backslash
    of the first two is written as a backslash and three octal digits. *)

Definition tab : ascii := "009"%char.
Definition backslash : ascii := "\"%char.

Definition escape1 (c : ascii) : bytes :=
  if decide (c = space) then chars "\040" else if decide (c = tab) then chars "\011"
  else if decide (c = newline) then chars "\012" else if decide (c = backslash) then chars "\134" else [c].
Definition escape (b : bytes) : bytes := b ≫= escape1.

Record mnt := { mt_dev : bytes; mt_dir : bytes; mt_rest : list bytes }.
Definition mnt_words (m : mnt) : list bytes := escape (mt_dev m) :: escape (mt_dir m) :: mt_rest m.
Definition mnt_line (m : mnt) : bytes := join_bytes [space] (mnt_words m).
Definition proc_mounts (table : list mnt) : bytes := table ≫= fun m => mnt_line m ++ [newline].

Definition pathc (a : ascii) : Prop := wordc a \/ a ∈ [space; tab; newline].
#[export] Instance pathc_dec a : Decision (pathc a).
Proof. unfold pathc. apply _. Defined.

(** ASCII names without other control white space, and lines the scanner can hold. *)
Definition wf_mnt (m : mnt) : Prop :=
  Forall pathc (mt_dev m) /\ mt_dev m <> [] /\ Forall pathc (mt_dir m) /\ mt_dir m <> [] /\
  Forall (Forall wordc) (mt_rest m) /\ Forall (fun w => w <> []) (mt_rest m) /\
  Z.of_nat (length (mnt_line m)) < maxTokenSize.
#[export] Instance wf_mnt_dec m : Decision (wf_mnt m).
Proof. unfold wf_mnt. apply _. Defined.

Lemma escape_cons a b : escape (a :: b) = escape1 a ++ escape b.
Proof. done. Qed.

Lemma escape1_word a : pathc a -> Forall wordc (escape1 a) /\ escape1 a <> [].
Proof.
  intros Ha. unfold escape1. do 4 (case_decide; [subst; split; [|done]; by apply (bool_decide_unpack _); vm_compute|]).
  split; [|done]. apply Forall_singleton. destruct Ha as [Ha|Ha]; [done|]. set_solver.
Qed.

Lemma escape_word b : Forall pathc b -> b <> [] -> Forall wordc (escape b) /\ escape b <> [].
Proof.
  intros Hb Hne. split.
  - induction Hb as [|a b Ha Hb IH]; [done|]. rewrite escape_cons. apply Forall_app. split; [by apply escape1_word|].
    destruct b; [constructor|]. by apply IH.
  - destruct b as [|a b]; [done|]. apply Forall_cons in Hb as [Ha _]. rewrite escape_cons.
    destruct (escape1_word a Ha) as [_ H]. by destruct (escape1 a).
Qed.

Lemma escape_plain b : backslash ∉ escape b <-> Forall (fun a => a ∉ [space; tab; newline; backslash]) b.
Proof.
  induction b as [|a b IH]; [split; [constructor|set_solver]|].
  rewrite escape_cons, Forall_cons, <- IH, not_elem_of_app. apply and_iff_compat_r. unfold escape1.
  do 4 (case_decide; [subst; split; intros Hn; [by contradict Hn; apply (bool_decide_unpack _); vm_compute|by contradict Hn; set_solver]|]).
  set_solver.
Qed.

Lemma escape_id b : Forall (fun a => a ∉ [space; tab; newline; backslash]) b -> escape b = b.
Proof.
  induction 1 as [|a b Ha _ IH]; [done|]. rewrite escape_cons, IH. unfold escape1.
  rewrite !decide_False by set_solver. done.
Qed.

Lemma mnt_words_ok m : wf_mnt m -> Forall (Forall wordc) (mnt_words m) /\ Forall (fun w => w <> []) (mnt_words m).
Proof.
  intros (H1 & H2 & H3 & H4 & H5 & H6 & _). unfold mnt_words. rewrite !Forall_cons.
  destruct (escape_word _ H1 H2), (escape_word _ H3 H4). done.
Qed.

Lemma lineHas_line target m : wf_mnt m -> lineHas target (mnt_line m) = bool_decide (escape (mt_dir m) = chars target).
Proof.
  intros Hwf. destruct (mnt_words_ok m Hwf) as [Hw Hn]. unfold lineHas, Fields, runes. rewrite chars_str.
  unfold mnt_line. rewrite fields_join by done. simpl. apply bool_decide_ext. split; [intros <-; by rewrite chars_str|].
  intros ->. by rewrite str_chars.
Qed.

Lemma mnt_line_chars m : wf_mnt m -> Forall (fun a => wordc a \/ a = space) (mnt_line m).
Proof.
  intros Hwf. destruct (mnt_words_ok m Hwf) as [Hw _]. unfold mnt_line. induction Hw as [|w ws Hw Hws IH]; [constructor|].
  assert (Forall (fun a => wordc a \/ a = space) w) by (eapply Forall_impl; [exact Hw|by left]).
  destruct ws as [|w' ws]; [done|].
  change (join_bytes [space] (w :: w' :: ws)) with (w ++ [space] ++ join_bytes [space] (w' :: ws)).
  rewrite !Forall_app. split_and!; [done| |exact IH]. apply Forall_singleton. by right.
Qed.

Lemma mnt_line_free m c : wf_mnt m -> ~ wordc c -> c <> space -> c ∉ mnt_line m.
Proof. intros Hwf Hc Hs Hin. pose proof (mnt_line_chars m Hwf) as Hl. rewrite Forall_forall in Hl. by destruct (Hl c Hin). Qed.

Lemma dropCR_line l : carriage ∉ l -> dropCR l = l.
Proof.
  intros Hl. unfold dropCR. destruct (last l) as [c|] eqn:Hc; [|done]. rewrite decide_False; [done|]. intros ->.
  apply Hl. apply last_Some in Hc as [l' ->]. set_solver.
Qed.

Lemma scan_proc_mounts table : Forall wf_mnt table ->
  scanLines (GoLib.split newline (proc_mounts table)) = mnt_line <$> table.
Proof.
  induction 1 as [|m table Hm Ht IH]; [done|].
  change (proc_mounts (m :: table)) with ((mnt_line m ++ [newline]) ++ proc_mounts table).
  rewrite <- app_assoc. simpl app. rewrite split_app, split_free; [|apply mnt_line_free; [done| |done]; intros [_ H]; by vm_compute in H].
  cbn [app scanLines fmap list_fmap]. rewrite IH. rewrite (bool_decide_eq_false_2 (_ = [])).
  2: { intros Hn. destruct (split_go_cur newline [] (proc_mounts table)) as (x & l & _ & Hx). unfold GoLib.split in Hn. congruence. }
  simpl andb. destruct Hm as (? & ? & ? & ? & ? & ? & Hlen). rewrite (proj2 (Z.leb_gt _ _)) by done.
  rewrite dropCR_line; [done|]. apply mnt_line_free; [done| |done]. intros [_ H']. by vm_compute in H'.
Qed.

(** C33.  isMounted reads /proc/mounts correctly for a plain mount point (no space,
    tab, newline or backslash): it answers whether some mount sits there.  For
    a mount point with a space, tab or newline it always answers no, mounted or
    not: such a share times out after its client has mounted it. *)
Theorem isMounted_proc_mounts target table : Forall wf_mnt table ->
  (Forall (fun a => a ∉ [space; tab; newline; backslash]) (chars target) ->
    mountsHave target (str (proc_mounts table)) = bool_decide (chars target ∈ mt_dir <$> table)) /\
  (Exists (fun a => a ∈ [space; tab; newline]) (chars target) ->
    mountsHave target (str (proc_mounts table)) = false).
Proof.
  intros Ht. unfold mountsHave. rewrite chars_str, scan_proc_mounts by done.
  assert (existsb (lineHas target) (mnt_line <$> table) = existsb (fun m => bool_decide (escape (mt_dir m) = chars target)) table) as ->.
  { induction Ht as [|m table Hm Ht IH]; [done|]. cbn [fmap list_fmap existsb]. by rewrite lineHas_line, IH. }
  split; intros Hc.
  - apply Bool.eq_iff_eq_true. rewrite existsb_exists, bool_decide_eq_true, list_elem_of_fmap.
    split; intros (m & Hm1 & Hm2); exists m.
    + apply bool_decide_eq_true in Hm2. split; [|by apply list_elem_of_In].
      rewrite <- Hm2. apply escape_id, escape_plain. rewrite Hm2. intros Hin.
      rewrite Forall_forall in Hc. apply Hc in Hin. set_solver.
    + split; [by apply list_elem_of_In|]. apply bool_decide_eq_true. rewrite <- Hm1 in *. by apply escape_id.
  - apply not_true_iff_false. rewrite existsb_exists. intros (m & Hin & Hm%bool_decide_eq_true).
    apply Exists_exists in Hc as (c & Hc & Hsp). rewrite <- Hm in Hc. rewrite Forall_forall in Ht.
    apply list_elem_of_In, Ht in Hin as (_ & _ & Hp & Hne & _). destruct (escape_word _ Hp Hne) as [Hw _].
    rewrite Forall_forall in Hw. apply Hw in Hc as [_ Hs]. repeat (apply elem_of_cons in Hsp as [->|Hsp]; [done|]). set_solver.
Qed.

(** ** A host to run on: clients that start and never mount anything *)

#[local] Instance toy_host : Host (Z * string) := {|
  cmd_Start _ e := (None, e); cmd_Run _ e := (None, e); LookPath _ e := (None, e);
  read_proc_mounts e := (Ok e.2, e); now e := (e.1, e); sleep d e := (e.1 + d, e.2) |}.

#[local] Program Instance toy_laws : HostLaws (Z * string) := {| clock := fst |}.
Solve All Obligations with (simpl; lia).

Definition root_mount : mnt := {| mt_dev := chars "/dev/vda"; mt_dir := chars "/"; mt_rest := [chars "ext4"; chars "rw"; chars "0"; chars "0"] |}.
Definition share_mount (dir : string) : mnt :=
  {| mt_dev := chars "weft"; mt_dir := chars dir; mt_rest := [chars "fuse"; chars "rw"; chars "0"; chars "0"] |}.

Lemma waitMounted_returns_witness : exists err e',
  waitMounted "/mnt/a" mountTimeout (5, str (proc_mounts [root_mount])) = Some (err, e') /\
    match err with
    | None => exists e1, isMounted "/mnt/a" e1 = (true, e')
    | Some _ => clock (5, str (proc_mounts [root_mount])) + mountTimeout <= clock e'
    end.
Proof. apply (waitMounted_returns "/mnt/a" mountTimeout (5, str (proc_mounts [root_mount]))). by vm_compute. Defined.

Lemma isMounted_proc_mounts_witness :
  mountsHave "/mnt/a" (str (proc_mounts [root_mount; share_mount "/mnt/a"; share_mount "/mnt/b c"])) = true /\
  mountsHave "/mnt/b c" (str (proc_mounts [root_mount; share_mount "/mnt/a"; share_mount "/mnt/b c"])) = false.
Proof.
  assert (Forall wf_mnt [root_mount; share_mount "/mnt/a"; share_mount "/mnt/b c"]) as Hwf by (apply (bool_decide_unpack _); by vm_compute).
  split.
  - rewrite (proj1 (isMounted_proc_mounts "/mnt/a" _ Hwf)); [done|]. apply (bool_decide_unpack _); by vm_compute.
  - apply (proj2 (isMounted_proc_mounts "/mnt/b c" _ Hwf)). apply (bool_decide_unpack _); by vm_compute.
Defined.

Definition json_any (_ : clientCfg) : result string := Ok "{}".
Definition boot_state (table : list mnt) : state (Z * string) :=
  mkState (mk_os {[ [] := NDir ]} [] []) (0, str (proc_mounts table)) ∅ 1 ∅.

(** A client that mounts nothing is noticed after the timeout, killed and its log
    closed ... *)
Example dead_client_detected : let '(r, s) := Mount json_any (Mounts.share "a" "mount") (boot_state [root_mount]) in
  is_Ok r = false /\ c_running s = ∅ /\ c_logs s = ∅ /\ (c_env s).1 = mountTimeout + pollEvery.
Proof. by vm_compute. Qed.

(** ... unless something is mounted there already: then the very first look at
    /proc/mounts succeeds and the share is reported mounted. *)
Example stale_mount_accepted : let '(r, s) := Mount json_any (Mounts.share "a" "mount") (boot_state [share_mount "/mnt/a"]) in
  r = Ok (mkMounted "/mnt/a" 1) /\ (c_env s).1 = 0.
Proof. by vm_compute. Qed.

(** A share ID is used as a path element unchecked. *)
Example share_id_escapes : ShareMount_Validate (Mounts.share "../../../etc" "mount") = None /\
  let '(_, s) := Mount json_any (Mounts.share "../../../etc" "mount") (boot_state [root_mount]) in
  files (c_os s) !! path_of "/etc/config.json" = Some (NFile "{}").
Proof. by vm_compute. Qed.
End CubeFS.
