(* ===== verification/SlogNats.v ===== *)
(** * Log fan-out (src/vendor/github.com/openweft/weft-slognats: handler.go,
      setup.go, panic.go; set up by run in src/cmd/weft-microvm-agent/main.go)

    Structured log records go to stderr and, from warnings up, to a NATS
    subject.  The JSON rendering of a record (log/slog's JSONHandler) is the
    parameter [render]: the bytes of its one line, without the newline; what
    writing to stderr and publishing answer are functions of what was written
    and published so far. *)

From S2P Require Import Prelude GoLib.
Local Open Scope Z_scope.

Module SlogNats.

Definition newline : ascii := "010"%char.

Definition LevelInfo : Z := 0.
Definition LevelWarn : Z := 4.
Definition LevelError : Z := 8.

Abbreviation attr := (string * earg)%type.
Record record := mkRecord { r_level : Z; r_msg : string; r_attrs : list attr }.

(** What With and WithGroup add to a JSONHandler. *)
Inductive scope := SAttrs (l : list attr) | SGroup (name : string).
Record JSONHandler := { j_level : Z; j_scopes : list scope }.

(** The outside: the writes to stderr and the publications attempted. *)
Record world := mkWorld { out : list bytes; pub : list (string * bytes) }.

Record Options := {
  Base : option JSONHandler;
  Conn : bool;                                      (* not nil *)
  Subject : string;
  MinLevel : Z;
  OnPublishError : option (error -> world -> world)
}.

Record Handler := {
  base : JSONHandler; conn : bool; subject : string; minLevel : Z;
  onPubErr : error -> world -> world;
  natsHandler : option JSONHandler
}.

Section handler.
Context (render : list scope -> record -> bytes).
Context (stderr_answer : world -> gerr) (nats_answer : world -> gerr).

Definition stderr_Write (p : bytes) (w : world) : gerr * world :=
  (stderr_answer w, mkWorld (out w ++ [p]) (pub w)).
Definition Publish (subj : string) (p : bytes) (w : world) : gerr * world :=
  (nats_answer w, mkWorld (out w) (pub w ++ [(subj, p)])).

(** JSONHandler.Handle: one Write of one line. *)
Definition json_Handle (Write : bytes -> world -> gerr * world) (j : JSONHandler) (r : record) (w : world) : gerr * world :=
  Write (render (j_scopes j) r ++ [newline]) w.
Definition json_Enabled (j : JSONHandler) (lvl : Z) : bool := j_level j <=? lvl.
Definition json_With (s : scope) (j : JSONHandler) : JSONHandler := {| j_level := j_level j; j_scopes := j_scopes j ++ [s] |}.

Definition NewHandler (opts : Options) : panics Handler :=
  match Base opts with
  | None => Panic
  | Some b =>
      let minLevel := if MinLevel opts =? 0 then LevelWarn else MinLevel opts in
      let onPubErr := default (fun _ w => w) (OnPublishError opts) in
      if Conn opts then
        if decide (Subject opts = "") then Panic
        else Value {| base := b; conn := true; subject := Subject opts; minLevel := minLevel; onPubErr := onPubErr;
                      natsHandler := Some {| j_level := minLevel; j_scopes := [] |} |}
      else Value {| base := b; conn := false; subject := Subject opts; minLevel := minLevel; onPubErr := onPubErr;
                    natsHandler := None |}
  end.

Definition Enabled (h : Handler) (lvl : Z) : bool :=
  if json_Enabled (base h) lvl then true else if conn h && (minLevel h <=? lvl) then true else false.

(** natsWriter.Write. *)
Definition natsWriter_Write (h : Handler) (p : bytes) (w : world) : gerr * world :=
  if negb (conn h) then (None, w)
  else
    let payload := drop_while_end (fun c => bool_decide (c = newline)) p in
    if bool_decide (payload = []) then (None, w)
    else
      let '(err, w) := Publish (subject h) payload w in
      match err with Some e => (None, onPubErr h e w) | None => (None, w) end.

Definition Handle (h : Handler) (r : record) (w : world) : gerr * world :=
  let '(baseErr, w) := json_Handle stderr_Write (base h) r w in
  if negb (conn h) || (r_level r <? minLevel h) then (baseErr, w)
  else
    match natsHandler h with
    | None => (baseErr, w)
    | Some nh =>
        let '(err, w) := json_Handle (natsWriter_Write h) nh r w in
        match err with
        | Some e => (baseErr, onPubErr h (Errorf "nats handler: %w" [EErr e]) w)
        | None => (baseErr, w)
        end
    end.

(** WithAttrs and WithGroup. *)
Definition With (s : scope) (h : Handler) : Handler :=
  {| base := json_With s (base h); conn := conn h; subject := subject h; minLevel := minLevel h; onPubErr := onPubErr h;
     natsHandler := json_With s <$> natsHandler h |}.

(** slog.Logger's log call: the handler's error is dropped. *)
Definition log (h : Handler) (w : world) (r : record) : world :=
  if Enabled h (r_level r) then (Handle h r w).2 else w.

(** FromConn of a live connection. *)
Inductive closer := NoopCloser | DrainConn.

(** [url] is $WEFT_NATS_URL, [dial] what nats.Connect answers. *)
Definition SetupFromEnv (subj url : string) (dial : gerr) (w : world) : panics Handler * closer * world :=
  let b := {| j_level := LevelInfo; j_scopes := [] |} in
  let '(c, cl, w) :=
    if decide (url = "") then (false, NoopCloser, w)
    else match dial with
         | None => (true, DrainConn, w)
         | Some e =>
             (false, NoopCloser,
              (json_Handle stderr_Write b
                 (mkRecord LevelWarn "weft-slognats: NATS dial failed, degrading to stderr-only" [("url", EStr url); ("err", EErr e)]) w).2)
         end in
  (NewHandler {| Base := Some b; Conn := c; Subject := subj; MinLevel := 0; OnPublishError := None |}, cl, w).

(** How a function ends: it returns, or it panics with a value. *)
Inductive outcome := Returned (err : gerr) | Panicked (value : string).

(** The deferred PanicReporter: log, wait for the flush, panic again. *)
Definition PanicReporter (name stack : string) (h : Handler) (o : outcome) (w : world) : outcome * world :=
  match o with
  | Returned err => (Returned err, w)
  | Panicked v =>
      let binary := if decide (name = "") then "weft" else name in
      (Panicked v, log h w (mkRecord LevelError (binary +:+ " : panic in main") [("value", EStr v); ("stack", EStr stack)]))
  end.

(** ** The fan-out is exact *)

(** One JSON object per line: the rendering is not empty and does not end in a
    newline. *)
Definition one_line : Prop := forall sc r, exists l c, render sc r = l ++ [c] /\ c <> newline.

Context (Hline : one_line).

Lemma trim_line sc r : drop_while_end (fun c => bool_decide (c = newline)) (render sc r ++ [newline]) = render sc r.
Proof.
  destruct (Hline sc r) as (l & c & -> & Hc). unfold drop_while_end. rewrite !reverse_app. simpl.
  rewrite (bool_decide_eq_false_2 (c = newline)) by done.
  change (reverse ([c] ++ reverse l) = l ++ [c]). by rewrite reverse_app, reverse_involutive.
Qed.

(** A handler of a given subject and scopes, as SetupFromEnv and With make them. *)
Definition made (subj : string) (c : bool) (sc : list scope) (h : Handler) : Prop :=
  base h = {| j_level := LevelInfo; j_scopes := sc |} /\ conn h = c /\ subject h = subj /\ minLevel h = LevelWarn /\
  onPubErr h = (fun _ w => w) /\
  natsHandler h = if c then Some {| j_level := LevelWarn; j_scopes := sc |} else None.

Definition derive (ss : list scope) (h : Handler) : Handler := foldl (fun h s => With s h) h ss.

Lemma derive_made subj c sc ss h : made subj c sc h -> made subj c (sc ++ ss) (derive ss h).
Proof.
  revert sc h. induction ss as [|s ss IH]; intros sc h Hm; simpl; [by rewrite app_nil_r|].
  replace (sc ++ s :: ss) with ((sc ++ [s]) ++ ss) by (by rewrite <- app_assoc). apply IH.
  destruct Hm as (H1 & H2 & H3 & H4 & H5 & H6). unfold made. simpl. rewrite H1, H2, H3, H4, H5, H6.
  split_and!; try done. by destruct c.
Qed.

Definition line (sc : list scope) (r : record) : bytes := render sc r ++ [newline].

(** What reaches each side. *)
Definition shown (sc : list scope) (rs : list record) : list bytes :=
  line sc <$> filter (fun r => LevelInfo <= r_level r) rs.
Definition sent (subj : string) (sc : list scope) (rs : list record) : list (string * bytes) :=
  (fun r => (subj, render sc r)) <$> filter (fun r => LevelWarn <= r_level r) rs.

Lemma log_made subj c sc h r w : made subj c sc h ->
  log h w r = mkWorld (out w ++ shown sc [r]) (pub w ++ if c then sent subj sc [r] else []).
Proof.
  intros (H1 & H2 & H3 & H4 & H5 & H6). unfold log, Enabled, Handle, json_Handle, json_Enabled, shown, sent.
  rewrite H1, H2, H4, H6. cbn [j_level j_scopes]. rewrite !filter_cons, !filter_nil.
  destruct (LevelInfo <=? r_level r) eqn:E1; to_prop.
  - rewrite (decide_True (P := LevelInfo <= r_level r)) by done. destruct (r_level r <? LevelWarn) eqn:E2; to_prop.
    + rewrite (decide_False (P := LevelWarn <= r_level r)) by lia. by destruct c; simpl; rewrite ?app_nil_r.
    + rewrite (decide_True (P := LevelWarn <= r_level r)) by lia. destruct c; simpl; [|by rewrite app_nil_r].
      unfold natsWriter_Write. rewrite H2, H3, H5. cbn [negb]. rewrite trim_line.
      destruct (Hline sc r) as (l & x & Hr & _). rewrite (bool_decide_eq_false_2 (render sc r = [])) by (rewrite Hr; by destruct l).
      simpl. by destruct (nats_answer _).
  - assert (LevelInfo < LevelWarn) by (by vm_compute). rewrite (proj2 (Z.leb_gt LevelWarn (r_level r))) by lia.
    rewrite andb_false_r, !decide_False by lia. simpl. rewrite !app_nil_r. destruct c; simpl; rewrite ?app_nil_r; by destruct w.
Qed.

Lemma logs_made subj c sc h rs w : made subj c sc h ->
  foldl (log h) w rs = mkWorld (out w ++ shown sc rs) (pub w ++ if c then sent subj sc rs else []).
Proof.
  intros Hm. revert w. induction rs as [|r rs IH]; intros w.
  { simpl. unfold shown, sent. rewrite !filter_nil. destruct c; simpl; rewrite !app_nil_r; by destruct w. }
  cbn [foldl]. rewrite IH, (log_made _ _ _ _ _ _ Hm). cbn [out pub]. rewrite <- !app_assoc. unfold shown, sent.
  change (r :: rs) with ([r] ++ rs). rewrite !filter_app, !fmap_app. by destruct c.
Qed.

Lemma SetupFromEnv_made subj url dial w : subj <> "" ->
  let connected := negb (bool_decide (url = "")) && bool_decide (dial = None) in
  exists h cl w', SetupFromEnv subj url dial w = (Value h, cl, w') /\ made subj connected [] h /\
    pub w' = pub w /\ (url = "" \/ dial = None -> w' = w) /\ (cl = DrainConn <-> connected = true).
Proof.
  intros Hs connected. unfold SetupFromEnv, NewHandler. cbn [Base Conn Subject MinLevel OnPublishError].
  unfold connected. destruct (decide (url = "")) as [->|Hu].
  - rewrite bool_decide_eq_true_2 by done. simpl. eexists _, _, _. split; [done|]. by split_and!.
  - rewrite bool_decide_eq_false_2 by done. simpl. destruct dial as [e|].
    + simpl. eexists _, _, _. split; [done|]. split_and!; try done. by intros [?|?].
    + simpl. rewrite decide_False by done. eexists _, _, _. split; [done|]. by split_and!.
Qed.

(** C34.  The log fan-out is exact and harmless.  For a logger set up by
    SetupFromEnv and refined by any With and WithGroup calls, and any sequence
    of records: stderr gets one line for every record from Info up, in order;
    the bus gets, when it was reachable at start, exactly the records from Warn
    up, in order, on the given subject and with the very bytes of the stderr
    line (and nothing when it was not); whatever stderr and the bus answer. *)
Theorem log_fanout subj url dial ss rs w : subj <> "" ->
  exists h cl w1, SetupFromEnv subj url dial w = (Value h, cl, w1) /\
    foldl (log (derive ss h)) w1 rs =
      mkWorld (out w1 ++ shown ss rs)
              (pub w ++ if negb (bool_decide (url = "")) && bool_decide (dial = None) then sent subj ss rs else []).
Proof.
  intros Hs. destruct (SetupFromEnv_made subj url dial w Hs) as (h & cl & w1 & E & Hm & Hp & _).
  exists h, cl, w1. split; [done|]. rewrite (logs_made _ _ _ _ _ _ (derive_made _ _ [] ss _ Hm)). by rewrite Hp.
Qed.

(** A panic of the main goroutine is put on the bus, and is still a panic. *)
Theorem panic_reported subj c h v stack w : made subj c [] h ->
  let '(o, w') := PanicReporter "weft-microvm-agent" stack h (Panicked v) w in
  o = Panicked v /\
  exists r, r_level r = LevelError /\ ("value", EStr v) ∈ r_attrs r /\ ("stack", EStr stack) ∈ r_attrs r /\
    out w' = out w ++ [line [] r] /\ pub w' = pub w ++ if c then [(subj, render [] r)] else [].
Proof.
  intros Hm. unfold PanicReporter. rewrite (log_made _ _ _ _ _ _ Hm). split; [done|].
  exists (mkRecord LevelError "weft-microvm-agent : panic in main" [("value", EStr v); ("stack", EStr stack)]). split_and!; simpl; [done|set_solver|set_solver|done|done].
Qed.
End handler.

Definition plain_render (_ : list scope) (r : record) : bytes := chars "{" ++ chars (r_msg r) ++ ["}"%char].

Lemma plain_one_line : one_line plain_render.
Proof. intros sc r. exists (chars "{" ++ chars (r_msg r)), "}"%char. unfold plain_render. by rewrite <- app_assoc. Qed.

Definition mute : world -> gerr := fun _ => Some (Sentinel "EIO").

Lemma log_fanout_witness : exists h cl w1,
  SetupFromEnv plain_render mute "weft.microvm-agent.vm1.log" "nats://bus:4222" None (mkWorld [] []) = (Value h, cl, w1) /\
  foldl (log plain_render mute mute (derive [SGroup "g"] h)) w1 [mkRecord LevelInfo "up" []; mkRecord LevelWarn "bad" []] =
    mkWorld (out w1 ++ [chars "{up}" ++ [newline]; chars "{bad}" ++ [newline]]) [("weft.microvm-agent.vm1.log", chars "{bad}")].
Proof.
  destruct (log_fanout plain_render mute mute plain_one_line "weft.microvm-agent.vm1.log" "nats://bus:4222" None [SGroup "g"]
    [mkRecord LevelInfo "up" []; mkRecord LevelWarn "bad" []] (mkWorld [] []) ltac:(discriminate)) as (h & cl & w1 & H1 & H2).
  exists h, cl, w1. split; [exact H1|]. exact H2.
Defined.
End SlogNats.
