(* ===== verification/Agent.v ===== *)
(** * The daemon body (src/cmd/weft-microvm-agent/main.go: main, run and the
      start* functions)

    main binds the flags and calls run; run sets up logging, starts the concerns
    its flags name, in order, and then serves; a failure to start one ends it.
    The model runs in an error monad over the agent's own state (the
    connections to close on shutdown, the listener) and a trace of what was
    done; what the outside answers (the environment, the bus, the listeners,
    the mounts) is the record [env]. *)

From S2P Require Import Prelude GoLib GoPath Bus.
Local Open Scope Z_scope.

Module Agent.

Inductive concern := Mesh | Mounts | Firewall | FirewallStatus | SshKeys | Exec | GuestPlane | Properties.

#[export] Instance concern_eq_dec : EqDecision concern.
Proof. solve_decision. Defined.

Record opts := {
  listenAddr : string; meshVMID : string; mountsVMID : string; firewallVMID : string;
  firewallStatusEvery : Z; sshKeysVMID : string; sshKeysAuthorizedKeys : string; sshKeysUID : Z; sshKeysGID : Z;
  propsVMID : string; propsDir : string; sshdListen : string; sshdHostKey : string; sshdShell : string;
  bootWatch : bool; bootWorkDir : string; bootSentinel : string; shareMounts : string;
  execVMID : string; containersVMID : string; natsURL : string; natsCreds : string;
  metricsAddr : string; guestPlanePodID : string; guestPlanePort : Z; guestPlaneHostCID : Z; guestPlaneInterval : Z
}.

Definition seconds : Z := 1000000000.

(** The flags' defaults: what run gets from an empty command line. *)
Definition flags : opts := {|
  listenAddr := "0.0.0.0:51999"; meshVMID := ""; mountsVMID := ""; firewallVMID := "";
  firewallStatusEvery := 10 * seconds; sshKeysVMID := ""; sshKeysAuthorizedKeys := "/root/.ssh/authorized_keys";
  sshKeysUID := 0; sshKeysGID := 0; propsVMID := ""; propsDir := "/run/weft/properties"; sshdListen := "";
  sshdHostKey := "/var/lib/weft/sshd_host_ed25519"; sshdShell := "/bin/sh"; bootWatch := false;
  bootWorkDir := "/var/lib/weft/boot"; bootSentinel := "/var/lib/weft/provisioned"; shareMounts := "";
  execVMID := ""; containersVMID := ""; natsURL := "nats://127.0.0.1:4222"; natsCreds := ""; metricsAddr := ":9101";
  guestPlanePodID := ""; guestPlanePort := 7777; guestPlaneHostCID := 2; guestPlaneInterval := 10 * seconds |}.

Inductive nats_option := UserCredentials (path : string).

Definition natsOptions (creds : string) : list nats_option :=
  if decide (creds = "") then [] else [UserCredentials creds].

Inductive act :=
| LogTo (subj : string)              (* weftslognats.SetupFromEnv *)
| SetPATH (path : string)
| BootMounts
| Connected (c : concern) (url : string) (os : list nats_option)   (* nats.Connect succeeded *)
| SetNATSConnected (up : bool)
| Subscribed (c : concern) (subj : string)
| Emitting (subj : string)           (* the firewall status goroutine *)
| Published (subj : string)
| Closed (c : concern)
| ServeSSHD (addr : string)
| ServeGuestPlane (podID : string) (wired : bool)
| WatchBoot
| Listening (addr : string)
| ServeMetrics (addr : string)
| ServeIntrospect
(* shutdown *)
| ShutdownMetrics
| CloseListener
| UnmountAll
| GracefulStop.

Record env := {
  e_vmUUID : string;                  (* $WEFT_VM_UUID *)
  e_hostname : result string;         (* os.Hostname *)
  e_PATH : string;                    (* $PATH *)
  e_bootMounts : gerr;                (* applyBootMounts *)
  e_connect : concern -> gerr;        (* nats.Connect *)
  e_start : concern -> gerr;          (* the Subscriber's Start, or the emitter's New *)
  e_sshd : gerr;                      (* startSSHD *)
  e_listen : gerr;                    (* net.Listen *)
  e_serve : gerr                      (* srv.Serve *)
}.

Record st := mkSt { trace : list act; natsConns : list concern; sshdLn : bool }.

Definition AM : Type := st -> gerr * st.

Definition ok : AM := fun s => (None, s).
Definition log (l : list act) : AM := fun s => (None, mkSt (trace s ++ l) (natsConns s) (sshdLn s)).
Definition fail (e : error) : AM := fun s => (Some e, s).
Definition andThen (c k : AM) : AM :=
  fun s => let '(err, s') := c s in match err with Some e => (Some e, s') | None => k s' end.
Definition wrap (msg : string) (c : AM) : AM :=
  fun s => let '(err, s') := c s in ((fun e => Errorf msg [EErr e]) <$> err, s').
Definition when (b : bool) (c : AM) : AM := if b then c else ok.
Definition keepConn (c : concern) : AM := fun s => (None, mkSt (trace s) (natsConns s ++ [c]) (sshdLn s)).
Definition keepListener : AM := fun s => (None, mkSt (trace s) (natsConns s) true).

Declare Scope agent_scope.
Local Notation "c ;;> k" := (andThen c k) (at level 100, right associativity) : agent_scope.
Local Open Scope agent_scope.

Definition set (s : string) : bool := negb (bool_decide (s = "")).

Section run.
Context (e : env).

Definition logSubject : string :=
  let vmID := if decide (e_vmUUID e = "") then match e_hostname e with Ok h => h | Err _ => "unknown" end else e_vmUUID e in
  "weft.microvm-agent." +:+ vmID +:+ ".log".

(** startMesh, startMounts, startFirewall, startSSHKeys, startProperties: dial,
    raise the gauge, subscribe; on failure close and lower the gauge. *)
Definition start (c : concern) (url creds subj : string) : AM :=
  match e_connect e c with
  | Some err => fail err
  | None =>
      log [Connected c url (natsOptions creds); SetNATSConnected true] ;;>
      match e_start e c with
      | Some err => log [Closed c; SetNATSConnected false] ;;> fail err
      | None => log [Subscribed c subj] ;;> keepConn c
      end
  end.

Definition startMesh (url creds vmID : string) : AM := start Mesh url creds (Bus.Mesh_Subject vmID).
Definition startMounts (url creds vmID : string) : AM := start Mounts url creds (Bus.Mounts_Subject vmID).
Definition startFirewall (url creds vmID : string) : AM := start Firewall url creds (Bus.Firewall_Subject vmID).
Definition startSSHKeys (url creds vmID : string) : AM := start SshKeys url creds (Bus.SshKeys_Subject vmID).
Definition startProperties (url creds vmID : string) : AM := start Properties url creds (Bus.Properties_Subject vmID).

Definition startFirewallStatus (url creds vmID : string) : AM :=
  match e_connect e FirewallStatus with
  | Some err => fail err
  | None =>
      log [Connected FirewallStatus url (natsOptions creds); SetNATSConnected true] ;;>
      match e_start e FirewallStatus with
      | Some err => log [Closed FirewallStatus; SetNATSConnected false] ;;> fail err
      | None => log [Emitting (Bus.FirewallStatus_Subject vmID)] ;;> keepConn FirewallStatus
      end
  end.

Definition startExecSession (url creds vmID : string) : AM :=
  match e_connect e Exec with
  | Some err => fail err
  | None =>
      log [Connected Exec url (natsOptions creds)] ;;>
      match e_start e Exec with
      | Some err => log [Closed Exec] ;;> fail err
      | None => log [Subscribed Exec (Bus.SubjectOpen vmID);
                     Published ("weft.agent." +:+ vmID +:+ ".up")] ;;> keepConn Exec
      end
  end.

(** The dispatcher is optional: without the bus the client still runs. *)
Definition startGuestPlane (url creds podID : string) : AM :=
  match e_connect e GuestPlane with
  | None => log [Connected GuestPlane url (natsOptions creds)] ;;> keepConn GuestPlane ;;> log [ServeGuestPlane podID true]
  | Some _ => log [ServeGuestPlane podID false]
  end.

Definition startSSHD (addr : string) : AM :=
  match e_sshd e with Some err => fail err | None => log [ServeSSHD addr] ;;> keepListener end.

(** Logging, $PATH, the metrics recorder. *)
Definition setUp : AM := log [LogTo logSubject; SetPATH ("/bin:/usr/bin:/sbin:" +:+ e_PATH e)].

(** The concerns the flags name, in order. *)
Definition startConcerns (o : opts) : AM :=
  let url := natsURL o in
  let creds := natsCreds o in
  when (set (shareMounts o)) (wrap "share mounts: %w"
    (match e_bootMounts e with Some err => fail err | None => log [BootMounts] end)) ;;>
  when (set (meshVMID o)) (wrap "mesh: %w" (startMesh url creds (meshVMID o))) ;;>
  when (set (mountsVMID o)) (wrap "mounts: %w" (startMounts url creds (mountsVMID o))) ;;>
  when (set (firewallVMID o))
    (wrap "firewall: %w" (startFirewall url creds (firewallVMID o)) ;;>
     when (0 <? firewallStatusEvery o)
       (wrap "firewall status: %w" (startFirewallStatus url creds (firewallVMID o)))) ;;>
  when (set (sshKeysVMID o)) (wrap "sshkeys: %w" (startSSHKeys url creds (sshKeysVMID o))) ;;>
  when (set (execVMID o)) (wrap "execsession: %w" (startExecSession url creds (execVMID o))) ;;>
  when (set (sshdListen o)) (wrap "sshd: %w" (startSSHD (sshdListen o))) ;;>
  when (set (guestPlanePodID o)) (startGuestPlane url creds (guestPlanePodID o)) ;;>
  when (bootWatch o) (log [WatchBoot]) ;;>
  when (set (propsVMID o)) (wrap "properties: %w" (startProperties url creds (propsVMID o))).

(** The listeners; Serve blocks until the server is stopped. *)
Definition serve (o : opts) : AM :=
  match e_listen e with
  | Some err => fail (Errorf "listen %s: %w" [EStr (listenAddr o); EErr err])
  | None => log [Listening (listenAddr o)]
  end ;;>
  when (set (metricsAddr o)) (log [ServeMetrics (metricsAddr o)]) ;;>
  log [ServeIntrospect] ;;>
  wrap "serve: %w" (match e_serve e with Some err => fail err | None => ok end).

Definition run (o : opts) : AM := setUp ;;> startConcerns o ;;> serve o.

(** The goroutine that waits for a signal. *)
Definition shutdown (o : opts) (s : st) : list act :=
  (if set (metricsAddr o) then [ShutdownMetrics] else []) ++
  (Closed <$> natsConns s) ++
  (if sshdLn s then [CloseListener] else []) ++
  [UnmountAll; GracefulStop].
End run.

Definition init : st := mkSt [] [] false.

(** main: cobra runs [run] on the flags; the exit status. *)
Definition main (e : env) (o : opts) : Z * st :=
  let '(err, s) := run e o init in (match err with Some _ => 1 | None => 0 end, s).

(** The metrics listener's routes. *)
Inductive response := Scrape | Reply (status : Z) (body : string).

Definition metricsMux (path : string) : response :=
  if decide (path = "/metrics") then Scrape
  else if decide (path = "/healthz") then Reply 200 ("ok" +:+ str ["010"%char])
  else Reply 404 ("404 page not found" +:+ str ["010"%char]).

(** ** Reading a trace *)

Definition connections (l : list act) : list concern :=
  omap (fun a => match a with Connected c _ _ => Some c | _ => None end) l.
Definition closings (l : list act) : list concern :=
  omap (fun a => match a with Closed c => Some c | _ => None end) l.
Definition subscriptions (l : list act) : list string :=
  omap (fun a => match a with Subscribed _ subj => Some subj | _ => None end) l.

(** The subjects the flags ask for, in the order run subscribes. *)
Definition wanted (o : opts) : list string :=
  (if set (meshVMID o) then [Bus.Mesh_Subject (meshVMID o)] else []) ++
  (if set (mountsVMID o) then [Bus.Mounts_Subject (mountsVMID o)] else []) ++
  (if set (firewallVMID o) then [Bus.Firewall_Subject (firewallVMID o)] else []) ++
  (if set (sshKeysVMID o) then [Bus.SshKeys_Subject (sshKeysVMID o)] else []) ++
  (if set (execVMID o) then [Bus.SubjectOpen (execVMID o)] else []) ++
  (if set (propsVMID o) then [Bus.Properties_Subject (propsVMID o)] else []).

(** ** Successful runs *)

(** On success, [c] appends to the trace a piece with the given subscriptions
    and no closing, and keeps the connections of that piece. *)
Definition adds (c : AM) (subs : list string) : Prop :=
  forall s, (c s).1 = None -> exists l,
    trace (c s).2 = trace s ++ l /\ natsConns (c s).2 = natsConns s ++ connections l /\
    closings l = [] /\ subscriptions l = subs.

Lemma adds_ok : adds ok [].
Proof. intros s _. exists []. simpl. by rewrite !app_nil_r. Qed.

Lemma adds_fail err subs : adds (fail err) subs.
Proof. intros s H. done. Qed.

Lemma adds_andThen c k a b : adds c a -> adds k b -> adds (c ;;> k) (a ++ b).
Proof.
  intros Hc Hk s. unfold andThen. specialize (Hc s). destruct (c s) as [[err|] s1]; [done|]. simpl in Hc.
  intros Hok. destruct (Hc eq_refl) as (l1 & E1 & E2 & E3 & E4). destruct (Hk s1 Hok) as (l2 & F1 & F2 & F3 & F4).
  exists (l1 ++ l2). rewrite F1, F2, E1, E2, <- !app_assoc. unfold connections, closings, subscriptions in *.
  rewrite !omap_app, E3, F3, E4, F4. done.
Qed.

Lemma adds_wrap msg c a : adds c a -> adds (wrap msg c) a.
Proof.
  intros Hc s. unfold wrap. specialize (Hc s). destruct (c s) as [[err|] s1]; simpl in *.
  - intros H. discriminate H.
  - intros _. by apply Hc.
Qed.

Lemma adds_when (b : bool) c a : adds c a -> adds (when b c) (if b then a else []).
Proof. intros Hc. destruct b; [exact Hc|apply adds_ok]. Qed.

Lemma adds_log l : connections l = [] -> closings l = [] -> adds (log l) (subscriptions l).
Proof. intros H1 H2 s _. exists l. simpl. rewrite H1, app_nil_r. done. Qed.

(** A piece that connects [c] is followed by [keepConn c]. *)
Lemma adds_connected c l1 l2 subs : connections l1 = [c] -> closings l1 = [] ->
  connections l2 = [] -> closings l2 = [] -> subscriptions (l1 ++ l2) = subs ->
  adds (log l1 ;;> log l2 ;;> keepConn c) subs.
Proof.
  intros H1 H2 H3 H4 H5 s _. exists (l1 ++ l2). unfold andThen. simpl. rewrite <- app_assoc.
  unfold connections, closings, subscriptions in *. rewrite omap_app in H5.
  rewrite !omap_app, H1, H2, H3, H4. done.
Qed.

Lemma adds_start e c url creds subj : adds (start e c url creds subj) [subj].
Proof.
  unfold start. destruct (e_connect e c); [apply adds_fail|]. destruct (e_start e c).
  - intros s H. done.
  - by apply adds_connected.
Qed.

Lemma adds_startFirewallStatus e url creds vmID : adds (startFirewallStatus e url creds vmID) [].
Proof.
  unfold startFirewallStatus. destruct (e_connect e _); [apply adds_fail|]. destruct (e_start e _).
  - intros s H. done.
  - by apply adds_connected.
Qed.

Lemma adds_startExecSession e url creds vmID : adds (startExecSession e url creds vmID) [Bus.SubjectOpen vmID].
Proof.
  unfold startExecSession. destruct (e_connect e _); [apply adds_fail|]. destruct (e_start e _).
  - intros s H. done.
  - by apply adds_connected.
Qed.

Lemma adds_startGuestPlane e url creds podID : adds (startGuestPlane e url creds podID) [].
Proof.
  unfold startGuestPlane. destruct (e_connect e _); [by apply (adds_log [ServeGuestPlane podID false])|].
  intros s _. exists [Connected GuestPlane url (natsOptions creds); ServeGuestPlane podID true]. unfold andThen. simpl.
  by rewrite <- app_assoc.
Qed.

Lemma adds_startSSHD e addr : adds (startSSHD e addr) [].
Proof.
  unfold startSSHD. destruct (e_sshd e); [apply adds_fail|]. intros s _. exists [ServeSSHD addr]. simpl.
  by rewrite app_nil_r.
Qed.

Lemma adds_run e o : adds (run e o) (wanted o).
Proof.
  assert (forall b c, adds c [] -> adds (when b c) []) as Hw.
  { intros b c Hc. pose proof (adds_when b c [] Hc) as H. by destruct b. }
  assert (forall (b c : AM) l, adds b [] -> adds c l -> adds (b ;;> c) l) as Hnil.
  { intros b c l Hb Hc. by apply (adds_andThen b c [] l). }
  unfold run. apply Hnil; [by apply (adds_log [LogTo (logSubject e); SetPATH ("/bin:/usr/bin:/sbin:" +:+ e_PATH e)])|].
  rewrite <- (app_nil_r (wanted o)). apply adds_andThen.
  2: { unfold serve. apply Hnil; [case_match; [apply adds_fail|by apply (adds_log [Listening (listenAddr o)])]|].
       apply Hnil; [apply Hw; by apply (adds_log [ServeMetrics (metricsAddr o)])|].
       apply Hnil; [by apply (adds_log [ServeIntrospect])|]. apply adds_wrap. case_match; [apply adds_fail|apply adds_ok]. }
  unfold startConcerns, wanted.
  apply Hnil; [apply Hw, adds_wrap; case_match; [apply adds_fail|by apply (adds_log [BootMounts])]|].
  apply adds_andThen; [apply adds_when, adds_wrap, adds_start|].
  apply adds_andThen; [apply adds_when, adds_wrap, adds_start|].
  apply adds_andThen.
  { apply adds_when. rewrite <- (app_nil_r [Bus.Firewall_Subject (firewallVMID o)]).
    apply adds_andThen; [apply adds_wrap, adds_start|]. apply Hw, adds_wrap, adds_startFirewallStatus. }
  apply adds_andThen; [apply adds_when, adds_wrap, adds_start|].
  apply adds_andThen; [apply adds_when, adds_wrap, adds_startExecSession|].
  apply Hnil; [apply Hw, adds_wrap, adds_startSSHD|].
  apply Hnil; [apply Hw, adds_startGuestPlane|].
  apply Hnil; [apply Hw; by apply (adds_log [WatchBoot])|].
  apply adds_when, adds_wrap, adds_start.
Qed.

(** A running agent subscribes to exactly the subjects its flags name, in
    order: once run serves, the subscriptions are those of the per-VM ids that
    were given, and no others. *)
Theorem run_subscriptions e o : (run e o init).1 = None ->
  subscriptions (trace (run e o init).2) = wanted o.
Proof. intros Hok. destruct (adds_run e o init Hok) as (l & -> & _ & _ & Hs). by simpl. Qed.

(** Shutdown closes every connection that was opened, in order and once, and
    unmounts the shares before it lets Serve return. *)
Theorem shutdown_closes_connections e o : (run e o init).1 = None ->
  let s := (run e o init).2 in
  closings (trace s) = [] /\ closings (shutdown o s) = connections (trace s) /\
  exists before, shutdown o s = before ++ [UnmountAll; GracefulStop] /\ GracefulStop ∉ before.
Proof.
  intros Hok s. destruct (adds_run e o init Hok) as (l & E1 & E2 & E3 & _). fold s in E1, E2. simpl in E1, E2.
  assert (forall cs : list concern, closings (Closed <$> cs) = cs) as Hcl.
  { induction cs as [|c cs IH]; [done|]. simpl. f_equal. exact IH. }
  split_and!; [by rewrite E1| |].
  - unfold shutdown. rewrite E1, <- E2. rewrite <- (Hcl (natsConns s)) at 2. unfold closings. rewrite !omap_app.
    destruct (set (metricsAddr o)), (sshdLn s); simpl; by rewrite ?app_nil_r.
  - unfold shutdown. eexists. split; [by rewrite !app_assoc|].
    rewrite !not_elem_of_app. split_and!; [destruct (set _); set_solver| |destruct (sshdLn s); set_solver].
    rewrite list_elem_of_fmap. naive_solver.
Qed.

(** ** Failed starts *)

(** What [c] adds to the trace never undoes a mount. *)
Definition mounts_kept (c : AM) : Prop := forall s, UnmountAll ∉ trace s -> UnmountAll ∉ trace (c s).2.

Lemma kept_andThen c k : mounts_kept c -> mounts_kept k -> mounts_kept (c ;;> k).
Proof. intros Hc Hk s Hs. unfold andThen. specialize (Hc s Hs). destruct (c s) as [[err|] s1]; [done|]. by apply Hk. Qed.
Lemma kept_wrap msg c : mounts_kept c -> mounts_kept (wrap msg c).
Proof. intros Hc s Hs. unfold wrap. specialize (Hc s Hs). by destruct (c s). Qed.
Lemma kept_when (b : bool) c : mounts_kept c -> mounts_kept (when b c).
Proof. intros Hc. destruct b; [done|by intros s]. Qed.
Lemma kept_log l : UnmountAll ∉ l -> mounts_kept (log l).
Proof. intros Hl s Hs. simpl. by rewrite not_elem_of_app. Qed.
Lemma kept_fail err : mounts_kept (fail err).
Proof. by intros s. Qed.
Lemma kept_ok : mounts_kept ok.
Proof. by intros s. Qed.
Lemma kept_keepConn c : mounts_kept (keepConn c).
Proof. by intros s. Qed.
Lemma kept_keepListener : mounts_kept keepListener.
Proof. by intros s. Qed.

Local Ltac keep :=
  repeat first [apply kept_andThen | apply kept_wrap | apply kept_when | apply kept_fail | apply kept_ok | apply kept_keepConn
               | apply kept_keepListener | apply kept_log; set_solver | case_match].

(** Nothing run does unmounts a share: when it fails after the boot-time mounts
    it returns, and the process exits, with the shares mounted and their
    clients running (only the signal handler unmounts). *)
Lemma run_never_unmounts e o : UnmountAll ∉ trace (run e o init).2.
Proof.
  assert (mounts_kept (run e o)) as Hk; [|apply Hk; set_solver].
  unfold run, setUp, startConcerns, serve, startMesh, startMounts, startFirewall, startFirewallStatus, startSSHKeys, startExecSession, startSSHD,
    startGuestPlane, startProperties, start. keep.
Qed.

Definition port_taken : env :=
  {| e_vmUUID := ""; e_hostname := Ok "guest"; e_PATH := ""; e_bootMounts := None; e_connect := fun _ => None;
     e_start := fun _ => None; e_sshd := None; e_listen := Some (Sentinel "EADDRINUSE"); e_serve := None |}.

Definition with_shares : opts := {|
  listenAddr := "0.0.0.0:51999"; meshVMID := ""; mountsVMID := ""; firewallVMID := "";
  firewallStatusEvery := 10 * seconds; sshKeysVMID := ""; sshKeysAuthorizedKeys := "/root/.ssh/authorized_keys";
  sshKeysUID := 0; sshKeysGID := 0; propsVMID := ""; propsDir := "/run/weft/properties"; sshdListen := "";
  sshdHostKey := ""; sshdShell := "/bin/sh"; bootWatch := false; bootWorkDir := ""; bootSentinel := "";
  shareMounts := "/run/mounts.json"; execVMID := ""; containersVMID := ""; natsURL := ""; natsCreds := ""; metricsAddr := "";
  guestPlanePodID := ""; guestPlanePort := 7777; guestPlaneHostCID := 2; guestPlaneInterval := 0 |}.

Example failed_start_leaves_shares : let r := main port_taken with_shares in
  r.1 = 1 /\ BootMounts ∈ trace r.2 /\ UnmountAll ∉ trace r.2.
Proof. split_and!; [done| |apply (run_never_unmounts port_taken with_shares)]. vm_compute. do 2 apply list_elem_of_further. apply list_elem_of_here. Qed.

(** With an empty command line the agent only serves: no connection, no
    subscription, no SSH server; the Introspect API and the metrics listener
    with their default addresses. *)
Lemma default_run e : e_listen e = None -> e_serve e = None ->
  (run e flags init).1 = None /\ connections (trace (run e flags init).2) = [] /\
  trace (run e flags init).2 = [LogTo (logSubject e); SetPATH ("/bin:/usr/bin:/sbin:" +:+ e_PATH e);
    Listening "0.0.0.0:51999"; ServeMetrics ":9101"; ServeIntrospect].
Proof. intros Hl Hs. unfold run, setUp, startConcerns, serve, andThen, when, wrap. cbn -[String.app logSubject]. rewrite Hl, Hs. done. Qed.

(** The containers flag is accepted and ignored: no run subscribes to the
    containers subject. *)
Lemma containers_not_subscribed e o vmID : (run e o init).1 = None ->
  Bus.Containers_Subject vmID ∉ subscriptions (trace (run e o init).2).
Proof.
  intros Hok. destruct (adds_run e o init Hok) as (l & -> & _ & _ & Hs). simpl. rewrite Hs.
  unfold wanted. rewrite !not_elem_of_app.
  assert (forall (b : bool) (x y : string), x <> y -> x ∉ (if b then [y] else [])) as Hif by (intros []; set_solver).
  split_and!; apply Hif; discriminate.
Qed.

Definition all_up : env :=
  {| e_vmUUID := "vm1"; e_hostname := Ok "host"; e_PATH := "/usr/local/bin"; e_bootMounts := None; e_connect := fun _ => None; e_start := fun _ => None; e_sshd := None;
     e_listen := None; e_serve := None |}.

Definition full : opts := {|
  listenAddr := "0.0.0.0:51999"; meshVMID := "vm1"; mountsVMID := "vm1"; firewallVMID := "vm1";
  firewallStatusEvery := 10 * seconds; sshKeysVMID := "vm1"; sshKeysAuthorizedKeys := "/root/.ssh/authorized_keys";
  sshKeysUID := 0; sshKeysGID := 0; propsVMID := "vm1"; propsDir := "/run/weft/properties"; sshdListen := "0.0.0.0:2222";
  sshdHostKey := "/var/lib/weft/sshd_host_ed25519"; sshdShell := "/bin/sh"; bootWatch := true;
  bootWorkDir := "/var/lib/weft/boot"; bootSentinel := "/var/lib/weft/provisioned"; shareMounts := "/run/mounts.json";
  execVMID := "vm1"; containersVMID := "vm1"; natsURL := "nats://bus:4222"; natsCreds := "/run/creds"; metricsAddr := ":9101";
  guestPlanePodID := "vm1"; guestPlanePort := 7777; guestPlaneHostCID := 2; guestPlaneInterval := 10 * seconds |}.

Lemma run_subscriptions_witness : subscriptions (trace (run all_up full init).2) = wanted full.
Proof. apply (run_subscriptions all_up full). reflexivity. Defined.

Lemma shutdown_closes_connections_witness :
  let s := (run all_up full init).2 in
  closings (trace s) = [] /\ closings (shutdown full s) = connections (trace s) /\
  exists before, shutdown full s = before ++ [UnmountAll; GracefulStop] /\ GracefulStop ∉ before.
Proof. apply (shutdown_closes_connections all_up full). reflexivity. Defined.

End Agent.
