(* ===== verification/Stubs.v ===== *)
(** * The build for other systems (the *_other.go files)

    Off Linux the appliers, the SSH server, the exec subscriber and the
    GuestPodPlane client are replaced by stubs.  They are modelled to state what
    such a build does with the bus: nothing, and it says so. *)

From S2P Require Import Prelude GoLib Pod Bus SshKeys Properties GuestPlane.
Import Pod.

Module Stubs.

Section appliers.
Context {W : Type}.

Definition meshApply (_ : WireGuard) (w : W) : gerr * W :=
  (Some (errors_New "mesh apply requires linux (kernel WireGuard)"), w).

Definition firewallApply (_ : Firewall) (w : W) : gerr * W :=
  (Some (errors_New "firewall apply requires linux (nftables)"), w).

Definition firewallStatusRead : FirewallStatus :=
  {| fs_Overall := "Degraded"; fs_TableInstalled := false; fs_RulesInstalled := 0; fs_LastError := "nftables read requires linux";
     fs_PublishedAtUnix := 0; fs_DropsPackets := 0; fs_DropsBytes := 0 |}.

Definition sshKeysApplyer (authorizedKeysPath : string) (uid gid : Z) (_ : SshKeys.KeySet) (w : W) : gerr * W :=
  (Some (errors_New "sshkeys apply is Linux-only ; weft-microvm-agent runs inside a Linux microVM"), w).

Definition propertiesApplyer (root : string) (_ : Properties.PropertySet) (w : W) : gerr * W :=
  (Some (errors_New "properties apply is Linux-only ; weft-microvm-agent runs inside a Linux microVM"), w).
End appliers.

Definition kernelRelease : string := "".

(** ** pkg/sshd, pkg/execsession, pkg/guestplane *)

Record Server (PubKey Signer : Type) := { s_AuthStore : SshKeys.AuthStore PubKey; s_HostKey : Signer; s_Shell : string }.
Arguments s_AuthStore {PubKey Signer} _.
Arguments s_HostKey {PubKey Signer} _.
Arguments s_Shell {PubKey Signer} _.

Definition NewServer {PubKey Signer : Type} (store : SshKeys.AuthStore PubKey) (hostKey : Signer) (shell : string)
    : result (Server PubKey Signer) :=
  Ok {| s_AuthStore := store; s_HostKey := hostKey; s_Shell := shell |}.

Definition Serve {PubKey Signer : Type} (_ : Server PubKey Signer) : error :=
  errors_New "sshd is Linux-only ; weft-microvm-agent runs inside a Linux microVM".

(** The log is a list of lines; the logger may be nil. *)
Record Subscriber := { sub_vmID : string; sub_logger : bool }.
Definition NewSubscriber (vmID : string) (logger : bool) : Subscriber := {| sub_vmID := vmID; sub_logger := logger |}.

Definition Start (s : Subscriber) (log : list error) : gerr * list error :=
  (None, if sub_logger s
         then log ++ [Errorf "execsession: non-Linux build — subscriber inactive for vmID=%s" [EStr (sub_vmID s)]] else log).

Definition Run (_ : GuestPlane.Config) : error :=
  errors_New "guestplane: AF_VSOCK is Linux-only ; this build is a non-Linux stub".

(** ** Such a build does nothing *)

(** Whatever a message holds, its handler reports an error and changes nothing. *)
Definition refuses {A W : Type} (handle : bytes -> (A -> W -> gerr * W) -> W -> gerr * W) (f : A -> W -> gerr * W) : Prop :=
  forall data w, exists e, handle data f w = (Some e, w).

Lemma HandleMessage_refuses {A W : Type} d i (um : bytes -> result A) v (f : A -> W -> gerr * W) :
  (forall x w, exists e, f x w = (Some e, w)) -> refuses (Bus.HandleMessage d i um v) f.
Proof.
  intros Hf data w. unfold Bus.HandleMessage. destruct (um data) as [x|e]; [|by eexists].
  destruct (v x); [by eexists|]. apply Hf.
Qed.

(** No update is ever applied, and none is reported as applied: the four
    subscribers of a non-Linux build answer every message with an error and leave
    the state alone. *)
Theorem stub_build_refuses {W : Type} um1 um2 um3 um4 ParsePrefix path uid gid root :
  refuses (W := W) (Bus.Mesh_HandleMessage um1) meshApply /\
  refuses (W := W) (Bus.Firewall_HandleMessage ParsePrefix um2) firewallApply /\
  refuses (W := W) (SshKeys.HandleMessage um3) (sshKeysApplyer path uid gid) /\
  refuses (W := W) (Properties.HandleMessage um4) (propertiesApplyer root).
Proof. split_and!; apply HandleMessage_refuses; intros; by eexists. Qed.
End Stubs.
