(* ===== verification/System.v ===== *)
(** * The agent on the bus: the subscribers put together
      (the Subscribers of src/pkg/mesh, mounts, firewall, sshkeys and properties,
      wired to their appliers by the start* functions of
      src/cmd/weft-microvm-agent/main.go)

    A machine is what the appliers act on: the file system, the key store, the
    WireGuard and nftables state of the kernel, the share registry with its
    clients, the metrics and the log.  A message, a subject and a JSON text, runs
    the callback of every subscription whose subject matches; the callbacks
    decode, validate, apply, count and log.  Callbacks run one at a time here:
    those of one subscription do in the program too, and those of different
    subscriptions share only the file system, where [Concurrent] interleaves
    their system calls, the metrics and the log. *)

From S2P Require Import Prelude GoLib FileSys GoPath Pod Messages Bus Metrics SshKeys Properties NetIP Nft Firewall WireGuard Mounts CubeFS.
Import Pod.
Import (hints) Messages.

Module System.

(** ** NATS subjects *)

(** A subscription's tokens against a subject's: "*" is one token, a final ">"
    one or more. *)
Fixpoint tokens_match (pat toks : list bytes) : bool :=
  match pat, toks with
  | [], [] => true
  | p :: pat', t :: toks' =>
      if bool_decide (p = chars ">") && bool_decide (pat' = []) then true
      else (bool_decide (p = chars "*") || bool_decide (p = t)) && tokens_match pat' toks'
  | _, _ => false
  end.

Definition subject_matches (pat subj : string) : bool :=
  tokens_match (GoLib.split Bus.dot (chars pat)) (GoLib.split Bus.dot (chars subj)).

(** Without wildcards a subscription matches its own subject only. *)

Lemma join_split c b : join_bytes [c] (GoLib.split c b) = b.
Proof.
  unfold GoLib.split. assert (forall cur, join_bytes [c] (split_go c cur b) = cur ++ b) as H; [|apply (H [])].
  induction b as [|x b IH]; intros cur; simpl; [by rewrite app_nil_r|]. case_decide as Hx.
  - subst. destruct (split_go_cur c [] b) as (y & l & _ & Hy). specialize (IH []). rewrite Hy in *. simpl in *. by rewrite IH.
  - rewrite IH. by rewrite <- app_assoc.
Qed.

Lemma tokens_match_literal pat toks : Forall (fun p => p <> chars ">" /\ p <> chars "*") pat ->
  tokens_match pat toks = bool_decide (pat = toks).
Proof.
  intros Hp. revert toks. induction Hp as [|p pat [H1 H2] _ IH]; intros [|t toks]; try done. cbn [tokens_match].
  rewrite (bool_decide_eq_false_2 _ H1), (bool_decide_eq_false_2 _ H2). cbn [andb orb]. rewrite IH.
  destruct (decide (p = t)) as [->|Hne]; [|].
  2: { rewrite (bool_decide_eq_false_2 _ Hne). symmetry. apply bool_decide_eq_false_2. congruence. }
  rewrite (bool_decide_eq_true_2 (t = t)) by done. apply bool_decide_ext. split; congruence.
Qed.

(** A VM id that is one literal token. *)
Definition plain_id (vm : string) : Prop := Bus.one_token vm /\ vm <> "*" /\ vm <> ">".

Definition concerns : list Bus.purpose := [Bus.PMesh; Bus.PMounts; Bus.PFirewall; Bus.PSshKeys; Bus.PProperties].

Lemma literal_match p vm subj : plain_id vm -> p ∈ concerns ->
  subject_matches (Bus.subject p vm) subj = bool_decide (subj = Bus.subject p vm).
Proof.
  intros (Hdot & H1 & H2) Hp. assert (Bus.ids_ok p vm) as Hid by (split; [done|]; by destruct p; try done; set_solver).
  unfold subject_matches. rewrite (Bus.subject_split p vm Hid), tokens_match_literal.
  - apply bool_decide_ext. split; [|intros ->; by rewrite Bus.subject_split].
    intros Heq. apply (inj chars). rewrite <- (join_split Bus.dot (chars subj)), <- Heq. by rewrite Bus.subject_tokens.
  - apply Forall_fmap. assert (Forall (fun t => t <> ">" /\ t <> "*") (Bus.tokens p vm)) as Ht.
    { destruct p; try (exfalso; set_solver); simpl; repeat constructor; done. }
    eapply Forall_impl; [exact Ht|]. intros t [Ha Hb]. split; intros E%(inj chars _ _); done.
Qed.

(** ** Subscribers *)

Record Subscriber (A W : Type) := mkSubscriber { vmID : string; apply : A -> W -> gerr * W; logger : string }.
Arguments mkSubscriber {A W} _ _ _.
Arguments vmID {A W} _.
Arguments apply {A W} _ _ _.
Arguments logger {A W} _.

Definition log_Default : string := "log.Default()".

(** [logger] may be nil. *)
Definition NewSubscriber {A W : Type} (vm : string) (f : A -> W -> gerr * W) (l : option string) : Subscriber A W :=
  mkSubscriber vm f (default log_Default l).

(** Running HandleMessage with an apply that also remembers what it was given:
    the closures of the mounts and firewall callbacks. *)
Definition capture {A W : Type} (f : A -> W -> gerr * W) (x : A) (w : option A * W) : gerr * (option A * W) :=
  let '(err, w') := f x w.2 in (err, (Some x, w')).

Section system.
Context {PubKey N Closer K E : Type} `{WireGuard.WgKernel N Closer, Nft.Nftables K, CubeFS.Host E}.
Context (ParseAuthorizedKey : string -> result (PubKey * string)) (FingerprintSHA256 : PubKey -> string).
(** json.Unmarshal, per concern. *)
Local Abbreviation umWireGuard := (Messages.Unmarshal (A := WireGuard)).
Local Abbreviation umShareMount := (Messages.Unmarshal (A := ShareMount)).
Local Abbreviation umFirewall := (Messages.Unmarshal (A := Firewall)).
Local Abbreviation umKeySet := (Messages.Unmarshal (A := SshKeys.KeySet)).
Local Abbreviation umPropertySet := (Messages.Unmarshal (A := Properties.PropertySet)).
(** The flags, and the name os.CreateTemp settles on. *)
Context (authorizedKeys propsDir : string) (uid gid : Z) (tmpName : fsys -> string).

Abbreviation clients := (E * gset nat * nat * gset nat)%type.

Record machine := mkMachine {
  s_os : os;
  s_keys : SshKeys.AuthStore PubKey;
  s_wg : N * option Closer;
  s_nft : K;
  s_mounts : gmap string CubeFS.Mounted * clients;
  s_rec : option Metrics.Recorder;
  s_elapsed : list Z;
  s_log : list error
}.

(** ** The appliers, on the machine *)

(** [rec.RecordApply(concern, err, time.Since(start))]. *)
Definition recorded (concern : string) (r : gerr * machine) : gerr * machine :=
  let '(err, m) := r in
  (err, mkMachine (s_os m) (s_keys m) (s_wg m) (s_nft m) (s_mounts m)
          (Metrics.RecordApply concern err (hd 0%Z (s_elapsed m)) (s_rec m)) (tl (s_elapsed m)) (s_log m)).

Definition meshApply (wg : WireGuard) (m : machine) : gerr * machine :=
  let '(err, w) := WireGuard.ApplyWireGuard (tmpName (files (s_os m))) (Some wg)
                     (WireGuard.mkWorld (s_os m) (s_wg m).1 (s_wg m).2) in
  recorded "mesh" (err, mkMachine (WireGuard.w_os w) (s_keys m) (WireGuard.w_net w, WireGuard.w_applier w) (s_nft m)
                          (s_mounts m) (s_rec m) (s_elapsed m) (s_log m)).

#[local] Instance share_engine : Mounts.Mounter (CubeFS.state E) CubeFS.Mounted := CubeFS.engine CubeFS.config_json.

Definition mountsApply (spec : ShareMount) (m : machine) : gerr * machine :=
  let '(e, running, next, logs) := (s_mounts m).2 in
  let '(err, (active, s)) :=
    Mounts.Apply spec
      ((s_mounts m).1, CubeFS.mkState (s_os m) e running next logs) in
  recorded "mounts" (err, mkMachine (CubeFS.c_os s) (s_keys m) (s_wg m) (s_nft m)
    (active, (CubeFS.c_env s, CubeFS.c_running s, CubeFS.c_next s, CubeFS.c_logs s)) (s_rec m) (s_elapsed m) (s_log m)).

Definition firewallApply (fw : Firewall) (m : machine) : gerr * machine :=
  let '(err, k) := Firewall.ApplyFirewall fw (s_nft m) in
  recorded "firewall" (err, mkMachine (s_os m) (s_keys m) (s_wg m) k (s_mounts m) (s_rec m) (s_elapsed m) (s_log m)).

(** The composed apply of startSSHKeys counts and logs for itself. *)
Definition sshKeysApply (ks : SshKeys.KeySet) (m : machine) : gerr * machine :=
  let '(err, w) := SshKeys.composed ParseAuthorizedKey FingerprintSHA256 authorizedKeys uid gid true ks
                     (SshKeys.mkWorld (s_keys m) (s_os m) (s_rec m) (s_elapsed m) (s_log m)) in
  (err, mkMachine (SshKeys.disk w) (SshKeys.store w) (s_wg m) (s_nft m) (s_mounts m)
          (SshKeys.recorder w) (SshKeys.elapsed w) (SshKeys.logged w)).

Definition propertiesApply (ps : Properties.PropertySet) (m : machine) : gerr * machine :=
  let '(r, o) := Properties.propertiesApplyer propsDir ps (s_os m) in
  recorded "properties" (match r with Ok _ => None | Err e => Some e end,
    mkMachine o (s_keys m) (s_wg m) (s_nft m) (s_mounts m) (s_rec m) (s_elapsed m) (s_log m)).

(** ** The callbacks *)

(** [logger.Printf]: the format and its arguments, kept unformatted. *)
Definition say (l : error) (m : machine) : machine :=
  mkMachine (s_os m) (s_keys m) (s_wg m) (s_nft m) (s_mounts m) (s_rec m) (s_elapsed m) (s_log m ++ [l]).

Definition Mesh_onMessage (sub : Subscriber WireGuard machine) (data : bytes) (m : machine) : machine :=
  let '(err, m) := Bus.Mesh_HandleMessage umWireGuard data (apply sub) m in
  say (match err with
       | Some e => Errorf "mesh: %v" [EErr e]
       | None => Errorf "mesh: applied update for %s" [EStr (vmID sub)]
       end) m.

Definition Mounts_onMessage (sub : Subscriber ShareMount machine) (data : bytes) (m : machine) : machine :=
  let '(err, (last, m)) := Bus.Mounts_HandleMessage umShareMount data (capture (apply sub)) (None, m) in
  say (match err with
       | Some e => Errorf "mounts: %v" [EErr e]
       | None =>
           let '(action, id, mp) := match last with
                                    | Some l => (sm_Action l, sm_ID l, sm_MountPoint l)
                                    | None => ("", "", "")
                                    end in
           let action := if decide (action = "") then "mount" else action in
           Errorf "mounts: applied %s id=%s mount=%s" [EStr action; EStr id; EStr mp]
       end) m.

Definition Firewall_onMessage (sub : Subscriber Firewall machine) (data : bytes) (m : machine) : machine :=
  let '(err, (last, m)) := Bus.Firewall_HandleMessage NetIP.ParsePrefix_err umFirewall data (capture (apply sub)) (None, m) in
  let rules := match last with Some fw => Z.of_nat (length (fw_Rules fw)) | None => 0%Z end in
  say (match err with
       | Some e => Errorf "firewall: %v" [EErr e]
       | None => Errorf "firewall: applied %d rule(s) for %s" [EInt rules; EStr (vmID sub)]
       end) m.

Definition SshKeys_onMessage (sub : Subscriber SshKeys.KeySet machine) (data : bytes) (m : machine) : machine :=
  let '(line, m) := SshKeys.onMessage umKeySet (vmID sub) (apply sub) data m in say line m.

(** The key count is taken from a second decoding, whose error is ignored. *)
Definition Properties_onMessage (sub : Subscriber Properties.PropertySet machine) (data : bytes) (m : machine) : machine :=
  let '(err, m) := Properties.HandleMessage umPropertySet data (apply sub) m in
  say (match err with
       | Some e => Errorf "properties: %v" [EErr e]
       | None =>
           let n := match umPropertySet data with Ok ps => Z.of_nat (size ps) | Err _ => 0%Z end in
           Errorf "properties: applied update for %s (%d keys)" [EStr (vmID sub); EInt n]
       end) m.

(** ** The bus *)

Definition subscription : Type := string * (bytes -> machine -> machine).

Definition Mesh_Start (sub : Subscriber WireGuard machine) : subscription := (Bus.Mesh_Subject (vmID sub), Mesh_onMessage sub).
Definition Mounts_Start (sub : Subscriber ShareMount machine) : subscription := (Bus.Mounts_Subject (vmID sub), Mounts_onMessage sub).
Definition Firewall_Start (sub : Subscriber Firewall machine) : subscription := (Bus.Firewall_Subject (vmID sub), Firewall_onMessage sub).
Definition SshKeys_Start (sub : Subscriber SshKeys.KeySet machine) : subscription := (Bus.SshKeys_Subject (vmID sub), SshKeys_onMessage sub).
Definition Properties_Start (sub : Subscriber Properties.PropertySet machine) : subscription :=
  (Bus.Properties_Subject (vmID sub), Properties_onMessage sub).

(** The constructors of the five packages. *)
Definition Mesh_NewSubscriber : string -> (WireGuard -> machine -> gerr * machine) -> option string -> Subscriber WireGuard machine := NewSubscriber.
Definition Mounts_NewSubscriber : string -> (ShareMount -> machine -> gerr * machine) -> option string -> Subscriber ShareMount machine := NewSubscriber.
Definition Firewall_NewSubscriber : string -> (Firewall -> machine -> gerr * machine) -> option string -> Subscriber Firewall machine := NewSubscriber.
Definition SshKeys_NewSubscriber : string -> (SshKeys.KeySet -> machine -> gerr * machine) -> option string -> Subscriber SshKeys.KeySet machine := NewSubscriber.
Definition Properties_NewSubscriber : string -> (Properties.PropertySet -> machine -> gerr * machine) -> option string ->
    Subscriber Properties.PropertySet machine := NewSubscriber.

(** What run subscribes when every per-VM flag is set to [vm]. *)
Definition subscribed (vm : string) : list subscription :=
  [Mesh_Start (Mesh_NewSubscriber vm meshApply None);
   Mounts_Start (Mounts_NewSubscriber vm mountsApply None);
   Firewall_Start (Firewall_NewSubscriber vm firewallApply None);
   SshKeys_Start (SshKeys_NewSubscriber vm sshKeysApply None);
   Properties_Start (Properties_NewSubscriber vm propertiesApply None)].

Definition publish (subs : list subscription) (m : machine) (msg : string * bytes) : machine :=
  foldl (fun m '(pat, cb) => if subject_matches pat msg.1 then cb msg.2 m else m) m subs.

Definition history (vm : string) (m : machine) (msgs : list (string * bytes)) : machine :=
  foldl (publish (subscribed vm)) m msgs.

(** ** What a message reaches *)

Definition callback_of (vm subj : string) : option (bytes -> machine -> machine) :=
  if decide (subj = Bus.Mesh_Subject vm) then Some (Mesh_onMessage (NewSubscriber vm meshApply None))
  else if decide (subj = Bus.Mounts_Subject vm) then Some (Mounts_onMessage (NewSubscriber vm mountsApply None))
  else if decide (subj = Bus.Firewall_Subject vm) then Some (Firewall_onMessage (NewSubscriber vm firewallApply None))
  else if decide (subj = Bus.SshKeys_Subject vm) then Some (SshKeys_onMessage (NewSubscriber vm sshKeysApply None))
  else if decide (subj = Bus.Properties_Subject vm) then Some (Properties_onMessage (NewSubscriber vm propertiesApply None))
  else None.

(** Equations between subjects, decided. *)
Local Ltac settle :=
  repeat ((rewrite bool_decide_eq_true_2 by done) || (rewrite bool_decide_eq_false_2 by discriminate)).

Lemma publish_callback vm m subj data : plain_id vm ->
  publish (subscribed vm) m (subj, data) = match callback_of vm subj with Some cb => cb data m | None => m end.
Proof.
  intros Hvm. unfold publish, subscribed, callback_of, Mesh_NewSubscriber, Mounts_NewSubscriber, Firewall_NewSubscriber,
    SshKeys_NewSubscriber, Properties_NewSubscriber. cbn [foldl fst snd Mesh_Start Mounts_Start Firewall_Start SshKeys_Start Properties_Start vmID NewSubscriber].
  assert (forall p, p ∈ concerns -> subject_matches (Bus.subject p vm) subj = bool_decide (subj = Bus.subject p vm)) as Hm
    by (intros p; by apply literal_match).
  unfold concerns in Hm.
  pose proof (Hm Bus.PMesh) as Hp1. pose proof (Hm Bus.PMounts) as Hp2. pose proof (Hm Bus.PFirewall) as Hp3.
  pose proof (Hm Bus.PSshKeys) as Hp4. pose proof (Hm Bus.PProperties) as Hp5. cbn [Bus.subject] in *.
  rewrite Hp1, Hp2, Hp3, Hp4, Hp5 by set_solver. clear Hm Hp1 Hp2 Hp3 Hp4 Hp5.
  destruct (decide (subj = Bus.Mesh_Subject vm)) as [->|Hn1]; [by settle|].
  destruct (decide (subj = Bus.Mounts_Subject vm)) as [->|Hn2]; [by settle|].
  destruct (decide (subj = Bus.Firewall_Subject vm)) as [->|Hn3]; [by settle|].
  destruct (decide (subj = Bus.SshKeys_Subject vm)) as [->|Hn4]; [by settle|].
  destruct (decide (subj = Bus.Properties_Subject vm)) as [->|Hn5]; [by settle|].
  by rewrite !bool_decide_eq_false_2 by done.
Qed.

(** ** A history, component by component *)

(** The messages of a history on one subject. *)
Definition data_on (subj : string) (msgs : list (string * bytes)) : list bytes :=
  snd <$> filter (fun msg => msg.1 = subj) msgs.

Definition nft_step (k : K) (data : bytes) : K :=
  (Bus.Firewall_HandleMessage NetIP.ParsePrefix_err umFirewall data Firewall.ApplyFirewall k).2.

(** The key set a message brings, when it is well-formed. *)
Definition key_set (data : bytes) : option SshKeys.KeySet :=
  match umKeySet data with
  | Ok ks => match SshKeys.Validate ks with None => Some ks | Some _ => None end
  | Err _ => None
  end.

Definition keys_step (st : SshKeys.AuthStore PubKey) (data : bytes) : SshKeys.AuthStore PubKey :=
  match key_set data with
  | Some ks => (SshKeys.Replace ParseAuthorizedKey FingerprintSHA256 st ks).1
  | None => st
  end.

(** The log lines of a key message: the counts of the store, when it was
    replaced, and the callback's own. *)
Definition key_lines (data : bytes) : nat := if key_set data then 2 else 1.

Definition shares (m : machine) : gmap string CubeFS.Mounted * CubeFS.state E :=
  let '(e, running, next, logs) := (s_mounts m).2 in ((s_mounts m).1, CubeFS.mkState (s_os m) e running next logs).

Definition subjects (vm : string) : list string :=
  [Bus.Mesh_Subject vm; Bus.Mounts_Subject vm; Bus.Firewall_Subject vm; Bus.SshKeys_Subject vm; Bus.Properties_Subject vm].

(** What one message does to the parts of the machine that only their own
    concern touches, and to the log. *)
Definition effect (fw keys : bool) (data : bytes) (m m' : machine) : Prop :=
  s_nft m' = (if fw then nft_step (s_nft m) data else s_nft m) /\
  s_keys m' = (if keys then keys_step (s_keys m) data else s_keys m) /\
  (CubeFS.accounted (shares m) -> CubeFS.accounted (shares m')) /\
  length (s_log m') = length (s_log m) + (if keys then key_lines data else 1).

(** The lines a message adds. *)
Definition lines (vm : string) (msg : string * bytes) : nat :=
  if decide (msg.1 ∈ subjects vm) then
    if decide (msg.1 = Bus.SshKeys_Subject vm) then key_lines msg.2 else 1
  else 0.

(** Clients are accounted for whatever happens to the files. *)
Lemma accounted_files active e running next logs o o' :
  CubeFS.accounted (active, CubeFS.mkState o e running next logs) ->
  CubeFS.accounted (E := E) (active, CubeFS.mkState o' e running next logs).
Proof. by apply CubeFS.accounted_same. Qed.

(** A message that is rejected is logged and changes nothing. *)
Lemma rejected_effect data m l : effect false false data m (say l m).
Proof. unfold effect, say, shares. cbn. rewrite length_app. simpl. split_and!; [done|done|done|lia]. Qed.

(** An applier that touches the files, and its log line. *)
Lemma files_effect data m m' l : s_nft m' = s_nft m -> s_keys m' = s_keys m -> s_mounts m' = s_mounts m ->
  s_log m' = s_log m -> effect false false data m (say l m').
Proof.
  intros Hn Hk Hm Hl. unfold effect, say, shares. cbn. rewrite Hn, Hk, Hm, Hl, length_app. simpl. split_and!; [done|done| |lia].
  destruct (s_mounts m) as [active [[[e running] next] logs]]. cbn. by apply accounted_files.
Qed.

Lemma Mesh_effect sub data m : apply sub = meshApply -> effect false false data m (Mesh_onMessage sub data m).
Proof.
  intros Ha. unfold Mesh_onMessage, Bus.Mesh_HandleMessage, Bus.HandleMessage. rewrite Ha.
  destruct (umWireGuard data) as [wg|e]; [|apply rejected_effect].
  destruct (WireGuard_Validate wg); [apply rejected_effect|].
  unfold meshApply. destruct (WireGuard.ApplyWireGuard _ _ _) as [err w]. by apply files_effect.
Qed.

Lemma Properties_effect sub data m : apply sub = propertiesApply -> effect false false data m (Properties_onMessage sub data m).
Proof.
  intros Ha. unfold Properties_onMessage, Properties.HandleMessage, Bus.HandleMessage. rewrite Ha.
  destruct (umPropertySet data) as [ps|e]; [|apply rejected_effect].
  destruct (Properties.Validate ps); [apply rejected_effect|].
  unfold propertiesApply. destruct (Properties.propertiesApplyer _ _ _) as [r o]. by apply files_effect.
Qed.

Lemma Mounts_effect sub data m : apply sub = mountsApply -> effect false false data m (Mounts_onMessage sub data m).
Proof.
  intros Ha. unfold Mounts_onMessage, Bus.Mounts_HandleMessage, Bus.HandleMessage. rewrite Ha.
  destruct (umShareMount data) as [spec|e]; [|apply rejected_effect].
  destruct (ShareMount_Validate spec); [apply rejected_effect|].
  unfold capture, mountsApply, effect, shares.
  destruct m as [o keys wg k [active [[[e running] next] logs]] rec el lg]. cbn [fst snd s_mounts s_os].
  pose proof (CubeFS.Apply_clients CubeFS.config_json spec (active, CubeFS.mkState o e running next logs)) as Hc.
  unfold share_engine. revert Hc.
  destruct (Mounts.Apply spec _) as [err [active' s]]. intros Hc. cbn. rewrite length_app. simpl. split_and!; [done|done| |lia].
  intros Hacc. destruct s. by apply Hc.
Qed.

Lemma Firewall_effect sub data m : apply sub = firewallApply -> effect true false data m (Firewall_onMessage sub data m).
Proof.
  intros Ha. unfold Firewall_onMessage, effect, nft_step, Bus.Firewall_HandleMessage, Bus.HandleMessage. rewrite Ha.
  destruct (umFirewall data) as [fw|e]; [|apply (rejected_effect data m)].
  destruct (Firewall_Validate NetIP.ParsePrefix_err fw); [apply (rejected_effect data m)|].
  unfold capture, firewallApply. cbn [snd]. destruct (Firewall.ApplyFirewall fw (s_nft m)) as [err k]. cbn.
  rewrite length_app. simpl. split_and!; [done|done|done|lia].
Qed.

Lemma SshKeys_effect sub data m : apply sub = sshKeysApply -> effect false true data m (SshKeys_onMessage sub data m).
Proof.
  intros Ha. unfold SshKeys_onMessage, SshKeys.onMessage, SshKeys.HandleMessage, Bus.HandleMessage, effect, keys_step, key_lines, key_set.
  rewrite Ha.
  destruct (umKeySet data) as [ks|e]; [|apply (rejected_effect data m)].
  destruct (SshKeys.Validate ks); [apply (rejected_effect data m)|].
  unfold sshKeysApply. rewrite SshKeys.composed_true. destruct (SshKeys.sshKeysApplyer _ _ _ _ _) as [r o].
  destruct (SshKeys.Replace _ _ _ _) as [st [a b]] eqn:Er. cbn in Er |- *. rewrite ?Er.
  rewrite !length_app. simpl. split_and!; [done|done| |lia].
  unfold shares. cbn. destruct (s_mounts m) as [active [[[e running] next] logs]]. cbn. by apply accounted_files.
Qed.

Lemma publish_effect vm m subj data : plain_id vm ->
  if decide (subj ∈ subjects vm) then
    effect (bool_decide (subj = Bus.Firewall_Subject vm)) (bool_decide (subj = Bus.SshKeys_Subject vm)) data m
           (publish (subscribed vm) m (subj, data))
  else publish (subscribed vm) m (subj, data) = m.
Proof.
  intros Hvm. rewrite publish_callback by done. unfold callback_of, subjects.
  destruct (decide (subj = Bus.Mesh_Subject vm)) as [->|Hn1]; [rewrite decide_True by set_solver; settle; by apply Mesh_effect|].
  destruct (decide (subj = Bus.Mounts_Subject vm)) as [->|Hn2]; [rewrite decide_True by set_solver; settle; by apply Mounts_effect|].
  destruct (decide (subj = Bus.Firewall_Subject vm)) as [->|Hn3]; [rewrite decide_True by set_solver; settle; by apply Firewall_effect|].
  destruct (decide (subj = Bus.SshKeys_Subject vm)) as [->|Hn4]; [rewrite decide_True by set_solver; settle; by apply SshKeys_effect|].
  destruct (decide (subj = Bus.Properties_Subject vm)) as [->|Hn5]; [rewrite decide_True by set_solver; settle; by apply Properties_effect|].
  rewrite decide_False by set_solver. done.
Qed.

(** C4.  The agent takes the bus apart cleanly.  Over any history of messages, on
    any subjects, for this VM and for others, valid or not, with any failures
    of the appliers: the firewall of the machine is what the firewall messages
    of this VM alone, in order, make of it; the SSH keys are what its key
    messages alone make of them; the share clients stay accounted for; and
    every message on one of the five subjects, and no other, is logged: with one
    line, or with two for a well-formed key set, whose first line has the counts
    of the key store. *)
Theorem history_by_component vm m msgs : plain_id vm ->
  s_nft (history vm m msgs) = foldl nft_step (s_nft m) (data_on (Bus.Firewall_Subject vm) msgs) /\
  s_keys (history vm m msgs) = foldl keys_step (s_keys m) (data_on (Bus.SshKeys_Subject vm) msgs) /\
  (CubeFS.accounted (shares m) -> CubeFS.accounted (shares (history vm m msgs))) /\
  length (s_log (history vm m msgs)) = length (s_log m) + sum_list_with (lines vm) msgs.
Proof.
  intros Hvm. unfold history, data_on. revert m. induction msgs as [|[subj data] msgs IH]; intros m; [cbn; split_and!; [done..|lia]|].
  cbn [foldl sum_list_with].
  destruct (IH (publish (subscribed vm) m (subj, data))) as (H1' & H2' & H3' & H4'). rewrite H1', H2', H4'. clear H1' H2' H4' IH.
  pose proof (publish_effect vm m subj data Hvm) as He. unfold lines at 2. rewrite !filter_cons. cbn [fst snd].
  destruct (decide (subj ∈ subjects vm)) as [Hin|Hout].
  - destruct He as (-> & -> & Hs & ->).
    destruct (decide (subj = Bus.Firewall_Subject vm)) as [Hd|Hd], (decide (subj = Bus.SshKeys_Subject vm)) as [Hk|Hk];
      rewrite ?(bool_decide_eq_true_2 _ Hd), ?(bool_decide_eq_false_2 _ Hd), ?(bool_decide_eq_true_2 _ Hk),
        ?(bool_decide_eq_false_2 _ Hk); (split_and!; [done|done|by auto|lia]).
  - rewrite He in *. rewrite !(decide_False (P := subj = _)) by (unfold subjects in Hout; set_solver). done.
Qed.
End system.

(** A concrete machine for the witness. *)
#[local] Existing Instances WireGuard.recording Nft.doc_nft CubeFS.toy_host.

Definition machine0 : machine (PubKey := string) (N := list (WireGuard.ServerConfig * option node)) (Closer := nat)
                              (K := Nft.kernel) (E := Z * string) :=
  mkMachine (mk_os {[ [] := NDir ]} [] []) SshKeys.NewAuthStore ([], None) {| Nft.k_tables := ∅; Nft.k_fault := None |} (∅, ((0%Z, ""), ∅, 1, ∅)) None [] [].

(** A ruleset for this VM, one for another, a status, a broken mesh update, a
    key set, a broken one. *)
Definition bus0 : list (string * bytes) :=
  [("weft.firewall.vm1", Messages.text "{'rules':[]}"); ("weft.firewall.vm2", Messages.text "{'rules':[]}");
   ("weft.firewall.vm1.status", Messages.text "{}"); ("weft.mesh.vm1", Messages.text "{'private_key'");
   ("weft.sshkeys.vm1", Messages.text "{'keys':[{'public_key':'ssh-rsa AAAA bob'}]}");
   ("weft.sshkeys.vm1", Messages.text "{'keys':7}")].

Lemma history_by_component_witness :
  let m' := history SshKeys.toyParse SshKeys.toyFingerprint
              "/root/.ssh/authorized_keys" "/run/weft/properties" 0 0 (fun _ => "/run/key") "vm1" machine0 bus0 in
  s_nft m' = nft_step (s_nft machine0) (Messages.text "{'rules':[]}") /\
  s_keys m' = (SshKeys.Replace SshKeys.toyParse SshKeys.toyFingerprint SshKeys.NewAuthStore
                 {| SshKeys.Keys := [{| SshKeys.PublicKey := "ssh-rsa AAAA bob" |}] |}).1 /\
  SshKeys.Size (s_keys m') = 1%Z /\ length (s_log m') = 5.
Proof.
  destruct (history_by_component SshKeys.toyParse SshKeys.toyFingerprint
              "/root/.ssh/authorized_keys" "/run/weft/properties" 0 0 (fun _ => "/run/key") "vm1" machine0 bus0)
    as (H1 & H2 & _ & H4).
  { split; [|done]. apply (bool_decide_unpack _). by vm_compute. }
  split; [exact H1|]. split; [rewrite H2; vm_compute; reflexivity|]. split; [rewrite H2; vm_compute; reflexivity|].
  rewrite H4. vm_compute. reflexivity.
Defined.
End System.
