(* ===== verification/DropMetrics.v ===== *)
(** * Dropped packets, from the kernel to Prometheus

    The path of the drop counters: the tail rule ApplyFirewall installs counts
    the packets the input chain refuses; every tick the emitter of
    src/pkg/firewallstatus reads them with ReadFirewallStatus and hands them to
    RecordFirewallDrops of src/internal/metrics (wired in startFirewallStatus of
    src/cmd/weft-microvm-agent/main.go), and publishes them as JSON.  Here the models of the three are
    composed, on any kernel that satisfies the laws of [Nft]. *)

From S2P Require Import Prelude GoLib Reflect Pod Bus Metrics FirewallStatus NetIP Nft Firewall Messages.
Import (hints) Messages.
Import Pod Nft Firewall.
Local Open Scope Z_scope.

Module DropMetrics.

Section path.
Context {K : Type} `{NftVM, !NftVMLaws, Nftables K, !NftablesLaws K}.
Context (Error : error -> string) (clock : K -> Z) (answer : string -> bytes -> gerr) (vm : string).

(** What the emitter acts on. *)
Definition world : Type := K * option Metrics.Recorder.

Definition read (w : world) : FirewallStatus * world :=
  let '(status, k) := ReadFirewallStatus Error w.1 in (status, (k, w.2)).

Definition emitter : FirewallStatus.Emitter world := {|
  FirewallStatus.vmID := vm; FirewallStatus.interval := FirewallStatus.defaultInterval;
  FirewallStatus.hook := Some (fun err w => (w.1, Metrics.RecordFirewallStatusPublish err w.2));
  FirewallStatus.readHook := Some (fun p b w => (w.1, Metrics.RecordFirewallDrops p b w.2)) |}.

Definition tick : world -> world :=
  FirewallStatus.publishOnce read (fun w => (clock w.1, w)) Messages.Marshal (fun subj data w => (answer subj data, w)) emitter.

(** The same with the wire in view: what is handed to nc.Publish is kept. *)
Definition logged : Type := world * list (string * bytes).

Definition on_world {A} (f : world -> A * world) (w : logged) : A * logged :=
  let '(a, w') := f w.1 in (a, (w', w.2)).

Definition logged_emitter : FirewallStatus.Emitter logged := {|
  FirewallStatus.vmID := FirewallStatus.vmID emitter; FirewallStatus.interval := FirewallStatus.interval emitter;
  FirewallStatus.hook := (fun h err w => (h err w.1, w.2)) <$> FirewallStatus.hook emitter;
  FirewallStatus.readHook := (fun h p b w => (h p b w.1, w.2)) <$> FirewallStatus.readHook emitter |}.

Definition logged_tick : logged -> logged :=
  FirewallStatus.publishOnce (on_world read) (on_world (fun w => (clock w.1, w))) Messages.Marshal
    (fun subj data w => (answer subj data, (w.1, w.2 ++ [(subj, data)]))) logged_emitter.

Inductive event := EApply (fw : Firewall) | EPacket (p : packet) | ETick.

(** Whether the kernel has the ruleset after ApplyFirewall returned: it has
    after a success, and it may have after an error. *)
Definition installed (fw : Firewall) (r : gerr * K) : bool :=
  match r.1 with
  | None => true
  | Some _ => bool_decide (tables r.2 !! firewallTableName = Some (desired fw))
  end.

(** The policy in force is carried along: the last one that reached the kernel. *)
Record state := mkState { st_world : world; st_policy : Firewall }.

Definition step (s : state) (ev : event) : state :=
  let '(k, r) := st_world s in
  match ev with
  | EApply fw =>
      let res := ApplyFirewall fw k in
      mkState (res.2, r) (if installed fw res then fw else st_policy s)
  | EPacket p => mkState (receive p k, r) (st_policy s)
  | ETick => mkState (tick (k, r)) (st_policy s)
  end.

Definition run : state -> list event -> state := foldl step.

(** The packets the policy in force refused. *)
Fixpoint refused (s : state) (evs : list event) : list packet :=
  match evs with
  | [] => []
  | ev :: evs' =>
      match ev with EPacket p => if accepts (st_policy s) p then [] else [p] | _ => [] end ++ refused (step s ev) evs'
  end.

(** Every read of the status succeeded. *)
Fixpoint reads_ok (s : state) (evs : list event) : Prop :=
  match evs with
  | [] => True
  | ev :: evs' =>
      match ev with ETick => fs_Overall (read (st_world s)).1 = "Healthy" | _ => True end /\ reads_ok (step s ev) evs'
  end.

(** What the accumulator is up against, for a field of weight [f] per packet. *)
Fixpoint kernel_events (f : packet -> Z) (s : state) (evs : list event) : list Metrics.kernel_event :=
  match evs with
  | [] => []
  | ev :: evs' =>
      match ev with
      | EApply fw => if installed fw (ApplyFirewall fw (st_world s).1) then [Metrics.Rebuilt] else []
      | EPacket p => if accepts (st_policy s) p then [] else [Metrics.Dropped (f p)]
      | ETick => [Metrics.Sampled]
      end ++ kernel_events f (step s ev) evs'
  end.

Definition wf_event (ev : event) : Prop :=
  match ev with EApply fw => compiles_exactly fw | EPacket p => wf_packet p | ETick => True end.

(** ** Simulation *)

Context (Hle : endian = LittleEndian).

Definition one (_ : packet) : Z := 1.

(** The machine against the two accumulators' histories. *)
Definition related (s : state) (dp db : Metrics.drops) : Prop :=
  compiles_exactly (st_policy s) /\ drops_ok (Metrics.kernel dp, Metrics.kernel db) /\
  tables (st_world s).1 = {[firewallTableName := [inputChain (st_policy s) (Metrics.kernel dp, Metrics.kernel db); outputChain (st_policy s)]]} /\
  exists r, (st_world s).2 = Some r /\
    Metrics.firewallDropsPackets r = Metrics.published dp /\ Metrics.firewallDropsLastPkt r = Metrics.last_seen dp /\
    Metrics.firewallDropsBytes r = Metrics.published db /\ Metrics.firewallDropsLastByt r = Metrics.last_seen db.

Lemma tick_spec k r : exists r',
  tick (k, Some r) = ((ReadFirewallStatus Error k).2, Some r') /\
  (Metrics.firewallDropsPackets r', Metrics.firewallDropsLastPkt r') =
    Metrics.accumulate (Metrics.firewallDropsPackets r) (Metrics.firewallDropsLastPkt r) (fs_DropsPackets (ReadFirewallStatus Error k).1) /\
  (Metrics.firewallDropsBytes r', Metrics.firewallDropsLastByt r') =
    Metrics.accumulate (Metrics.firewallDropsBytes r) (Metrics.firewallDropsLastByt r) (fs_DropsBytes (ReadFirewallStatus Error k).1).
Proof.
  unfold tick, FirewallStatus.publishOnce, read, emitter. cbn [FirewallStatus.readHook FirewallStatus.hook fst snd].
  destruct (ReadFirewallStatus Error k) as [status k'] eqn:Hr. cbn [fst snd]. unfold Metrics.RecordFirewallDrops.
  destruct (Metrics.accumulate _ _ (fs_DropsPackets status)) as [tp lp], (Metrics.accumulate _ _ (fs_DropsBytes status)) as [tb lb].
  cbn [fst snd Messages.Marshal Metrics.RecordFirewallStatusPublish]; eexists; (split; [reflexivity|]); by split.
Qed.

(** After an apply, failed or not, the table is the new one if [installed] says
    so, and the old one otherwise. *)
Lemma apply_installed fw k tbl : tables k = {[firewallTableName := tbl]} ->
  tables (ApplyFirewall fw k).2 =
    {[firewallTableName := if installed fw (ApplyFirewall fw k) then desired fw else tbl]}.
Proof.
  intros Ht. pose proof (ApplyFirewall_spec fw k) as Hs. unfold installed. rewrite Ht, insert_singleton_eq in Hs.
  destruct (ApplyFirewall fw k) as [[err|] k']; cbn [fst snd] in *; [|by destruct Hs].
  destruct Hs as [Hs|[_ Hs]]; rewrite Hs, lookup_singleton_eq; case_bool_decide; congruence.
Qed.

Lemma step_related s dp db ev : wf_event ev -> related s dp db ->
  match ev with ETick => fs_Overall (read (st_world s)).1 = "Healthy" | _ => True end ->
  related (step s ev) (foldl Metrics.kernel_step dp (kernel_events one s [ev])) (foldl Metrics.kernel_step db (kernel_events pk_len s [ev])).
Proof.
  intros Hwf (Hc & Hd & Ht & r & Hr & Hp & Hlp & Hb & Hlb) Hok. destruct s as [[k r0] fw]. simpl in *. subst r0.
  unfold step. destruct ev as [fw'|p|]; simpl in *.
  - pose proof (apply_installed fw' k _ Ht) as Hs. destruct (installed fw' (ApplyFirewall fw' k)); simpl.
    + unfold related. simpl. split_and!; [done|split; simpl; lia|exact Hs|by exists r].
    + unfold related. simpl. rewrite Hs. split_and!; [done|done|done|]. by exists r.
  - assert (tables (receive p k) = {[firewallTableName := [inputChain fw (count_drop fw (Metrics.kernel dp, Metrics.kernel db) p); outputChain fw]]}) as Hk
      by exact (traffic_tables fw [p] _ k Hle ltac:(by apply Forall_singleton) Hc Ht).
    unfold count_drop in Hk. destruct (accepts fw p); unfold related; simpl.
    + split_and!; [done|done|done|]. by exists r.
    + split_and!; [done|split; apply u64_range|done|]. by exists r.
  - destruct (ReadFirewallStatus_ok Error fw (Metrics.kernel dp, Metrics.kernel db) k (proj1 Hc) Hd Ht) as [Hkeep Hst].
    destruct (tick_spec k r) as (r' & -> & Ep & Eb). unfold read in Hok. simpl in Hok.
    destruct (ReadFirewallStatus Error k) as [status k']. simpl in *.
    destruct Hst as [(i & msg & ->)| ->]; [by simpl in Hok|]. simpl in Ep, Eb. rewrite Hp, Hlp in Ep. rewrite Hb, Hlb in Eb.
    unfold Metrics.accumulate in Ep, Eb. cbv zeta in Ep, Eb. apply pair_equal_spec in Ep as [Ep1 Ep2], Eb as [Eb1 Eb2].
    unfold related. simpl. rewrite Hkeep.
    split_and!; [done|done|done|]. by exists r'.
Qed.

Lemma events_cons f s ev evs : kernel_events f s (ev :: evs) = kernel_events f s [ev] ++ kernel_events f (step s ev) evs.
Proof. cbn [kernel_events]. by rewrite app_nil_r. Qed.

Lemma run_related evs s dp db : Forall wf_event evs -> related s dp db -> reads_ok s evs ->
  related (run s evs) (foldl Metrics.kernel_step dp (kernel_events one s evs)) (foldl Metrics.kernel_step db (kernel_events pk_len s evs)).
Proof.
  intros Hwf. revert s dp db. induction Hwf as [|ev evs Hev _ IH]; intros s dp db Hr Hok; [done|].
  rewrite !(events_cons _ s ev evs), !foldl_app. destruct Hok as [Hok1 Hok2]. apply IH; [|done]. by apply step_related.
Qed.

Lemma reads_ok_snoc s evs : reads_ok s (evs ++ [ETick]) ->
  reads_ok s evs /\ fs_Overall (read (st_world (run s evs))).1 = "Healthy".
Proof. revert s. induction evs as [|ev evs IH]; intros s; simpl; [tauto|]. intros [? ?%IH]. tauto. Qed.

Definition total (f : packet -> Z) (ps : list packet) : Z := foldr (fun p n => f p + n) 0 ps.

Lemma dropped_total f s evs d :
  Metrics.dropped (foldl Metrics.kernel_step d (kernel_events f s evs)) = Metrics.dropped d + total f (refused s evs).
Proof.
  revert s d. induction evs as [|ev evs IH]; intros s d; [simpl; lia|]. rewrite events_cons, foldl_app, IH.
  cbn [kernel_events refused]. rewrite app_nil_r. destruct ev as [fw|p|].
  - destruct (installed _ _); simpl; lia.
  - destruct (accepts _ p); simpl; lia.
  - cbn [foldl Metrics.kernel_step]. destruct (Metrics.accumulate _ _ _). simpl. lia.
Qed.

Lemma events_sane f s evs : Forall wf_event evs -> (forall p, wf_packet p -> 0 <= f p) -> Forall Metrics.sane (kernel_events f s evs).
Proof.
  intros Hwf Hf. revert s. induction Hwf as [|ev evs Hev _ IH]; intros s; [constructor|]. cbn [kernel_events]. apply Forall_app. split; [|apply IH].
  destruct ev as [fw|p|]; [destruct (installed _ _); by repeat constructor| |by repeat constructor].
  destruct (accepts _ p); [constructor|]. apply Forall_singleton. simpl. by apply Hf.
Qed.

(** While the table is not rebuilt, nothing is missed: at a sample the counter
    has everything. *)
Definition unbroken (d : Metrics.drops) : Prop :=
  Metrics.rebuilt d = false /\ Metrics.kernel d = Metrics.dropped d /\ Metrics.published d = Metrics.last_seen d /\
  0 <= Metrics.last_seen d <= Metrics.kernel d.

Lemma unbroken_step d ev : ev <> Metrics.Rebuilt -> Metrics.sane ev -> unbroken d ->
  Metrics.dropped (Metrics.kernel_step d ev) < 2 ^ 53 ->
  unbroken (Metrics.kernel_step d ev) /\
  (ev = Metrics.Sampled -> Metrics.published (Metrics.kernel_step d ev) = Metrics.dropped (Metrics.kernel_step d ev)).
Proof.
  intros Hne Hs (Hr & Hk & Hp & Hl) Hb. unfold unbroken. destruct ev as [n| |]; [|done|]; cbn [Metrics.kernel_step] in *.
  - simpl in *. rewrite u64_small by lia. split; [split_and!; [done|lia..]|done].
  - assert (Metrics.dropped d < 2 ^ 53) as Hd by (by destruct (Metrics.accumulate _ _ _)).
    rewrite Metrics.accumulate_small by lia. rewrite (proj2 (Z.ltb_ge _ _)) by lia. simpl. split; [split_and!; [done|lia..]|intros _; lia].
Qed.

Lemma unbroken_run evs d : Metrics.Rebuilt ∉ evs -> Forall Metrics.sane evs -> unbroken d ->
  Metrics.dropped (foldl Metrics.kernel_step d evs) < 2 ^ 53 -> unbroken (foldl Metrics.kernel_step d evs).
Proof.
  intros Hn Hs. revert d. induction Hs as [|ev evs Hev Hevs IH]; intros d Hd Hb; [done|]. simpl in *.
  apply not_elem_of_cons in Hn as [Hne Hn]. apply IH; [done| |done].
  apply unbroken_step; [congruence|done|done|].
  pose proof (Metrics.kernel_run_dropped evs (Metrics.kernel_step d ev) Hevs). lia.
Qed.

Definition is_apply (ev : event) : bool := match ev with EApply _ => true | _ => false end.

Lemma events_unbroken f s evs : Forall (fun ev => is_apply ev = false) evs -> Metrics.Rebuilt ∉ kernel_events f s evs.
Proof.
  intros Ha. revert s. induction Ha as [|ev evs Hev _ IH]; intros s; cbn [kernel_events]; [set_solver|].
  apply not_elem_of_app. split; [|apply IH]. destruct ev; [done| |set_solver]. destruct (accepts _ _); set_solver.
Qed.

(** One field: at most the truth, and the truth at a tick of an unbroken table. *)
Lemma field_bounds f s evs : Forall wf_event evs -> (forall p, wf_packet p -> 0 <= f p) -> total f (refused s evs) < 2 ^ 53 ->
  let d := foldl Metrics.kernel_step Metrics.drops0 (kernel_events f s evs) in
  0 <= Metrics.published d <= total f (refused s evs) /\
  (Forall (fun ev => is_apply ev = false) evs -> last evs = Some ETick -> Metrics.published d = total f (refused s evs)).
Proof.
  intros Hwf Hf Hb d. pose proof (dropped_total f s evs Metrics.drops0) as Hdr. fold d in Hdr. cbn [Metrics.drops0 Metrics.dropped] in Hdr.
  pose proof (events_sane f s evs Hwf Hf) as Hs. split.
  - destruct (Metrics.kernel_run_inv (kernel_events f s evs) Metrics.drops0 Hs) as (Hk & Hl & Hr & Hp & Hli & Hi & _);
      [unfold Metrics.drops_inv; simpl; lia|fold d; lia|]. fold d in Hk, Hl, Hr, Hp, Hli, Hi.
    destruct (Metrics.rebuilt d); [lia|]. specialize (Hr eq_refl). lia.
  - intros Ha [evs' ->]%last_Some.
    assert (exists l, kernel_events f s (evs' ++ [ETick]) = l ++ [Metrics.Sampled]) as [l Hl].
    { clear. revert s. induction evs' as [|ev evs' IH]; intros s; [by exists []|]. cbn [app kernel_events].
      destruct (IH (step s ev)) as [l ->]. eexists. by rewrite app_assoc. }
    pose proof (events_unbroken f s _ Ha) as Hn. subst d. rewrite Hl in *. rewrite foldl_app in *. cbn [foldl] in *.
    apply Forall_app in Hs as [Hs _]. apply not_elem_of_app in Hn as [Hn _].
    set (d0 := foldl Metrics.kernel_step Metrics.drops0 l) in *.
    assert (Metrics.dropped (Metrics.kernel_step d0 Metrics.Sampled) = Metrics.dropped d0) as He
      by (cbn [Metrics.kernel_step]; by destruct (Metrics.accumulate _ _ _)).
    rewrite <- (Z.add_0_l (total f _)), <- Hdr.
    apply unbroken_step; [done|done| |lia|done]. apply unbroken_run; [done|done|unfold unbroken; simpl; lia|fold d0; lia].
Qed.

Lemma total_one ps : total one ps = Z.of_nat (length ps).
Proof. induction ps as [|p ps IH]; [done|]. unfold total in *. cbn [foldr length]. rewrite IH. unfold one. lia. Qed.

(** A tick hands over one message: the status just read, with the time. *)
Lemma logged_tick_spec w l : logged_tick (w, l) =
  (tick w, l ++ [(Bus.FirewallStatus_Subject vm,
    Reflect.Marshal Messages.FirewallStatus_type (Messages.FirewallStatus_to
      (FirewallStatus.stamp (read w).1 (clock (read w).2.1))))]).
Proof.
  unfold logged_tick, tick, FirewallStatus.publishOnce, on_world. cbn [fst snd]. destruct (read w) as [st w'] eqn:Hr.
  reflexivity.
Qed.

Lemma healthy_valid rules d t : - 2 ^ 63 <= rules < 2 ^ 63 -> drops_ok d -> - 2 ^ 63 <= t < 2 ^ 63 ->
  Messages.valid (FirewallStatus.stamp (healthy true rules d) t).
Proof.
  intros Hr [? ?] Ht. unfold Messages.valid. Messages.typed_fields; simpl; unfold Reflect.in_int, Reflect.in_uint;
    apply andb_true_iff; rewrite Z.leb_le, Z.ltb_lt; simpl; lia.
Qed.

(** While nothing is rebuilt the kernel's counter has every refused packet. *)
Lemma kernel_counts f s evs : Forall wf_event evs -> (forall p, wf_packet p -> 0 <= f p) ->
  total f (refused s evs) < 2 ^ 53 -> Forall (fun ev => is_apply ev = false) evs ->
  Metrics.kernel (foldl Metrics.kernel_step Metrics.drops0 (kernel_events f s evs)) = total f (refused s evs).
Proof.
  intros Hwf Hf Hb Ha. pose proof (dropped_total f s evs Metrics.drops0) as Hdr. cbn [Metrics.drops0 Metrics.dropped] in Hdr.
  destruct (unbroken_run (kernel_events f s evs) Metrics.drops0) as (_ & -> & _); [by apply events_unbroken|by apply events_sane|
    unfold unbroken; simpl; lia|lia|lia].
Qed.

Lemma related_start fw0 k r0 : compiles_exactly fw0 -> (forall t, t <> firewallTableName -> tables k !! t = None) ->
  (ApplyFirewall fw0 k).1 = None ->
  Metrics.firewallDropsPackets r0 = 0 -> Metrics.firewallDropsBytes r0 = 0 ->
  Metrics.firewallDropsLastPkt r0 = 0 -> Metrics.firewallDropsLastByt r0 = 0 ->
  related (mkState ((ApplyFirewall fw0 k).2, Some r0) fw0) Metrics.drops0 Metrics.drops0.
Proof.
  intros Hfw Hother Hok Hz1 Hz2 Hz3 Hz4. unfold related. simpl. split_and!; [done|split; simpl; lia| |by exists r0].
  pose proof (ApplyFirewall_spec fw0 k) as Hs. rewrite Hok in Hs. destruct Hs as [-> _].
  apply map_eq. intros t. destruct (decide (t = firewallTableName)) as [->|Hne]; [by rewrite lookup_insert_eq, lookup_singleton_eq|].
  by rewrite lookup_insert_ne, lookup_singleton_ne, Hother by done.
Qed.

Lemma policy_kept s evs : Forall (fun ev => is_apply ev = false) evs -> st_policy (run s evs) = st_policy s.
Proof.
  intros Ha. revert s. induction Ha as [|ev evs Hev _ IH]; intros s; [done|]. cbn [run foldl]. fold (run (step s ev) evs).
  rewrite IH. unfold step. destruct (st_world s). by destruct ev.
Qed.

(** C11.  What the host is told: after a ruleset was applied and any packets were
    received, a tick whose read succeeds hands exactly one message to the bus, on
    the VM's status subject, and decoding it as JSON gives a healthy status with the
    ruleset's rules and the three of the agent, the number of packets the policy
    refused and their bytes, and the time of the tick. *)
Theorem host_sees_drops fw0 k r0 evs l :
  compiles_exactly fw0 -> (forall t, t <> firewallTableName -> tables k !! t = None) -> (ApplyFirewall fw0 k).1 = None ->
  Metrics.firewallDropsPackets r0 = 0 -> Metrics.firewallDropsBytes r0 = 0 ->
  Metrics.firewallDropsLastPkt r0 = 0 -> Metrics.firewallDropsLastByt r0 = 0 ->
  let s0 := mkState ((ApplyFirewall fw0 k).2, Some r0) fw0 in
  Forall wf_event evs -> Forall (fun ev => is_apply ev = false) evs -> reads_ok s0 (evs ++ [ETick]) ->
  Z.of_nat (length (refused s0 evs)) < 2 ^ 53 -> total pk_len (refused s0 evs) < 2 ^ 53 ->
  Z.of_nat (length (fw_Rules fw0)) < 2 ^ 62 -> (forall k, - 2 ^ 63 <= clock k < 2 ^ 63) ->
  let w := st_world (run s0 evs) in
  exists data, logged_tick (w, l) = (tick w, l ++ [(Bus.FirewallStatus_Subject vm, data)]) /\
    Messages.Unmarshal data = Ok (FirewallStatus.stamp
      (healthy true (3 + Z.of_nat (length (fw_Rules fw0))) (Z.of_nat (length (refused s0 evs)), total pk_len (refused s0 evs)))
      (clock (read w).2.1)).
Proof.
  intros Hfw Hother Hok Hz1 Hz2 Hz3 Hz4 s0 Hwf Ha Hreads Hbp Hbb Hn Hclock w. rewrite <- total_one in *.
  apply reads_ok_snoc in Hreads as [Hreads Hnow].
  destruct (run_related evs s0 _ _ Hwf (related_start fw0 k r0 Hfw Hother Hok Hz1 Hz2 Hz3 Hz4) Hreads) as (Hc & Hd & Ht & _).
  rewrite !kernel_counts in Hd, Ht by (try done; unfold one, pk_len; lia). rewrite (policy_kept s0 evs Ha) in Hc, Ht.
  eexists. split; [apply logged_tick_spec|].
  destruct (ReadFirewallStatus_ok Error fw0 _ w.1 (proj1 Hfw) Hd Ht) as [_ Hst].
  assert ((read w).1 = (ReadFirewallStatus Error w.1).1) as Hrd by (unfold read; by destruct (ReadFirewallStatus Error w.1)).
  fold w in Hnow. rewrite Hrd in *. destruct Hst as [(i & msg & E)|E]; rewrite E in *; [done|].
  refine (Messages.Unmarshal_own (A := Pod.FirewallStatus) _ _). apply healthy_valid; [lia|done|apply Hclock].
Qed.

(** C10.  The drop metrics tell the truth.  From the first ruleset on, over any
    sequence of rulesets, packets and ticks in which every read of the
    status succeeds: the Prometheus counters never exceed the number and the
    bytes of the packets the policy in force refused, and at a tick they are
    exactly these if the ruleset was not replaced meanwhile. *)
Theorem drop_metrics_true fw0 k r0 evs :
  compiles_exactly fw0 -> (forall t, t <> firewallTableName -> tables k !! t = None) -> (ApplyFirewall fw0 k).1 = None ->
  Metrics.firewallDropsPackets r0 = 0 -> Metrics.firewallDropsBytes r0 = 0 ->
  Metrics.firewallDropsLastPkt r0 = 0 -> Metrics.firewallDropsLastByt r0 = 0 ->
  let s0 := mkState ((ApplyFirewall fw0 k).2, Some r0) fw0 in
  Forall wf_event evs -> reads_ok s0 evs ->
  Z.of_nat (length (refused s0 evs)) < 2 ^ 53 -> total pk_len (refused s0 evs) < 2 ^ 53 ->
  exists r, (st_world (run s0 evs)).2 = Some r /\
    0 <= Metrics.firewallDropsPackets r <= Z.of_nat (length (refused s0 evs)) /\
    0 <= Metrics.firewallDropsBytes r <= total pk_len (refused s0 evs) /\
    (Forall (fun ev => is_apply ev = false) evs -> last evs = Some ETick ->
      Metrics.firewallDropsPackets r = Z.of_nat (length (refused s0 evs)) /\
      Metrics.firewallDropsBytes r = total pk_len (refused s0 evs)).
Proof.
  intros Hfw Hother Hok Hz1 Hz2 Hz3 Hz4 s0 Hwf Hreads Hbp Hbb. rewrite <- total_one in *.
  destruct (run_related evs s0 _ _ Hwf (related_start fw0 k r0 Hfw Hother Hok Hz1 Hz2 Hz3 Hz4) Hreads) as (_ & _ & _ & r & Hr & Hp & _ & Hb & _).
  destruct (field_bounds one s0 evs Hwf) as [Bp Ep]; [unfold one; lia|done|].
  destruct (field_bounds pk_len s0 evs Hwf) as [Bb Eb]; [unfold pk_len; lia|done|].
  exists r. rewrite Hp, Hb. split_and!; [done|lia..|]. intros Ha Hl. split; auto.
Qed.
End path.

(** ** At concrete values *)

#[local] Existing Instances doc_vm doc_vm_laws doc_nft doc_nft_laws.

Definition no_text (_ : error) : string := "".
Definition midnight {K : Type} (_ : K) : Z := 0.
Definition delivered (_ : string) (_ : bytes) : gerr := None.
Definition recorder0 : Metrics.Recorder := Metrics.New "v1" "none" "unknown".

Definition sample_events : list event := [EPacket (tcp_packet 23); EPacket (tcp_packet 22); EPacket (tcp_packet 24); ETick].

Definition sample_state : state := mkState ((ApplyFirewall ssh_fw boot_kernel).2, Some recorder0) ssh_fw.

Lemma drop_metrics_true_witness : exists r,
  (st_world (run no_text midnight delivered "vm1" sample_state sample_events)).2 = Some r /\
  Metrics.firewallDropsPackets r = 2 /\ Metrics.firewallDropsBytes r = 80.
Proof.
  destruct (drop_metrics_true no_text midnight delivered "vm1" (eq_refl : @endian doc_vm = LittleEndian) ssh_fw boot_kernel recorder0 sample_events)
    as (r & H1 & _ & _ & H2);
    [apply ssh_fw_exact|done|vm_compute; reflexivity|reflexivity..| |vm_compute; repeat split
    |vm_compute; reflexivity|vm_compute; reflexivity|].
  { repeat (apply Forall_cons; split; [apply tcp_packet_wf; lia|]). apply Forall_singleton. exact I. }
  destruct H2 as [H2 H3]; [repeat constructor|reflexivity|]. exists r. split; [exact H1|].
  split; [rewrite H2|rewrite H3]; vm_compute; reflexivity.
Defined.

Lemma host_sees_drops_witness : exists data,
  (logged_tick no_text midnight delivered "vm1"
    (st_world (run no_text midnight delivered "vm1" sample_state [EPacket (tcp_packet 23); EPacket (tcp_packet 22)]), [])).2 =
    [(Bus.FirewallStatus_Subject "vm1", data)] /\
  Messages.Unmarshal data = Ok (FirewallStatus.stamp (healthy true 4 (1, 40)) 0).
Proof.
  destruct (host_sees_drops no_text midnight delivered "vm1" (eq_refl : @endian doc_vm = LittleEndian) ssh_fw boot_kernel recorder0
    [EPacket (tcp_packet 23); EPacket (tcp_packet 22)] []) as (data & H1 & H2);
    [apply ssh_fw_exact|done|vm_compute; reflexivity|reflexivity..| | |vm_compute; repeat split
    |vm_compute; reflexivity|vm_compute; reflexivity|vm_compute; reflexivity|by unfold midnight| ].
  - repeat (apply Forall_cons; split; [apply tcp_packet_wf; lia|]). constructor.
  - repeat constructor.
  - exists data. split; [exact (f_equal snd H1)|]. rewrite H2. vm_compute. reflexivity.
Defined.

(** The same kernel, whose netlink sockets fail to open when the schedule says so. *)
Abbreviation flaky_kernel := (Nft.kernel * list bool)%type.

Definition on_kernel {A : Type} (f : Nft.kernel -> A * Nft.kernel) (k : flaky_kernel) : A * flaky_kernel :=
  let '(a, k') := f k.1 in (a, (k', k.2)).

#[local] Instance flaky : Nftables flaky_kernel := {|
  nft_New k := (if default false (head k.2) then Some (Sentinel "ENOBUFS") else None, (k.1, tail k.2));
  ListTables := on_kernel ListTables; ListChains := on_kernel ListChains;
  GetRules t n := on_kernel (GetRules t n); Flush cmds := on_kernel (Flush cmds);
  receive p k := (receive p k.1, k.2) |}.

#[local] Program Instance flaky_laws : NftablesLaws flaky_kernel := {| tables k := tables k.1 |}.
Next Obligation. done. Qed.
Next Obligation. done. Qed.
Next Obligation. intros [k b] ts E. exact (ListTables_ok k ts E). Qed.
Next Obligation. done. Qed.
Next Obligation. intros [k b] cs E. exact (ListChains_ok k cs E). Qed.
Next Obligation. done. Qed.
Next Obligation. intros t n [k b] rs E. exact (GetRules_ok t n k rs E). Qed.
Next Obligation.
  intros cmds [k b] E. unfold Flush, flaky, on_kernel in *. pose proof (Flush_commits cmds k) as HF. simpl in *.
  destruct (k_fault k) as [[]|]; simpl in *; [done|]. by apply HF.
Qed.
Next Obligation.
  intros cmds [k b]. unfold Flush, flaky, on_kernel. pose proof (Flush_atomic cmds k) as HF. simpl in *.
  by destruct (k_fault k) as [[]|].
Qed.
Next Obligation. intros p [k b] t cs E Hnd. exact (receive_runs p k t cs E Hnd). Qed.

(** A read that fails makes the counters count everything again: a failed read
    reports zero drops, which the accumulator takes for a rebuilt table.  Two
    packets were refused; after a tick, a failed tick and a tick the metric says
    four. *)
Theorem failed_read_counts_twice :
  let s0 := mkState ((ApplyFirewall ssh_fw (boot_kernel, [false; false; true; false])).2, Some recorder0) ssh_fw in
  let evs := [EPacket (tcp_packet 23); EPacket (tcp_packet 24); ETick; ETick; ETick] in
  (ApplyFirewall ssh_fw (boot_kernel, [false; false; true; false])).1 = None /\
  Metrics.firewallDropsPackets <$> (st_world (run no_text midnight delivered "vm1" s0 evs)).2 = Some 4 /\
  length (refused no_text midnight delivered "vm1" s0 evs) = 2%nat.
Proof. vm_compute. split_and!; reflexivity. Qed.
End DropMetrics.
