(* ===== verification/PodSpec.v ===== *)
(** * The pod specification (spec.go, imageconfig.go, and the loaders of
    firewall.go and wireguard.go, of
    src/vendor/github.com/openweft/weft-microvm-init/pkg/pod)

    The rest of the pod package beside the wire payloads of [Pod]: the
    specification a micro-VM is started from with its validation, the reading
    of the configuration files, and the completion of a container from the
    configuration of its image. *)

From S2P Require Import Prelude GoLib FileSys GoPath FsLogic FsExec Strconv Json Reflect NetIP Pod Messages.
Import (hints) Messages.

Local Open Scope Z_scope.
Local Open Scope os_scope.

Module PodSpec.

Import Pod.

(** ** spec.go: the data *)

Record Share := { sh_Tag : string; sh_MountPoint : string; sh_Readonly : bool }.

Record Network := {
  nw_Interface : string;
  nw_Address : string;
  nw_Gateway : string;
  nw_DNS : list string;
  nw_Hostname : string
}.

Record Mount := { mo_Source : string; mo_Destination : string; mo_Type : string; mo_Options : list string }.

Record Resources := { rs_CPUShares : Z; rs_MemBytes : Z; rs_PidsMax : Z }.

Record Container := {
  c_ID : string;
  c_RootfsTag : string;
  c_Command : list string;
  c_Args : list string;
  c_Env : gmap string string;
  c_Workdir : string;
  c_User : string;
  c_Restart : string;
  c_Mounts : list Mount;
  c_Resources : Resources;
  c_Privileged : bool;
  c_Net : string
}.

Record Spec := {
  s_PodID : string;
  s_Containers : list Container;
  s_Shares : list Share;
  s_Network : option Network;
  s_WireGuard : option WireGuard;
  s_ShareMounts : list ShareMount;
  s_Labels : gmap string string
}.

(** ** Spec.Validate *)

Fixpoint spec_containers_Validate (seen : gset string) (i : Z) (cs : list Container) : gerr :=
  match cs with
  | [] => None
  | c :: cs' =>
      if decide (c_ID c = "") then Some (Errorf "container[%d]: id is required" [EInt i])
      else if decide (c_ID c ∈ seen) then Some (Errorf "container[%d]: duplicate id %q" [EInt i; EStr (c_ID c)])
      else if decide (c_RootfsTag c = "") then Some (Errorf "container %q: rootfs_tag is required" [EStr (c_ID c)])
      else spec_containers_Validate ({[c_ID c]} ∪ seen) (i + 1) cs'
  end.

Fixpoint spec_mounts_Validate (i : Z) (ms : list ShareMount) : gerr :=
  match ms with
  | [] => None
  | m :: ms' =>
      match ShareMount_Validate m with
      | Some e => Some (Errorf "share_mounts[%d]: %w" [EInt i; EErr e])
      | None => spec_mounts_Validate (i + 1) ms'
      end
  end.

Definition Spec_Validate (s : Spec) : gerr :=
  if decide (s_PodID s = "") then Some (errors_New "pod_id is required")
  else if decide (s_Containers s = []) then Some (errors_New "at least one container is required")
  else match spec_containers_Validate ∅ 0 (s_Containers s) with
       | Some e => Some e
       | None => spec_mounts_Validate 0 (s_ShareMounts s)
       end.

(** ** imageconfig.go: the data *)

Record ImageUser := { iu_UID : Z; iu_GID : Z }.
#[export] Instance ImageUser_eq_dec : EqDecision ImageUser.
Proof. solve_decision. Defined.
Record ImageProcess := { ip_Args : list string; ip_Env : list string; ip_Cwd : string; ip_User : ImageUser }.
Record ImageConfigFile := { ic_Process : ImageProcess }.

(** ** The structs as JSON *)

Section json.
Import Json Reflect Messages.

Definition Share_type : gotype := TStruct [
  req "tag" TString;
  req "mount_point" TString;
  opt "readonly" TBool].
Definition Share_of (v : goval) : Share := {|
  sh_Tag := as_string (fld 0 v); sh_MountPoint := as_string (fld 1 v); sh_Readonly := as_bool (fld 2 v) |}.
Definition Share_to (x : Share) : goval := GStruct [
  of_string (sh_Tag x); of_string (sh_MountPoint x); GBool (sh_Readonly x)].
Lemma Share_respects : respects Share_type Share_of.
Proof. unfold Share_type, Share_of. struct_respects. Qed.
Lemma Share_of_to x : Share_of (Share_to x) = x.
Proof. destruct x. unfold Share_of, Share_to, fld. struct_of_to. Qed.

Definition Network_type : gotype := TStruct [
  opt "interface" TString;
  opt "address" TString;
  opt "gateway" TString;
  opt "dns" (TSlice TString);
  opt "hostname" TString].
Definition Network_of (v : goval) : Network := {|
  nw_Interface := as_string (fld 0 v); nw_Address := as_string (fld 1 v); nw_Gateway := as_string (fld 2 v);
  nw_DNS := as_list as_string (fld 3 v); nw_Hostname := as_string (fld 4 v) |}.
Definition Network_to (x : Network) : goval := GStruct [
  of_string (nw_Interface x); of_string (nw_Address x); of_string (nw_Gateway x); of_list of_string (nw_DNS x); of_string (nw_Hostname x)].
Lemma Network_respects : respects Network_type Network_of.
Proof. unfold Network_type, Network_of. struct_respects. Qed.
Lemma Network_of_to x : Network_of (Network_to x) = x.
Proof. destruct x. unfold Network_of, Network_to, fld. struct_of_to. Qed.

Definition Mount_type : gotype := TStruct [
  req "source" TString;
  req "destination" TString;
  opt "type" TString;
  opt "options" (TSlice TString)].
Definition Mount_of (v : goval) : Mount := {|
  mo_Source := as_string (fld 0 v); mo_Destination := as_string (fld 1 v); mo_Type := as_string (fld 2 v);
  mo_Options := as_list as_string (fld 3 v) |}.
Definition Mount_to (x : Mount) : goval := GStruct [
  of_string (mo_Source x); of_string (mo_Destination x); of_string (mo_Type x); of_list of_string (mo_Options x)].
Lemma Mount_respects : respects Mount_type Mount_of.
Proof. unfold Mount_type, Mount_of. struct_respects. Qed.
Lemma Mount_of_to x : Mount_of (Mount_to x) = x.
Proof. destruct x. unfold Mount_of, Mount_to, fld. struct_of_to. Qed.

Definition Resources_type : gotype := TStruct [
  opt "cpu_shares" (TUint 64);
  opt "mem_bytes" (TUint 64);
  opt "pids_max" (TInt 64)].
Definition Resources_of (v : goval) : Resources := {|
  rs_CPUShares := as_int (fld 0 v); rs_MemBytes := as_int (fld 1 v); rs_PidsMax := as_int (fld 2 v) |}.
Definition Resources_to (x : Resources) : goval := GStruct [GInt (rs_CPUShares x); GInt (rs_MemBytes x); GInt (rs_PidsMax x)].
Lemma Resources_respects : respects Resources_type Resources_of.
Proof. unfold Resources_type, Resources_of. struct_respects. Qed.
Lemma Resources_of_to x : Resources_of (Resources_to x) = x.
Proof. destruct x. unfold Resources_of, Resources_to, fld. struct_of_to. Qed.

#[local] Hint Resolve Share_respects Share_of_to Network_respects Network_of_to Mount_respects Mount_of_to
  Resources_respects Resources_of_to : message.

Definition Container_type : gotype := TStruct [
  req "id" TString;
  req "rootfs_tag" TString;
  opt "command" (TSlice TString);
  opt "args" (TSlice TString);
  opt "env" (TMap TString);
  opt "workdir" TString;
  opt "user" TString;
  opt "restart" TString;
  opt "mounts" (TSlice Mount_type);
  opt "resources" Resources_type;
  opt "privileged" TBool;
  opt "net" TString].
Definition Container_of (v : goval) : Container := {|
  c_ID := as_string (fld 0 v); c_RootfsTag := as_string (fld 1 v);
  c_Command := as_list as_string (fld 2 v); c_Args := as_list as_string (fld 3 v);
  c_Env := as_map as_string (fld 4 v); c_Workdir := as_string (fld 5 v); c_User := as_string (fld 6 v);
  c_Restart := as_string (fld 7 v); c_Mounts := as_list Mount_of (fld 8 v);
  c_Resources := Resources_of (fld 9 v); c_Privileged := as_bool (fld 10 v); c_Net := as_string (fld 11 v) |}.
Definition Container_to (x : Container) : goval := GStruct [
  of_string (c_ID x); of_string (c_RootfsTag x); of_list of_string (c_Command x); of_list of_string (c_Args x);
  of_map of_string (c_Env x); of_string (c_Workdir x); of_string (c_User x); of_string (c_Restart x);
  of_list Mount_to (c_Mounts x); Resources_to (c_Resources x); GBool (c_Privileged x); of_string (c_Net x)].
Lemma Container_respects : respects Container_type Container_of.
Proof. unfold Container_type, Container_of. struct_respects. Qed.
Lemma Container_of_to x : Container_of (Container_to x) = x.
Proof. destruct x. unfold Container_of, Container_to, fld. cbn -[Resources_of Resources_to]. rewrite ?str_chars, ?string_of_to. f_equal; eauto with message. Qed.
#[local] Hint Resolve Container_respects Container_of_to : message.

Definition Spec_type : gotype := TStruct [
  req "pod_id" TString;
  req "containers" (TSlice Container_type);
  opt "shares" (TSlice Share_type);
  opt "network" (TPtr Network_type);
  opt "wireguard" (TPtr WireGuard_type);
  opt "share_mounts" (TSlice ShareMount_type);
  opt "labels" (TMap TString)].
Definition Spec_of (v : goval) : Spec := {|
  s_PodID := as_string (fld 0 v); s_Containers := as_list Container_of (fld 1 v); s_Shares := as_list Share_of (fld 2 v);
  s_Network := as_ptr Network_of (fld 3 v); s_WireGuard := as_ptr WireGuard_of (fld 4 v);
  s_ShareMounts := as_list ShareMount_of (fld 5 v); s_Labels := as_map as_string (fld 6 v) |}.
Definition Spec_to (x : Spec) : goval := GStruct [
  of_string (s_PodID x); of_list Container_to (s_Containers x); of_list Share_to (s_Shares x); of_ptr Network_to (s_Network x);
  of_ptr WireGuard_to (s_WireGuard x); of_list ShareMount_to (s_ShareMounts x); of_map of_string (s_Labels x)].
Lemma Spec_respects : respects Spec_type Spec_of.
Proof. unfold Spec_type, Spec_of. struct_respects. Qed.
Lemma Spec_of_to x : Spec_of (Spec_to x) = x.
Proof. destruct x. unfold Spec_of, Spec_to, fld. struct_of_to. Qed.

Definition ImageUser_type : gotype := TStruct [req "uid" (TUint 32); req "gid" (TUint 32)].
Definition ImageUser_of (v : goval) : ImageUser := {| iu_UID := as_int (fld 0 v); iu_GID := as_int (fld 1 v) |}.
Definition ImageUser_to (x : ImageUser) : goval := GStruct [GInt (iu_UID x); GInt (iu_GID x)].
Lemma ImageUser_respects : respects ImageUser_type ImageUser_of.
Proof. unfold ImageUser_type, ImageUser_of. struct_respects. Qed.
Lemma ImageUser_of_to x : ImageUser_of (ImageUser_to x) = x.
Proof. destruct x. unfold ImageUser_of, ImageUser_to, fld. struct_of_to. Qed.
#[local] Hint Resolve ImageUser_respects ImageUser_of_to : message.

Definition ImageProcess_type : gotype := TStruct [
  req "args" (TSlice TString);
  req "env" (TSlice TString);
  req "cwd" TString;
  req "user" ImageUser_type].
Definition ImageProcess_of (v : goval) : ImageProcess := {|
  ip_Args := as_list as_string (fld 0 v); ip_Env := as_list as_string (fld 1 v); ip_Cwd := as_string (fld 2 v);
  ip_User := ImageUser_of (fld 3 v) |}.
Definition ImageProcess_to (x : ImageProcess) : goval := GStruct [
  of_list of_string (ip_Args x); of_list of_string (ip_Env x); of_string (ip_Cwd x); ImageUser_to (ip_User x)].
Lemma ImageProcess_respects : respects ImageProcess_type ImageProcess_of.
Proof. unfold ImageProcess_type, ImageProcess_of. struct_respects. Qed.
Lemma ImageProcess_of_to x : ImageProcess_of (ImageProcess_to x) = x.
Proof. destruct x. unfold ImageProcess_of, ImageProcess_to, fld. cbn -[ImageUser_of ImageUser_to]. rewrite ?str_chars, ?string_of_to. f_equal; eauto with message. Qed.
#[local] Hint Resolve ImageProcess_respects ImageProcess_of_to : message.

Definition ImageConfigFile_type : gotype := TStruct [req "process" ImageProcess_type].
Definition ImageConfigFile_of (v : goval) : ImageConfigFile := {| ic_Process := ImageProcess_of (fld 0 v) |}.
Definition ImageConfigFile_to (x : ImageConfigFile) : goval := GStruct [ImageProcess_to (ic_Process x)].
Lemma ImageConfigFile_respects : respects ImageConfigFile_type ImageConfigFile_of.
Proof. unfold ImageConfigFile_type, ImageConfigFile_of. struct_respects. Qed.
Lemma ImageConfigFile_of_to x : ImageConfigFile_of (ImageConfigFile_to x) = x.
Proof. destruct x. unfold ImageConfigFile_of, ImageConfigFile_to, fld. cbn -[ImageProcess_of ImageProcess_to]. f_equal; eauto with message. Qed.

#[global] Instance Spec_message : Message Spec := {| go_type := Spec_type; of_go := Spec_of; to_go := Spec_to |}.
#[global] Instance ImageConfigFile_message : Message ImageConfigFile :=
  {| go_type := ImageConfigFile_type; of_go := ImageConfigFile_of; to_go := ImageConfigFile_to |}.
#[global] Instance Spec_laws : MessageLaws Spec.
Proof. split; [reflexivity|apply Spec_respects|apply Spec_of_to]. Qed.
#[global] Instance ImageConfigFile_laws : MessageLaws ImageConfigFile.
Proof. split; [reflexivity|apply ImageConfigFile_respects|apply ImageConfigFile_of_to]. Qed.
End json.

(** ** Load, LoadFirewall, LoadWireGuard, LoadImageConfig *)

Definition Load (path : string) : M Spec :=
  b <- os_ReadFile path ;;
  match Messages.Unmarshal (chars b) with
  | Err e => ofail (Errorf "pod spec %s: %w" [EStr path; EErr e])
  | Ok s => match Spec_Validate s with
            | Some e => ofail (Errorf "pod spec %s: %w" [EStr path; EErr e])
            | None => oret s
            end
  end.

(** A missing file is no configuration: the pointer returned is nil. *)
Definition LoadFirewall (path : string) : M (option Firewall) :=
  r <~ os_ReadFile path ;;
  match r with
  | Err e => if IsNotExist e then oret None else ofail e
  | Ok b =>
      match Messages.Unmarshal (chars b) with
      | Err e => ofail (Errorf "firewall config %s: %w" [EStr path; EErr e])
      | Ok fw => match Firewall_Validate NetIP.ParsePrefix_err fw with
                 | Some e => ofail (Errorf "firewall config %s: %w" [EStr path; EErr e])
                 | None => oret (Some fw)
                 end
      end
  end.

Definition LoadWireGuard (path : string) : M (option WireGuard) :=
  r <~ os_ReadFile path ;;
  match r with
  | Err e => if IsNotExist e then oret None else ofail e
  | Ok b =>
      match Messages.Unmarshal (chars b) with
      | Err e => ofail (Errorf "wireguard config %s: %w" [EStr path; EErr e])
      | Ok wg => match WireGuard_Validate wg with
                 | Some e => ofail (Errorf "wireguard config %s: %w" [EStr path; EErr e])
                 | None => oret (Some wg)
                 end
      end
  end.

Definition image_config_path (rootfsMount : string) : string := Join rootfsMount ".weft-microvm/config.json".

Definition LoadImageConfig (rootfsMount : string) : M ImageConfigFile :=
  b <- os_ReadFile (image_config_path rootfsMount) ;;
  match Messages.Unmarshal (chars b) with
  | Err e => ofail (Errorf "decode %s: %w" [EStr (image_config_path rootfsMount); EErr e])
  | Ok cf => oret cf
  end.

(** ** EnrichFromImage *)

Definition equals : ascii := "="%char.

(** One "NAME=value" of the image: cut at the first "=", dropped without one. *)
Definition env_entry (env : gmap string string) (e : string) : gmap string string :=
  match index_byte equals (chars e) with
  | Some i => <[str (take i (chars e)) := str (drop (S i) (chars e))]> env
  | None => env
  end.

Definition image_env (l : list string) : gmap string string := foldl env_entry ∅ l.

Definition image_user (u : ImageUser) : string := Itoa (iu_UID u) +:+ ":" +:+ Itoa (iu_GID u).

(** The container is the pointer's target: what it holds after the call,
    beside the error. *)
Definition EnrichFromImage (c : Container) (rootfsMount : string) : M (Container * gerr) :=
  if decide (c_Command c <> []) then oret (c, None)
  else
    r <~ LoadImageConfig rootfsMount ;;
    match r with
    | Err e => oret (c, Some e)
    | Ok cf =>
        let p := ic_Process cf in
        if decide (ip_Args p = []) then
          oret (c, Some (Errorf "image config at %s/.weft-microvm/config.json has empty process.args" [EStr rootfsMount]))
        else oret ({|
          c_ID := c_ID c; c_RootfsTag := c_RootfsTag c;
          c_Command := ip_Args p; c_Args := c_Args c;
          c_Env := if decide (c_Env c = ∅ /\ ip_Env p <> []) then image_env (ip_Env p) else c_Env c;
          c_Workdir := if decide (c_Workdir c = "") then ip_Cwd p else c_Workdir c;
          c_User := if decide (c_User c = "" /\ (iu_UID (ip_User p) <> 0 \/ iu_GID (ip_User p) <> 0))
                    then image_user (ip_User p) else c_User c;
          c_Restart := c_Restart c; c_Mounts := c_Mounts c; c_Resources := c_Resources c;
          c_Privileged := c_Privileged c; c_Net := c_Net c |}, None)
    end.

(** ** What is accepted *)

Definition well_formed_spec (s : Spec) : Prop :=
  s_PodID s <> "" /\ s_Containers s <> [] /\
  Forall (fun c => c_ID c <> "" /\ c_RootfsTag c <> "") (s_Containers s) /\
  NoDup (c_ID <$> s_Containers s) /\
  Forall (fun m => ShareMount_Validate m = None) (s_ShareMounts s).

Lemma spec_containers_Validate_ok seen i cs : spec_containers_Validate seen i cs = None <->
  Forall (fun c => c_ID c <> "" /\ c_RootfsTag c <> "") cs /\ NoDup (c_ID <$> cs) /\ Forall (fun c => c_ID c ∉ seen) cs.
Proof.
  revert seen i. induction cs as [|c cs IH]; intros seen i.
  { simpl. split; [|done]. by repeat split; constructor. }
  cbn [spec_containers_Validate fmap list_fmap]. rewrite !Forall_cons, NoDup_cons.
  case_decide; [naive_solver|]. case_decide; [naive_solver|]. case_decide; [naive_solver|].
  rewrite IH, !Forall_forall. setoid_rewrite list_elem_of_fmap. setoid_rewrite not_elem_of_union.
  setoid_rewrite not_elem_of_singleton. split.
  - intros (Hwf & Hnd & Hs). split_and!; try done; naive_solver.
  - intros ((_ & Hwf) & (Hnotin & Hnd) & (_ & Hs)). split_and!; try done. naive_solver.
Qed.

Lemma spec_mounts_Validate_ok i ms : spec_mounts_Validate i ms = None <-> Forall (fun m => ShareMount_Validate m = None) ms.
Proof.
  revert i. induction ms as [|m ms IH]; intros i; simpl; [by split; constructor|]. rewrite Forall_cons.
  destruct (ShareMount_Validate m); [split; [done|by intros [? _]]|]. rewrite IH. tauto.
Qed.

Lemma Spec_Validate_ok s : Spec_Validate s = None <-> well_formed_spec s.
Proof.
  unfold Spec_Validate, well_formed_spec. case_decide; [naive_solver|]. case_decide; [naive_solver|].
  pose proof (spec_containers_Validate_ok ∅ 0 (s_Containers s)) as Hc.
  assert (Forall (fun c => c_ID c ∉ (∅ : gset string)) (s_Containers s)) by (apply Forall_forall; set_solver).
  destruct (spec_containers_Validate _ _ _).
  - split; [done|]. intros (_ & _ & ? & ? & _). by apply Hc.
  - rewrite spec_mounts_Validate_ok. tauto.
Qed.

(** ** Reading a file *)

(** What reading a file gives, without faults. *)
Definition contents (f : fsys) (p : string) : result string :=
  match lookup_path f (path_of p) with Ok (NFile d) => Ok d | Ok NDir => Err EISDIR | Err e => Err e end.

Lemma read_exec f p : exec (os_ReadFile p) f (contents f p) f.
Proof. exact (ReadFile_exec f p). Qed.

(** A loader: read, decode, check.  Without faults it returns what the file
    says, if the checks pass, and leaves the disk alone. *)
Lemma Load_exec f p : exists r, exec (Load p) f r f /\
  forall s, r = Ok s <-> exists b, contents f p = Ok b /\ Messages.Unmarshal (chars b) = Ok s /\ well_formed_spec s.
Proof.
  unfold Load, obind. pose proof (read_exec f p) as Hr.
  destruct (contents f p) as [b|e].
  - destruct (Messages.Unmarshal (A := Spec) (chars b)) as [s|e] eqn:Hu.
    + destruct (Spec_Validate s) as [e|] eqn:Hv.
      * eexists. split; [eapply exec_catch; [exact Hr|]; cbv beta iota; rewrite Hu, Hv; apply exec_fail|].
        intros s'. split; [done|]. intros (? & [= <-] & Hs & Hwf%Spec_Validate_ok). congruence.
      * exists (Ok s). split; [eapply exec_catch; [exact Hr|]; cbv beta iota; rewrite Hu, Hv; apply exec_ret|].
        intros s'. split; [intros [= <-]; exists b; by rewrite <- Spec_Validate_ok|]. intros (? & [= <-] & Hs & _). congruence.
    + eexists. split; [eapply exec_catch; [exact Hr|]; cbv beta iota; rewrite Hu; apply exec_fail|].
      intros s'. split; [done|]. intros (? & [= <-] & Hs & _). congruence.
  - exists (Err e). split; [eapply exec_catch; [exact Hr|]; apply exec_fail|]. intros s'. split; [done|]. by intros (? & ? & _).
Qed.

Lemma contents_insert f p d : wf f -> path_of p <> [] -> node_at f (parent (path_of p)) = Some NDir ->
  f !! path_of p <> Some NDir -> contents (<[path_of p:=NFile d]> f) p = Ok d.
Proof.
  intros Hw Hne Hpar Hnd. unfold contents.
  assert (wf (<[path_of p:=NFile d]> f)) as Hw' by (apply wf_insert_file; try done; naive_solver).
  rewrite (proj2 (lookup_path_ok _ _ (NFile d) Hw')); [done|]. rewrite node_at_ne by done. by rewrite lookup_insert_eq.
Qed.

(** A missing specification is an error, and the caller can tell. *)
Lemma missing_spec_fails f p : lookup_path f (path_of p) = Err ENOENT ->
  exists e, exec (Load p) f (Err e) f /\ IsNotExist e = true.
Proof.
  intros Hl. exists ENOENT. split; [|done]. unfold Load, obind. eapply exec_catch; [apply read_exec|].
  unfold contents. rewrite Hl. apply exec_fail.
Qed.

(** A missing firewall or WireGuard file is no error. *)
Lemma optional_missing f p : lookup_path f (path_of p) = Err ENOENT ->
  exec (LoadFirewall p) f (Ok None) f /\ exec (LoadWireGuard p) f (Ok None) f.
Proof.
  intros Hl. split; (eapply exec_catch; [apply read_exec|]; unfold contents; rewrite Hl; apply exec_ret).
Qed.

(** A firewall or WireGuard configuration written as JSON is read back, if it
    passes its validation. *)
Lemma optional_saved f p (fw : Firewall) (wg : WireGuard) b c : wf f -> path_of p <> [] ->
  node_at f (parent (path_of p)) = Some NDir -> f !! path_of p <> Some NDir ->
  Messages.valid fw -> Messages.valid wg -> Messages.Marshal fw = Ok b -> Messages.Marshal wg = Ok c ->
  (Firewall_Validate NetIP.ParsePrefix_err fw = None ->
   exec (os_WriteFile p (str b) ;;; LoadFirewall p) f (Ok (Some fw)) (<[path_of p := NFile (str b)]> f)) /\
  (WireGuard_Validate wg = None ->
   exec (os_WriteFile p (str c) ;;; LoadWireGuard p) f (Ok (Some wg)) (<[path_of p := NFile (str c)]> f)).
Proof.
  intros Hw Hne Hpar Hnd (b' & [= <-] & Hu)%Messages.roundtrip (c' & [= <-] & Hu')%Messages.roundtrip [= <-] [= <-].
  split; intros Hv; (eapply exec_bind; [by apply WriteFile_exec|]); (eapply exec_catch; [apply read_exec|]);
    rewrite contents_insert by done; cbv beta iota; rewrite chars_str, ?Hu, ?Hu', Hv; apply exec_ret.
Qed.

(** ** The environment of an image *)

Definition env_line (kv : string * string) : string := kv.1 +:+ "=" +:+ kv.2.

Lemma env_entry_line env kv : equals ∉ chars kv.1 -> env_entry env (env_line kv) = <[kv.1:=kv.2]> env.
Proof.
  intros Hk. unfold env_entry, env_line. rewrite !chars_app. change (chars "=") with [equals]. simpl.
  rewrite index_byte_app by done. rewrite take_app_length, drop_app_ge by lia.
  replace (S (length (chars kv.1)) - length (chars kv.1))%nat with 1%nat by lia. simpl. by rewrite drop_0, !str_chars.
Qed.

(** The last line for a name counts. *)
Lemma image_env_lines kvs : Forall (fun kv => equals ∉ chars kv.1) kvs ->
  image_env (env_line <$> kvs) = list_to_map (reverse kvs).
Proof.
  intros Hk. unfold image_env.
  assert (forall env, foldl env_entry env (env_line <$> kvs) = list_to_map (reverse kvs) ∪ env) as ->; [|by rewrite (right_id_L ∅ (∪))].
  induction Hk as [|kv kvs Hkv _ IH]; intros env; [symmetry; apply map_empty_union|]. rewrite fmap_cons. cbn [foldl].
  rewrite IH, env_entry_line, reverse_cons, list_to_map_app by done. rewrite <- map_union_assoc. f_equal.
  destruct kv as [k v]. simpl. by rewrite insert_empty, insert_union_singleton_l.
Qed.

(** ** Claims *)

(** C37.  A saved pod specification is what is loaded: when the host writes a
    specification as indented JSON (UTF-8 strings, integers in range) to a path whose
    directory exists, Load of that path returns that same specification if and
    only if it is well-formed (an id, at least one container, every container
    with an id and a root file system, no id twice, every share mount valid);
    otherwise Load fails.  Loading changes nothing on disk. *)
Theorem saved_spec_loads f p (s : Spec) : wf f -> path_of p <> [] ->
  node_at f (parent (path_of p)) = Some NDir -> f !! path_of p <> Some NDir -> Messages.valid s ->
  exists b r, Messages.MarshalIndent s = Ok b /\
    exec (os_WriteFile p (str b) ;;; Load p) f r (<[path_of p := NFile (str b)]> f) /\
    (r = Ok s <-> well_formed_spec s) /\ (forall s', r = Ok s' -> s' = s).
Proof.
  intros Hw Hne Hpar Hnd (b & Hb & Hu)%Messages.roundtrip_indent. exists b.
  destruct (Load_exec (<[path_of p := NFile (str b)]> f) p) as (r & Hr & Hiff). exists r.
  rewrite contents_insert in Hiff by done. split_and!; [done|eapply exec_bind; [by apply WriteFile_exec|done]| |].
  - rewrite Hiff. split; [by intros (? & _ & _ & ?)|]. intros ?. exists (str b). by rewrite chars_str.
  - intros s' (? & [= <-] & Hs & _)%Hiff. rewrite chars_str in Hs. congruence.
Qed.

(** A container without a command runs its image: when the image
    configuration, in the file the host wrote into the root file system, has a command,
    EnrichFromImage gives the container that command; its environment, working
    directory and user come from the image where the specification leaves them empty
    and from the specification where it sets them (the environment as the
    NAME=value lines say, a value may itself contain =); nothing else of the container
    changes. *)
Theorem image_completes f c mount kvs cwd u args :
  let cf := {| ic_Process := {| ip_Args := args; ip_Env := env_line <$> kvs; ip_Cwd := cwd; ip_User := u |} |} in
  c_Command c = [] -> args <> [] -> Messages.valid cf ->
  Forall (fun kv => equals ∉ chars kv.1) kvs -> NoDup kvs.*1 ->
  contents f (image_config_path mount) = Ok (str (Reflect.MarshalIndent ImageConfigFile_type (ImageConfigFile_to cf))) ->
  exec (EnrichFromImage c mount) f (Ok ({|
    c_ID := c_ID c; c_RootfsTag := c_RootfsTag c; c_Command := args; c_Args := c_Args c;
    c_Env := if decide (c_Env c = ∅) then list_to_map kvs else c_Env c;
    c_Workdir := if decide (c_Workdir c = "") then cwd else c_Workdir c;
    c_User := if decide (c_User c = "") then if decide (u = {| iu_UID := 0; iu_GID := 0 |}) then "" else image_user u else c_User c;
    c_Restart := c_Restart c; c_Mounts := c_Mounts c; c_Resources := c_Resources c;
    c_Privileged := c_Privileged c; c_Net := c_Net c |}, None)) f.
Proof.
  intros cf Hc Ha (b & [= <-] & Hu)%Messages.roundtrip_indent Hk Hnd Hf. unfold EnrichFromImage. rewrite decide_False by (intros H; by apply H).
  eapply exec_catch with (r := Ok cf).
  { unfold LoadImageConfig, obind. eapply exec_catch; [apply read_exec|]. rewrite Hf.
    cbv beta iota. rewrite chars_str. cbn [Messages.go_type Messages.to_go ImageConfigFile_message] in Hu.
    rewrite Hu. apply exec_ret. }
  cbn -[image_env]. rewrite decide_False by done. intros w Hw Hn. unfold oret. cbn [fst snd]. split_and!; try done.
  do 3 f_equal.
  - rewrite image_env_lines by done. destruct (decide (c_Env c = ∅)) as [E|E].
    + destruct kvs as [|kv kvs]; [rewrite decide_False by naive_solver; by rewrite E|]. rewrite decide_True by done.
      apply list_to_map_proper; [by rewrite reverse_Permutation|apply reverse_Permutation].
    + by rewrite decide_False by naive_solver.
  - destruct (decide (c_User c = "")) as [E|E]; [|by rewrite decide_False by naive_solver].
    destruct (decide (u = _)) as [->|Hz]; [by rewrite decide_False by (intros [_ []]; done)|]. rewrite decide_True; [done|].
    split; [done|]. destruct u as [x y]; simpl in *. destruct (decide (x = 0)), (decide (y = 0)); subst; tauto.
Qed.

(** ** Examples *)

Definition web : Container := {|
  c_ID := "web"; c_RootfsTag := "rootfs0"; c_Command := []; c_Args := ["-v"]; c_Env := ∅; c_Workdir := ""; c_User := "";
  c_Restart := "always"; c_Mounts := [{| mo_Source := "/data"; mo_Destination := "/srv"; mo_Type := "bind"; mo_Options := ["ro"] |}];
  c_Resources := {| rs_CPUShares := 2; rs_MemBytes := 2 ^ 40; rs_PidsMax := -1 |}; c_Privileged := false; c_Net := "" |}.

Definition web_pod : Spec := {|
  s_PodID := "p1"; s_Containers := [web]; s_Shares := [{| sh_Tag := "rootfs0"; sh_MountPoint := "/run/weft/rootfs/web"; sh_Readonly := true |}];
  s_Network := Some {| nw_Interface := ""; nw_Address := "10.0.2.15/24"; nw_Gateway := "10.0.2.2"; nw_DNS := ["1.1.1.1"]; nw_Hostname := "web" |};
  s_WireGuard := None; s_ShareMounts := []; s_Labels := {[ "app" := "web" ]} |}.

Definition run_disk : fsys := {[ ["run"] := NDir ]}.

Lemma run_disk_wf : wf run_disk.
Proof. apply (wf_insert_dir ∅ ["run"]); [apply wf_empty|done|done|apply lookup_empty]. Qed.

Lemma saved_spec_loads_witness : well_formed_spec web_pod /\ exists b r, Messages.MarshalIndent web_pod = Ok b /\
  exec (os_WriteFile "/run/pod.json" (str b) ;;; Load "/run/pod.json") run_disk r
    (<[path_of "/run/pod.json" := NFile (str b)]> run_disk) /\ (r = Ok web_pod <-> well_formed_spec web_pod) /\ (forall s', r = Ok s' -> s' = web_pod).
Proof.
  split; [apply Spec_Validate_ok; vm_compute; reflexivity|].
  apply (saved_spec_loads run_disk "/run/pod.json" web_pod); [apply run_disk_wf|by vm_compute|by vm_compute|by vm_compute|].
  vm_compute. reflexivity.
Defined.

(** A value with an equals sign of its own; the user comes from the image. *)
Definition nginx : ImageConfigFile := {| ic_Process := {|
  ip_Args := ["nginx"]; ip_Env := ["PATH=/bin"; "OPTS=a=b"]; ip_Cwd := "/srv"; ip_User := {| iu_UID := 101; iu_GID := 0 |} |} |}.
Definition image_disk : fsys :=
  {[ ["r"] := NDir; ["r"; ".weft-microvm"] := NDir;
     ["r"; ".weft-microvm"; "config.json"] := NFile (str (Reflect.MarshalIndent ImageConfigFile_type (ImageConfigFile_to nginx))) ]}.

Lemma image_completes_witness : exists c', exec (EnrichFromImage web "/r") image_disk (Ok (c', None)) image_disk /\
  c_Command c' = ["nginx"] /\ c_Env c' !! "OPTS" = Some "a=b" /\ c_Workdir c' = "/srv" /\ c_User c' = "101:0".
Proof.
  eexists. split.
  - apply (image_completes image_disk web "/r" [("PATH", "/bin"); ("OPTS", "a=b")] "/srv" {| iu_UID := 101; iu_GID := 0 |} ["nginx"]);
      try (vm_compute; reflexivity); try done; apply (bool_decide_unpack _); vm_compute; reflexivity.
  - split_and!; vm_compute; reflexivity.
Defined.

End PodSpec.
