(* ===== verification/Interleave.v ===== *)
(** * Callbacks that run at the same time on one file system

    The event bus gives every subscription a goroutine of its own, so that the
    system calls of two callbacks interleave.  Here a computation of [M] is cut
    at its system calls: [prog] is the tree of its calls, [Code] derives the
    tree of a computation and proves that running it alone is the computation.
    Threads take turns, one system call each, in the order of an arbitrary
    schedule.  [isolation]: threads that write where no other thread looks
    run as if each were alone, whatever the schedule. *)

From S2P Require Import Prelude GoLib FileSys GoPath FsLogic AbsPath FsExec.

(** ** Computations as trees of system calls *)

(** [Look] reads the bound of a [measured] recursion. *)
Inductive prog (A : Type) : Type :=
| Done (r : result A)
| Call {B : Type} (f : fault -> fsys -> result B * fsys) (k : result B -> prog A)
| Look (bound : fsys -> nat) (k : nat -> prog A).
Arguments Done {A} r.
Arguments Call {A B} f k.
Arguments Look {A} bound k.

Fixpoint run {A : Type} (p : prog A) : M A :=
  match p with
  | Done r => fun w => (r, w)
  | Call f k => ocatch (syscall f) (fun r => run (k r))
  | Look bound k => measured bound (fun n => run (k n))
  end.

Fixpoint pcatch {A B : Type} (p : prog A) (k : result A -> prog B) : prog B :=
  match p with
  | Done r => k r
  | Call f k' => Call f (fun r => pcatch (k' r) k)
  | Look bound k' => Look bound (fun n => pcatch (k' n) k)
  end.

Lemma run_pcatch {A B : Type} (p : prog A) (k : result A -> prog B) w :
  run (pcatch p k) w = ocatch (run p) (fun r => run (k r)) w.
Proof.
  revert w. induction p as [r|C f k' IH|bound k' IH]; intros w; cbn [pcatch run]; [done| |].
  - unfold ocatch in *. destruct (syscall f w) as [r w']. apply IH.
  - unfold measured. rewrite IH. done.
Qed.

Class Code {A : Type} (c : M A) := { code : prog A; code_run : forall w, run code w = c w }.
Arguments code {A} c {_}.
#[global] Hint Mode Code ! ! : typeclass_instances.

#[export] Instance Code_ret {A : Type} (a : A) : Code (oret a) := {| code := Done (Ok a); code_run w := eq_refl |}.
#[export] Instance Code_fail {A : Type} (e : error) : Code (@ofail A e) := {| code := Done (Err e); code_run w := eq_refl |}.

#[export] Instance Code_syscall {A : Type} (f : fault -> fsys -> result A * fsys) : Code (syscall f).
Proof. refine {| code := Call f Done |}. abstract (intros w; cbn [run]; unfold ocatch; by destruct (syscall f w)). Defined.

#[export] Instance Code_Stat p : Code (os_Stat p) := Code_syscall _.
#[export] Instance Code_ReadFile p : Code (os_ReadFile p) := Code_syscall _.
#[export] Instance Code_Rename a b : Code (os_Rename a b) := Code_syscall _.
#[export] Instance Code_Remove p : Code (os_Remove p) := Code_syscall _.
#[export] Instance Code_MkdirAll p : Code (os_MkdirAll p) := Code_syscall _.
#[export] Instance Code_ReadDir p : Code (os_ReadDir p) := Code_syscall _.
#[export] Instance Code_Chown p : Code (os_Chown p) := Code_syscall _.
#[export] Hint Opaque os_Stat os_ReadFile os_Rename os_Remove os_MkdirAll os_ReadDir os_Chown : typeclass_instances.

#[export] Instance Code_catch {A B : Type} (c : M A) (k : result A -> M B) `{!Code c, !forall r, Code (k r)} : Code (ocatch c k).
Proof.
  refine {| code := pcatch (code c) (fun r => code (k r)) |}.
  abstract (intros w; rewrite run_pcatch; unfold ocatch; rewrite code_run; destruct (c w) as [r w']; apply code_run).
Defined.

#[export] Instance Code_measured {A : Type} (bound : fsys -> nat) (c : nat -> M A) `{!forall n, Code (c n)} : Code (measured bound c).
Proof. refine {| code := Look bound (fun n => code (c n)) |}. abstract (intros w; cbn [run]; unfold measured; apply code_run). Defined.

#[export] Instance Code_result {A B : Type} (r : result A) (k : A -> M B) (h : error -> M B)
  `{!forall a, Code (k a), !forall e, Code (h e)} : Code (match r with Ok a => k a | Err e => h e end) | 5.
Proof. destruct r; apply _. Defined.

#[export] Instance Code_bind {A B : Type} (c : M A) (k : A -> M B) `{!Code c, !forall a, Code (k a)} : Code (obind c k).
Proof. unfold obind. apply _. Defined.

#[export] Instance Code_WriteFile p data : Code (os_WriteFile p data) := Code_bind _ _.
#[export] Hint Opaque os_WriteFile : typeclass_instances.

#[export] Instance Code_wrap {A : Type} (wrap : error -> error) (c : M A) `{!Code c} : Code (owrap wrap c).
Proof. unfold owrap. apply _. Defined.

#[export] Instance Code_if {A : Type} (P : Prop) (d : Decision P) (c1 c2 : M A) `{!Code c1, !Code c2} :
  Code (if decide P then c1 else c2) | 5.
Proof. destruct (decide P); apply _. Defined.

#[export] Instance Code_bool {A : Type} (b : bool) (c1 c2 : M A) `{!Code c1, !Code c2} : Code (if b then c1 else c2) | 5.
Proof. destruct b; apply _. Defined.

#[export] Instance Code_for {A : Type} (l : list A) (f : A -> M unit) `{!forall x, Code (f x)} : Code (ofor l f).
Proof. induction l as [|x l IH]; cbn [ofor]; apply _. Defined.

(** ** Threads and schedules *)

(** A thread has its own faults: which of its calls fail, and how. *)
Record thread (A : Type) := mkThread { t_prog : prog A; t_faults : list fault }.
Arguments mkThread {A} _ _.
Arguments t_prog {A} _.
Arguments t_faults {A} _.

Definition start {A : Type} (c : M A) `{!Code c} (fts : list fault) : thread A := mkThread (code c) fts.

(** One turn: one system call; a thread that has returned does nothing. *)
Definition turn {A : Type} (s : fsys * thread A) : fsys * thread A :=
  let '(fs, t) := s in
  match t_prog t with
  | Done _ => s
  | Call f k =>
      let '(r, fs') := f (match t_faults t with [] => None | x :: _ => x end) fs in
      (fs', mkThread (k r) (tail (t_faults t)))
  | Look bound k => (fs, mkThread (k (bound fs)) (t_faults t))
  end.

Definition sched_step {A : Type} (s : fsys * list (thread A)) (i : nat) : fsys * list (thread A) :=
  match s.2 !! i with
  | None => s
  | Some t => let '(fs, t') := turn (s.1, t) in (fs, <[i:=t']> s.2)
  end.

(** The schedule names, turn by turn, the thread that runs. *)
Definition interleave {A : Type} (sched : list nat) (s : fsys * list (thread A)) : fsys * list (thread A) :=
  foldl sched_step s sched.

(** A thread without the others, after [n] turns. *)
Definition alone {A : Type} (n : nat) (fs : fsys) (t : thread A) : fsys * thread A := Nat.iter n turn (fs, t).

Definition turns_of (i : nat) (sched : list nat) : nat := length (filter (fun j => j = i) sched).

Lemma interleave_length {A : Type} (sched : list nat) (s : fsys * list (thread A)) : length (interleave sched s).2 = length s.2.
Proof.
  unfold interleave. revert s. induction sched as [|i sched IH]; intros s; [done|]. cbn [foldl]. rewrite IH.
  unfold sched_step. destruct (s.2 !! i); [|done]. destruct (turn _). cbn. by rewrite length_insert.
Qed.

(** A turn of a thread that is not there. *)
Lemma interleave_absent {A : Type} (sched : list nat) (s : fsys * list (thread A)) (j : nat) : s.2 !! j = None ->
  sched_step (interleave sched s) j = interleave sched s.
Proof.
  intros Hj%lookup_ge_None. unfold sched_step. rewrite lookup_ge_None_2; [done|]. by rewrite interleave_length.
Qed.

Lemma turns_of_snoc i sched j : turns_of i (sched ++ [j]) = if decide (i = j) then S (turns_of i sched) else turns_of i sched.
Proof. unfold turns_of. rewrite filter_app, length_app, filter_cons, filter_nil. repeat case_decide; subst; simpl; try done; lia. Qed.

Lemma interleave_snoc {A : Type} (sched : list nat) (j : nat) (s : fsys * list (thread A)) :
  interleave (sched ++ [j]) s = sched_step (interleave sched s) j.
Proof. unfold interleave. by rewrite foldl_app. Qed.

(** ** A thread alone is the computation *)

Lemma alone_S {A : Type} n fs (t : thread A) : alone (S n) fs t = alone n (turn (fs, t)).1 (turn (fs, t)).2.
Proof. unfold alone. rewrite Nat.iter_succ_r. by destruct (turn (fs, t)). Qed.

Lemma alone_turn {A : Type} n fs (t : thread A) : alone (S n) fs t = turn (alone n fs t).
Proof. done. Qed.

Lemma alone_done {A : Type} n fs r fts : alone n fs (@mkThread A (Done r) fts) = (fs, mkThread (Done r) fts).
Proof. induction n as [|n IH]; [done|]. rewrite alone_S. apply IH. Qed.

(** How many turns a thread takes alone. *)
Lemma alone_run {A : Type} (p : prog A) : forall fs fts h, exists N h',
  let '(r, w) := run p (mk_os fs fts h) in
  (forall n, N <= n -> alone n fs (mkThread p fts) = (files w, mkThread (Done r) (faults w))) /\
  FileSys.history w = h ++ h' /\ forall n, (alone n fs (mkThread p fts)).1 ∈ fs :: h'.
Proof.
  induction p as [r|B f k IH|bound k IH]; intros fs fts h.
  - exists 0, []. cbn [run]. split_and!; [intros n _; apply alone_done|by rewrite app_nil_r|].
    intros n. rewrite alone_done. by left.
  - cbn [run]. unfold ocatch, syscall. cbn [files faults FileSys.history].
    set (ft := match fts with [] => None | x :: _ => x end). destruct (f ft fs) as [r fs'] eqn:Ef.
    destruct (IH r fs' (tail fts) (h ++ [fs'])) as (N & h' & HN). exists (S N), (fs' :: h').
    destruct (run (k r) _) as [r' w]. destruct HN as (H1 & H2 & H3).
    assert (turn (fs, mkThread (Call f k) fts) = (fs', mkThread (k r) (tail fts))) as Ht by (cbn; fold ft; by rewrite Ef).
    split_and!.
    + intros [|n] Hn; [lia|]. rewrite alone_S, Ht. apply H1. lia.
    + by rewrite H2, <- app_assoc.
    + intros [|n]; [by left|]. rewrite alone_S, Ht. right. apply H3.
  - cbn [run]. unfold measured. cbn [files]. destruct (IH (bound fs) fs fts h) as (N & h' & HN).
    exists (S N), h'. destruct (run (k (bound fs)) _) as [r' w]. destruct HN as (H1 & H2 & H3). split_and!; [|done|].
    + intros [|n] Hn; [lia|]. rewrite alone_S. apply H1. lia.
    + intros [|n]; [by left|]. rewrite alone_S. apply H3.
Qed.

(** The same for the computation itself. *)
Lemma alone_code {A : Type} (c : M A) `{!Code c} fs fts : exists N,
  let '(r, w) := c (mk_os fs fts []) in
  (forall n, N <= n -> alone n fs (start c fts) = (files w, mkThread (Done r) (faults w))) /\
  forall n, (alone n fs (start c fts)).1 ∈ fs :: FileSys.history w.
Proof.
  destruct (alone_run (code c) fs fts []) as (N & h' & HN). rewrite code_run in HN. exists N.
  destruct (c (mk_os fs fts [])) as [r w]. destruct HN as (H1 & H2 & H3). rewrite H2. by split.
Qed.

(** ** Footprints *)

Definition agree (X : path -> Prop) (f g : fsys) : Prop := forall q, X q -> f !! q = g !! q.

#[export] Instance agree_equivalence X : Equivalence (agree X).
Proof.
  split; [by intros f q|intros f g H q Hq; symmetry; by apply H|].
  intros f g h H1 H2 q Hq. by rewrite H1, H2.
Qed.

(** Where a thread looks, where it writes, and what it needs of the part it
    looks at. *)
Record footprint := mkFootprint {
  reads : path -> Prop;
  writes : path -> Prop;
  needs : fsys -> Prop
}.

Class FootprintLaws (F : footprint) : Prop := {
  writes_read : forall q, writes F q -> reads F q;
  needs_agree : forall f g, agree (reads F) f g -> needs F f -> needs F g
}.

Section local.
Context (F : footprint) `{!FootprintLaws F}.

(** A system call inside the footprint: what it returns, and what it makes of
    the part it looks at, depend on that part alone; it changes nothing it does
    not write. *)
Definition local_call {A : Type} (f : fault -> fsys -> result A * fsys) : Prop :=
  forall ft fs, needs F fs ->
    needs F (f ft fs).2 /\ (forall q, ~ writes F q -> (f ft fs).2 !! q = fs !! q) /\
    forall gs, agree (reads F) fs gs -> (f ft gs).1 = (f ft fs).1 /\ agree (reads F) (f ft fs).2 (f ft gs).2.

(** A computation that stays in the footprint, whatever its calls return, and
    whose result satisfies [Q]. *)
Fixpoint stays {A : Type} (p : prog A) (Q : result A -> Prop) : Prop :=
  match p with
  | Done r => Q r
  | Call f k => local_call f /\ forall ft fs, needs F fs -> stays (k (f ft fs).1) Q
  | Look bound k => (forall fs gs, agree (reads F) fs gs -> bound gs = bound fs) /\
                    forall fs, needs F fs -> stays (k (bound fs)) Q
  end.

Lemma stays_catch {A B : Type} (p : prog A) (k : result A -> prog B) (R : result A -> Prop) (Q : result B -> Prop) :
  stays p R -> (forall r, R r -> stays (k r) Q) -> stays (pcatch p k) Q.
Proof.
  intros Hp Hk. induction p as [r|C f k' IH|bound k' IH]; cbn [pcatch stays] in *; [auto| |];
    (destruct Hp as [Hl Hp]; split; [done|]); intros; apply IH; by apply Hp.
Qed.

Lemma stays_weaken {A : Type} (p : prog A) (R Q : result A -> Prop) : stays p R -> (forall r, R r -> Q r) -> stays p Q.
Proof.
  intros Hp HQ. induction p as [r|C f k' IH|bound k' IH]; cbn [stays] in *; [auto| |];
    (destruct Hp as [Hl Hp]; split; [done|]); intros; apply IH; by apply Hp.
Qed.

(** A turn inside the footprint, seen in two file systems that agree there. *)
Lemma turn_local {A : Type} (t : thread A) (Q : result A -> Prop) fs gs : stays (t_prog t) Q -> needs F gs ->
  agree (reads F) gs fs ->
  (turn (fs, t)).2 = (turn (gs, t)).2 /\ agree (reads F) (turn (gs, t)).1 (turn (fs, t)).1 /\
  needs F (turn (gs, t)).1 /\ stays (t_prog (turn (gs, t)).2) Q /\
  forall q, ~ writes F q -> (turn (fs, t)).1 !! q = fs !! q.
Proof.
  intros Ht Hn Ha. destruct t as [p fts]. cbn [t_prog] in Ht. unfold turn. cbn [t_prog t_faults].
  destruct p as [r|C f k|bound k]; cbn [stays] in Ht; [done| |].
  - destruct Ht as [Hl Hk]. set (ft := match fts with [] => None | x :: _ => x end).
    specialize (Hk ft gs Hn). destruct (Hl ft gs Hn) as (H1 & H2 & H3). destruct (H3 fs Ha) as [H4 H5].
    destruct (Hl ft fs (needs_agree gs fs Ha Hn)) as (_ & H6 & _).
    destruct (f ft gs) as [r g'], (f ft fs) as [r' f']. cbn in *. subst r'. done.
  - destruct Ht as [Hl Hk]. cbn. rewrite (Hl gs fs Ha). split_and!; auto.
Qed.
End local.

(** ** Computations that stay in a footprint *)

Section safe.
Context (F : footprint).

Definition safe {A : Type} (c : M A) `{!Code c} (Q : result A -> Prop) : Prop := stays F (code c) Q.

Lemma safe_ret {A : Type} (a : A) (Q : result A -> Prop) : Q (Ok a) -> safe (oret a) Q.
Proof. done. Qed.

Lemma safe_fail {A : Type} e (Q : result A -> Prop) : Q (Err e) -> safe (ofail e) Q.
Proof. done. Qed.

Lemma safe_call {A : Type} (f : fault -> fsys -> result A * fsys) (Q : result A -> Prop) :
  local_call F f -> (forall ft fs, needs F fs -> Q (f ft fs).1) -> safe (syscall f) Q.
Proof. done. Qed.

Section rules.
Context {A B : Type} (c : M A) `{!Code c}.

Lemma safe_catch (k : result A -> M B) `{!forall r, Code (k r)} (P : result A -> Prop) (Q : result B -> Prop) :
  safe c P -> (forall r, P r -> safe (k r) Q) -> safe (ocatch c k) Q.
Proof. apply stays_catch. Qed.

Lemma safe_bind (k : A -> M B) `{!forall a, Code (k a)} (P : result A -> Prop) (Q : result B -> Prop) :
  safe c P -> (forall a, P (Ok a) -> safe (k a) Q) -> (forall e, P (Err e) -> Q (Err e)) -> safe (obind c k) Q.
Proof. intros Hc Hk He. eapply stays_catch; [exact Hc|]. intros [a|e] HP; [by apply Hk|by apply He]. Qed.

Lemma safe_wrap (wrap : error -> error) (P Q : result A -> Prop) : safe c P -> (forall a, P (Ok a) -> Q (Ok a)) ->
  (forall e, P (Err e) -> Q (Err (wrap e))) -> safe (owrap wrap c) Q.
Proof. intros Hc Hk He. eapply stays_catch; [exact Hc|]. intros [a|e] HP; [by apply Hk|by apply He]. Qed.

Lemma safe_weaken (P Q : result A -> Prop) : safe c P -> (forall r, P r -> Q r) -> safe c Q.
Proof. apply stays_weaken. Qed.
End rules.

Lemma safe_if {A : Type} (P : Prop) (d : Decision P) (c1 c2 : M A) `{!Code c1, !Code c2} (Q : result A -> Prop) :
  (P -> safe c1 Q) -> (~ P -> safe c2 Q) -> safe (if decide P then c1 else c2) Q.
Proof. unfold safe, Code_if. destruct (decide P); auto. Qed.

Lemma safe_bool {A : Type} (b : bool) (c1 c2 : M A) `{!Code c1, !Code c2} (Q : result A -> Prop) :
  (b = true -> safe c1 Q) -> (b = false -> safe c2 Q) -> safe (if b then c1 else c2) Q.
Proof. unfold safe, Code_bool. destruct b; auto. Qed.

Lemma safe_for {A : Type} (l : list A) (f : A -> M unit) `{!forall x, Code (f x)} :
  (forall x, x ∈ l -> safe (f x) (fun _ => True)) -> safe (ofor l f) (fun _ => True).
Proof.
  induction l as [|x l IH]; intros Hx; [done|]. apply (safe_bind (f x) (fun _ => ofor l f) (fun _ => True)); [apply Hx; by left| |done].
  intros [] _. apply IH. intros y Hy. apply Hx. by right.
Qed.

End safe.

(** ** Isolation *)

Section isolation.
Context {A : Type} (F : nat -> footprint) (HF : forall i, FootprintLaws (F i)).
Context (Hdisj : forall i j q, i <> j -> writes (F i) q -> ~ reads (F j) q).
Context (fs0 : fsys) (ts0 : list (thread A)).
Context (Hneeds : forall i, i < length ts0 -> needs (F i) fs0).
Context (Hstays : forall i t, ts0 !! i = Some t -> stays (F i) (t_prog t) (fun _ => True)).

(** Thread [i] is where it would be alone after as many turns, and sees what it
    would see. *)
Definition follows (i : nat) (n : nat) (t0 : thread A) (s : fsys * list (thread A)) : Prop :=
  s.2 !! i = Some (alone n fs0 t0).2 /\ agree (reads (F i)) (alone n fs0 t0).1 s.1 /\
  needs (F i) (alone n fs0 t0).1 /\ stays (F i) (t_prog (alone n fs0 t0).2) (fun _ => True).

Lemma follows_start i t0 : ts0 !! i = Some t0 -> follows i 0 t0 (fs0, ts0).
Proof using Hneeds Hstays. intros Hi. split_and!; [done|done|apply Hneeds; by eapply lookup_lt_Some|by apply Hstays]. Qed.

Lemma follows_step i j n m t0 u0 s : follows i n t0 s -> (i <> j -> follows j m u0 s) ->
  follows i (if decide (i = j) then S n else n) t0 (sched_step s j).
Proof using HF Hdisj.
  intros (H1 & H2 & H3 & H4) Hj. destruct s as [fs ts]. cbn [fst snd] in *. unfold sched_step. cbn [fst snd].
  destruct (decide (i = j)) as [<-|Hij].
  - rewrite H1. destruct (turn_local (F i) _ _ fs (alone n fs0 t0).1 H4 H3 H2) as (E1 & E2 & E3 & E4 & _).
    destruct (alone n fs0 t0) as [gs t] eqn:Ea. cbn [fst snd] in *. unfold follows.
    rewrite alone_turn, Ea.
    destruct (turn (fs, t)) as [fs' t'], (turn (gs, t)) as [gs' t'']. cbn [fst snd] in *. subst t''.
    split_and!; try done. apply list_lookup_insert_eq. by eapply lookup_lt_Some.
  - destruct (Hj Hij) as (J1 & J2 & J3 & J4). cbn [fst snd] in *. rewrite J1.
    destruct (turn_local (F j) _ _ fs (alone m fs0 u0).1 J4 J3 J2) as (_ & _ & _ & _ & Hout).
    destruct (turn (fs, (alone m fs0 u0).2)) as [fs' t']. cbn [fst snd] in *. split_and!; try done.
    + cbn. by rewrite list_lookup_insert_ne.
    + intros q Hq. rewrite (H2 q Hq). symmetry. apply Hout. intros Hw. by apply (Hdisj j i q (not_eq_sym Hij) Hw).
Qed.

(** Every thread follows its own solitary run, in every schedule. *)
Lemma follows_all sched : forall i t0, ts0 !! i = Some t0 -> follows i (turns_of i sched) t0 (interleave sched (fs0, ts0)).
Proof using HF Hdisj Hneeds Hstays.
  induction sched as [|j sched IH] using rev_ind; intros i t0 Hi; [by apply follows_start|].
  rewrite interleave_snoc, turns_of_snoc.
  destruct (ts0 !! j) as [u0|] eqn:Hj; [by eapply follows_step; eauto|].
  rewrite interleave_absent by done. case_decide; [congruence|]. by apply IH.
Qed.

(** What no thread writes stays. *)
Lemma unwritten_kept sched q : (forall i, i < length ts0 -> ~ writes (F i) q) -> (interleave sched (fs0, ts0)).1 !! q = fs0 !! q.
Proof using HF Hdisj Hneeds Hstays.
  intros Hq. induction sched as [|j sched IH] using rev_ind; [done|]. rewrite interleave_snoc.
  destruct (ts0 !! j) as [u0|] eqn:Hj; [|by rewrite interleave_absent].
  destruct (follows_all sched j u0 Hj) as (J1 & J2 & J3 & J4).
  destruct (interleave sched (fs0, ts0)) as [fs ts]. cbn [fst snd] in *. unfold sched_step. cbn [fst snd]. rewrite J1.
  destruct (turn_local (F j) _ _ fs (alone (turns_of j sched) fs0 u0).1 J4 J3 J2) as (_ & _ & _ & _ & Hout).
  destruct (turn _) as [fs' t']. cbn [fst snd] in *. rewrite <- IH. apply Hout, Hq. by eapply lookup_lt_Some.
Qed.
End isolation.
