(* ===== verification/Footprint.v ===== *)
(** * The footprint of a directory tree

    A computation whose paths all lie at or below a directory [R] looks at [R],
    at what is below it and at the directories above it, and writes at or below
    [R] only, provided the directories above [R] are there and the names below
    it are names a path can have.  One lemma per system call; [safe] and its
    rules lift them to computations. *)

From S2P Require Import Prelude GoLib FileSys GoPath FsLogic AbsPath FsExec Interleave.

Section tree.
Context (R : path).

Definition tree : footprint := {|
  reads q := q `prefix_of` R \/ R `prefix_of` q;
  writes q := R `prefix_of` q;
  needs f := (forall q, q `prefix_of` R -> q <> R -> q <> [] -> is_Some (f !! q)) /\
             (forall q n, R `prefix_of` q -> f !! q = Some n -> good_path q)
|}.

#[export] Instance tree_laws : FootprintLaws tree.
Proof.
  split; [by right|]. intros f g Ha [H1 H2]. split.
  - intros q Hq HR Hn. rewrite <- (Ha q) by (by left). by apply H1.
  - intros q n Hq Hn. rewrite <- (Ha q) in Hn by (by right). by eapply H2.
Qed.

Local Abbreviation agr := (agree (reads tree)).

Lemma reads_below p : R `prefix_of` p -> forall q, q `prefix_of` p -> reads tree q.
Proof. intros Hp q Hq. destruct (prefix_weak_total q R p Hq Hp); [by left|by right]. Qed.

Lemma walk_agree (f g : fsys) cur rest : (forall q, q `prefix_of` cur ++ rest -> f !! q = g !! q) ->
  walk g cur rest = walk f cur rest.
Proof.
  revert cur. induction rest as [|c rest IH]; intros cur H; cbn [walk].
  - assert (node_at g cur = node_at f cur) as ->; [|done]. destruct cur; [done|]. symmetry. apply H. by rewrite app_nil_r.
  - assert (node_at g cur = node_at f cur) as -> by (destruct cur; [done|]; symmetry; apply H; by apply prefix_app_r).
    destruct (node_at f cur) as [[d|]|]; [done| |done]. apply IH. intros q Hq. apply H. by rewrite <- app_assoc in Hq.
Qed.

Lemma lookup_agree (f g : fsys) p q : agr f g -> R `prefix_of` p -> q `prefix_of` p -> lookup_path g q = lookup_path f q.
Proof. intros Ha Hp Hq. apply walk_agree. intros r Hr. apply Ha, (reads_below p Hp). by etransitivity. Qed.

Lemma parent_prefix (p : path) : parent p `prefix_of` p.
Proof. unfold parent. exists (drop (pred (length p)) p). by rewrite take_drop. Qed.

(** ** Edits inside the tree *)

Lemma agree_insert (f g : fsys) p n : agr f g -> agr (<[p:=n]> f) (<[p:=n]> g).
Proof. intros Ha q Hq. rewrite !lookup_insert. case_decide; [done|by apply Ha]. Qed.

Lemma agree_delete (f g : fsys) p : agr f g -> agr (delete p f) (delete p g).
Proof. intros Ha q Hq. rewrite !lookup_delete. case_decide; [done|by apply Ha]. Qed.

Lemma needs_insert f p n : needs tree f -> R `prefix_of` p -> good_path p -> needs tree (<[p:=n]> f).
Proof.
  intros [H1 H2] Hp Hg. split; intros q; rewrite lookup_insert; case_decide; naive_solver.
Qed.

Lemma needs_delete f p : needs tree f -> R `prefix_of` p -> needs tree (delete p f).
Proof.
  intros [H1 H2] Hp. split; intros q.
  - intros Hq HR Hn. rewrite lookup_delete_ne; [by apply H1|]. intros ->. apply HR. by apply (anti_symm prefix).
  - intros n. rewrite lookup_delete. case_decide; [done|]. apply H2.
Qed.

Lemma outside_ne p q : R `prefix_of` p -> ~ writes tree q -> p <> q.
Proof. intros Hp Hq ->. by apply Hq. Qed.

(** ** The system calls *)

(** A step on the file system that stays in the tree. *)
Definition local_step {A : Type} (g : fsys -> result A * fsys) : Prop :=
  forall fs, needs tree fs ->
    needs tree (g fs).2 /\ (forall q, ~ writes tree q -> (g fs).2 !! q = fs !! q) /\
    forall gs, agr fs gs -> (g gs).1 = (g fs).1 /\ agr (g fs).2 (g gs).2.

Lemma local_guarded {A : Type} (g : fsys -> result A * fsys) : local_step g -> local_call tree (guarded g).
Proof. intros Hg [[n e]|] fs Hn; cbn [guarded]; [done|by apply Hg]. Qed.

Local Ltac same_start := split; [done|split; [done|]].

Lemma local_read {A : Type} (h : fsys -> result A) : (forall fs gs, agr fs gs -> h gs = h fs) ->
  local_step (fun fs => (h fs, fs)).
Proof. intros Hh fs Hn. cbn. same_start. intros gs Ha. by rewrite (Hh fs gs Ha). Qed.

(** A step that fails where it stands, or inserts one node. *)
Lemma local_insert {A : Type} p n (a : A) fs : R `prefix_of` p -> good_path p -> needs tree fs ->
  needs tree (<[p:=n]> fs) /\ (forall q, ~ writes tree q -> <[p:=n]> fs !! q = fs !! q) /\
  forall gs, agr fs gs -> Ok a = Ok a /\ agr (<[p:=n]> fs) (<[p:=n]> gs).
Proof.
  intros Hp Hg Hn. split; [by apply needs_insert|split].
  - intros q Hq. rewrite lookup_insert_ne; [done|]. by eapply outside_ne.
  - intros gs Ha. split; [done|by apply agree_insert].
Qed.

Lemma open_trunc_local p : R `prefix_of` p -> good_path p -> local_step (open_trunc p).
Proof.
  intros Hp Hg fs Hn. unfold open_trunc. destruct p as [|c p]; [done|]. set (q := c :: p) in *.
  assert (forall gs, agr fs gs -> lookup_path gs (parent q) = lookup_path fs (parent q) /\ gs !! q = fs !! q) as Hs.
  { intros gs Ha. split; [apply (lookup_agree _ _ q); [done|done|apply parent_prefix]|]. symmetry. apply Ha. by right. }
  destruct (lookup_path fs (parent q)) as [[d|]|e] eqn:El; cycle 1.
  - destruct (local_insert q (NFile "") tt fs Hp Hg Hn) as (H1 & H2 & H3).
    destruct (fs !! q) as [[d|]|] eqn:Eq; same_start; intros gs Ha; destruct (Hs gs Ha) as [-> ->]; cbn [fst snd]; auto.
  - same_start. intros gs Ha. destruct (Hs gs Ha) as [-> _]. done.
  - same_start. intros gs Ha. destruct (Hs gs Ha) as [-> _]. done.
Qed.

Lemma write_data_local p data : R `prefix_of` p -> good_path p -> local_call tree (write_data p data).
Proof.
  intros Hp Hg [[n e]|] fs Hn; cbn [write_data];
    [destruct (local_insert p (NFile (str (take n (chars data)))) tt fs Hp Hg Hn) as (H1 & H2 & H3)
    |destruct (local_insert p (NFile data) tt fs Hp Hg Hn) as (H1 & H2 & H3)];
    same_start; intros gs Ha; split; try done; by apply agree_insert.
Qed.

Lemma rename_local a b : R `prefix_of` a -> R `prefix_of` b -> good_path b -> local_step (rename_file a b).
Proof.
  intros Ha Hb Hg fs Hn. unfold rename_file.
  assert (forall gs, agr fs gs -> lookup_path gs a = lookup_path fs a /\ lookup_path gs (parent b) = lookup_path fs (parent b) /\
            gs !! b = fs !! b) as Hs.
  { intros gs H. split_and!; [by apply (lookup_agree _ _ a)|apply (lookup_agree _ _ b); [done|done|apply parent_prefix]|].
    symmetry. apply H. by right. }
  destruct (lookup_path fs a) as [[d|]|e]; [|same_start; intros gs H; by destruct (Hs gs H) as [-> _]..].
  destruct b as [|c b]; [same_start; intros gs H; by destruct (Hs gs H) as [-> _]|]. set (q := c :: b) in *.
  destruct (lookup_path fs (parent q)) as [[d'|]|e];
    [same_start; intros gs H; by destruct (Hs gs H) as (-> & -> & _)| |
     same_start; intros gs H; by destruct (Hs gs H) as (-> & -> & _)].
  assert (needs tree (if decide (a = q) then fs else <[q:=NFile d]> (delete a fs))) as H1
    by (case_decide; [done|]; apply needs_insert; [by apply needs_delete|done|done]).
  assert (forall r, ~ writes tree r -> (if decide (a = q) then fs else <[q:=NFile d]> (delete a fs)) !! r = fs !! r) as H2.
  { intros r Hr. case_decide; [done|]. rewrite lookup_insert_ne, lookup_delete_ne; [done|by eapply outside_ne..]. }
  assert (forall gs, agr fs gs -> agr (if decide (a = q) then fs else <[q:=NFile d]> (delete a fs))
            (if decide (a = q) then gs else <[q:=NFile d]> (delete a gs))) as H3
    by (intros gs H; case_decide; [done|]; by apply agree_insert, agree_delete).
  destruct (fs !! q) as [[d'|]|]; same_start; intros gs H; destruct (Hs gs H) as (-> & -> & ->); cbn [fst snd]; auto.
Qed.

Lemma children_agree (f g : fsys) p : agr f g -> R `prefix_of` p -> children f p ≡ₚ children g p.
Proof.
  intros Ha Hp. apply NoDup_Permutation; [apply NoDup_filter, NoDup_map_to_list..|].
  intros [q n]. rewrite !children_elem. split; intros [H [c ->]]; (split; [|by exists c]).
  - rewrite <- (Ha (p ++ [c])); [done|]. right. by apply prefix_app_r.
  - rewrite (Ha (p ++ [c])); [done|]. right. by apply prefix_app_r.
Qed.

Lemma remove_local p : R `prefix_of` p -> local_step (remove_node p).
Proof.
  intros Hp fs Hn. unfold remove_node. destruct p as [|c p]; [done|]. set (q := c :: p) in *.
  assert (forall gs, agr fs gs -> lookup_path gs q = lookup_path fs q /\ (children gs q = [] <-> children fs q = [])) as Hs.
  { intros gs Ha. split; [by apply (lookup_agree _ _ q)|]. pose proof (children_agree fs gs q Ha Hp) as Hc.
    split; intros E; rewrite E in Hc; [by apply Permutation_nil_r in Hc|symmetry in Hc; by apply Permutation_nil_r in Hc]. }
  assert (needs tree (delete q fs) /\ (forall r, ~ writes tree r -> delete q fs !! r = fs !! r) /\
          forall gs, agr fs gs -> agr (delete q fs) (delete q gs)) as (H1 & H2 & H3).
  { split; [by apply needs_delete|split; [|intros gs; apply agree_delete]].
    intros r Hr. rewrite lookup_delete_ne; [done|]. by eapply outside_ne. }
  destruct (lookup_path fs q) as [[d|]|e];
    [|case_decide as Hd|]; same_start; intros gs Ha; destruct (Hs gs Ha) as [-> Hc]; cbn [fst snd]; auto.
  - rewrite decide_True by (by apply Hc). cbn [fst snd]. auto.
  - rewrite decide_False by (by rewrite Hc). done.
Qed.

Lemma mkdirs_local budget f cur rest : needs tree f -> R `prefix_of` cur ++ rest -> good_path (cur ++ rest) ->
  needs tree (mkdirs budget f cur rest).2 /\
  (forall q, ~ writes tree q -> (mkdirs budget f cur rest).2 !! q = f !! q) /\
  forall g, agr f g -> (mkdirs budget g cur rest).1 = (mkdirs budget f cur rest).1 /\
    agr (mkdirs budget f cur rest).2 (mkdirs budget g cur rest).2.
Proof.
  revert budget f cur. induction rest as [|c rest IH]; intros budget f cur Hn Hp Hg; [done|]. cbn [mkdirs].
  rewrite (cons_middle c), app_assoc in Hp, Hg. set (q := cur ++ [c]) in *.
  assert (q `prefix_of` q ++ rest) as Hq by (by apply prefix_app_r).
  assert (forall g, agr f g -> g !! q = f !! q) as Hs by (intros g Ha; symmetry; by apply Ha, (reads_below (q ++ rest))).
  destruct (f !! q) as [[d|]|] eqn:Eq.
  - same_start. intros g Ha. by rewrite (Hs g Ha).
  - destruct (IH budget f q Hn Hp Hg) as (H1 & H2 & H3). same_start. intros g Ha. rewrite (Hs g Ha). auto.
  - assert (R `prefix_of` q) as HR.
    { destruct (prefix_weak_total q R (q ++ rest) Hq Hp) as [HqR|]; [|done]. destruct (decide (q = R)) as [->|Hne]; [done|].
      destruct (proj1 Hn q HqR Hne) as [n E]; [unfold q; by destruct cur|congruence]. }
    assert (forall b, needs tree (mkdirs b (<[q:=NDir]> f) q rest).2 /\
      (forall r, ~ writes tree r -> (mkdirs b (<[q:=NDir]> f) q rest).2 !! r = f !! r) /\
      forall g, agr f g -> (mkdirs b (<[q:=NDir]> g) q rest).1 = (mkdirs b (<[q:=NDir]> f) q rest).1 /\
        agr (mkdirs b (<[q:=NDir]> f) q rest).2 (mkdirs b (<[q:=NDir]> g) q rest).2) as Hb.
    { intros b. destruct (IH b (<[q:=NDir]> f) q) as (H1 & H2 & H3); [|done|done|].
      - apply needs_insert; [done|done|]. by apply Forall_app in Hg as [? _].
      - split; [done|split; [|intros g Ha; by apply H3, agree_insert]].
        intros r Hr. rewrite H2 by done. rewrite lookup_insert_ne; [done|]. by eapply outside_ne. }
    destruct budget as [[|b]|].
    + same_start. intros g Ha. by rewrite (Hs g Ha).
    + destruct (Hb (Some b)) as (H1 & H2 & H3). same_start. intros g Ha. rewrite (Hs g Ha). auto.
    + destruct (Hb None) as (H1 & H2 & H3). same_start. intros g Ha. rewrite (Hs g Ha). auto.
Qed.

Lemma entry_le_total : Total entry_le.
Proof. intros a b. unfold entry_le. apply (total String.le). Qed.

Lemma entry_le_trans : Transitive entry_le.
Proof. intros a b c. unfold entry_le. by transitivity (b.1). Qed.

(** Names are unique in a directory, so its sorted listing is. *)
Lemma entries_agree (f g : fsys) p : agr f g -> R `prefix_of` p -> entries g p = entries f p.
Proof.
  intros Ha Hp. pose proof entry_le_total. pose proof entry_le_trans.
  apply (StronglySorted_unique_strong entry_le).
  - intros [x b] [y c] Hx Hy H1 H2. assert (x = y) as <- by (by apply (anti_symm String.le)).
    apply entries_elem in Hx as (n & Hn & ->), Hy as (m & Hm & ->).
    rewrite (Ha (p ++ [x])) in Hm by (right; by apply prefix_app_r). rewrite Hn in Hm; by simplify_eq.
  - apply StronglySorted_merge_sort; apply _.
  - apply StronglySorted_merge_sort; apply _.
  - unfold entries. rewrite !merge_sort_Permutation. by rewrite (children_agree f g p Ha Hp).
Qed.

Lemma depth_agree (f g : fsys) p : agr f g -> R `prefix_of` p -> depth_below p g = depth_below p f.
Proof.
  intros Ha Hp. unfold depth_below. f_equal. apply map_eq. intros q.
  destruct (decide (under p q = true)) as [Hu|Hu].
  - assert (R `prefix_of` q) by (apply under_prefix in Hu; by etransitivity).
    apply option_eq. intros n. rewrite !map_lookup_filter_Some. by rewrite (Ha q) by (by right).
  - transitivity (@None node); [|symmetry]; apply map_lookup_filter_None; right; by intros.
Qed.

(** ** Computations that stay in the tree *)

Lemma safe_measured {A : Type} (p : path) (c : nat -> M A) `{!forall n, Code (c n)} (Q : result A -> Prop) :
  R `prefix_of` p -> (forall n, safe tree (c n) Q) -> safe tree (measured (depth_below p) c) Q.
Proof. intros Hp Hc. split; [|intros; apply Hc]. intros fs gs Ha. by apply depth_agree. Qed.

Abbreviation inside p := (R `prefix_of` path_of p).

Lemma Stat_safe p : inside p -> safe tree (os_Stat p) (fun _ => True).
Proof.
  intros Hp. apply safe_call; [|done]. apply local_guarded, (local_read (fun fs => lookup_path fs (path_of p))).
  intros fs gs Ha. by apply (lookup_agree _ _ (path_of p)).
Qed.

Lemma WriteFile_safe p data : inside p -> safe tree (os_WriteFile p data) (fun _ => True).
Proof.
  intros Hp. pose proof (path_of_good p).
  apply (safe_bind tree (syscall _) (fun _ => syscall _) (fun _ => True)); [apply safe_call; [|done]; by apply local_guarded, open_trunc_local| |done].
  intros [] _. apply safe_call; [|done]. by apply write_data_local.
Qed.

Lemma Rename_safe a b : inside a -> inside b -> safe tree (os_Rename a b) (fun _ => True).
Proof. intros Ha Hb. apply safe_call; [|done]. apply local_guarded, rename_local; [done|done|apply path_of_good]. Qed.

Lemma Remove_safe p : inside p -> safe tree (os_Remove p) (fun _ => True).
Proof. intros Hp. apply safe_call; [|done]. by apply local_guarded, remove_local. Qed.

Lemma MkdirAll_safe p : inside p -> safe tree (os_MkdirAll p) (fun _ => True).
Proof.
  intros Hp. apply safe_call; [|done]. intros ft fs Hn. pose proof (path_of_good p) as Hg.
  destruct ft as [[n e]|]; [|by apply (mkdirs_local None fs [] (path_of p))].
  destruct (mkdirs_local (Some n) fs [] (path_of p)) as (H1 & H2 & H3); [done..|]. cbn [fst snd]. same_start.
  intros gs Ha. split; [done|]. by apply H3.
Qed.

Lemma Chown_safe p : safe tree (os_Chown p) (fun _ => True).
Proof. apply safe_call; [|done]. by apply local_guarded, (local_read (fun _ => Ok tt)). Qed.

(** The names a listing returns are names a path can have. *)
Lemma ReadDir_safe p : inside p ->
  safe tree (os_ReadDir p) (fun r => forall es, r = Ok es -> Forall (fun e => good e.1) es).
Proof.
  intros Hp. set (h := fun fs => match lookup_path fs (path_of p) with
     | Ok NDir => Ok (entries fs (path_of p)) | Ok (NFile _) => Err ENOTDIR | Err e => Err e end).
  apply safe_call.
  - apply local_guarded, (local_read h). intros fs gs Ha. unfold h.
    by rewrite (lookup_agree fs gs (path_of p) (path_of p) Ha Hp) by done; rewrite (entries_agree fs gs).
  - intros [[n e]|] fs [_ Hn] es; [done|]. cbn [guarded fst]. destruct (lookup_path _ _) as [[d|]|e]; [done| |done].
    intros [= <-]. apply Forall_forall. intros [x b] (n & Hx & _)%entries_elem. apply Hn in Hx; [|by apply prefix_app_r].
    apply Forall_app in Hx as [_ Hx]. by inversion Hx.
Qed.
End tree.

(** ** Several directories *)

(** Neither directory lies in the other. *)
Definition apart (p q : path) : Prop := ~ p `prefix_of` q /\ ~ q `prefix_of` p.

Lemma apart_sym p q : apart p q -> apart q p.
Proof. unfold apart. tauto. Qed.

Lemma apart_reads p q r : apart p q -> writes (tree p) r -> ~ reads (tree q) r.
Proof.
  intros [H1 H2] Hw [Hr|Hr]; cbn in *; [apply H1; by etransitivity|]. by destruct (prefix_weak_total _ _ _ Hw Hr).
Qed.

Definition trees (Rs : list path) : footprint := {|
  reads q := exists R, R ∈ Rs /\ reads (tree R) q;
  writes q := exists R, R ∈ Rs /\ writes (tree R) q;
  needs f := forall R, R ∈ Rs -> needs (tree R) f
|}.

Lemma agree_tree Rs R f g : R ∈ Rs -> agree (reads (trees Rs)) f g -> agree (reads (tree R)) f g.
Proof. intros HR Ha q Hq. apply Ha. by exists R. Qed.

#[export] Instance trees_laws Rs : FootprintLaws (trees Rs).
Proof.
  split.
  - intros q (R & HR & Hq). exists R. split; [done|by right].
  - intros f g Ha Hn R HR. eapply needs_agree; [by eapply agree_tree|by apply Hn].
Qed.

(** What stays in one of the trees stays in all of them. *)
Section one_of.
Context (Rs : list path) (Hapart : forall R R', R ∈ Rs -> R' ∈ Rs -> R <> R' -> apart R R') (R : path) (HR : R ∈ Rs).

Lemma local_trees {A : Type} (f : fault -> fsys -> result A * fsys) : local_call (tree R) f -> local_call (trees Rs) f.
Proof using Hapart HR.
  intros Hf ft fs Hn. destruct (Hf ft fs (Hn R HR)) as (H1 & H2 & H3). split; [|split].
  - intros R' HR'. destruct (decide (R = R')) as [<-|Hne]; [done|].
    eapply needs_agree; [|by apply Hn]. intros q Hq. symmetry. apply H2. intros Hw.
    exact (apart_reads R R' q (Hapart R R' HR HR' Hne) Hw Hq).
  - intros q Hq. apply H2. intros Hw. apply Hq. by exists R.
  - intros gs Ha. pose proof (agree_tree Rs R fs gs HR Ha) as HaR. destruct (H3 gs HaR) as [H4 H5]. split; [done|].
    destruct (Hf ft gs (needs_agree fs gs HaR (Hn R HR))) as (_ & H6 & _).
    intros q Hq. destruct (decide (R `prefix_of` q)) as [Hw|Hw]; [apply H5; by right|]. rewrite (H2 q Hw), (H6 q Hw). by apply Ha.
Qed.

Lemma stays_trees {A : Type} (p : prog A) (Q : result A -> Prop) : stays (tree R) p Q -> stays (trees Rs) p Q.
Proof using Hapart HR.
  induction p as [r|C f k IH|bound k IH]; [done| |]; intros [Hl Hk]; (split; [|intros; apply IH, Hk; auto]).
  - by apply local_trees.
  - intros fs gs Ha. apply Hl. by eapply agree_tree.
Qed.
End one_of.

(** ** Jobs in separate directories *)

Record job := mkJob { j_roots : list path; j_comp : M unit; j_code : Code j_comp; j_faults : list fault }.
Arguments mkJob _ _ {_} _.
#[export] Existing Instance j_code.

Definition j_thread (j : job) : thread unit := start (j_comp j) (j_faults j).

(** The files of a job: at or below its directories. *)
Definition owns (j : job) (q : path) : Prop := exists R, R ∈ j_roots j /\ R `prefix_of` q.

Definition nothing : footprint := {| reads q := False; writes q := False; needs f := True |}.

#[export] Instance nothing_laws : FootprintLaws nothing.
Proof. done. Qed.

Section jobs.
Context (jobs : list job) (fs0 : fsys).
Context (Hapart : forall i j a b R R', i <> j -> jobs !! i = Some a -> jobs !! j = Some b ->
           R ∈ j_roots a -> R' ∈ j_roots b -> apart R R').
Context (Hneeds : Forall (fun j => needs (trees (j_roots j)) fs0) jobs).
Context (Hsafe : Forall (fun j => stays (trees (j_roots j)) (code (j_comp j)) (fun _ => True)) jobs).

Local Definition F (i : nat) : footprint := match jobs !! i with Some j => trees (j_roots j) | None => nothing end.

Local Instance F_laws i : FootprintLaws (F i).
Proof. unfold F. destruct (jobs !! i); apply _. Qed.

Lemma F_apart i j q : i <> j -> writes (F i) q -> ~ reads (F j) q.
Proof using Hapart.
  unfold F. intros Hij. destruct (jobs !! i) as [a|] eqn:Ha, (jobs !! j) as [b|] eqn:Hb; cbn -[tree]; try tauto.
  intros (R & HR & Hw) (R' & HR' & Hr). eapply (apart_reads R R'); eauto.
Qed.

Lemma F_needs k : k < length (j_thread <$> jobs) -> needs (F k) fs0.
Proof using Hneeds.
  rewrite length_fmap. intros Hk. unfold F. destruct (lookup_lt_is_Some_2 jobs k Hk) as [a Ha]. rewrite Ha.
  by apply (proj1 (Forall_lookup _ _) Hneeds k).
Qed.

Lemma F_stays k t : (j_thread <$> jobs) !! k = Some t -> stays (F k) (t_prog t) (fun _ => True).
Proof using Hsafe.
  rewrite list_lookup_fmap. unfold F. destruct (jobs !! k) as [a|] eqn:Ha; [|done]. intros [= <-].
  by apply (proj1 (Forall_lookup _ _) Hsafe k).
Qed.

Lemma jobs_follow sched i j : jobs !! i = Some j ->
  follows F fs0 i (turns_of i sched) (j_thread j) (interleave sched (fs0, j_thread <$> jobs)).
Proof using Hapart Hneeds Hsafe.
  intros Hi. apply follows_all; [apply _|apply F_apart|apply F_needs|apply F_stays|by rewrite list_lookup_fmap, Hi].
Qed.

(** In every interleaving each job finds, in its directories, at every instant
    a state of its run alone, and ends with the result and the files of that run
    once it has had its turns; what is in no job's directories does not
    change. *)
Lemma jobs_isolated :
  (forall i j, jobs !! i = Some j -> exists N, forall sched,
     let s := interleave sched (fs0, j_thread <$> jobs) in
     let '(r, w) := j_comp j (mk_os fs0 (j_faults j) []) in
     (exists g, g ∈ fs0 :: FileSys.history w /\ forall q, owns j q -> s.1 !! q = g !! q) /\
     (N <= turns_of i sched -> s.2 !! i = Some (mkThread (Done r) (faults w)) /\
        forall q, owns j q -> s.1 !! q = files w !! q)) /\
  (forall sched q, Forall (fun j => ~ owns j q) jobs -> (interleave sched (fs0, j_thread <$> jobs)).1 !! q = fs0 !! q).
Proof using Hapart Hneeds Hsafe.
  split.
  - intros i j Hi. destruct (alone_code (j_comp j) fs0 (j_faults j)) as [N HN]. exists N. intros sched s.
    destruct (jobs_follow sched i j Hi) as (H1 & H2 & _). fold s in H1, H2.
    destruct (j_comp j _) as [r w]. destruct HN as [Hdone Hhist].
    assert (forall q, owns j q -> s.1 !! q = (alone (turns_of i sched) fs0 (j_thread j)).1 !! q) as Hq.
    { intros q (R & HR & Hq). symmetry. apply H2. unfold F. rewrite Hi. exists R. split; [done|by right]. }
    split; [exists (alone (turns_of i sched) fs0 (j_thread j)).1; by split|].
    intros Hn. unfold j_thread in *. rewrite (Hdone _ Hn) in H1, Hq. by split.
  - intros sched q Hq.
    apply (unwritten_kept F F_laws F_apart fs0 _ F_needs F_stays). intros i Hi. rewrite length_fmap in Hi. unfold F.
    destruct (lookup_lt_is_Some_2 jobs i Hi) as [a Ha]. rewrite Ha. by apply (proj1 (Forall_lookup _ _) Hq i).
Qed.
End jobs.
