(* ===== verification/Concurrent.v ===== *)
(** * The appliers of the agent, at the same time

    Four subscriptions write files: sshKeysApplyer and propertiesApplyer
    (src/cmd/weft-microvm-agent/sshkeys_linux.go, properties_linux.go), the staging of
    the private key in ApplyWireGuard and Mount of the share engine (vendored
    network and cubefs packages).  They run in the goroutines of their
    subscriptions, on one file system.  Each stays in the footprint of its own
    directories, so that in every interleaving of their system calls, with any
    faults in each, each does what it does alone. *)

From S2P Require Import Prelude GoLib FileSys GoPath FsLogic AbsPath FsExec Pod SshKeys Properties PropertiesSync WireGuard CubeFS Interleave Footprint.

Module Concurrent.

(** ** The appliers as threads *)

#[export] Instance write_tmp_rename_code tmp target data wrapW wrapR between `{!Code between} :
  Code (write_tmp_rename tmp target data wrapW wrapR between).
Proof. unfold write_tmp_rename. apply _. Defined.

#[export] Instance chown_if_code uid gid p : Code (SshKeys.chown_if uid gid p).
Proof. unfold SshKeys.chown_if. apply _. Defined.

#[export] Instance sshKeysApplyer_code p uid gid ks : Code (SshKeys.sshKeysApplyer p uid gid ks).
Proof. unfold SshKeys.sshKeysApplyer. cbv zeta. apply _. Defined.

Section properties.
Import Properties.

#[export] Instance walkDir_code fuel p d : Code (walkDir fuel p d).
Proof.
  revert p d. induction fuel as [|fuel IH]; intros p d; cbn [walkDir]; [apply _|].
  apply Code_bool; [|apply _]. apply Code_bind; [apply _|]. intros es. induction es as [|[x b] es IHes]; apply _.
Defined.

#[export] Instance collectFiles_code root : Code (collectFiles root).
Proof. unfold collectFiles. apply _. Defined.

#[export] Instance prune_code fuel root dir : Code (prune fuel root dir).
Proof. revert dir. induction fuel as [|fuel IH]; intros dir; cbn [prune]; apply _. Defined.

#[export] Instance pruneEmptyDirs_code root dir : Code (pruneEmptyDirs root dir).
Proof. unfold pruneEmptyDirs. apply _. Defined.

#[export] Instance removeStale_code want p : Code (removeStale want p).
Proof. unfold removeStale. apply _. Defined.

#[export] Instance writeEntry_code root ps k : Code (writeEntry root ps k).
Proof. unfold writeEntry. cbv zeta. apply _. Defined.

#[export] Instance propertiesApplyer_code root ps : Code (propertiesApplyer root ps).
Proof. unfold propertiesApplyer. cbv zeta. apply _. Defined.
End properties.

Section wireguard.
Import WireGuard.
Local Open Scope os_scope.

(** What ApplyWireGuard does to the file system: the private key goes to the
    temporary file and comes off again ([ApplyWireGuard_files]). *)
Definition keyFile (tmp b64 : string) : M unit := keyPath <- stagePrivateKey tmp b64 ;; cleanupTmpKey keyPath.

Lemma ApplyWireGuard_files {N Closer : Type} `{WgKernel N Closer} tmp wg (w : world N Closer) :
  w_os (ApplyWireGuard tmp (Some wg) w).2 =
    match checkWireGuard wg with Err _ => w_os w | Ok _ => (keyFile tmp (Pod.wg_PrivateKey wg) (w_os w)).2 end.
Proof.
  unfold ApplyWireGuard, keyFile, obind, ocatch, with_os. destruct (checkWireGuard wg) as [chk|e]; [|done].
  destruct (stagePrivateKey tmp _ (w_os w)) as [[kp|e] o]; [|done].
  pose proof (bringUp_os wg kp chk (mkWorld o (w_net w) (w_applier w))) as Hb.
  destruct (bringUp _ _ _ _) as [err w1]. cbn in Hb. rewrite Hb. by destruct (cleanupTmpKey kp o).
Qed.

#[export] Instance stagePrivateKey_code tmp b64 : Code (stagePrivateKey tmp b64).
Proof. unfold stagePrivateKey. apply _. Defined.

#[export] Instance cleanupTmpKey_code p : Code (cleanupTmpKey p).
Proof. unfold cleanupTmpKey. apply _. Defined.

#[export] Instance keyFile_code tmp b64 : Code (keyFile tmp b64).
Proof. unfold keyFile. apply _. Defined.
End wireguard.

Section cubefs.
Import CubeFS.
Local Open Scope os_scope.
Context (MarshalIndent : clientCfg -> result string).

(** What Mount does to the file system, up to the start of the client
    ([Mount_files]). *)
Definition mountFiles (spec : Pod.ShareMount) : M unit :=
  if negb (bool_decide (Pod.backend spec = Pod.BackendCubeFS)) then
    ofail (Errorf "cubefs: unsupported backend %q" [EStr (Pod.backend spec)])
  else
    owrap (fun e => Errorf "mkdir mount point %s: %w" [EStr (Pod.sm_MountPoint spec); EErr e]) (os_MkdirAll (Pod.sm_MountPoint spec)) ;;;
    let runDir := Join runRoot (Pod.sm_ID spec) in
    let logDir := Join runDir "log" in
    owrap (fun e => Errorf "mkdir run dir %s: %w" [EStr runDir; EErr e]) (os_MkdirAll logDir) ;;;
    match clientConfig MarshalIndent spec logDir with
    | Err e => ofail e
    | Ok cfg =>
        owrap (fun e => Errorf "write cfs-client config: %w" [EErr e]) (os_WriteFile (Join runDir "config.json") cfg) ;;;
        ignored <~ os_Create (Join logDir "cfs-client.out") ;; oret tt
    end.

Lemma Mount_files {E : Type} `{Host E} spec (s : state E) :
  c_os (Mount MarshalIndent spec s).2 = (mountFiles spec (c_os s)).2.
Proof.
  unfold Mount, mountFiles, owrap, obind, ocatch, with_os. destruct (negb _); [done|].
  destruct (os_MkdirAll _ (c_os s)) as [[[]|e] o1]; [|done]. cbn -[os_MkdirAll os_WriteFile].
  destruct (os_MkdirAll _ o1) as [[[]|e] o2]; [|done]. cbn -[os_WriteFile].
  destruct (clientConfig _ _ _) as [cfg|e]; [|done]. destruct (os_WriteFile _ cfg o2) as [[[]|e] o3]; [|done].
  cbn -[os_Create]. unfold startClient, with_os. cbn -[os_Create]. destruct (os_Create _ o3) as [lr o4]. cbn.
  destruct (cmd_Start _ _) as [[e1|] e2]; [done|]. destruct (default _ _) as [[werr|] e3]; done.
Qed.

#[export] Instance mountFiles_code spec : Code (mountFiles spec).
Proof. unfold mountFiles. cbv zeta. apply _. Defined.
End cubefs.

(** ** They stay in their directories *)

Section safe.
Context (R : path).
Local Abbreviation inside p := (R `prefix_of` path_of p).
Local Abbreviation always := (fun _ => True).

Lemma write_tmp_rename_safe tmp target data wrapW wrapR between `{!Code between} :
  inside tmp -> inside target -> safe (tree R) between always -> safe (tree R) (write_tmp_rename tmp target data wrapW wrapR between) always.
Proof.
  intros Ht Hp Hb. apply (safe_bind (tree R) (owrap wrapW (os_WriteFile tmp data)) _ always); [|intros [] _|done].
  - apply (safe_wrap (tree R) _ _ always); [by apply WriteFile_safe|done|done].
  - apply (safe_catch (tree R) between _ always); [done|]. intros _ _.
    apply (safe_catch (tree R) (os_Rename tmp target) _ always); [by apply Rename_safe|]. intros [[]|e] _; [done|].
    apply (safe_catch (tree R) (os_Remove tmp) _ always); [by apply Remove_safe|done].
Qed.

Lemma chown_if_safe uid gid p : safe (tree R) (SshKeys.chown_if uid gid p) always.
Proof. apply (safe_bool (tree R) (_ && _)); [intros _; apply Chown_safe|done]. Qed.

Lemma sshKeysApplyer_safe p uid gid ks : inside p -> inside (Dir p) -> inside (p +:+ ".tmp") ->
  safe (tree R) (SshKeys.sshKeysApplyer p uid gid ks) always.
Proof.
  intros Hp Hd Ht.
  apply (safe_bind (tree R) (owrap _ (os_MkdirAll (Dir p))) _ always); [|intros [] _|done].
  - apply (safe_wrap (tree R) _ _ always); [by apply MkdirAll_safe|done|done].
  - apply (safe_catch (tree R) (SshKeys.chown_if uid gid (Dir p)) _ always); [apply chown_if_safe|]. intros _ _.
    apply write_tmp_rename_safe; [done|done|apply chown_if_safe].
Qed.
End safe.


Section safe_properties.
Import Properties.
Context (root : string) (Hroot : HasPrefix root "/" = true).
Local Abbreviation R := (path_of root).
Local Abbreviation always := (fun _ => True).
Local Abbreviation below ls := (Forall (fun s => R `prefix_of` path_of s) ls).

Lemma walkDir_safe fuel p d : HasPrefix p "/" = true -> R `prefix_of` path_of p ->
  safe (tree R) (walkDir fuel p d) (fun r => forall ls, r = Ok ls -> below ls).
Proof.
  revert p d. induction fuel as [|fuel IH]; intros p d Hp HR; [done|].
  apply (safe_bool (tree R) d); intros _; [|apply safe_if; intros _ ls [= <-]; by repeat constructor].
  eapply (safe_bind (tree R) (os_ReadDir p)); [by apply ReadDir_safe| |done].
  intros es Hes. specialize (Hes es eq_refl). induction Hes as [|[x b] es Hx Hes IHes]; [by intros ls [= <-]|].
  destruct (Join_inside root p x Hp HR Hx) as (Hp' & _ & HR').
  eapply (safe_bind (tree R) (walkDir fuel (Join p x) b)); [by apply IH| |done].
  intros out Hout. eapply safe_bind; [exact IHes| |done]. intros rest Hrest ls [= <-].
  apply Forall_app. split; [by apply Hout|by apply Hrest].
Qed.

Lemma prune_safe fuel dir : HasPrefix dir "/" = true -> R `prefix_of` path_of dir -> safe (tree R) (prune fuel root dir) always.
Proof.
  revert dir. induction fuel as [|fuel IH]; intros dir Hd HR; [done|].
  eapply (safe_catch (tree R) (os_ReadDir dir)); [by apply ReadDir_safe|]. intros [es|e] Hes; [|done].
  specialize (Hes es eq_refl). rewrite Forall_forall in Hes.
  apply (safe_bind (tree R) (ofor es _) _ always); [| |done].
  - apply safe_for. intros [x b] Hx. apply (safe_bool (tree R) b); [intros ->|done]. apply Hes in Hx. cbn [fst] in Hx.
    destruct (Join_inside root dir x Hd HR Hx) as (H1 & _ & H2). by apply IH.
  - intros [] _. apply safe_if; [done|]. intros _.
    eapply (safe_catch (tree R) (os_ReadDir dir)); [by apply ReadDir_safe|]. intros r2 _.
    apply safe_if; [|done]. intros _. apply (safe_catch (tree R) (os_Remove dir) _ always); [by apply Remove_safe|done].
Qed.

Lemma removeStale_safe want p : R `prefix_of` path_of p -> safe (tree R) (removeStale want p) always.
Proof.
  intros HR. apply (safe_if (tree R) (p ∈ want)); [done|]. intros _.
  apply (safe_catch (tree R) (os_Remove p) _ always); [by apply Remove_safe|]. intros [[]|e] _; [done|].
  by apply safe_bool.
Qed.

Lemma writeEntry_safe ps k : proper_key k -> safe (tree R) (writeEntry root ps k) always.
Proof.
  intros Hk. destruct (proper_key_path root Hroot k Hk) as (q & x & _ & _ & _ & Ep & Ed & _ & Et).
  assert (forall y, R `prefix_of` (R ++ q) ++ [y]) as Hin by (intros y; rewrite <- app_assoc; by apply prefix_app_r).
  apply (safe_bind (tree R) (owrap _ (os_MkdirAll (Dir (Join root k)))) _ always); [|intros [] _|done].
  - apply (safe_wrap (tree R) _ _ always); [apply MkdirAll_safe; rewrite Ed; by apply prefix_app_r|done|done].
  - apply write_tmp_rename_safe; [by rewrite Et|by rewrite Ep|done].
Qed.

Lemma propertiesApplyer_safe ps : (forall k, is_Some (ps !! k) -> proper_key k) -> safe (tree R) (propertiesApplyer root ps) always.
Proof.
  intros Hps.
  apply (safe_bind (tree R) (owrap _ (os_MkdirAll root)) _ always); [|intros [] _|done].
  { apply (safe_wrap (tree R) _ _ always); [by apply MkdirAll_safe|done|done]. }
  eapply (safe_bind (tree R) (owrap _ (collectFiles root)) _ (fun r => forall ls, r = Ok ls -> below ls)); [| |done].
  { eapply (safe_wrap (tree R) _ _ (fun r => forall ls, r = Ok ls -> below ls)); [|auto|done].
    apply safe_measured; [done|]. intros n. apply (safe_bind (tree R) (os_Stat root) _ always); [by apply Stat_safe| |done].
    intros st _. by apply walkDir_safe. }
  intros existing Hex. specialize (Hex existing eq_refl). rewrite Forall_forall in Hex.
  apply (safe_bind (tree R) (ofor existing _) _ always); [| |done].
  { apply safe_for. intros p Hp. by apply removeStale_safe, Hex. }
  intros [] _. apply (safe_bind (tree R) (ofor (sorted_keys ps) _) _ always); [| |done].
  { apply safe_for. intros k Hk. apply writeEntry_safe, Hps, keys_elem. unfold sorted_keys in Hk. by rewrite merge_sort_Permutation in Hk. }
  intros [] _. apply safe_measured; [done|]. intros n. by apply prune_safe.
Qed.
End safe_properties.

Section safe_wireguard.
Import WireGuard.
Context (tmp : string).
Local Abbreviation R := (path_of tmp).
Local Abbreviation always := (fun _ => True).

Lemma create_excl_local : local_step R (create_excl R).
Proof.
  intros fs Hn. unfold create_excl. pose proof (path_of_good tmp) as Hg. destruct R as [|c p] eqn:ER; [done|]. rewrite <- ER in *.
  assert (forall gs, agree (reads (tree R)) fs gs -> lookup_path gs (parent R) = lookup_path fs (parent R) /\ gs !! R = fs !! R) as Hs.
  { intros gs Ha. split; [apply (lookup_agree R _ _ R); [done|done|apply parent_prefix]|]. symmetry. apply Ha. by right. }
  destruct (local_insert R R (NFile "") tt fs (reflexivity _) Hg Hn) as (H1 & H2 & H3).
  destruct (lookup_path fs (parent R)) as [[d|]|e]; [| destruct (fs !! R) |];
    (split; [done|split; [done|]]); intros gs Ha; destruct (Hs gs Ha) as [-> ?]; try done.
  all: destruct (Hs gs Ha) as [_ ->]; cbn [fst snd]; auto.
Qed.

Lemma quiet_safe : safe (tree R) (syscall (guarded (fun fs => (Ok tt, fs)))) always.
Proof. apply safe_call; [|done]. by apply local_guarded, (local_read R (fun _ => Ok tt)). Qed.

Lemma stagePrivateKey_safe b64 : safe (tree R) (stagePrivateKey tmp b64) (fun r => forall p, r = Ok p -> p = tmp).
Proof.
  assert (forall e, safe (tree R) (ocatch (os_Remove tmp) (fun _ => ofail (stageError e))) (fun r => forall p, r = Ok p -> p = tmp)) as Hrm
    by (intros e; apply (safe_catch (tree R) (os_Remove tmp) _ always); [by apply Remove_safe|done]).
  assert (forall e, safe (tree R) (ocatch (os_Close tmp) (fun _ => ocatch (os_Remove tmp) (fun _ => ofail (stageError e))))
            (fun r => forall p, r = Ok p -> p = tmp)) as Hcl
    by (intros e; apply (safe_catch (tree R) (os_Close tmp) _ always); [apply quiet_safe|intros _ _; apply Hrm]).
  apply (safe_catch (tree R) (os_CreateTemp tmp) _ always); [apply safe_call; [|done]; apply local_guarded, create_excl_local|].
  intros [[]|e] _; [|done].
  apply (safe_catch (tree R) (os_WriteString tmp _) _ always);
    [apply safe_call; [|done]; apply write_data_local; [done|apply path_of_good]|]. intros [[]|e] _; [|apply Hcl].
  apply (safe_catch (tree R) (os_Chmod tmp) _ always); [apply quiet_safe|]. intros [[]|e] _; [|apply Hcl].
  apply (safe_catch (tree R) (os_Close tmp) _ always); [apply quiet_safe|]. intros [[]|e] _; [|apply Hrm].
  by intros p [= <-].
Qed.

Lemma keyFile_safe b64 : safe (tree R) (keyFile tmp b64) always.
Proof.
  eapply (safe_bind (tree R) (stagePrivateKey tmp b64)); [apply stagePrivateKey_safe| |done]. intros p Hp. rewrite (Hp p eq_refl).
  apply (safe_if (tree R) (tmp = "")); [done|]. intros _. apply (safe_catch (tree R) (os_Remove tmp) _ always); [by apply Remove_safe|done].
Qed.
End safe_wireguard.

(** ** Without faults *)

(** The staged key is gone. *)
Lemma keyFile_exec tmp b64 fs : wf fs -> tmp <> "" -> path_of tmp <> [] -> node_at fs (parent (path_of tmp)) = Some NDir ->
  fs !! path_of tmp = None -> exec (keyFile tmp b64) fs (Ok tt) fs.
Proof.
  intros Hw Hne Hp Hd Hf. set (d := b64 +:+ String "010" "").
  assert (forall x, wf (<[path_of tmp:=NFile x]> fs)) as Hw' by (intros x; apply wf_insert_file; try done; naive_solver).
  assert (exec (WireGuard.os_CreateTemp tmp) fs (Ok tt) (<[path_of tmp:=NFile ""]> fs)) as Hc.
  { pose proof (exec_guarded (WireGuard.create_excl (path_of tmp)) fs) as H.
    assert (WireGuard.create_excl (path_of tmp) fs = (Ok tt, <[path_of tmp:=NFile ""]> fs)) as E; [|by rewrite E in H].
    unfold WireGuard.create_excl. rewrite (proj2 (lookup_path_ok fs _ NDir Hw) Hd), Hf. by destruct (path_of tmp). }
  assert (exec (WireGuard.os_WriteString tmp d) (<[path_of tmp:=NFile ""]> fs) (Ok tt) (<[path_of tmp:=NFile d]> fs)) as Hwr.
  { pose proof (exec_syscall (write_data (path_of tmp) d) (<[path_of tmp:=NFile ""]> fs)) as H. cbn in H. by rewrite insert_insert_eq in H. }
  assert (forall f, exec (WireGuard.os_Chmod tmp) f (Ok tt) f) as Hm by (intros f; exact (exec_guarded _ f)).
  eapply exec_bind with (a := tmp) (f1 := <[path_of tmp:=NFile d]> fs).
  - eapply exec_catch; [exact Hc|]. cbv iota. eapply exec_catch; [exact Hwr|]. cbv iota.
    eapply exec_catch; [apply Hm|]. cbv iota. eapply exec_catch; [apply Hm|]. apply exec_ret.
  - unfold WireGuard.cleanupTmpKey. rewrite decide_False by done.
    eapply exec_catch; [apply (Remove_exec _ tmp d); [done|by rewrite lookup_insert_eq]|].
    rewrite delete_insert_id by done. apply exec_ret.
Qed.

(** The key writer alone: at every instant the old or the new set, at the end
    the new one. *)
Lemma keys_alone p u l uid gid ks fs : ends_in p u l -> wf fs -> clear_way (path_of (Dir p)) fs ->
  fs !! path_of p <> Some NDir -> fs !! path_of (p +:+ ".tmp") <> Some NDir ->
  let '(r, w) := SshKeys.sshKeysApplyer p uid gid ks (mk_os fs [] []) in
  r = Ok tt /\ files w !! path_of p = Some (NFile (SshKeys.authorized_keys ks)) /\
  forall g, g ∈ fs :: history w -> g !! path_of p = fs !! path_of p \/ g !! path_of p = Some (NFile (SshKeys.authorized_keys ks)).
Proof.
  intros Hp Hw Hc Hd Ht.
  pose proof (SshKeys.authorized_keys_succeeds p u l uid gid ks (mk_os fs [] []) Hp Hw ltac:(constructor) Hc Hd Ht) as Hs.
  destruct (triple_run _ _ _ _ (mk_os fs [] []) (SshKeys.sshKeysApplyer_triple p u l Hp fs uid gid ks false))
    as ((h & Hh & HF) & _); [split_and!; [done|by left|by left]|done|].
  destruct (SshKeys.sshKeysApplyer p uid gid ks (mk_os fs [] [])) as [r w]. destruct Hs as (-> & Hf & _). split_and!; [done|done|].
  cbn [snd FileSys.history app] in Hh. rewrite Hh. intros g [->|Hg]%elem_of_cons; [by left|].
  rewrite Forall_forall in HF. by apply HF.
Qed.

(** Being in step with a property set is a matter of the tree alone. *)
Lemma synced_agree root ps f g g' : (forall q, path_of root `prefix_of` q -> g' !! q = g !! q) ->
  PropertiesSync.synced root ps f g -> PropertiesSync.synced root ps f g'.
Proof.
  intros Ha (H1 & H2 & H3). split_and!.
  - intros k v Hk. rewrite Ha by (by apply prefix_app_r). by apply H1.
  - intros q d Hq Hp. rewrite Ha in Hq by done. by apply H2.
  - intros q Hp Hne Hq. rewrite Ha in Hq by done. destruct (H3 q Hp Hne Hq) as (c & n & Hc). exists c, n.
    rewrite Ha; [done|]. by apply prefix_app_r.
Qed.

Section safe_cubefs.
Import CubeFS.
Context (MarshalIndent : clientCfg -> result string) (spec : Pod.ShareMount).
Local Abbreviation mp := (path_of (Pod.sm_MountPoint spec)).
Local Abbreviation run := (path_of runRoot).
Local Abbreviation always := (fun _ => True).

Lemma Create_safe R p : R `prefix_of` path_of p -> safe (tree R) (os_Create p) always.
Proof. intros Hp. apply safe_call; [|done]. apply local_guarded, open_trunc_local; [done|apply path_of_good]. Qed.

Lemma two_apart (p q : path) : apart p q -> forall R R', R ∈ [p; q] -> R' ∈ [p; q] -> R <> R' -> apart R R'.
Proof.
  intros Hap R R' [->|[->|[]%not_elem_of_nil]%elem_of_cons]%elem_of_cons [->|[->|[]%not_elem_of_nil]%elem_of_cons]%elem_of_cons Hne;
    try done. by apply apart_sym.
Qed.

(** The id does not climb out of the run directory (Validate does not ask for
    that). *)
Lemma run_inside x : chars ".." ∉ GoLib.split slash (chars (Pod.sm_ID spec)) -> chars ".." ∉ GoLib.split slash (chars x) ->
  HasPrefix (Join (Join runRoot (Pod.sm_ID spec)) x) "/" = true /\ run `prefix_of` path_of (Join (Join runRoot (Pod.sm_ID spec)) x).
Proof.
  intros Hid Hx. rewrite (Join_abs runRoot) by done. rewrite Join_abs by (done || apply abs_rooted). split; [apply abs_rooted|].
  assert (good_path (run ++ key_comps (Pod.sm_ID spec))) as Hg by (apply Forall_app; split; [apply path_of_good|apply key_comps_good]).
  rewrite path_of_abs; [rewrite path_of_abs by done; rewrite <- app_assoc; by apply prefix_app_r|].
  rewrite path_of_abs by done. apply Forall_app; split; [done|apply key_comps_good].
Qed.

Lemma mountFiles_safe : apart mp run -> chars ".." ∉ GoLib.split slash (chars (Pod.sm_ID spec)) ->
  safe (trees [mp; run]) (mountFiles MarshalIndent spec) always.
Proof.
  intros Hap Hid. set (T := trees [mp; run]).
  assert (forall A (c : M A) `{!Code c}, safe (tree run) c always -> safe T c always) as Hrun
    by (intros A c Hc; apply stays_trees; [by apply two_apart|set_solver]).
  destruct (run_inside "log" Hid ltac:(apply (bool_decide_unpack _); vm_compute; exact I)) as [Hlog' Hlog].
  destruct (run_inside "config.json" Hid ltac:(apply (bool_decide_unpack _); vm_compute; exact I)) as [_ Hcfg].
  destruct (Properties.Join_inside runRoot (Join (Join runRoot (Pod.sm_ID spec)) "log") "cfs-client.out" Hlog' Hlog
    ltac:(apply (bool_decide_unpack _); vm_compute; exact I)) as (_ & _ & Hout).
  apply (safe_bool T (negb _)); [done|]. intros _.
  apply (safe_bind T (owrap _ (os_MkdirAll (Pod.sm_MountPoint spec))) _ always); [|intros [] _|done].
  { apply (safe_wrap T _ _ always); [|done|done]. apply stays_trees with (R := mp); [by apply two_apart|set_solver|by apply MkdirAll_safe]. }
  apply (safe_bind T (owrap _ (os_MkdirAll (Join (Join runRoot (Pod.sm_ID spec)) "log"))) _ always); [|intros [] _|done].
  { apply (safe_wrap T _ _ always); [|done|done]. by apply Hrun, MkdirAll_safe. }
  destruct (clientConfig _ _ _) as [cfg|e]; [|done].
  apply (safe_bind T (owrap _ (os_WriteFile (Join (Join runRoot (Pod.sm_ID spec)) "config.json") cfg)) _ always); [|intros [] _|done].
  { apply (safe_wrap T _ _ always); [|done|done]. by apply Hrun, WriteFile_safe. }
  apply (safe_catch T (os_Create _) _ always); [by apply Hrun, Create_safe|done].
Qed.
End safe_cubefs.

(** ** Together *)

(** The directory above exists, and the names are those of paths. *)
Lemma needs_tree (R : path) fs : wf fs -> Properties.names_ok fs -> node_at fs (parent R) = Some NDir -> needs (tree R) fs.
Proof.
  intros Hw Hn Hp. split; [|intros q n _; apply Hn]. intros q Hq HR Hne.
  destruct (snoc_inv R) as (R' & x & ->); [intros ->; by apply prefix_nil_inv in Hq|]. rewrite parent_app in Hp.
  destruct Hq as [r Hr]. destruct (decide (r = [])) as [->|Hr']; [by rewrite app_nil_r in Hr|].
  destruct (snoc_inv r Hr') as (r' & y & ->). rewrite app_assoc in Hr. apply app_inj_tail in Hr as [-> _].
  destruct r' as [|z r'].
  - rewrite app_nil_r, node_at_ne in Hp by done. eauto.
  - rewrite node_at_ne in Hp by (by destruct q). apply (wf_ancestor fs q (z :: r') NDir) in Hp; [|done|done].
    rewrite node_at_ne in Hp by done. eauto.
Qed.

Section together.
Context (akp : string) (u l : bytes) (uid gid : Z) (ks : SshKeys.KeySet).
Context (root : string) (ps : Properties.PropertySet).
Context (tmp b64 : string) (spec : Pod.ShareMount).

(** The callbacks that write files, each with its directories (the staged key
    is a tree of its own). *)
Definition callbacks (f1 f2 f3 f4 : list fault) : list job :=
  [mkJob [path_of (Dir akp)] (SshKeys.sshKeysApplyer akp uid gid ks) f1;
   mkJob [path_of root] (Properties.propertiesApplyer root ps) f2;
   mkJob [path_of tmp] (keyFile tmp b64) f3;
   mkJob [path_of (Pod.sm_MountPoint spec); path_of CubeFS.runRoot] (mountFiles CubeFS.config_json spec) f4].

Definition places : list path :=
  [path_of (Dir akp); path_of root; path_of tmp; path_of (Pod.sm_MountPoint spec); path_of CubeFS.runRoot].

(** The flags and the messages name separate places, none inside another, whose
    parent directories exist; the share's id does not climb. *)
Definition separate (fs : fsys) : Prop :=
  ForallOrdPairs apart places /\ Forall (fun R => node_at fs (parent R) = Some NDir) places /\
  chars ".." ∉ GoLib.split slash (chars (Pod.sm_ID spec)).

Lemma places_apart i j p q : ForallOrdPairs apart places -> i <> j -> places !! i = Some p -> places !! j = Some q -> apart p q.
Proof.
  assert (forall (xs : list path) i j p q, ForallOrdPairs apart xs -> i < j -> xs !! i = Some p -> xs !! j = Some q -> apart p q) as H.
  { intros xs i' j' p' q' Hxs. revert i' j'. induction Hxs as [|x xs Hx _ IH]; intros [|i'] [|j'] Hlt Hp Hq; try done; try lia.
    - cbn in Hp. simplify_eq. rewrite Forall_forall in Hx. apply Hx. by eapply list_elem_of_lookup_2.
    - apply (IH i' j'); [lia|done|done]. }
  intros Hp Hij Hi Hj. destruct (decide (i < j)); [by eapply (H places i j)|]. apply apart_sym. eapply (H places j i); [done|lia|done|done].
Qed.

(** The place of a job's directory. *)
Lemma callbacks_place f1 f2 f3 f4 i j R : callbacks f1 f2 f3 f4 !! i = Some j -> R ∈ j_roots j ->
  exists n, places !! n = Some R /\ i = Nat.min n 3.
Proof.
  intros Hi HR. assert ((j_roots <$> callbacks f1 f2 f3 f4) !! i = Some (j_roots j)) as Hr by (by rewrite list_lookup_fmap, Hi).
  revert Hr HR. cbn [callbacks fmap list_fmap j_roots]. unfold places. generalize (j_roots j). clear Hi.
  generalize (path_of (Dir akp)), (path_of root), (path_of tmp), (path_of (Pod.sm_MountPoint spec)), (path_of CubeFS.runRoot).
  intros p0 p1 p2 p3 p4 Rs Hr HR. destruct i as [|[|[|[|i]]]]; cbn in Hr; simplify_eq.
  - apply list_elem_of_singleton in HR as ->. by exists 0.
  - apply list_elem_of_singleton in HR as ->. by exists 1.
  - apply list_elem_of_singleton in HR as ->. by exists 2.
  - apply elem_of_cons in HR as [->|HR]; [by exists 3|]. apply list_elem_of_singleton in HR as ->. by exists 4.
Qed.

Lemma callbacks_apart f1 f2 f3 f4 fs : separate fs -> forall i j a b R R', i <> j ->
  callbacks f1 f2 f3 f4 !! i = Some a -> callbacks f1 f2 f3 f4 !! j = Some b -> R ∈ j_roots a -> R' ∈ j_roots b -> apart R R'.
Proof.
  intros (Hap & _) i j a b R R' Hij Ha Hb HR HR'.
  destruct (callbacks_place _ _ _ _ _ _ _ Ha HR) as (n & Hn & ->), (callbacks_place _ _ _ _ _ _ _ Hb HR') as (m & Hm & ->).
  eapply places_apart; [done| |done|done]. congruence.
Qed.

Lemma callbacks_needs f1 f2 f3 f4 fs : wf fs -> Properties.names_ok fs -> separate fs ->
  Forall (fun j => needs (trees (j_roots j)) fs) (callbacks f1 f2 f3 f4).
Proof.
  intros Hw Hn (_ & Hd & _). apply Forall_lookup. intros i j Hi R HR.
  destruct (callbacks_place _ _ _ _ _ _ _ Hi HR) as (n & Hp & _). apply needs_tree; [done|done|].
  by apply (proj1 (Forall_lookup _ _) Hd n).
Qed.

Context (Hakp : ends_in akp u l) (Hroot : HasPrefix root "/" = true).
Context (Hps : forall k, is_Some (ps !! k) -> Properties.proper_key k).

Lemma one_tree (R : path) {A : Type} (c : M A) `{!Code c} Q : safe (tree R) c Q -> safe (trees [R]) c Q.
Proof.
  intros Hc. apply stays_trees with (R := R); [|set_solver|done]. intros R1 R2 ->%list_elem_of_singleton ->%list_elem_of_singleton. done.
Qed.

Lemma callbacks_safe f1 f2 f3 f4 fs : separate fs ->
  Forall (fun j => safe (trees (j_roots j)) (j_comp j) (fun _ => True)) (callbacks f1 f2 f3 f4).
Proof using Hakp Hps Hroot.
  intros (Hap & _ & Hid).
  assert (ends_in (akp +:+ ".tmp") u (l ++ chars ".tmp")) as Htmp
    by (apply ends_in_suffix; [done| |simpl; lia]; unfold chars, slash; simpl; set_solver).
  apply Forall_cons; split; [|apply Forall_cons; split; [|apply Forall_cons; split; [|apply Forall_singleton]]];
    cbn [j_roots j_comp j_code].
  - apply one_tree, sshKeysApplyer_safe; [|done|]; rewrite (path_of_Dir _ _ _ Hakp);
      [rewrite (path_of_ends_in _ _ _ Hakp)|rewrite (path_of_ends_in _ _ _ Htmp)]; by apply prefix_app_r.
  - by apply one_tree, propertiesApplyer_safe.
  - apply one_tree, keyFile_safe.
  - apply mountFiles_safe; [by apply (places_apart 3 4)|done].
Qed.

(** The isolation of jobs, for the four. *)
Lemma callbacks_alone f1 f2 f3 f4 fs0 : wf fs0 -> Properties.names_ok fs0 -> separate fs0 ->
  let jobs := callbacks f1 f2 f3 f4 in
  (forall i j, jobs !! i = Some j -> exists N, forall sched,
     let s := interleave sched (fs0, j_thread <$> jobs) in
     let '(r, w) := j_comp j (mk_os fs0 (j_faults j) []) in
     (exists g, g ∈ fs0 :: history w /\ forall q, owns j q -> s.1 !! q = g !! q) /\
     (N <= turns_of i sched -> s.2 !! i = Some (mkThread (Done r) (faults w)) /\
        forall q, owns j q -> s.1 !! q = files w !! q)) /\
  (forall sched q, Forall (fun j => ~ owns j q) jobs -> (interleave sched (fs0, j_thread <$> jobs)).1 !! q = fs0 !! q).
Proof using Hakp Hps Hroot.
  intros Hw Hn Hsep. apply jobs_isolated; [by eapply callbacks_apart|by apply callbacks_needs|by eapply callbacks_safe].
Qed.
End together.

(** C6.  Callbacks that run at the same time do not disturb each other.  The key,
    property, mesh and mount callbacks write below the directory of
    authorized_keys, below the property root, at the staged private key, and at
    the mount point and the share engine's run directory; when none of these
    places lies in another, their parent directories exist, the share's id has no
    ".." and no property key names the root itself (as "." does), then in every
    interleaving of the system calls of the four, with any failures in each: at
    every instant the files of each callback are in a state of that callback
    running alone; a callback that has had its turns has returned what it
    returns alone and left the files it leaves alone; and nothing outside the
    places changes. *)
Theorem callbacks_isolated akp u l uid gid ks root ps tmp b64 spec f1 f2 f3 f4 fs0 :
  let jobs := callbacks akp uid gid ks root ps tmp b64 spec f1 f2 f3 f4 in
  ends_in akp u l -> HasPrefix root "/" = true -> Properties.Validate ps = None ->
  (forall k, is_Some (ps !! k) -> key_comps k <> []) ->
  wf fs0 -> Properties.names_ok fs0 -> separate akp root tmp spec fs0 ->
  (forall i j, jobs !! i = Some j -> exists N, forall sched,
     let s := interleave sched (fs0, j_thread <$> jobs) in
     let '(r, w) := j_comp j (mk_os fs0 (j_faults j) []) in
     (exists g, g ∈ fs0 :: history w /\ forall q, owns j q -> s.1 !! q = g !! q) /\
     (N <= turns_of i sched -> s.2 !! i = Some (mkThread (Done r) (faults w)) /\
        forall q, owns j q -> s.1 !! q = files w !! q)) /\
  (forall sched q, Forall (fun j => ~ owns j q) jobs -> (interleave sched (fs0, j_thread <$> jobs)).1 !! q = fs0 !! q).
Proof.
  intros jobs Hakp Hroot Hv Hne Hw Hn Hsep. rewrite Properties.Validate_ok in Hv.
  eapply callbacks_alone; [done|done| |done|done|done]. intros k Hk. split; auto.
Qed.

(** C7.  A key push and a property push during a mesh update and a mount take
    effect completely.  Let their places be separate as above, let no system call
    of the first three fail, and let the disk be one each of them can be applied to
    (property keys below the root, none inside another and none a .tmp; no directory
    where a file is to go; no file by the name of the staged key).  Then in every
    interleaving of the system calls of all four: at every instant authorized_keys holds the old or the complete new key
    set; and once each has had enough turns, the three have succeeded:
    authorized_keys holds the pushed keys, every property has its value in its file,
    nothing else and no empty directory is left below the root (but earlier .tmp
    files), and the private key is not on disk. *)
Theorem concurrent_push akp u l uid gid ks root ps tmp b64 spec f4 fs0 :
  let jobs := callbacks akp uid gid ks root ps tmp b64 spec [] [] [] f4 in
  let new := Some (NFile (SshKeys.authorized_keys ks)) in
  ends_in akp u l -> HasPrefix root "/" = true -> PropertiesSync.keys_ok ps ->
  wf fs0 -> Properties.names_ok fs0 -> separate akp root tmp spec fs0 ->
  clear_way (path_of (Dir akp)) fs0 -> fs0 !! path_of akp <> Some NDir -> fs0 !! path_of (akp +:+ ".tmp") <> Some NDir ->
  PropertiesSync.compatible root ps fs0 -> tmp <> "" -> path_of tmp <> [] -> fs0 !! path_of tmp = None ->
  exists N, forall sched, let s := interleave sched (fs0, j_thread <$> jobs) in
    (s.1 !! path_of akp = fs0 !! path_of akp \/ s.1 !! path_of akp = new) /\
    ((forall i, i < 3 -> N <= turns_of i sched) ->
       (forall i, i < 3 -> t_prog <$> s.2 !! i = Some (Done (Ok tt))) /\ s.1 !! path_of akp = new /\
       PropertiesSync.synced root ps fs0 s.1 /\ s.1 !! path_of tmp = None).
Proof.
  intros jobs new Hakp Hroot Hks Hw Hn Hsep Hway Hnd Hndt Hcomp Htmp Hne Hfresh.
  assert (forall k, is_Some (ps !! k) -> Properties.proper_key k) as Hps by (intros k Hk; by apply Hks).
  destruct (callbacks_alone akp u l uid gid ks root ps tmp b64 spec Hakp Hroot Hps [] [] [] f4 fs0 Hw Hn Hsep) as [Hjobs _].
  fold jobs in Hjobs.
  destruct (Hjobs 0 _ eq_refl) as [N1 H1], (Hjobs 1 _ eq_refl) as [N2 H2], (Hjobs 2 _ eq_refl) as [N3 H3].
  exists (N1 + N2 + N3). intros sched s. specialize (H1 sched). specialize (H2 sched). specialize (H3 sched).
  fold s in H1, H2, H3. cbn [j_comp j_faults] in H1, H2, H3.
  pose proof (keys_alone akp u l uid gid ks fs0 Hakp Hw Hway Hnd Hndt) as K1.
  destruct (PropertiesSync.applyer_exec root Hroot ps Hks fs0 Hw Hn Hcomp) as (f2 & K2 & _ & _ & Hsync).
  destruct (K2 (mk_os fs0 [] [])) as (R2 & E2 & _); [done|constructor|].
  assert (node_at fs0 (parent (path_of tmp)) = Some NDir) as Hdir by (apply (proj1 (Forall_lookup _ _) (proj1 (proj2 Hsep)) 2); done).
  destruct (keyFile_exec tmp b64 fs0 Hw Htmp Hne Hdir Hfresh (mk_os fs0 [] [])) as (R3 & E3 & _); [done|constructor|].
  destruct (SshKeys.sshKeysApplyer _ _ _ _ _) as [r1 w1], (Properties.propertiesApplyer _ _ _) as [r2 w2], (keyFile _ _ _) as [r3 w3].
  cbn [fst snd] in *. destruct K1 as (-> & E1 & Hat). subst r2 r3 f2.
  destruct H1 as [(g & Hg & Hgq) D1], H2 as [_ D2], H3 as [_ D3].
  assert (owns (mkJob [path_of (Dir akp)] (SshKeys.sshKeysApplyer akp uid gid ks) []) (path_of akp)) as Hin.
  { exists (path_of (Dir akp)). split; [set_solver|].
    rewrite (path_of_ends_in _ _ _ Hakp), (path_of_Dir _ _ _ Hakp). by apply prefix_app_r. }
  split; [rewrite (Hgq _ Hin); by apply Hat|]. intros Hturns.
  destruct D1 as [T1 D1]; [pose proof (Hturns 0); lia|]. destruct D2 as [T2 D2]; [pose proof (Hturns 1); lia|].
  destruct D3 as [T3 D3]; [pose proof (Hturns 2); lia|]. split_and!.
  - intros i Hi. destruct i as [|[|[|i]]]; [by rewrite T1|by rewrite T2|by rewrite T3|lia].
  - by rewrite (D1 _ Hin).
  - eapply synced_agree; [|exact Hsync]. intros q Hq. apply D2. exists (path_of root). by split; [set_solver|].
  - rewrite D3; [by rewrite E3|]. exists (path_of tmp). by split; [set_solver|].
Qed.

(** ** A concrete machine *)

Definition disk0 : fsys :=
  <[["mnt"]:=NDir]> (<[["tmp"]:=NDir]> (<[["root"]:=NDir]> (<[["run"; "weft"]:=NDir]> (<[["run"]:=NDir]> ∅)))).

Lemma disk0_wf : wf disk0.
Proof. unfold disk0. repeat apply wf_insert_dir; try done; apply wf_empty. Qed.

Lemma disk0_names : Properties.names_ok disk0.
Proof.
  intros q n Hq. assert (map_Forall (fun q _ => good_path q) disk0) as H by (apply (bool_decide_unpack _); vm_compute; exact I).
  exact (H q n Hq).
Qed.

Definition key_tmp : string := "/tmp/weft-wg-1".

Definition share : Pod.ShareMount := {|
  Pod.sm_ID := "data"; Pod.sm_Action := ""; Pod.sm_Backend := ""; Pod.sm_MountPoint := "/mnt/data"; Pod.sm_Readonly := false;
  Pod.sm_CubeFS := Some {| Pod.cf_Volume := "v"; Pod.cf_Masters := ["m1:17010"]; Pod.cf_Owner := "o"; Pod.cf_AccessKey := "";
    Pod.cf_SecretKey := ""; Pod.cf_SubDir := "" |} |}.

Lemma disk0_separate : separate SshKeys.sample_path Properties.sample_root key_tmp share disk0.
Proof.
  split; [|apply (bool_decide_unpack _); vm_compute; exact I].
  repeat (apply FOP_cons; [unfold apart; apply (bool_decide_unpack _); vm_compute; exact I|]). apply FOP_nil.
Qed.

Lemma sample_key_comps k : is_Some (Properties.sample_props !! k) -> key_comps k <> [].
Proof. intros Hk. by apply PropertiesSync.sample_keys_ok in Hk as [[_ ?] _]. Qed.

(** The key writer's first two calls fail; the properties arrive all the same,
    in every schedule that lets their writer finish. *)
Lemma callbacks_isolated_witness :
  let jobs := callbacks SshKeys.sample_path 0 0 SshKeys.sample_set Properties.sample_root Properties.sample_props key_tmp "a2V5" share
                [Some (0, EBUSY); Some (0, EBUSY)] [] [None; Some (2, EBUSY)] [] in
  exists N, forall sched, N <= turns_of 1 sched ->
    (interleave sched (disk0, j_thread <$> jobs)).1 !! PropertiesSync.kpath Properties.sample_root "name" = Some (NFile "vm1").
Proof.
  intros jobs.
  destruct (callbacks_isolated SshKeys.sample_path _ _ 0 0 SshKeys.sample_set Properties.sample_root Properties.sample_props
    key_tmp "a2V5" share [Some (0, EBUSY); Some (0, EBUSY)] [] [None; Some (2, EBUSY)] [] disk0 SshKeys.sample_ends_in eq_refl
    ltac:(vm_compute; reflexivity) sample_key_comps disk0_wf disk0_names disk0_separate) as [H _].
  destruct (H 1 _ eq_refl) as [N HN]. exists N. intros sched Hn. specialize (HN sched).
  cbn [j_comp j_faults] in HN.
  assert (files (Properties.propertiesApplyer Properties.sample_root Properties.sample_props (mk_os disk0 [] [])).2
            !! PropertiesSync.kpath Properties.sample_root "name" = Some (NFile "vm1")) as E by (vm_compute; reflexivity).
  destruct (Properties.propertiesApplyer _ _ _) as [r w]. destruct HN as [_ HN]. destruct (HN Hn) as [_ HN']. cbn [snd] in E.
  transitivity (files w !! PropertiesSync.kpath Properties.sample_root "name"); [|exact E]. apply HN'.
  eexists. split; [apply elem_of_cons; left; reflexivity|]. apply (bool_decide_unpack _). vm_compute. exact I.
Defined.

Lemma concurrent_push_witness :
  let jobs := callbacks SshKeys.sample_path 0 0 SshKeys.sample_set Properties.sample_root Properties.sample_props key_tmp "a2V5" share [] [] [] [] in
  exists N, forall sched, (forall i, i < 3 -> N <= turns_of i sched) ->
    (interleave sched (disk0, j_thread <$> jobs)).1 !! path_of SshKeys.sample_path =
      Some (NFile (SshKeys.authorized_keys SshKeys.sample_set)).
Proof.
  intros jobs.
  destruct (concurrent_push SshKeys.sample_path _ _ 0 0 SshKeys.sample_set Properties.sample_root Properties.sample_props
    key_tmp "a2V5" share [] disk0 SshKeys.sample_ends_in eq_refl PropertiesSync.sample_keys_ok disk0_wf disk0_names disk0_separate) as [N HN].
  - intros q d _ Hq. assert (map_Forall (fun _ n => n = NDir) disk0) as H by (apply (bool_decide_unpack _); vm_compute; exact I).
    by apply H in Hq.
  - by vm_compute.
  - by vm_compute.
  - split.
    + intros q d _ Hq. assert (map_Forall (fun _ n => n = NDir) disk0) as H by (apply (bool_decide_unpack _); vm_compute; exact I).
      by apply H in Hq.
    + intros k Hk. apply Properties.keys_elem in Hk. revert k Hk. apply Forall_forall. apply (bool_decide_unpack _). vm_compute. exact I.
  - done.
  - by vm_compute.
  - by vm_compute.
  - exists N. intros sched Hs. destruct (HN sched) as [_ H]. by destruct (H Hs) as (_ & Hk & _).
Defined.

(** Turn by turn, 60 turns each. *)
Definition round_robin : list nat := mjoin (replicate 60 [3; 2; 1; 0]).

Example round_robin_finishes :
  let s := interleave round_robin (disk0, j_thread <$>
             callbacks SshKeys.sample_path 0 0 SshKeys.sample_set Properties.sample_root Properties.sample_props key_tmp "a2V5" share [] [] [] []) in
  forallb (fun t => match t_prog t with Done (Ok _) => true | _ => false end) s.2 = true /\
  s.1 !! path_of SshKeys.sample_path = Some (NFile (SshKeys.authorized_keys SshKeys.sample_set)).
Proof. split; vm_compute; reflexivity. Qed.

(** The places must be separate: an authorized_keys path inside the property
    root is swept away by the next property push as a stale property. *)
Example nested_interferes :
  let s := interleave (replicate 20 0 ++ replicate 60 1) (disk0, j_thread <$>
             callbacks "/run/weft/properties/keys" 0 0 SshKeys.sample_set Properties.sample_root Properties.sample_props key_tmp "a2V5" share [] [] [] []) in
  (interleave (replicate 20 0) (disk0, j_thread <$>
     callbacks "/run/weft/properties/keys" 0 0 SshKeys.sample_set Properties.sample_root Properties.sample_props key_tmp "a2V5" share [] [] [] [])).1
    !! path_of "/run/weft/properties/keys" = Some (NFile (SshKeys.authorized_keys SshKeys.sample_set)) /\
  s.1 !! path_of "/run/weft/properties/keys" = None.
Proof. split; vm_compute; reflexivity. Qed.

End Concurrent.
