(* ===== verification/Watching.v ===== *)
(** * Reading the property tree while it is being written
      (watchAndRunBoot of src/cmd/weft-microvm-agent/main.go against
      propertiesApplyer of properties_linux.go)

    The boot watcher polls the tree in a goroutine of its own, so that its
    reads fall between the system calls of a property push.  A reader beside a
    writer sees, at each of its calls, some state of the writer's run; every
    such state of a push holds whole values only.  (What the values of
    different keys say together may still be half of a request: that is
    [Boot.watch_acts_on_partial_request].) *)

From S2P Require Import Prelude GoLib FileSys GoPath FsLogic AbsPath FsExec Properties PropertiesSync Boot Interleave Concurrent.
Import (hints) Concurrent.

Module Watching.

Import Properties.

(** ** A reader beside a writer *)

(** At most [n] calls, none of which writes; [Q] holds of the result when each
    call finds a file system of [H]. *)
Fixpoint peeks {A : Type} (H : fsys -> Prop) (n : nat) (p : prog A) (Q : result A -> Prop) : Prop :=
  match p, n with
  | Done r, _ => Q r
  | Call f k, S n' => forall ft fs, (f ft fs).2 = fs /\ (H fs -> peeks H n' (k (f ft fs).1) Q)
  | Look bound k, S n' => forall fs, H fs -> peeks H n' (k (bound fs)) Q
  | _, O => False
  end.

Lemma peeks_more {A : Type} H n m (p : prog A) (Q : result A -> Prop) : peeks H n p Q -> n <= m -> peeks H m p Q.
Proof.
  revert n m. induction p as [r|C f k IH|bound k IH]; intros n m Hp Hnm; [by destruct n, m| |];
    (destruct n as [|n]; [done|]); (destruct m as [|m]; [lia|]); cbn [peeks] in *.
  - intros ft fs. destruct (Hp ft fs) as [H1 H2]. split; [done|]. intros HH. apply (IH _ n); [by apply H2|lia].
  - intros fs HH. apply (IH _ n); [by apply Hp|lia].
Qed.

Lemma peeks_catch {A B : Type} H n m (p : prog A) (k : result A -> prog B) (P : result A -> Prop) (Q : result B -> Prop) :
  peeks H n p P -> (forall r, P r -> peeks H m (k r) Q) -> peeks H (n + m) (pcatch p k) Q.
Proof.
  intros Hp Hk. revert n Hp. induction p as [r|C f k' IH|bound k' IH]; intros n Hp.
  - apply (peeks_more H m); [|lia]. apply Hk. by destruct n.
  - destruct n as [|n]; [done|]. intros ft fs. destruct (Hp ft fs) as [H1 H2]. split; [done|]. intros HH. by apply IH, H2.
  - destruct n as [|n]; [done|]. intros fs HH. by apply IH, Hp.
Qed.

(** The writer runs as if alone, and the reader's calls find states of its run. *)
Lemma beside {A : Type} (t0 t1 : thread A) fs0 n (Q : result A -> Prop) H :
  (forall m, H (alone m fs0 t0).1) -> peeks H n (t_prog t1) Q -> forall sched, exists t1',
    interleave sched (fs0, [t0; t1]) = ((alone (turns_of 0 sched) fs0 t0).1, [(alone (turns_of 0 sched) fs0 t0).2; t1']) /\
    peeks H (n - turns_of 1 sched) (t_prog t1') Q.
Proof.
  intros HH Hp sched. induction sched as [|j sched IH] using rev_ind; [exists t1; by rewrite Nat.sub_0_r|].
  destruct IH as (t1' & E & Hp'). rewrite interleave_snoc, E, !turns_of_snoc.
  set (a := turns_of 0 sched) in *. set (b := turns_of 1 sched) in *. destruct j as [|[|j]].
  - rewrite decide_True, decide_False by done. exists t1'. rewrite alone_turn. split; [|done].
    unfold sched_step. cbn -[turn alone]. destruct (alone a fs0 t0) as [fs t]. cbn -[turn]. by destruct (turn (fs, t)).
  - rewrite decide_False, decide_True by done. specialize (HH a). destruct (alone a fs0 t0) as [fs t].
    cbn [fst snd] in *. destruct t1' as [p fts].
    unfold sched_step. cbn -[turn Nat.sub]. destruct p as [r|C f k|bound k]; cbn [turn t_prog t_faults] in *.
    + exists (mkThread (Done r) fts). split; [done|]. by destruct (n - b), (n - S b).
    + destruct (n - b) as [|m] eqn:Em; [done|]. destruct (Hp' (match fts with [] => None | x :: _ => x end) fs) as [H1 H2].
      destruct (f _ fs) as [r fs']. cbn -[Nat.sub] in *. subst fs'. exists (mkThread (k r) (tail fts)). split; [done|].
      replace (n - S b) with m by lia. by apply H2.
    + destruct (n - b) as [|m] eqn:Em; [done|]. exists (mkThread (k (bound fs)) fts). split; [done|].
      replace (n - S b) with m by lia. by apply Hp'.
  - rewrite !decide_False by done. by exists t1'.
Qed.

(** ** Whole values *)

Section whole.
Context (root : string) (Hroot : HasPrefix root "/" = true) (ps : PropertySet) (base : fsys).

(** Every file that is not a temporary one was there before, or is a property
    with its value. *)
Definition whole (fs : fsys) : Prop := forall q x d, fs !! (q ++ [x]) = Some (NFile d) -> is_tmp x = false ->
  base !! (q ++ [x]) = Some (NFile d) \/ exists k, ps !! k = Some d /\ path_of (Join root k) = q ++ [x].

Lemma whole_keeps : TreeInv root ps (fun fs => tree_inv root base fs /\ whole fs).
Proof using Hroot.
  pose proof (tree_inv_keeps root ps base Hroot) as HT. split.
  - intros fs [HI _]. by eapply ti_wf.
  - intros fs [HI _]. by eapply ti_names.
  - intros fs g p [HI Hwh] Hp Hg Hw Hgr. split; [by eapply ti_grown|]. intros q x d Hd Hx.
    destruct (decide (g !! (q ++ [x]) = fs !! (q ++ [x]))) as [E|E]; [rewrite E in Hd; by apply Hwh|].
    destruct (proj2 Hgr _ E) as (E' & _). congruence.
  - intros fs q [HI Hwh] Hq Hw. split; [by eapply ti_delete|]. intros q' x d Hd. apply lookup_delete_Some in Hd as [_ Hd]. by apply Hwh.
  - intros fs k d Hs Hk [HI Hwh] Hw. split; [by eapply ti_tmp|]. intros q x d'. rewrite lookup_insert. case_decide as E; [|apply Hwh].
    destruct (proper_key_path root Hroot k Hk) as (q' & x' & _ & Hg & _ & _ & _ & _ & Et). rewrite Et in E.
    apply app_inj_tail in E as [_ <-]. rewrite is_tmp_suffix; [done|]. apply Forall_app in Hg as [_ Hg]. by inversion Hg as [|? ? [_ ?]].
  - intros fs k Hs Hk [HI Hwh] Hw. split; [by eapply ti_write|]. intros q x d'. rewrite lookup_insert. case_decide as E.
    + intros [= <-] _. right. exists k. destruct Hs as [v ->]. done.
    + intros Hd. apply lookup_delete_Some in Hd as [_ Hd]. by apply Hwh.
Qed.

(** Whatever fails, at every instant of a push. *)
Lemma push_whole w : (forall k, is_Some (ps !! k) -> proper_key k) -> wf base -> names_ok base -> files w = base -> history w = [] ->
  forall g, g ∈ base :: history (propertiesApplyer root ps w).2 -> wf g /\ whole g.
Proof using Hroot.
  intros Hps Hw Hn Hf Hh g Hg.
  assert (tree_inv root base base /\ whole base) as H0 by (split; [split_and!; [done|done|intros q _; by left]|intros q x d Hd _; by left]).
  destruct (triple_run _ _ _ _ w (applyer_keeps root Hroot ps _ (HTI := whole_keeps) false Hps)) as ((h & Hhist & HF) & _); [by rewrite Hf|done|].
  rewrite Hhist, Hh in Hg. apply elem_of_cons in Hg as [->|Hg]; [by destruct H0|].
  rewrite Forall_forall in HF. apply HF in Hg as [[? _] ?]. done.
Qed.
End whole.

(** ** The watcher's read *)

#[export] Instance readOptionalFile_code p : Code (Boot.readOptionalFile p).
Proof. unfold Boot.readOptionalFile. apply _. Defined.

#[export] Instance readKey_code root k : Code (Boot.readKey root k).
Proof. unfold Boot.readKey. apply _. Defined.

#[export] Instance ReadFromPropertiesDir_code root : Code (Boot.ReadFromPropertiesDir root).
Proof. unfold Boot.ReadFromPropertiesDir. apply _. Defined.

Local Open Scope os_scope.

(** The two threads, with a common type of results. *)
Definition pushing (root : string) (ps : PropertySet) : M (option Boot.Config) := propertiesApplyer root ps ;;; oret None.
Definition reading (root : string) : M (option Boot.Config) := c <- Boot.ReadFromPropertiesDir root ;; oret (Some c).

#[export] Instance pushing_code root ps : Code (pushing root ps).
Proof. unfold pushing. apply _. Defined.
#[export] Instance reading_code root : Code (reading root).
Proof. unfold reading. apply _. Defined.

Section reader.
Context (root : string) (ps : PropertySet) (base : fsys) (H : fsys -> Prop).
Context (HH : forall g, H g -> wf g /\ whole root ps base g).

(** The value read for a key: nothing, the old value or the new one, whole. *)
Definition one_value (k v : string) : Prop :=
  v = "" \/ exists d, v = TrimRight d Boot.newline /\
    (base !! path_of (Join root k) = Some (NFile d) \/
     exists k', ps !! k' = Some d /\ path_of (Join root k') = path_of (Join root k)).

(** All four. *)
Definition whole_request (cfg : Boot.Config) : Prop :=
  one_value "weft.boot/source.kind" (Boot.SourceKind cfg) /\ one_value "weft.boot/source.url" (Boot.SourceURL cfg) /\
  one_value "weft.boot/source.ref" (Boot.SourceRef cfg) /\ one_value "weft.boot/script" (Boot.Script cfg).

Lemma readKey_peeks k : (exists q x, path_of (Join root k) = q ++ [x] /\ is_tmp x = false) ->
  peeks H 1 (code (Boot.readKey root k)) (fun r => forall v, r = Ok v -> one_value k v).
Proof using HH.
  intros (q & x & Ep & Hx) ft fs. split; [by destruct ft as [[]|]|]. intros Hfs. destruct (HH fs Hfs) as [Hw Hwh].
  destruct ft as [[n e]|]; cbn.
  - destruct (IsNotExist e); cbn; intros v [= <-]. by left.
  - destruct (lookup_path fs (path_of (Join root k))) as [[d|]|e] eqn:El; cbn.
    + intros v [= <-]. right. exists d. split; [done|]. apply lookup_path_ok in El; [|done].
      rewrite Ep in *. rewrite node_at_snoc in El. by apply Hwh.
    + done.
    + destruct (IsNotExist e); cbn; intros v [= <-]. by left.
Qed.

Lemma boot_key_plain k : root <> "" -> k ∈ ["weft.boot/source.kind"; "weft.boot/source.url"; "weft.boot/source.ref"; "weft.boot/script"] ->
  exists q x, path_of (Join root k) = q ++ [x] /\ is_tmp x = false.
Proof.
  intros Hr Hk.
  assert (Forall (fun k => chars ".." ∉ GoLib.split slash (chars k) /\ exists x, key_comps k = ["weft.boot"; x] /\ is_tmp x = false)
    ["weft.boot/source.kind"; "weft.boot/source.url"; "weft.boot/source.ref"; "weft.boot/script"]) as Hb.
  { repeat (apply Forall_cons; split); [..|done].
    all: split; [apply (bool_decide_unpack _); vm_compute; exact I|eexists; split; vm_compute; reflexivity]. }
  rewrite Forall_forall in Hb. destruct (Hb k Hk) as [Hd (x & Ek & Hx)].
  exists (path_of root ++ ["weft.boot"]), x. split; [|done]. rewrite path_of_Join by done. by rewrite Ek, <- app_assoc.
Qed.

Lemma reading_peeks : root <> "" ->
  peeks H 4 (code (reading root)) (fun r => forall cfg, r = Ok (Some cfg) -> whole_request cfg).
Proof using HH.
  intros Hr. assert (forall k, k ∈ ["weft.boot/source.kind"; "weft.boot/source.url"; "weft.boot/source.ref"; "weft.boot/script"] ->
    peeks H 1 (code (Boot.readKey root k)) (fun r => forall v, r = Ok v -> one_value k v)) as Hk
    by (intros k Hin; by apply readKey_peeks, boot_key_plain).
  apply (peeks_catch H 4 0 _ _ (fun r => forall cfg, r = Ok cfg -> whole_request cfg));
    [|intros [c|e] Hc; cbn; intros cfg [= <-]; by apply Hc].
  apply (peeks_catch H 1 3 _ _ _ _ (Hk "weft.boot/source.kind" ltac:(set_solver))). intros [v1|e] H1; [|done].
  apply (peeks_catch H 1 2 _ _ _ _ (Hk "weft.boot/source.url" ltac:(set_solver))). intros [v2|e] H2; [|done].
  apply (peeks_catch H 1 1 _ _ _ _ (Hk "weft.boot/source.ref" ltac:(set_solver))). intros [v3|e] H3; [|done].
  apply (peeks_catch H 1 0 _ _ _ _ (Hk "weft.boot/script" ltac:(set_solver))). intros [v4|e] H4; [|done].
  intros cfg [= <-]. unfold whole_request. cbn. auto.
Qed.
End reader.

(** C20.  The boot watcher never reads a torn property.  Whenever its read of the
    tree falls, call by call, into a property push, under any failures of either:
    the read ends within its four calls, and each of the four fields it returns
    is empty, the complete old value of its file or the complete value of the
    pushed property, never part of one; the push is not disturbed, it returns and
    leaves what it does alone. *)
Theorem read_during_push root ps fs0 fts fts' :
  HasPrefix root "/" = true -> Validate ps = None -> (forall k, is_Some (ps !! k) -> key_comps k <> []) ->
  wf fs0 -> names_ok fs0 ->
  exists N, forall sched,
    let s := interleave sched (fs0, [start (pushing root ps) fts; start (reading root) fts']) in
    let '(r, w) := propertiesApplyer root ps (mk_os fs0 fts []) in
    s.1 ∈ fs0 :: history w /\
    (4 <= turns_of 1 sched -> exists r', t_prog <$> s.2 !! 1 = Some (Done r') /\
       forall cfg, r' = Ok (Some cfg) -> whole_request root ps fs0 cfg) /\
    (N <= turns_of 0 sched -> t_prog <$> s.2 !! 0 = Some (Done (match r with Ok _ => Ok None | Err e => Err e end)) /\ s.1 = files w).
Proof.
  intros Hroot Hv Hne Hw Hn. rewrite Validate_ok in Hv.
  assert (forall k, is_Some (ps !! k) -> proper_key k) as Hps by (intros k Hk; split; auto).
  destruct (alone_code (pushing root ps) fs0 fts) as [N HN]. exists N. intros sched s.
  pose proof (push_whole root Hroot ps fs0 (mk_os fs0 fts []) Hps Hw Hn eq_refl eq_refl) as Hwh.
  unfold pushing, obind, ocatch in HN. destruct (propertiesApplyer root ps (mk_os fs0 fts [])) as [r w]. cbn [snd] in Hwh.
  set (H := fun g => g ∈ fs0 :: history w).
  assert ((forall n, N <= n -> alone n fs0 (start (pushing root ps) fts) =
             (files w, mkThread (Done (match r with Ok _ => Ok None | Err e => Err e end)) (faults w))) /\
          forall n, H (alone n fs0 (start (pushing root ps) fts)).1) as [Hdone Hall] by (by destruct r).
  destruct (beside (start (pushing root ps) fts) (start (reading root) fts') fs0 4 _ H Hall
    (reading_peeks root ps fs0 H Hwh ltac:(by intros ->)) sched) as (t1 & E & Hp).
  fold s in E. rewrite E. cbn [fst snd]. split_and!; [apply Hall| |].
  - intros H4. replace (4 - turns_of 1 sched) with 0 in Hp by lia. cbn. destruct (t_prog t1) as [r'|C f k|b k]; [|done|done]. by exists r'.
  - intros HNs. by rewrite (Hdone _ HNs).
Qed.

Lemma git_key_comps k : is_Some (Boot.git_props !! k) -> key_comps k <> [].
Proof.
  intros Hk%keys_elem. revert k Hk. apply Forall_forall. apply (bool_decide_unpack _). vm_compute. exact I.
Qed.

(** A read in the middle of a first push: the script is there, the source not
    yet, each of them whole. *)
Lemma read_during_push_witness :
  let s := interleave (replicate 9 0 ++ replicate 4 1)
             (∅, [start (pushing sample_root Boot.git_props) []; start (reading sample_root) []]) in
  exists cfg, t_prog <$> s.2 !! 1 = Some (Done (Ok (Some cfg))) /\ whole_request sample_root Boot.git_props ∅ cfg /\
    Boot.Script cfg = "sh install.sh" /\ Boot.SourceKind cfg = "".
Proof.
  intros s. destruct (read_during_push sample_root Boot.git_props ∅ [] [] eq_refl ltac:(vm_compute; reflexivity)
    git_key_comps wf_empty names_ok_empty) as [N HN].
  specialize (HN (replicate 9 0 ++ replicate 4 1)). cbv zeta in HN. fold s in HN.
  destruct (propertiesApplyer _ _ _) as [r w]. destruct HN as (_ & HN & _).
  destruct HN as (r' & Hr & Hq); [vm_compute; lia|].
  assert (match t_prog <$> s.2 !! 1 with
          | Some (Done (Ok (Some cfg))) => bool_decide (Boot.Script cfg = "sh install.sh" /\ Boot.SourceKind cfg = "")
          | _ => false
          end = true) as Hc by (vm_compute; reflexivity).
  rewrite Hr in Hc |- *. destruct r' as [[cfg|]|e]; try discriminate Hc. apply bool_decide_eq_true in Hc as [H1 H2].
  exists cfg. split; [reflexivity|]. split; [by apply Hq|by split].
Defined.

End Watching.
